(** * iepy: bootstrapped information extraction -- model and verification

    A shallow embedding of [iepy/models.py], [iepy/core.py] and of what
    the pipeline uses of [iepy/db.py] (the two queries for segments and
    the cached lookup of an entity), followed by the properties proved
    about them.

    Conventions of the embedding:
    - Python integers are [Z]; list indices are [Z] as well, with Python's
      wrap-around for negative indices and slices written out;
    - a function that may raise returns a [result]; the exception that is
      raised is the constructor's argument;
    - [while] loops are recursive functions on a fuel argument that bounds
      the number of iterations; the caller supplies a bound that is proved
      sufficient, and a loop that exhausts it answers [OutOfFuel];
    - a Python float is the rational number ([Q]) that it denotes; only
      the finite floats are modelled.  Comparisons of floats are exact;
      the arithmetic of [certainty] rounds each result to the nearest
      binary64 number, ties to even ([round64]). *)

From Stdlib Require Import ZArith List Lia Lqa Bool String Ascii QArith Qabs.
From Stdlib Require Import Permutation Sorted Qminmax Qround Qpower.
Import ListNotations.
Open Scope Z_scope.

(** ** Exceptions and results *)

Inductive exn : Type :=
| ValueError
| IndexError
| KeyError
| TypeError
| AttributeError
| AssertionError
| UnboundLocalError
| InvalidPreprocessSteps
| DoesNotExist
| MultipleObjectsReturned.

Inductive result (A : Type) : Type :=
| Ok (a : A)
| Raise (e : exn)
| OutOfFuel.

Arguments Ok {A} a.
Arguments Raise {A} e.
Arguments OutOfFuel {A}.

Definition bind {A B : Type} (r : result A) (k : A -> result B) : result B :=
  match r with
  | Ok a => k a
  | Raise e => Raise e
  | OutOfFuel => OutOfFuel
  end.

Notation "x <- r ;; k" := (bind r (fun x => k))
  (at level 61, r at next level, right associativity).
Notation "' p <- r ;; k" := (bind r (fun p => k))
  (at level 61, p pattern, r at next level, right associativity).

(** [assert c] *)
Definition py_assert (c : bool) : result unit :=
  if c then Ok tt else Raise AssertionError.

(** ** Python sequences *)

Definition len {A : Type} (a : list A) : Z := Z.of_nat (List.length a).

(** [a[i]]: a negative index counts from the end, an index outside the
    list raises [IndexError]. *)
Definition getitem {A : Type} (a : list A) (i : Z) : result A :=
  let j := if i <? 0 then i + len a else i in
  if (0 <=? j) && (j <? len a) then
    match nth_error a (Z.to_nat j) with
    | Some x => Ok x
    | None => Raise IndexError
    end
  else Raise IndexError.

(** The bound of a slice: negative bounds count from the end, and every
    bound is clamped to [0, len]. *)
Definition slice_bound (n i : Z) : Z :=
  if i <? 0 then Z.max 0 (n + i) else Z.min i n.

(** [a[i:j]] *)
Definition slice {A : Type} (a : list A) (i j : Z) : list A :=
  let s := slice_bound (len a) i in
  let e := slice_bound (len a) j in
  firstn (Z.to_nat (e - s)) (skipn (Z.to_nat s) a).

(** [a[i:]] *)
Definition slice_from {A : Type} (a : list A) (i : Z) : list A :=
  skipn (Z.to_nat (slice_bound (len a) i)) a.

(** ** models.py: [_interval_offsets] *)

Section IntervalOffsets.

Context {A : Type}.
Variable key : A -> Z.
Variable a : list A.
Variables xl xr : Z.

(** The first loop: reduce the range for both endpoints.  [mid] is the
    value of the variable [mid], unbound ([None]) before the first
    iteration. *)
Fixpoint reduce_range (fuel : nat) (lo hi : Z) (mid : option Z)
  : result (Z * Z * option Z) :=
  if lo <? hi then
    match fuel with
    | O => OutOfFuel
    | S fuel' =>
        let mid := (lo + hi) / 2 in
        x <- getitem a mid ;;
        let v := key x in
        if (xl <=? v) && (xr <=? v) then reduce_range fuel' lo mid (Some mid)
        else if (v <? xl) && (v <? xr) then
               reduce_range fuel' (mid + 1) hi (Some mid)
        else Ok (lo, hi, Some mid)
    end
  else Ok (lo, hi, mid).

(** The second loop: left bisection point. *)
Fixpoint bisect_left (fuel : nat) (llo lhi : Z) : result Z :=
  if llo <? lhi then
    match fuel with
    | O => OutOfFuel
    | S fuel' =>
        let mid := (llo + lhi) / 2 in
        x <- getitem a mid ;;
        if key x <? xl then bisect_left fuel' (mid + 1) lhi
        else bisect_left fuel' llo mid
    end
  else Ok llo.

(** The third loop: right bisection point. *)
Fixpoint bisect_right (fuel : nat) (rlo rhi : Z) : result Z :=
  if rlo <? rhi then
    match fuel with
    | O => OutOfFuel
    | S fuel' =>
        let mid := (rlo + rhi) / 2 in
        x <- getitem a mid ;;
        if xr <=? key x then bisect_right fuel' rlo mid
        else bisect_right fuel' (mid + 1) rhi
    end
  else Ok rlo.

(** [_interval_offsets(a, xl, xr, lo, hi, key)]; [hi = None] is the
    default [hi = len(a)]. *)
Definition _interval_offsets (lo : Z) (hi : option Z) : result (Z * Z) :=
  let hi := match hi with None => len a | Some h => h end in
  if lo <? 0 then Raise ValueError
  else if xl >? xr then Raise ValueError
  else if lo =? hi then Ok (lo, hi)
  else
    ' (lo, hi, mid) <- reduce_range (Z.to_nat (hi - lo)) lo hi None ;;
    match mid with
    | None => Raise UnboundLocalError
    | Some mid =>
        llo <- bisect_left (Z.to_nat (mid - lo)) lo mid ;;
        rlo <- bisect_right (Z.to_nat (hi - mid)) mid hi ;;
        _ <- (if lo =? llo then Ok tt
              else x <- getitem a (llo - 1) ;; py_assert (key x <? xl)) ;;
        _ <- (if hi =? rlo then Ok tt
              else x <- getitem a rlo ;; py_assert (key x >=? xr)) ;;
        Ok (llo, rlo)
    end.

End IntervalOffsets.

(** Sorted non-decreasingly under [key]. *)
Definition sorted_by {A : Type} (key : A -> Z) (a : list A) : Prop :=
  StronglySorted (fun x y => key x <= key y) a.

(** The invariants of the bisection loops. *)
Section IntervalInvariants.

Context {A : Type}.
Variable key : A -> Z.
Variable a : list A.

(** Every element before index [n] has a key below [x]. *)
Definition keys_below (x n : Z) : Prop :=
  forall i v, 0 <= i < n -> nth_error a (Z.to_nat i) = Some v -> key v < x.

(** Every element from index [n] on has a key of at least [x]. *)
Definition keys_from (x n : Z) : Prop :=
  forall i v, n <= i -> nth_error a (Z.to_nat i) = Some v -> x <= key v.

(** What the first loop establishes: either the range is empty and [mid]
    is next to it, or [mid] is an index whose key is inside the query. *)
Definition reduced (xl xr lo hi mid : Z) : Prop :=
  0 <= lo <= hi /\ hi <= len a /\ 0 <= mid < len a /\
  keys_below xl lo /\ keys_from xr hi /\
  ((lo = hi /\ (mid = lo \/ mid + 1 = lo)) \/
   (lo <= mid < hi /\
    exists v, nth_error a (Z.to_nat mid) = Some v /\ xl <= key v < xr)).

End IntervalInvariants.

(** ** models.py: the document model *)

Inductive PreProcessSteps : Type :=
| tokenization
| sentencer
| tagging
| ner
| segmentation.

(** [step.name] *)
Definition step_name (s : PreProcessSteps) : string :=
  match s with
  | tokenization => "tokenization"
  | sentencer => "sentencer"
  | tagging => "tagging"
  | ner => "ner"
  | segmentation => "segmentation"
  end.

(** [Entity].  [ent_id] is the identifier the store gives the entity; the
    comparison of [SortableDocumentMixin] reads nothing else. *)
Record Entity : Type := {
  ent_id : Z;
  ent_key : string;
  ent_canonical_form : string;
  ent_kind : string
}.

(** [EntityOccurrence]; offsets are in tokens, relative to the document. *)
Record EntityOccurrence : Type := {
  occ_entity : Entity;
  occ_offset : Z;
  occ_offset_end : Z;
  occ_alias : string
}.

(** [EntityInSegment]; offsets are in tokens, relative to the segment. *)
Record EntityInSegment : Type := {
  eis_key : string;
  eis_canonical_form : string;
  eis_kind : string;
  eis_offset : Z;
  eis_offset_end : Z;
  eis_alias : string
}.

(** [EntityInSegment.is_entity] *)
Definition is_entity (o : EntityInSegment) (e : Entity) : bool :=
  String.eqb (eis_key o) (ent_key e) && String.eqb (eis_kind o) (ent_kind e).

(** [TextSegment].  [seg_document] is the referenced document's
    [human_identifier]; [seg_id] is the identifier the store assigns when
    the segment is saved ([None] for a segment that was only built). *)
Record TextSegment : Type := {
  seg_id : option Z;
  seg_document : string;
  seg_text : string;
  seg_offset : Z;
  seg_tokens : list string;
  seg_postags : list string;
  seg_entities : list EntityInSegment;
  seg_sentences : list Z
}.

(** [IEDocument].  [preprocess_metadata] maps the name of each completed
    step to its [done_at] time stamp.  The fields [creation_date] and
    [metadata], which no method below reads or writes, are left out. *)
Record IEDocument : Type := {
  human_identifier : string;
  doc_title : string;
  doc_url : string;
  doc_text : string;
  preprocess_metadata : list (string * Z);
  doc_tokens : list string;
  doc_offsets : list Z;
  doc_postags : list string;
  doc_sentences : list Z;
  doc_entities : list EntityOccurrence
}.

(** *** Dictionaries

    A Python [dict] is an association list with pairwise distinct keys, in
    insertion order.  Assigning to a key that is present replaces its value
    in place; a new key goes to the end. *)

Section Dict.

Context {K V : Type}.
Variable eqb : K -> K -> bool.

Fixpoint dict_get (d : list (K * V)) (k : K) : option V :=
  match d with
  | [] => None
  | (k', v) :: d' => if eqb k k' then Some v else dict_get d' k
  end.

(** [k in d] *)
Definition dict_mem (d : list (K * V)) (k : K) : bool :=
  match dict_get d k with Some _ => true | None => false end.

(** [d[k] = v] *)
Fixpoint dict_set (d : list (K * V)) (k : K) (v : V) : list (K * V) :=
  match d with
  | [] => [(k, v)]
  | (k', v') :: d' =>
      if eqb k k' then (k', v) :: d' else (k', v') :: dict_set d' k v
  end.

(** [d.update(items)] *)
Definition dict_update (d : list (K * V)) (items : list (K * V))
  : list (K * V) :=
  fold_left (fun d kv => dict_set d (fst kv) (snd kv)) items d.

(** [dict(items)] *)
Definition dict_of (items : list (K * V)) : list (K * V) :=
  dict_update [] items.

Definition dict_keys (d : list (K * V)) : list K := map fst d.

End Dict.

(** [flag_preprocess_done]; [now] is the reading of [datetime.now()]. *)
Definition flag_preprocess_done (self : IEDocument) (now : Z)
    (step : PreProcessSteps) : IEDocument :=
  {| human_identifier := human_identifier self;
     doc_title := doc_title self;
     doc_url := doc_url self;
     doc_text := doc_text self;
     preprocess_metadata :=
       dict_set String.eqb (preprocess_metadata self) (step_name step) now;
     doc_tokens := doc_tokens self;
     doc_offsets := doc_offsets self;
     doc_postags := doc_postags self;
     doc_sentences := doc_sentences self;
     doc_entities := doc_entities self |}.

(** [was_preprocess_done] *)
Definition was_preprocess_done (self : IEDocument) (step : PreProcessSteps)
  : bool :=
  dict_mem String.eqb (preprocess_metadata self) (step_name step).

(** *** [set_preprocess_result] *)

(** A Python value as it may occur in a sentencer result. *)
Inductive pyval : Type :=
| PyInt (z : Z)
| PyStr (s : string)
| PyNone.

(** [isinstance(x, int)] *)
Definition is_int (x : pyval) : bool :=
  match x with PyInt _ => true | _ => false end.

(** The integers of a list of values. *)
Fixpoint ints (l : list pyval) : list Z :=
  match l with
  | [] => []
  | PyInt z :: l' => z :: ints l'
  | _ :: l' => ints l'
  end.

(** [sorted] on integers: a stable insertion sort. *)
Fixpoint insert_sorted (x : Z) (l : list Z) : list Z :=
  match l with
  | [] => [x]
  | y :: l' => if x <? y then x :: l else y :: insert_sorted x l'
  end.

Definition sorted (l : list Z) : list Z :=
  fold_left (fun acc x => insert_sorted x acc) l [].

Definition list_Z_eqb (l1 l2 : list Z) : bool :=
  if list_eq_dec Z.eq_dec l1 l2 then true else false.

(** [len(set(l))] *)
Definition len_set (l : list Z) : Z := len (nodup Z.eq_dec l).

(** The type of the result a step stores: pairs (offset, token) for the
    tokenizer, sentence starts for the sentencer, one tag per token for the
    tagger, occurrences for the entity recogniser.  [None] stands for a
    [step] argument that is not a [PreProcessSteps]. *)
Definition result_type (step : option PreProcessSteps) : Type :=
  match step with
  | Some tokenization => list (Z * string)
  | Some sentencer => list pyval
  | Some tagging => list string
  | Some ner => list EntityOccurrence
  | Some segmentation => unit
  | None => unit
  end.

Definition set_offsets_tokens (self : IEDocument) (offsets : list Z)
    (tokens : list string) : IEDocument :=
  {| human_identifier := human_identifier self;
     doc_title := doc_title self;
     doc_url := doc_url self;
     doc_text := doc_text self;
     preprocess_metadata := preprocess_metadata self;
     doc_tokens := tokens;
     doc_offsets := offsets;
     doc_postags := doc_postags self;
     doc_sentences := doc_sentences self;
     doc_entities := doc_entities self |}.

Definition set_sentences (self : IEDocument) (sentences : list Z)
  : IEDocument :=
  {| human_identifier := human_identifier self;
     doc_title := doc_title self;
     doc_url := doc_url self;
     doc_text := doc_text self;
     preprocess_metadata := preprocess_metadata self;
     doc_tokens := doc_tokens self;
     doc_offsets := doc_offsets self;
     doc_postags := doc_postags self;
     doc_sentences := sentences;
     doc_entities := doc_entities self |}.

Definition set_postags (self : IEDocument) (postags : list string)
  : IEDocument :=
  {| human_identifier := human_identifier self;
     doc_title := doc_title self;
     doc_url := doc_url self;
     doc_text := doc_text self;
     preprocess_metadata := preprocess_metadata self;
     doc_tokens := doc_tokens self;
     doc_offsets := doc_offsets self;
     doc_postags := postags;
     doc_sentences := doc_sentences self;
     doc_entities := doc_entities self |}.

Definition set_entities (self : IEDocument) (entities : list EntityOccurrence)
  : IEDocument :=
  {| human_identifier := human_identifier self;
     doc_title := doc_title self;
     doc_url := doc_url self;
     doc_text := doc_text self;
     preprocess_metadata := preprocess_metadata self;
     doc_tokens := doc_tokens self;
     doc_offsets := doc_offsets self;
     doc_postags := doc_postags self;
     doc_sentences := doc_sentences self;
     doc_entities := entities |}.

(** The checks on a sentencer result, in the order of the source. *)
Definition check_sentencer (self : IEDocument) (res : list pyval)
  : result unit :=
  if negb (forallb is_int res) then Raise ValueError
  else
    let r := ints res in
    if negb (list_Z_eqb (sorted r) r) then Raise ValueError
    else if len_set r <? len r then Raise ValueError
    else
      first <- getitem r 0 ;;
      if negb (first =? 0) then Raise ValueError
      else
        last <- getitem r (-1) ;;
        if negb (last =? len (doc_tokens self)) then Raise ValueError
        else Ok tt.

(** The check on a tagging result. *)
Definition check_tagging (self : IEDocument) (res : list string)
  : result unit :=
  if negb (len res =? len (doc_tokens self)) then Raise ValueError
  else Ok tt.

(** [set_preprocess_result(step, result)]; the argument [result] is
    called [res] here.  The answer is the document
    after the call together with the outcome of the call, so that what an
    aborted call leaves behind is explicit.  [unzip] of [iepy.utils] is
    [List.split] on a list of pairs. *)
Definition set_preprocess_result (self : IEDocument) (now : Z)
    (step : option PreProcessSteps)
  : result_type step -> IEDocument * result unit :=
  match step return result_type step -> IEDocument * result unit with
  | None => fun _ => (self, Raise InvalidPreprocessSteps)
  | Some tokenization => fun res =>
      let (offsets, tokens) := List.split res in
      (flag_preprocess_done (set_offsets_tokens self offsets tokens) now
         tokenization, Ok tt)
  | Some sentencer => fun res =>
      match check_sentencer self res with
      | Ok _ =>
          (flag_preprocess_done (set_sentences self (ints res)) now
             sentencer, Ok tt)
      | Raise e => (self, Raise e)
      | OutOfFuel => (self, OutOfFuel)
      end
  | Some tagging => fun res =>
      match check_tagging self res with
      | Ok _ =>
          (flag_preprocess_done (set_postags self res) now tagging, Ok tt)
      | Raise e => (self, Raise e)
      | OutOfFuel => (self, OutOfFuel)
      end
  | Some ner => fun res =>
      (flag_preprocess_done (set_entities self res) now ner, Ok tt)
  | Some segmentation => fun _ => (self, Raise KeyError)
  end.

(** What the sentencer step requires of its result: only integers,
    strictly increasing, the first one 0 and the last one the number of
    tokens. *)
Definition valid_sentencer_result (self : IEDocument) (res : list pyval)
  : Prop :=
  Forall (fun x => is_int x = true) res
  /\ StronglySorted Z.lt (ints res)
  /\ hd_error (ints res) = Some 0
  /\ hd_error (rev (ints res)) = Some (len (doc_tokens self)).

(** *** [TextSegment.build] *)

(** [s[i:j]] on a string *)
Definition slice_string (s : string) (i j : Z) : string :=
  string_of_list_ascii (slice (list_ascii_of_string s) i j).

Definition len_string (s : string) : Z := len (list_ascii_of_string s).

(** The body of the loop over [document.entities[l:r]]: the assertion, then
    the occurrence rebased to the segment. *)
Definition entity_in_segment (token_offset token_offset_end : Z)
    (o : EntityOccurrence) : result EntityInSegment :=
  _ <- py_assert ((token_offset <=? occ_offset o)
                  && (occ_offset o <? token_offset_end)) ;;
  Ok {| eis_key := ent_key (occ_entity o);
        eis_canonical_form := ent_canonical_form (occ_entity o);
        eis_kind := ent_kind (occ_entity o);
        eis_offset := occ_offset o - token_offset;
        eis_offset_end := occ_offset_end o - token_offset;
        eis_alias := occ_alias o |}.

(** A loop that appends [f x] for every [x] of a list, in order, and
    stops at the first exception. *)
Fixpoint for_each {A B : Type} (f : A -> result B) (l : list A)
  : result (list B) :=
  match l with
  | [] => Ok []
  | x :: l' => y <- f x ;; ys <- for_each f l' ;; Ok (y :: ys)
  end.

(** [TextSegment.build(document, token_offset, token_offset_end)] *)
Definition TextSegment_build (document : IEDocument)
    (token_offset token_offset_end : Z) : result TextSegment :=
  let tokens := slice (doc_tokens document) token_offset token_offset_end in
  let postags := slice (doc_postags document) token_offset token_offset_end in
  text_start <- (if token_offset <? len (doc_offsets document)
                 then getitem (doc_offsets document) token_offset
                 else Ok (len_string (doc_text document))) ;;
  text_end <- (if token_offset_end <? len (doc_offsets document)
               then getitem (doc_offsets document) token_offset_end
               else Ok (len_string (doc_text document))) ;;
  let text := slice_string (doc_text document) text_start text_end in
  ' (l, r) <- _interval_offsets occ_offset (doc_entities document)
                token_offset token_offset_end 0 None ;;
  entities <- for_each (entity_in_segment token_offset token_offset_end)
                (slice (doc_entities document) l r) ;;
  ' (l, r) <- _interval_offsets (fun x => x) (doc_sentences document)
                token_offset token_offset_end 0 None ;;
  let sentences :=
    map (fun o => o - token_offset) (slice (doc_sentences document) l r) in
  Ok {| seg_id := None;
        seg_document := human_identifier document;
        seg_text := text;
        seg_offset := token_offset;
        seg_tokens := tokens;
        seg_postags := postags;
        seg_entities := entities;
        seg_sentences := sentences |}.

(** The occurrences that begin inside the window [[start, end_)], and an
    occurrence in the coordinates of a segment that begins at [start]. *)
Definition in_window (start end_ : Z) (o : EntityOccurrence) : bool :=
  (start <=? occ_offset o) && (occ_offset o <? end_).

Definition rebase (start : Z) (o : EntityOccurrence) : EntityInSegment :=
  {| eis_key := ent_key (occ_entity o);
     eis_canonical_form := ent_canonical_form (occ_entity o);
     eis_kind := ent_kind (occ_entity o);
     eis_offset := occ_offset o - start;
     eis_offset_end := occ_offset_end o - start;
     eis_alias := occ_alias o |}.

(** [TextSegment.entity_occurrence_pairs] and [kind_occurrence_pairs]:
    [itertools.product(left, right)] without the diagonal. *)
Definition indices_where {A : Type} (p : A -> bool) (l : list A) : list Z :=
  map fst (filter (fun io => p (snd io))
             (combine (map Z.of_nat (seq 0 (List.length l))) l)).

Definition product_off_diagonal (left_ right_ : list Z) : list (Z * Z) :=
  filter (fun lr => negb (fst lr =? snd lr)) (list_prod left_ right_).

Definition entity_occurrence_pairs (self : TextSegment) (e1 e2 : Entity)
  : list (Z * Z) :=
  let left_ := indices_where (fun o => is_entity o e1) (seg_entities self) in
  let right_ := indices_where (fun o => is_entity o e2) (seg_entities self) in
  product_off_diagonal left_ right_.

Definition kind_occurrence_pairs (self : TextSegment) (lkind rkind : string)
  : list (Z * Z) :=
  let left_ :=
    indices_where (fun o => String.eqb (eis_kind o) lkind)
      (seg_entities self) in
  let right_ :=
    indices_where (fun o => String.eqb (eis_kind o) rkind)
      (seg_entities self) in
  product_off_diagonal left_ right_.

(** *** [IEDocument.build_contextual_segments] *)

(** One candidate window of [build_contextual_segments]: the bounds
    [start], [end] the loop body computed, and the segment that was built
    and saved for it, or [None] when the window was taken for a repeat. *)
Record candidate : Type := {
  cand_start : Z;
  cand_end : Z;
  cand_segment : option TextSegment
}.

Section ContextualSegments.

Variable self : IEDocument.
Variable d : Z.

Let entities := doc_entities self.
Let L := len (doc_entities self).

(** [left, middle = self.entities[i:i + 2]] *)
Definition left_middle (i : Z)
  : result (EntityOccurrence * EntityOccurrence) :=
  match slice entities i (i + 2) with
  | [left_; middle] => Ok (left_, middle)
  | _ => Raise ValueError
  end.

(** The inner loop that looks for two entities that are close; [None]
    is the [return] that ends the whole method. *)
Fixpoint find_close (fuel : nat) (i : Z)
    (left_ middle : EntityOccurrence)
  : result (option (Z * EntityOccurrence * EntityOccurrence)) :=
  if occ_offset middle - occ_offset_end left_ >=? d then
    match fuel with
    | O => OutOfFuel
    | S fuel' =>
        let i := i + 1 in
        if i + 1 =? L then Ok None
        else
          ' (left_, middle) <- left_middle i ;;
          find_close fuel' i left_ middle
    end
  else Ok (Some (i, left_, middle)).

(** The loop that moves [start] to the left. *)
Fixpoint widen_start (fuel : nat) (j start : Z) : result Z :=
  if j >=? 0 then
    e <- getitem entities j ;;
    if occ_offset_end e >? start then
      match fuel with
      | O => OutOfFuel
      | S fuel' => widen_start fuel' (j - 1) (Z.min start (occ_offset e))
      end
    else Ok start
  else Ok start.

(** The loop that moves [end] to the right. *)
Fixpoint widen_end (fuel : nat) (j end_ : Z) : result Z :=
  if j <? L then
    e <- getitem entities j ;;
    if occ_offset e <? end_ then
      match fuel with
      | O => OutOfFuel
      | S fuel' => widen_end fuel' (j + 1) (Z.max end_ (occ_offset_end e))
      end
    else Ok end_
  else Ok end_.

(** One pass through the body of the outer loop, from the index [i] and
    the bounds [lstart], [lend] of the window before: the index at which the
    close pair was found and the candidate window, or [None] for the
    [return] of the inner loop. *)
Definition next_window (i lstart lend : Z) : result (option (Z * candidate)) :=
  ' (left_, middle) <- left_middle i ;;
  found <- find_close (Z.to_nat (L - i)) i left_ middle ;;
  match found with
  | None => Ok None
  | Some (i, left_, middle) =>
      right_ <- (if i + 2 <? L then
                  e <- getitem entities (i + 2) ;;
                  if occ_offset e - occ_offset_end middle <? d
                  then Ok e else Ok middle
                else Ok middle) ;;
      let start := Z.max 0 (occ_offset left_ - d) in
      let end_ := Z.min (occ_offset_end right_ + d) (len (doc_tokens self)) in
      start <- widen_start (Z.to_nat (i + 1)) i start ;;
      end_ <- widen_end (Z.to_nat (L - i)) i end_ ;;
      if negb ((end_ =? lend) && (start >=? lstart)) then
        s <- TextSegment_build self start end_ ;;
        Ok (Some (i, {| cand_start := start; cand_end := end_;
                        cand_segment := Some s |}))
      else
        Ok (Some (i, {| cand_start := start; cand_end := end_;
                        cand_segment := None |}))
  end.

(** The outer loop.  [acc] holds the candidate windows so far, oldest
    first; the answer pairs them with the outcome of the method, so that
    the segments saved before an exception stay visible. *)
Fixpoint contextual_loop (fuel : nat) (i lstart lend : Z)
    (acc : list candidate) : list candidate * result unit :=
  if i + 1 <? L then
    match fuel with
    | O => (acc, OutOfFuel)
    | S fuel' =>
        match next_window i lstart lend with
        | Ok None => (acc, Ok tt)
        | Ok (Some (i, c)) =>
            contextual_loop fuel' (i + 1) (cand_start c) (cand_end c)
              (acc ++ [c])
        | Raise e => (acc, Raise e)
        | OutOfFuel => (acc, OutOfFuel)
        end
    end
  else (acc, Ok tt).

(** [build_contextual_segments(d)] *)
Definition build_contextual_segments : list candidate * result unit :=
  contextual_loop (Z.to_nat L) 0 (-1) (-1) [].

End ContextualSegments.

(** The windows that were materialised as segments. *)
Definition materialized (cs : list candidate) : list candidate :=
  filter (fun c => match cand_segment c with Some _ => true | None => false end)
    cs.

(** ** core.py: facts, evidence, knowledge *)

(** [Fact = namedtuple("Fact", "e1 relation e2")] *)
Record Fact : Type := {
  e1 : Entity;
  relation : string;
  e2 : Entity
}.

(** [Evidence = namedtuple("Evidence", "fact segment o1 o2")] *)
Record Evidence : Type := {
  fact : Fact;
  segment : option TextSegment;
  o1 : option Z;
  o2 : option Z
}.

(** Equality.  An entity or a segment of the store is identified by its
    [id], and two objects with the same [id] are the same record, so that
    Python's [==] on them is equality of the records. *)
Definition Entity_eq_dec (x y : Entity) : {x = y} + {x <> y}.
Proof. decide equality; auto using Z.eq_dec, string_dec. Defined.

Definition EntityInSegment_eq_dec (x y : EntityInSegment)
  : {x = y} + {x <> y}.
Proof. decide equality; auto using Z.eq_dec, string_dec. Defined.

Definition option_eq_dec {A : Type} (dec : forall x y : A, {x = y} + {x <> y})
    (x y : option A) : {x = y} + {x <> y}.
Proof. decide equality. Defined.

Definition TextSegment_eq_dec (x y : TextSegment) : {x = y} + {x <> y}.
Proof.
  decide equality;
    auto using Z.eq_dec, string_dec, list_eq_dec, option_eq_dec,
      EntityInSegment_eq_dec.
Defined.

Definition Fact_eq_dec (x y : Fact) : {x = y} + {x <> y}.
Proof. decide equality; auto using string_dec, Entity_eq_dec. Defined.

Definition Evidence_eq_dec (x y : Evidence) : {x = y} + {x <> y}.
Proof.
  decide equality;
    auto using Z.eq_dec, option_eq_dec, TextSegment_eq_dec, Fact_eq_dec.
Defined.

Definition Evidence_eqb (x y : Evidence) : bool :=
  if Evidence_eq_dec x y then true else false.

Definition Fact_eqb (x y : Fact) : bool :=
  if Fact_eq_dec x y then true else false.

(** Order.  [SortableDocumentMixin.__lt__] is [self.id < other.id]; a
    tuple is compared at its first component that differs.  [<] between
    [None] and a number, and between [None] and [None], is a [TypeError]. *)
Definition Entity_lt (x y : Entity) : bool := ent_id x <? ent_id y.

Definition option_lt {A : Type} (lt : A -> A -> bool) (x y : option A)
  : result bool :=
  match x, y with
  | Some x, Some y => Ok (lt x y)
  | _, _ => Raise TypeError
  end.

(** [x < y] for two segments that differ: the [id] of a segment that was
    never saved is [None]. *)
Definition TextSegment_lt (x y : TextSegment) : result bool :=
  option_lt Z.ltb (seg_id x) (seg_id y).

Definition Fact_lt (x y : Fact) : bool :=
  if Entity_eq_dec (e1 x) (e1 y) then
    if string_dec (relation x) (relation y) then
      if Entity_eq_dec (e2 x) (e2 y) then false
      else Entity_lt (e2 x) (e2 y)
    else String.ltb (relation x) (relation y)
  else Entity_lt (e1 x) (e1 y).

Definition Evidence_lt (x y : Evidence) : result bool :=
  if Fact_eq_dec (fact x) (fact y) then
    if option_eq_dec TextSegment_eq_dec (segment x) (segment y) then
      if option_eq_dec Z.eq_dec (o1 x) (o1 y) then
        if option_eq_dec Z.eq_dec (o2 x) (o2 y) then Ok false
        else option_lt Z.ltb (o2 x) (o2 y)
      else option_lt Z.ltb (o1 x) (o1 y)
    else
      (* [segment < None] runs [__lt__] of the segment, which asks for
         [None.id]; [None < segment] finds no comparison to run *)
      match segment x, segment y with
      | Some s, Some t => TextSegment_lt s t
      | Some _, None => Raise AttributeError
      | None, Some _ => Raise TypeError
      | None, None => Ok false
      end
  else Ok (Fact_lt (fact x) (fact y)).

(** Floats.  A Python float is a binary64 number: 53 bits of precision
    with the exponent of the last bit at least -1074.  [round64 x] is the
    float nearest to the number [x], the even one of the two when [x] lies
    halfway, which is what an operation on floats answers for the exact
    result [x].  No operation of these sources overflows on finite floats
    (the largest that [certainty] can meet is the largest float plus one
    half, which rounds to the largest float), so that the exponent has no
    upper bound here. *)

(** [floor(log2(a))] for [a > 0] *)
Definition Qlog2 (a : Q) : Z :=
  let k := Z.log2 (Qnum a) - Z.log2 (Zpos (Qden a)) in
  if Qle_bool (2 ^ k) a then k else k - 1.

(** The integer nearest to [q], the even one when [q] lies halfway. *)
Definition round_half_even (q : Q) : Z :=
  let f := Qfloor q in
  match (q - inject_Z f ?= 1 # 2)%Q with
  | Lt => f
  | Gt => f + 1
  | Eq => if Z.even f then f else f + 1
  end.

(** The exponent of the last bit of the floats around [a]. *)
Definition ulp_exponent (a : Q) : Z := Z.max (Qlog2 a - 52) (-1074).

Definition round_magnitude (a : Q) : Q :=
  let e := ulp_exponent a in
  (inject_Z (round_half_even (a * 2 ^ (- e))) * 2 ^ e)%Q.

Definition round64 (x : Q) : Q :=
  if Qle_bool 0 x then round_magnitude x else (- round_magnitude (- x))%Q.

(** Scores.  A score is a number or [None]; the labels [True] and [False]
    are the numbers 1 and 0, as they are in Python. *)
Definition score : Type := option Q.

Definition Qltb (x y : Q) : bool := negb (Qle_bool y x).

Definition of_bool (b : bool) : Q := if b then 1%Q else 0%Q.

Definition score_eqb (x y : score) : bool :=
  match x, y with
  | Some x, Some y => Qeq_bool x y
  | None, None => true
  | _, _ => false
  end.

(** [s > t] where [s] may be [None] *)
Definition score_gt (s : score) (t : Q) : result bool :=
  match s with
  | Some q => Ok (Qltb t q)
  | None => Raise TypeError
  end.

(** [certainty(p)]: a subtraction and an addition of floats, each of
    which rounds. *)
Definition certainty (p : score) : Q :=
  match p with
  | Some p => round64 ((1 # 2) + Qabs (round64 (p - (1 # 2))))
  | None => (1 # 2)%Q
  end.

(** [Knowledge]: a dictionary from evidence to score. *)
Definition Knowledge : Type := list (Evidence * score).

(** [d[k]] *)
Definition dict_getitem {K V : Type} (eqb : K -> K -> bool)
    (d : list (K * V)) (k : K) : result V :=
  match dict_get eqb d k with
  | Some v => Ok v
  | None => Raise KeyError
  end.

(** The comparison of the keys [(number, evidence)] of [by_certainty]. *)
Definition key_lt (x y : Q * Evidence) : result bool :=
  if Qeq_bool (fst x) (fst y) then
    if Evidence_eq_dec (snd x) (snd y) then Ok false
    else Evidence_lt (snd x) (snd y)
  else Ok (Qltb (fst x) (fst y)).

(** [sorted(..., key=..., reverse=True)]: the keys are computed first; the
    sort is stable and descending, here by insertion.  Which pairs of
    keys Python compares on a long list is not modelled: where more than
    one comparison would raise, the one that is met first may be another
    one. *)
Section SortedReverse.

Context {K A : Type}.
Variable lt : K -> K -> result bool.

Fixpoint insert_desc (x : K * A) (l : list (K * A)) : result (list (K * A)) :=
  match l with
  | [] => Ok [x]
  | y :: l' =>
      b <- lt (fst x) (fst y) ;;
      if b then r <- insert_desc x l' ;; Ok (y :: r) else Ok (x :: l)
  end.

Fixpoint sort_desc (l : list (K * A)) : result (list (K * A)) :=
  match l with
  | [] => Ok []
  | x :: l' => r <- sort_desc l' ;; insert_desc x r
  end.

Definition sorted_reverse (key : A -> result K) (l : list A)
  : result (list A) :=
  keys <- for_each key l ;;
  r <- sort_desc (combine keys l) ;;
  Ok (map snd r).

End SortedReverse.

(** [Knowledge.by_certainty] *)
Definition key_funct (self : Knowledge) (e_s : Evidence * score)
  : result (Q * Evidence) :=
  let e := fst e_s in
  s <- dict_getitem Evidence_eqb self e ;;
  Ok (match s with Some _ => certainty s | None => 0%Q end, e).

Definition by_certainty (self : Knowledge) : result (list (Evidence * score)) :=
  sorted_reverse key_lt (key_funct self) self.

(** [Knowledge.per_relation] *)
Definition per_relation (self : Knowledge) : list (string * Knowledge) :=
  fold_left
    (fun result es =>
       let r := relation (fact (fst es)) in
       let k := match dict_get String.eqb result r with
                | Some k => k
                | None => []
                end in
       dict_set String.eqb result r
         (dict_set Evidence_eqb k (fst es) (snd es)))
    self [].

(** ** db.py: the queries of the store *)

(** [TextSegmentManager.segments_with_both_entities] over the collection
    of saved segments. *)
Definition segments_with_both_entities (segments : list TextSegment)
    (entity_a entity_b : Entity) : list TextSegment :=
  let key_a := ent_key entity_a in
  let key_b := ent_key entity_b in
  filter
    (fun s =>
       existsb (fun o => String.eqb (eis_key o) key_a) (seg_entities s)
       && existsb (fun o => String.eqb (eis_key o) key_b) (seg_entities s))
    segments.

(** [TextSegmentManager.segments_with_both_kinds]; when the two kinds are
    the same one the kind has to occur twice. *)
Definition segments_with_both_kinds (segments : list TextSegment)
    (kind_a kind_b : string) : list TextSegment :=
  if negb (String.eqb kind_a kind_b) then
    filter
      (fun s =>
         existsb (fun o => String.eqb (eis_kind o) kind_a) (seg_entities s)
         && existsb (fun o => String.eqb (eis_kind o) kind_b) (seg_entities s))
      segments
  else
    filter
      (fun s =>
         2 <=? len (filter (fun o => String.eqb (eis_kind o) kind_a)
                      (seg_entities s)))
      segments.

(** [get_entity(kind, literal)], the function under the decorator:
    [Entity.objects.get] answers the one entity of the collection with
    this kind and key. *)
Definition get_entity (Entity_objects : list Entity) (kind literal : string)
  : result Entity :=
  match
    filter
      (fun e => String.eqb (ent_kind e) kind && String.eqb (ent_key e) literal)
      Entity_objects
  with
  | [] => Raise DoesNotExist
  | [e] => Ok e
  | _ => Raise MultipleObjectsReturned
  end.

(** [@lru_cache(maxsize)]: the cache holds the arguments of the calls
    that returned, each with its result, the most recently used first.  A
    call with arguments that are in the cache answers from the cache
    without running the function and moves its entry to the front; any
    other call runs the function, and when that returns its result goes to
    the front and the least recently used entry is dropped once there are
    more than [maxsize].  A call that raises leaves the cache as it is. *)
Section LruCache.

Context {K V : Type}.
Variable eqb : K -> K -> bool.
Variable maxsize : Z.
Variable user_function : K -> result V.

Definition lru_cache (cache : list (K * V)) (key : K)
  : list (K * V) * result V :=
  match dict_get eqb cache key with
  | Some v =>
      ((key, v) :: filter (fun kv => negb (eqb key (fst kv))) cache, Ok v)
  | None =>
      match user_function key with
      | Ok v => (firstn (Z.to_nat maxsize) ((key, v) :: cache), Ok v)
      | Raise e => (cache, Raise e)
      | OutOfFuel => (cache, OutOfFuel)
      end
  end.

End LruCache.

Definition ENTITY_CACHE_SIZE : Z := 20.

(** The key that [lru_cache] makes of the arguments [(kind, literal)]. *)
Definition entity_key_eqb (x y : string * string) : bool :=
  String.eqb (fst x) (fst y) && String.eqb (snd x) (snd y).

(** A call of [get_entity] as the module exports it: the function above
    behind its cache of [ENTITY_CACHE_SIZE] entries.  The cache lives as
    long as the module and is not told when the store changes. *)
Definition get_entity_cached (Entity_objects : list Entity)
    (cache : list ((string * string) * Entity)) (kind literal : string)
  : list ((string * string) * Entity) * result Entity :=
  lru_cache entity_key_eqb ENTITY_CACHE_SIZE
    (fun key => get_entity Entity_objects (fst key) (snd key))
    cache (kind, literal).

(** ** core.py: the pipeline *)

Section Pipeline.

(** The collaborators that are not part of the sources: the entities of
    the store, the classifier factory of [iepy.fact_extractor] (applied
    to the fixed configuration), and the column of [predict_proba] for
    the class [True].  The store of entities does not change while the
    pipeline runs, and the cache of [get_entity] agrees with it, so that a
    call of [get_entity] answers what the store answers. *)
Variable Entity_objects : list Entity.
Variable Classifier : Type.
Variable FactExtractorFactory : Knowledge -> Classifier.
Variable predict_proba_true : Classifier -> list Evidence -> list Q.

(** The state of a [BootstrappedIEPipeline].  [db_con] is the collection
    of segments behind [db_con.segments]; [step_iterator] is the index in
    [steps] of the step that [itertools.cycle] yields next. *)
Record BootstrappedIEPipeline : Type := {
  db_con : list TextSegment;
  knowledge : Knowledge;
  evidence_threshold : Q;
  fact_threshold : Q;
  questions : Knowledge;
  answers : list (Evidence * Q);
  step_iterator : nat;
  relations : list (string * (string * string))
}.

(** What one step hands to the next. *)
Inductive data : Type :=
| DataNone
| DataKnowledge (k : Knowledge)
| DataExtractors (x : list (string * Classifier)).

Definition set_knowledge (self : BootstrappedIEPipeline) (k : Knowledge)
  : BootstrappedIEPipeline :=
  {| db_con := db_con self;
     knowledge := k;
     evidence_threshold := evidence_threshold self;
     fact_threshold := fact_threshold self;
     questions := questions self;
     answers := answers self;
     step_iterator := step_iterator self;
     relations := relations self |}.

Definition set_questions (self : BootstrappedIEPipeline) (k : Knowledge)
  : BootstrappedIEPipeline :=
  {| db_con := db_con self;
     knowledge := knowledge self;
     evidence_threshold := evidence_threshold self;
     fact_threshold := fact_threshold self;
     questions := k;
     answers := answers self;
     step_iterator := step_iterator self;
     relations := relations self |}.

Definition set_answers (self : BootstrappedIEPipeline)
    (a : list (Evidence * Q)) : BootstrappedIEPipeline :=
  {| db_con := db_con self;
     knowledge := knowledge self;
     evidence_threshold := evidence_threshold self;
     fact_threshold := fact_threshold self;
     questions := questions self;
     answers := a;
     step_iterator := step_iterator self;
     relations := relations self |}.

Definition set_step_iterator (self : BootstrappedIEPipeline) (n : nat)
  : BootstrappedIEPipeline :=
  {| db_con := db_con self;
     knowledge := knowledge self;
     evidence_threshold := evidence_threshold self;
     fact_threshold := fact_threshold self;
     questions := questions self;
     answers := answers self;
     step_iterator := n;
     relations := relations self |}.

(** The loop of [__init__] that builds the relation description. *)
Fixpoint build_relations (keys : list Evidence)
    (relations : list (string * (string * string)))
  : result (list (string * (string * string))) :=
  match keys with
  | [] => Ok relations
  | e :: keys' =>
      let t1 := ent_kind (e1 (fact e)) in
      let t2 := ent_kind (e2 (fact e)) in
      match dict_get String.eqb relations (relation (fact e)) with
      | Some (u1, u2) =>
          if negb (String.eqb t1 u1 && String.eqb t2 u2)
          then Raise ValueError
          else build_relations keys'
                 (dict_set String.eqb relations (relation (fact e)) (t1, t2))
      | None =>
          build_relations keys'
            (dict_set String.eqb relations (relation (fact e)) (t1, t2))
      end
  end.

(** [BootstrappedIEPipeline.__init__(db_connector, seed_facts)]; the
    literal [0.99] is the float nearest to 99/100. *)
Definition seed_evidence (f : Fact) : Evidence :=
  {| fact := f; segment := None; o1 := None; o2 := None |}.

Definition init (db_connector : list TextSegment) (seed_facts : list Fact)
  : result BootstrappedIEPipeline :=
  let knowledge :=
    dict_of Evidence_eqb
      (map (fun f => (seed_evidence f, Some 1%Q)) seed_facts) in
  relations <- build_relations (dict_keys knowledge) [] ;;
  Ok {| db_con := db_connector;
        knowledge := knowledge;
        evidence_threshold := round64 (99 # 100);
        fact_threshold := round64 (99 # 100);
        questions := [];
        answers := [];
        step_iterator := 0;
        relations := relations |}.

(** *** Pipeline steps

    Every step answers the pipeline after the step together with its
    outcome. *)

(** Step 1 *)
Definition generalize_knowledge (self : BootstrappedIEPipeline)
    (evidence : data) : BootstrappedIEPipeline * result data :=
  let facts := map fact (dict_keys (knowledge self)) in
  match evidence with
  | DataKnowledge evidence =>
      (self,
       Ok (DataKnowledge
             (dict_of Evidence_eqb
                (filter
                   (fun x => existsb (Fact_eqb (fact (fst x))) facts)
                   evidence))))
  | DataExtractors [] => (self, Ok (DataKnowledge []))
  | _ => (self, Raise AttributeError)
  end.

(** Step 2, first half *)
Definition generate_questions (self : BootstrappedIEPipeline)
    (evidence : data) : BootstrappedIEPipeline * result data :=
  match evidence with
  | DataKnowledge evidence =>
      (set_questions self
         (dict_of Evidence_eqb
            (filter
               (fun es => negb (dict_mem Evidence_eqb (answers self) (fst es)))
               evidence)),
       Ok DataNone)
  | DataExtractors [] => (set_questions self [], Ok DataNone)
  | _ => (self, Raise AttributeError)
  end.

(** Step 2, second half.  The generator that feeds [evidence.update]. *)
Fixpoint strong_predictions (self : BootstrappedIEPipeline)
    (items : list (Evidence * score)) : result (list (Evidence * score)) :=
  match items with
  | [] => Ok []
  | (e, s) :: items' =>
      if Qltb (evidence_threshold self) (certainty s)
         && negb (dict_mem Evidence_eqb (answers self) e)
      then
        b <- score_gt s (1 # 2)%Q ;;
        r <- strong_predictions self items' ;;
        Ok ((e, Some (of_bool b)) :: r)
      else strong_predictions self items'
  end.

Definition filter_evidence (self : BootstrappedIEPipeline) (_ : data)
  : BootstrappedIEPipeline * result data :=
  let evidence : Knowledge :=
    dict_of Evidence_eqb
      (map (fun ea => (fst ea, Some (snd ea))) (answers self)) in
  (self,
   upd <- strong_predictions self (questions self) ;;
   Ok (DataKnowledge (dict_update Evidence_eqb evidence upd))).

(** Step 3.  [set(k.values())], then the loop over the relations. *)
Definition set_of_values (k : Knowledge) : list score :=
  fold_left
    (fun acc s => if existsb (score_eqb s) acc then acc else acc ++ [s])
    (map snd k) [].

Fixpoint train_classifiers (groups : list (string * Knowledge))
    (classifiers : list (string * Classifier))
  : result (list (string * Classifier)) :=
  match groups with
  | [] => Ok classifiers
  | (rel, k) :: groups' =>
      let yesno := set_of_values k in
      if negb (existsb (score_eqb (Some 1%Q)) yesno)
         || negb (existsb (score_eqb (Some 0%Q)) yesno)
      then train_classifiers groups' classifiers
      else
        _ <- py_assert (len yesno =? 2) ;;
        train_classifiers groups'
          (dict_set String.eqb classifiers rel (FactExtractorFactory k))
  end.

Definition learn_fact_extractors (self : BootstrappedIEPipeline)
    (evidence : data) : BootstrappedIEPipeline * result data :=
  match evidence with
  | DataKnowledge evidence =>
      (self,
       c <- train_classifiers (per_relation evidence) [] ;;
       Ok (DataExtractors c))
  | _ => (self, Raise AttributeError)
  end.

(** Step 5.  The evidence of one segment, of all segments, and the loop
    over the relations. *)
Definition candidate_evidence (r : string) (segment : TextSegment)
    (o : Z * Z) : result Evidence :=
  let (o1, o2) := o in
  x1 <- getitem (seg_entities segment) o1 ;;
  e1 <- get_entity Entity_objects (eis_kind x1) (eis_key x1) ;;
  x2 <- getitem (seg_entities segment) o2 ;;
  e2 <- get_entity Entity_objects (eis_kind x2) (eis_key x2) ;;
  let f := {| e1 := e1; relation := r; e2 := e2 |} in
  Ok {| fact := f; segment := Some segment; o1 := Some o1; o2 := Some o2 |}.

Fixpoint relation_evidence (r lkind rkind : string)
    (segments : list TextSegment) : result (list Evidence) :=
  match segments with
  | [] => Ok []
  | segment :: segments' =>
      es <- for_each (candidate_evidence r segment)
              (kind_occurrence_pairs segment lkind rkind) ;;
      rest <- relation_evidence r lkind rkind segments' ;;
      Ok (es ++ rest)
  end.

(** [r in extractors] and [extractors[r]] for whatever was handed in. *)
Definition find_extractor (extractors : data) (r : string)
  : result (option Classifier) :=
  match extractors with
  | DataExtractors x => Ok (dict_get String.eqb x r)
  | DataKnowledge _ => Ok None
  | DataNone => Raise TypeError
  end.

Fixpoint score_relations (self : BootstrappedIEPipeline) (extractors : data)
    (rels : list (string * (string * string))) (acc : Knowledge)
  : result Knowledge :=
  match rels with
  | [] => Ok acc
  | (r, (lkind, rkind)) :: rels' =>
      evidence <- relation_evidence r lkind rkind
                    (segments_with_both_kinds (db_con self) lkind rkind) ;;
      c <- find_extractor extractors r ;;
      let ps :=
        match c with
        | Some c => predict_proba_true c evidence
        | None => map (fun _ => (1 # 2)%Q) evidence
        end in
      score_relations self extractors rels'
        (dict_update Evidence_eqb acc
           (combine evidence (map (fun p => Some p) ps)))
  end.

Definition extract_facts (self : BootstrappedIEPipeline) (extractors : data)
  : BootstrappedIEPipeline * result data :=
  (self,
   k <- score_relations self extractors (relations self) [] ;;
   Ok (DataKnowledge k)).

(** Step 6.  [self.knowledge.update] consumes its generator item by item:
    what was merged before an exception stays merged. *)
Fixpoint merge_facts (fact_threshold : Q) (k : Knowledge)
    (items : list (Evidence * score)) : Knowledge * result unit :=
  match items with
  | [] => (k, Ok tt)
  | (e, s) :: items' =>
      match score_gt s fact_threshold with
      | Ok true =>
          merge_facts fact_threshold (dict_set Evidence_eqb k e s) items'
      | Ok false => merge_facts fact_threshold k items'
      | Raise x => (k, Raise x)
      | OutOfFuel => (k, OutOfFuel)
      end
  end.

Definition filter_facts (self : BootstrappedIEPipeline) (facts : data)
  : BootstrappedIEPipeline * result data :=
  match facts with
  | DataKnowledge k =>
      let (k', r) := merge_facts (fact_threshold self) (knowledge self) k in
      (set_knowledge self k', _ <- r ;; Ok facts)
  | DataExtractors [] => (self, Ok facts)
  | DataExtractors _ => (self, Raise TypeError)
  | DataNone => (self, Raise AttributeError)
  end.

(** [self.steps]; [None] is the pause. *)
Definition steps (n : nat)
  : option (BootstrappedIEPipeline -> data
            -> BootstrappedIEPipeline * result data) :=
  match n with
  | 0%nat => Some generalize_knowledge
  | 1%nat => Some generate_questions
  | 2%nat => None
  | 3%nat => Some filter_evidence
  | 4%nat => Some learn_fact_extractors
  | 5%nat => Some extract_facts
  | _ => Some filter_facts
  end.

(** [do_iteration(data)]: take the next step of the cycle until it is the
    pause.  The iterator has moved on when the step runs. *)
Fixpoint do_iteration (fuel : nat) (self : BootstrappedIEPipeline)
    (d : data) : BootstrappedIEPipeline * result unit :=
  match fuel with
  | O => (self, OutOfFuel)
  | S fuel' =>
      let n := step_iterator self in
      let self := set_step_iterator self (Nat.modulo (S n) 7) in
      match steps n with
      | None => (self, Ok tt)
      | Some step =>
          match step self d with
          | (self, Ok d) => do_iteration fuel' self d
          | (self, Raise e) => (self, Raise e)
          | (self, OutOfFuel) => (self, OutOfFuel)
          end
      end
  end.

(** *** The user API *)

(** [start()] *)
Definition start_evidences (self : BootstrappedIEPipeline) : Knowledge :=
  dict_of Evidence_eqb
    (flat_map
       (fun k =>
          let fact := fact k in
          flat_map
            (fun segment =>
               map
                 (fun o =>
                    ({| fact := fact; segment := Some segment;
                        o1 := Some (fst o); o2 := Some (snd o) |},
                     Some (1 # 2)%Q))
                 (entity_occurrence_pairs segment (e1 fact) (e2 fact)))
            (segments_with_both_entities (db_con self) (e1 fact) (e2 fact)))
       (dict_keys (knowledge self))).

Definition start (self : BootstrappedIEPipeline)
  : BootstrappedIEPipeline * result unit :=
  do_iteration 7 self (DataKnowledge (start_evidences self)).

(** [questions_available()] *)
Definition questions_available (self : BootstrappedIEPipeline)
  : result (list (Evidence * score)) :=
  by_certainty (questions self).

(** [add_answer(evidence, answer)] *)
Definition add_answer (self : BootstrappedIEPipeline) (evidence : Evidence)
    (answer : bool) : BootstrappedIEPipeline :=
  set_answers self
    (dict_set Evidence_eqb (answers self) evidence (of_bool answer)).

(** [force_process()] *)
Definition force_process (self : BootstrappedIEPipeline)
  : BootstrappedIEPipeline * result unit :=
  do_iteration 7 self DataNone.

(** [known_facts()] *)
Definition known_facts (self : BootstrappedIEPipeline) : Knowledge :=
  knowledge self.

End Pipeline.

(** ** Notions used in the statements *)

(** The pair of entity kinds that a fact connects. *)
Definition fact_kinds (f : Fact) : string * string :=
  (ent_kind (e1 f), ent_kind (e2 f)).

(** Two of the facts have the same relation label and different pairs of
    kinds. *)
Definition ambiguous (facts : list Fact) : Prop :=
  exists f g,
    In f facts /\ In g facts /\ relation f = relation g
    /\ fact_kinds f <> fact_kinds g.

(** The number [x] is a float: an integer of at most 53 bits times a
    power of two that is at least [2 ^ -1074]. *)
Definition binary64 (x : Q) : Prop :=
  exists m e : Z,
    Z.abs m < 2 ^ 53 /\ -1074 <= e /\ (x == inject_Z m * 2 ^ e)%Q.

(** The score of a key after [filter_facts]: the new score when there is
    one and it exceeds the threshold, the old state of the key otherwise. *)
Definition merged_score (threshold : Q) (old new : option score)
  : option score :=
  match new with
  | Some (Some s) => if Qltb threshold s then Some (Some s) else old
  | _ => old
  end.

(** The invariant of an evidence: the segment and the two indices are
    [None] together, and an index that is set points at an occurrence of the
    segment with the kind and the key of the entity of the fact. *)
Definition occurrence_matches (s : TextSegment) (i : Z) (e : Entity) : Prop :=
  exists x,
    getitem (seg_entities s) i = Ok x
    /\ eis_kind x = ent_kind e /\ eis_key x = ent_key e.

Definition evidence_invariant (e : Evidence) : Prop :=
  (segment e = None <-> o1 e = None)
  /\ (o1 e = None <-> o2 e = None)
  /\ (forall s i, segment e = Some s -> o1 e = Some i ->
                  occurrence_matches s i (e1 (fact e)))
  /\ (forall s i, segment e = Some s -> o2 e = Some i ->
                  occurrence_matches s i (e2 (fact e))).

(** The segment and the two indices of an evidence are all set. *)
Definition located (e : Evidence) : Prop :=
  exists s i j, segment e = Some s /\ o1 e = Some i /\ o2 e = Some j.

(** Every key of a dictionary of evidence satisfies the invariant. *)
Definition keys_invariant {V : Type} (d : list (Evidence * V)) : Prop :=
  forall e, In e (dict_keys d) -> evidence_invariant e.

(** The pipelines that the user API can produce: a pipeline is constructed
    and then driven by [start], [add_answer] and [force_process], in any
    order and whatever their outcome; the two thresholds are attributes
    that the user may set. *)
Section Reachable.

Variable Entity_objects : list Entity.
Variable Classifier : Type.
Variable FactExtractorFactory : Knowledge -> Classifier.
Variable predict_proba_true : Classifier -> list Evidence -> list Q.

Definition set_thresholds (self : BootstrappedIEPipeline) (et ft : Q)
  : BootstrappedIEPipeline :=
  {| db_con := db_con self;
     knowledge := knowledge self;
     evidence_threshold := et;
     fact_threshold := ft;
     questions := questions self;
     answers := answers self;
     step_iterator := step_iterator self;
     relations := relations self |}.

Inductive reachable : BootstrappedIEPipeline -> Prop :=
| reachable_init (db_connector : list TextSegment) (seed_facts : list Fact)
    (p : BootstrappedIEPipeline) :
    init db_connector seed_facts = Ok p -> reachable p
| reachable_start (p : BootstrappedIEPipeline) :
    reachable p ->
    reachable
      (fst (start Entity_objects Classifier FactExtractorFactory
              predict_proba_true p))
| reachable_add_answer (p : BootstrappedIEPipeline) (evidence : Evidence)
    (answer : bool) :
    reachable p -> reachable (add_answer p evidence answer)
| reachable_force_process (p : BootstrappedIEPipeline) :
    reachable p ->
    reachable
      (fst (force_process Entity_objects Classifier FactExtractorFactory
              predict_proba_true p))
| reachable_set_thresholds (p : BootstrappedIEPipeline) (et ft : Q) :
    reachable p -> reachable (set_thresholds p et ft).

End Reachable.

(** The ranking as the docstring of [by_certainty] describes it: a score
    of [None] counts as 0.5, so the number in the key is the certainty of
    the score whatever the score is. *)
Definition key_funct_documented (self : Knowledge) (e_s : Evidence * score)
  : result (Q * Evidence) :=
  let e := fst e_s in
  s <- dict_getitem Evidence_eqb self e ;;
  Ok (certainty s, e).

Definition by_certainty_documented (self : Knowledge)
  : result (list (Evidence * score)) :=
  sorted_reverse key_lt (key_funct_documented self) self.

(** The bounds of a candidate window, and whether it was materialised. *)
Definition window (c : candidate) : Z * Z := (cand_start c, cand_end c).

Definition is_materialized (c : candidate) : bool :=
  match cand_segment c with Some _ => true | None => false end.

(** The window [[start, end_)] splits the occurrence [o]: one of its two
    bounds lies strictly inside the occurrence. *)
Definition splits (start end_ : Z) (o : EntityOccurrence) : Prop :=
  occ_offset o < start < occ_offset_end o
  \/ occ_offset o < end_ < occ_offset_end o.

(** The test that [build_contextual_segments] applies to every candidate
    window, along the list of candidates: a window is built exactly when it
    fails [end == lend and start >= lstart] against the window before. *)
Fixpoint repeat_guard (lstart lend : Z) (cs : list candidate) : Prop :=
  match cs with
  | [] => True
  | c :: cs' =>
      is_materialized c
      = negb ((cand_end c =? lend) && (cand_start c >=? lstart))
      /\ repeat_guard (cand_start c) (cand_end c) cs'
  end.

(** The occurrences of a document lie inside its tokens and do not
    overlap: each one ends where the next one begins, or before. *)
Definition disjoint_occurrences (doc : IEDocument) : Prop :=
  (forall o, In o (doc_entities doc) ->
             0 <= occ_offset o <= occ_offset_end o
             /\ occ_offset_end o <= len (doc_tokens doc))
  /\ StronglySorted (fun a b => occ_offset_end a <= occ_offset b)
       (doc_entities doc).

(** The order of the numbers in the keys of [by_certainty]. *)
Definition key_ge (x y : Q * Evidence) : Prop := (fst y <= fst x)%Q.

(** ** Example data *)

Definition example_entity (key : string) : Entity :=
  {| ent_id := 0; ent_key := key; ent_canonical_form := key;
     ent_kind := "person" |}.

Definition example_occurrence (key : string) (offset offset_end : Z)
  : EntityOccurrence :=
  {| occ_entity := example_entity key; occ_offset := offset;
     occ_offset_end := offset_end; occ_alias := key |}.

(** A document of [n] tokens, all in one sentence, with the occurrences
    [entities]. *)
Definition example_document (n : nat) (entities : list EntityOccurrence)
  : IEDocument :=
  {| human_identifier := "doc";
     doc_title := "";
     doc_url := "";
     doc_text := "";
     preprocess_metadata := [];
     doc_tokens := repeat "t"%string n;
     doc_offsets := [];
     doc_postags := repeat "p"%string n;
     doc_sentences := [0; Z.of_nat n];
     doc_entities := entities |}.

Definition PersonX : Entity :=
  {| ent_id := 1; ent_key := "PersonX"; ent_canonical_form := "Person X";
     ent_kind := "person" |}.

Definition OrgY : Entity :=
  {| ent_id := 2; ent_key := "OrgY"; ent_canonical_form := "Org Y";
     ent_kind := "organization" |}.

Definition OrgZ : Entity :=
  {| ent_id := 3; ent_key := "OrgZ"; ent_canonical_form := "Org Z";
     ent_kind := "organization" |}.

Definition works_for (x y : Entity) : Fact :=
  {| e1 := x; relation := "works_for"; e2 := y |}.

(** A saved segment of five tokens in which PersonX, OrgY and OrgZ occur,
    and the two evidences it gives for [works_for]. *)
Definition in_segment (e : Entity) (offset offset_end : Z) : EntityInSegment :=
  {| eis_key := ent_key e;
     eis_canonical_form := ent_canonical_form e;
     eis_kind := ent_kind e;
     eis_offset := offset;
     eis_offset_end := offset_end;
     eis_alias := ent_canonical_form e |}.

Definition example_segment : TextSegment :=
  {| seg_id := Some 1;
     seg_document := "doc";
     seg_text := "X joined Y not Z";
     seg_offset := 0;
     seg_tokens := ["X"; "joined"; "Y"; "not"; "Z"]%string;
     seg_postags := ["NNP"; "VBD"; "NNP"; "RB"; "NNP"]%string;
     seg_entities :=
       [in_segment PersonX 0 1; in_segment OrgY 2 3; in_segment OrgZ 4 5];
     seg_sentences := [0] |}.

Definition evidence_XY : Evidence :=
  {| fact := works_for PersonX OrgY; segment := Some example_segment;
     o1 := Some 0; o2 := Some 1 |}.

Definition evidence_XZ : Evidence :=
  {| fact := works_for PersonX OrgZ; segment := Some example_segment;
     o1 := Some 0; o2 := Some 2 |}.

(** The pipeline that [__init__] builds from the store with the one
    segment and the one seed fact (PersonX, works_for, OrgY). *)
Definition seeded_pipeline : BootstrappedIEPipeline :=
  {| db_con := [example_segment];
     knowledge := [(seed_evidence (works_for PersonX OrgY), Some 1%Q)];
     evidence_threshold := round64 (99 # 100);
     fact_threshold := round64 (99 # 100);
     questions := [];
     answers := [];
     step_iterator := 0;
     relations := [("works_for", ("person", "organization"))]%string |}.

(** Collaborators for the examples: a classifier that knows nothing. *)
Definition example_factory (_ : Knowledge) : unit := tt.

Definition example_predict (_ : unit) (evidence : list Evidence) : list Q :=
  map (fun _ => (1 # 2)%Q) evidence.

(** ** models.py: the rest of the document *)

(** [get_preprocess_result(step)]: [None] when the step was never done,
    the stored field otherwise; the two fields of the tokenizer are zipped
    back into pairs. *)
Definition get_preprocess_result (self : IEDocument) (step : PreProcessSteps)
  : result (option (result_type (Some step))) :=
  if negb (was_preprocess_done self step) then Ok None
  else
    match step return result (option (result_type (Some step))) with
    | tokenization =>
        Ok (Some (combine (doc_offsets self) (doc_tokens self)))
    | sentencer => Ok (Some (map PyInt (doc_sentences self)))
    | tagging => Ok (Some (doc_postags self))
    | ner => Ok (Some (doc_entities self))
    | segmentation => Raise KeyError
    end.

(** [get_sentences()]: the generator yields one list of tokens for every
    sentence start but the first. *)
Fixpoint sentences_from (tokens : list string) (start : Z) (ends : list Z)
  : list (list string) :=
  match ends with
  | [] => []
  | end_ :: ends' => slice tokens start end_ :: sentences_from tokens end_ ends'
  end.

Definition get_sentences (self : IEDocument) : list (list string) :=
  sentences_from (doc_tokens self) 0 (slice_from (doc_sentences self) 1).

(** *** [IEDocument.build_syntactic_segments] *)

Section SyntacticSegments.

Variable self : IEDocument.

(** [for entity in range(entity, len(self.entities))] with the body that
    skips the entities before [start].  [n] iterations are left and [k] is
    the next value of the range; [entity] is the variable, which keeps its
    last value when the range is exhausted. *)
Fixpoint skip_entities (n : nat) (k entity start : Z) : result Z :=
  match n with
  | O => Ok entity
  | S n' =>
      e <- getitem (doc_entities self) k ;;
      if occ_offset e >=? start then Ok k
      else skip_entities n' (k + 1) k start
  end.

(** The second loop over the same range, which counts the entities inside
    the sentence: the variable and the count [c] when it ends. *)
Fixpoint count_entities (n : nat) (k entity end_ c : Z) : result (Z * Z) :=
  match n with
  | O => Ok (entity, c)
  | S n' =>
      e <- getitem (doc_entities self) k ;;
      if occ_offset e >=? end_ then Ok (k, c)
      else count_entities n' (k + 1) k end_ (c + 1)
  end.

(** One sentence of the outer loop: the variable [entity] afterwards and
    the candidate, with its segment when the count reached 2. *)
Definition syntactic_sentence (i start entity : Z) : result (Z * candidate) :=
  end_ <- (if i + 1 <? len (doc_sentences self)
           then getitem (doc_sentences self) (i + 1)
           else Ok (len (doc_tokens self))) ;;
  entity <- skip_entities (Z.to_nat (len (doc_entities self) - entity))
              entity entity start ;;
  ' (entity, c) <- count_entities
                     (Z.to_nat (len (doc_entities self) - entity))
                     entity entity end_ 0 ;;
  if c >=? 2 then
    s <- TextSegment_build self start end_ ;;
    Ok (entity, {| cand_start := start; cand_end := end_;
                   cand_segment := Some s |})
  else
    Ok (entity, {| cand_start := start; cand_end := end_;
                   cand_segment := None |}).

(** The outer loop over [enumerate(self.sentences)]. *)
Fixpoint syntactic_loop (sentences : list Z) (i entity : Z)
    (acc : list candidate) : list candidate * result unit :=
  match sentences with
  | [] => (acc, Ok tt)
  | start :: sentences' =>
      match syntactic_sentence i start entity with
      | Ok (entity, c) => syntactic_loop sentences' (i + 1) entity (acc ++ [c])
      | Raise e => (acc, Raise e)
      | OutOfFuel => (acc, OutOfFuel)
      end
  end.

(** [build_syntactic_segments()]: a candidate for every sentence, in
    order, with the segment that was built and saved for it, if any. *)
Definition build_syntactic_segments : list candidate * result unit :=
  syntactic_loop (doc_sentences self) 0 0 [].

End SyntacticSegments.

(** An occurrence of the segment at the index [i] that satisfies [p]. *)
Definition occurs_at (self : TextSegment) (i : Z) (p : EntityInSegment -> bool)
  : Prop :=
  0 <= i
  /\ exists x, nth_error (seg_entities self) (Z.to_nat i) = Some x
               /\ p x = true.

(** An evidence in a segment that the store has saved, and an evidence
    without a segment. *)
Definition saved (e : Evidence) : Prop :=
  exists s i j,
    segment e = Some s /\ seg_id s <> None /\ o1 e = Some i /\ o2 e = Some j.

Definition unlocated (e : Evidence) : Prop :=
  segment e = None /\ o1 e = None /\ o2 e = None.

(** A score that is one of the labels [True] and [False], and whether a
    knowledge has an item with the label [b]. *)
Definition is_label (s : score) : Prop := exists b, s = Some (of_bool b).

Definition has_label (b : bool) (k : Knowledge) : bool :=
  existsb (score_eqb (Some (of_bool b))) (map snd k).

(** The questions with a strong prediction and no answer, and the label
    of a prediction. *)
Definition strong (self : BootstrappedIEPipeline) (es : Evidence * score)
  : bool :=
  Qltb (evidence_threshold self) (certainty (snd es))
  && negb (dict_mem Evidence_eqb (answers self) (fst es)).

Definition predicted_label (s : score) : score :=
  match s with
  | Some q => Some (of_bool (Qltb (1 # 2) q))
  | None => None
  end.

(** The sets of labels. *)
Definition label_set (acc : list score) : Prop :=
  acc = [] \/ acc = [Some 1%Q] \/ acc = [Some 0%Q]
  \/ acc = [Some 1%Q; Some 0%Q] \/ acc = [Some 0%Q; Some 1%Q].

(** What the cycle never touches: the store, the relations, the two
    thresholds and the answers. *)
Definition same_settings (p p' : BootstrappedIEPipeline) : Prop :=
  db_con p' = db_con p
  /\ relations p' = relations p
  /\ evidence_threshold p' = evidence_threshold p
  /\ fact_threshold p' = fact_threshold p
  /\ answers p' = answers p.

(** A knowledge in which an evidence without a segment has the score 1
    and every other evidence is located and has a number for a score. *)
Definition known_scored (k : Knowledge) : Prop :=
  forall e s,
    In (e, s) k ->
    (unlocated e /\ s = Some 1%Q) \/ (located e /\ s <> None).

(** A window that holds two neighbouring occurrences that are less than
    [d] tokens apart, and a candidate whose segment, if it has one, is the
    one that [TextSegment.build] answers for its window. *)
Definition covers_close_pair (doc : IEDocument) (d : Z) (c : candidate)
  : Prop :=
  exists k l m,
    0 <= k
    /\ nth_error (doc_entities doc) (Z.to_nat k) = Some l
    /\ nth_error (doc_entities doc) (Z.to_nat (k + 1)) = Some m
    /\ occ_offset m - occ_offset_end l < d
    /\ cand_start c <= occ_offset l
    /\ occ_offset_end m <= cand_end c.

Definition built_from (doc : IEDocument) (c : candidate) : Prop :=
  forall s,
    cand_segment c = Some s ->
    TextSegment_build doc (cand_start c) (cand_end c) = Ok s.

(** ** core.py: [Evidence.colored_text] *)

(** [l.insert(i, x)]: a negative index counts from the end, and every
    index is clamped to the list. *)
Definition list_insert {A : Type} (l : list A) (i : Z) (x : A) : list A :=
  let j := Z.to_nat (slice_bound (len l) i) in
  firstn j l ++ x :: skipn j l.

(** [Evidence.colored_text(color_1, color_2)]; [RESET_ALL] is
    [colorama.Style.RESET_ALL]. *)
Definition colored_text (RESET_ALL : string) (self : Evidence)
    (color_1 color_2 : string) : result string :=
  match segment self with
  | None => Raise AttributeError
  | Some s =>
      occurr1 <- match o1 self with
                 | Some i => getitem (seg_entities s) i
                 | None => Raise TypeError
                 end ;;
      occurr2 <- match o2 self with
                 | Some i => getitem (seg_entities s) i
                 | None => Raise TypeError
                 end ;;
      let tkns := seg_tokens s in
      match o1 self, o2 self with
      | Some i1, Some i2 =>
          let tkns :=
            if i1 <? i2 then
              let tkns := list_insert tkns (eis_offset_end occurr2) RESET_ALL in
              let tkns := list_insert tkns (eis_offset occurr2) color_2 in
              let tkns := list_insert tkns (eis_offset_end occurr1) RESET_ALL in
              list_insert tkns (eis_offset occurr1) color_1
            else
              let tkns := list_insert tkns (eis_offset_end occurr1) RESET_ALL in
              let tkns := list_insert tkns (eis_offset occurr1) color_1 in
              let tkns := list_insert tkns (eis_offset_end occurr2) RESET_ALL in
              list_insert tkns (eis_offset occurr2) color_2 in
          Ok (String.concat " " tkns)
      | _, _ => Raise TypeError
      end
  end.

(** The tokens with the marks around two stretches, the first one from
    [a] to [a'] and the second one from [b] to [b']. *)
Definition marked (tokens : list string) (a a' b b' : Z)
    (color_a color_b reset : string) : list string :=
  slice tokens 0 a ++ color_a :: slice tokens a a' ++ reset
    :: slice tokens a' b ++ color_b :: slice tokens b b' ++ reset
    :: slice_from tokens b'.

(** ** models.py: the kinds of entities *)

Definition BASE_ENTITY_KINDS : list (list string) :=
  [["person"; "Person"]; ["location"; "Location"];
   ["organization"; "Organization"]]%string.

(** [s.split(sep)] for a separator of one character. *)
Fixpoint split_on (sep : ascii) (s : string) : list string :=
  match s with
  | EmptyString => [EmptyString]
  | String c s' =>
      if Ascii.eqb c sep then EmptyString :: split_on sep s'
      else
        match split_on sep s' with
        | h :: t => String c h :: t
        | [] => [String c EmptyString]
        end
  end.

(** What the module keeps: the environment variable
    [CUSTOM_ENTITY_KINDS] ([None] when it is not set) and the list
    [ENTITY_KINDS] of tuples. *)
Record kinds_state : Type := {
  environ_kinds : option string;
  ENTITY_KINDS : list (list string)
}.

Section CustomEntityKinds.

(** [c.isspace()], which is what [strip] removes. *)
Variable isspace : ascii -> bool.

Fixpoint lstrip (s : string) : string :=
  match s with
  | String c s' => if isspace c then lstrip s' else s
  | EmptyString => EmptyString
  end.

Definition string_rev (s : string) : string :=
  string_of_list_ascii (rev (list_ascii_of_string s)).

Definition strip (s : string) : string :=
  string_rev (lstrip (string_rev (lstrip s))).

(** [_get_custom_entity_kinds()] *)
Definition _get_custom_entity_kinds (st : kinds_state) : list (list string) :=
  let raw_custom :=
    strip (match environ_kinds st with Some v => v | None => "" end) in
  if String.eqb raw_custom "" then []
  else map (split_on ":") (split_on "," raw_custom).

(** [_merge_base_and_custom_kinds()]: the list is emptied and filled
    again. *)
Definition _merge_base_and_custom_kinds (st : kinds_state) : kinds_state :=
  {| environ_kinds := environ_kinds st;
     ENTITY_KINDS := ([] ++ BASE_ENTITY_KINDS) ++ _get_custom_entity_kinds st |}.

(** [environ[_KINDS_ENV] = value]: the environment of the process takes
    no text with a null character in it, and the assignment raises
    [ValueError] before anything is stored. *)
Definition environ_set (st : kinds_state) (value : string)
  : result kinds_state :=
  if existsb (Ascii.eqb "000") (list_ascii_of_string value)
  then Raise ValueError
  else Ok {| environ_kinds := Some value; ENTITY_KINDS := ENTITY_KINDS st |}.

(** [set_custom_entity_kinds(custom_entity_kinds)]: the state of the
    module after the call, and the outcome of the call. *)
Definition set_custom_entity_kinds (st : kinds_state)
    (custom_entity_kinds : list (string * string))
  : kinds_state * result unit :=
  let marshalled :=
    map (fun k => (fst k ++ ":" ++ snd k)%string) custom_entity_kinds in
  match environ_set st (String.concat "," marshalled) with
  | Ok st' => (_merge_base_and_custom_kinds st', Ok tt)
  | Raise e => (st, Raise e)
  | OutOfFuel => (st, OutOfFuel)
  end.

End CustomEntityKinds.

(** A cache of [get_entity] as calls of it leave it: no key twice, at
    most [ENTITY_CACHE_SIZE] entries, and under a key an entity of this
    kind and key. *)
Definition entity_cache (cache : list ((string * string) * Entity)) : Prop :=
  NoDup (dict_keys cache)
  /\ len cache <= ENTITY_CACHE_SIZE
  /\ forall key e, In (key, e) cache ->
                   ent_kind e = fst key /\ ent_key e = snd key.

(** The cache agrees with the store: what it holds under a key is what
    the store answers for this key. *)
Definition cache_agrees (Entity_objects : list Entity)
    (cache : list ((string * string) * Entity)) : Prop :=
  forall key e, In (key, e) cache ->
                get_entity Entity_objects (fst key) (snd key) = Ok e.

(** The character [c] does not occur in [s]. *)
Definition no_char (c : ascii) (s : string) : Prop :=
  ~ In c (list_ascii_of_string s).

(** [BootstrappedIEPipeline._confidence(evidence)] *)
Definition _confidence (self : BootstrappedIEPipeline) (evidence : Evidence)
  : score :=
  if dict_mem Evidence_eqb (knowledge self) evidence then
    match dict_get Evidence_eqb (knowledge self) evidence with
    | Some s => s
    | None => None
    end
  else Some (1 # 2)%Q.

(** * Properties *)


(** ** Sequences *)

Lemma len_nonneg {A : Type} (a : list A) : 0 <= len a.
Proof. unfold len; lia. Qed.

Lemma nth_error_lt {A : Type} (a : list A) (i : nat) (v : A) :
  nth_error a i = Some v -> (i < List.length a)%nat.
Proof. intros H. apply nth_error_Some. congruence. Qed.

Lemma getitem_nth {A : Type} (a : list A) (i : Z) :
  0 <= i < len a ->
  exists x, getitem a i = Ok x /\ nth_error a (Z.to_nat i) = Some x.
Proof.
  intros Hi. unfold getitem.
  destruct (i <? 0) eqn:Hneg; [apply Z.ltb_lt in Hneg; lia|].
  replace ((0 <=? i) && (i <? len a)) with true
    by (symmetry; apply andb_true_iff; split;
        [apply Z.leb_le | apply Z.ltb_lt]; lia).
  destruct (nth_error a (Z.to_nat i)) as [x|] eqn:Hn.
  - exists x; auto.
  - apply nth_error_None in Hn. unfold len in Hi. lia.
Qed.

Lemma slice_bound_id (n i : Z) : 0 <= i <= n -> slice_bound n i = i.
Proof.
  intros H. unfold slice_bound.
  destruct (i <? 0) eqn:E; [apply Z.ltb_lt in E; lia | lia].
Qed.

Lemma In_firstn_skipn {A : Type} (a : list A) (s n : nat) (x : A) :
  In x (firstn n (skipn s a)) ->
  exists i, (s <= i < s + n)%nat /\ nth_error a i = Some x.
Proof.
  intros Hin. apply In_nth_error in Hin. destruct Hin as [k Hk].
  assert (Hlt : (k < n)%nat).
  { destruct (Nat.lt_ge_cases k n) as [|Hge]; auto.
    rewrite nth_error_firstn in Hk.
    destruct (Nat.ltb_spec k n); [lia | discriminate]. }
  rewrite nth_error_firstn in Hk.
  destruct (Nat.ltb_spec k n); [|lia].
  rewrite nth_error_skipn in Hk.
  exists (s + k)%nat. split; [lia | assumption].
Qed.

Lemma In_slice {A : Type} (a : list A) (l r : Z) (x : A) :
  0 <= l <= len a -> 0 <= r <= len a ->
  In x (slice a l r) ->
  exists i, l <= i < r /\ nth_error a (Z.to_nat i) = Some x.
Proof.
  intros Hl Hr Hin. unfold slice in Hin.
  rewrite !slice_bound_id in Hin by assumption.
  apply In_firstn_skipn in Hin. destruct Hin as [i [Hi Hx]].
  exists (Z.of_nat i). rewrite Nat2Z.id. split; [lia | assumption].
Qed.

Lemma In_slice_from {A : Type} (a : list A) (r : Z) (x : A) :
  0 <= r <= len a ->
  In x (slice_from a r) ->
  exists i, r <= i /\ nth_error a (Z.to_nat i) = Some x.
Proof.
  intros Hr Hin. unfold slice_from in Hin.
  rewrite slice_bound_id in Hin by assumption.
  apply In_nth_error in Hin. destruct Hin as [k Hk].
  rewrite nth_error_skipn in Hk.
  exists (Z.of_nat (Z.to_nat r + k)). rewrite Nat2Z.id.
  split; [lia | assumption].
Qed.

Lemma sorted_by_nth {A : Type} (key : A -> Z) (a : list A) :
  sorted_by key a ->
  forall (i j : nat) (x y : A),
    (i <= j)%nat -> nth_error a i = Some x -> nth_error a j = Some y ->
    key x <= key y.
Proof.
  unfold sorted_by. induction 1 as [|h t Hs IH Hall]; intros i j x y Hij Hi Hj.
  - destruct i; discriminate.
  - destruct i as [|i], j as [|j]; simpl in *.
    + injection Hi as <-; injection Hj as <-; lia.
    + injection Hi as <-. apply nth_error_In in Hj.
      rewrite Forall_forall in Hall. auto.
    + lia.
    + apply (IH i j); auto; lia.
Qed.

(** ** The interval-offset lookup *)

Section IntervalOffsetsCorrect.

Context {A : Type}.
Variable key : A -> Z.
Variable a : list A.
Variables xl xr : Z.
Hypothesis a_sorted : sorted_by key a.
Hypothesis xl_le_xr : xl <= xr.

Lemma keys_below_extend (x n m : Z) (v : A) :
  0 <= m -> nth_error a (Z.to_nat m) = Some v -> key v < x ->
  keys_below key a x (m + 1).
Proof.
  intros Hm Hv Hlt i w Hi Hw.
  assert (key w <= key v).
  { apply (sorted_by_nth key a a_sorted (Z.to_nat i) (Z.to_nat m));
      auto; lia. }
  lia.
Qed.

Lemma keys_from_extend (x m : Z) (v : A) :
  0 <= m -> nth_error a (Z.to_nat m) = Some v -> x <= key v ->
  keys_from key a x m.
Proof.
  intros Hm Hv Hle i w Hi Hw.
  assert (key v <= key w).
  { apply (sorted_by_nth key a a_sorted (Z.to_nat m) (Z.to_nat i));
      auto; lia. }
  lia.
Qed.

Lemma keys_below_weaken (x y n : Z) :
  x <= y -> keys_below key a x n -> keys_below key a y n.
Proof. intros Hxy H i v Hi Hv. specialize (H i v Hi Hv). lia. Qed.

Lemma reduce_range_done (fuel : nat) (lo hi : Z) (mid : option Z) :
  hi <= lo -> reduce_range key a xl xr fuel lo hi mid = Ok (lo, hi, mid).
Proof.
  intros H. destruct fuel; simpl;
    (destruct (lo <? hi) eqn:E; [apply Z.ltb_lt in E; lia | reflexivity]).
Qed.

Lemma bisect_left_done (fuel : nat) (llo lhi : Z) :
  lhi <= llo -> bisect_left key a xl fuel llo lhi = Ok llo.
Proof.
  intros H. destruct fuel; simpl;
    (destruct (llo <? lhi) eqn:E; [apply Z.ltb_lt in E; lia | reflexivity]).
Qed.

Lemma bisect_right_done (fuel : nat) (rlo rhi : Z) :
  rhi <= rlo -> bisect_right key a xr fuel rlo rhi = Ok rlo.
Proof.
  intros H. destruct fuel; simpl;
    (destruct (rlo <? rhi) eqn:E; [apply Z.ltb_lt in E; lia | reflexivity]).
Qed.

Lemma reduce_range_correct (fuel : nat) :
  forall lo hi m0,
    0 <= lo < hi -> hi <= len a -> (Z.to_nat (hi - lo) <= fuel)%nat ->
    keys_below key a xl lo -> keys_from key a xr hi ->
    exists lo' hi' mid,
      reduce_range key a xl xr fuel lo hi m0 = Ok (lo', hi', Some mid)
      /\ reduced key a xl xr lo' hi' mid.
Proof.
  induction fuel as [|fuel IH]; intros lo hi m0 Hlo Hhi Hfuel Hb Hf.
  - lia.
  - simpl. replace (lo <? hi) with true by (symmetry; apply Z.ltb_lt; lia).
    set (mid := (lo + hi) / 2).
    assert (Hmid : lo <= mid < hi).
    { unfold mid. split.
      - apply Z.div_le_lower_bound; lia.
      - apply Z.div_lt_upper_bound; lia. }
    destruct (getitem_nth a mid) as [v [Hget Hnth]]; [lia|].
    rewrite Hget. simpl.
    destruct ((xl <=? key v) && (xr <=? key v)) eqn:Hhigh.
    + apply andb_true_iff in Hhigh. destruct Hhigh as [_ Hhigh].
      apply Z.leb_le in Hhigh.
      assert (Hf' : keys_from key a xr mid)
        by (apply (keys_from_extend xr mid v); auto; lia).
      destruct (Z.eq_dec lo mid) as [Heq|Hne].
      * rewrite reduce_range_done by lia.
        exists lo, mid, mid. split; [reflexivity|].
        unfold reduced. repeat split; auto; try lia.
      * apply IH; auto; lia.
    + destruct ((key v <? xl) && (key v <? xr)) eqn:Hlow.
      * apply andb_true_iff in Hlow. destruct Hlow as [Hlow _].
        apply Z.ltb_lt in Hlow.
        assert (Hb' : keys_below key a xl (mid + 1))
          by (apply (keys_below_extend xl (mid + 1) mid v); auto; lia).
        destruct (Z.eq_dec (mid + 1) hi) as [Heq|Hne].
        -- rewrite reduce_range_done by lia.
           exists (mid + 1), hi, mid. split; [reflexivity|].
           unfold reduced. repeat split; auto; try lia.
        -- apply IH; auto; lia.
      * exists lo, hi, mid. split; [reflexivity|].
        apply andb_false_iff in Hhigh. apply andb_false_iff in Hlow.
        rewrite !Z.leb_gt in Hhigh. rewrite !Z.ltb_ge in Hlow.
        unfold reduced. repeat split; auto; try lia.
        right. split; [lia|]. exists v. split; [assumption | lia].
Qed.

Lemma bisect_left_correct (fuel : nat) :
  forall llo lhi,
    0 <= llo <= lhi -> lhi < len a -> (Z.to_nat (lhi - llo) <= fuel)%nat ->
    keys_below key a xl llo -> keys_from key a xl lhi ->
    exists l,
      bisect_left key a xl fuel llo lhi = Ok l
      /\ llo <= l <= lhi /\ keys_below key a xl l /\ keys_from key a xl l.
Proof.
  induction fuel as [|fuel IH]; intros llo lhi Hlo Hhi Hfuel Hb Hf.
  - assert (llo = lhi) by lia. subst.
    rewrite bisect_left_done by lia. exists lhi. repeat split; auto; lia.
  - destruct (Z.eq_dec llo lhi) as [Heq|Hne].
    + subst. rewrite bisect_left_done by lia.
      exists lhi. repeat split; auto; lia.
    + simpl.
      replace (llo <? lhi) with true by (symmetry; apply Z.ltb_lt; lia).
      set (mid := (llo + lhi) / 2).
      assert (Hmid : llo <= mid < lhi).
      { unfold mid. split.
        - apply Z.div_le_lower_bound; lia.
        - apply Z.div_lt_upper_bound; lia. }
      destruct (getitem_nth a mid) as [v [Hget Hnth]]; [lia|].
      rewrite Hget. simpl.
      destruct (key v <? xl) eqn:Hlt.
      * apply Z.ltb_lt in Hlt.
        assert (Hb' : keys_below key a xl (mid + 1))
          by (apply (keys_below_extend xl (mid + 1) mid v); auto; lia).
        destruct (IH (mid + 1) lhi) as [l [Hl Hp]]; auto; try lia.
        exists l. split; [assumption|]. repeat split; try apply Hp; lia.
      * apply Z.ltb_ge in Hlt.
        assert (Hf' : keys_from key a xl mid)
          by (apply (keys_from_extend xl mid v); auto; lia).
        destruct (IH llo mid) as [l [Hl Hp]]; auto; try lia.
        exists l. split; [assumption|]. repeat split; try apply Hp; lia.
Qed.

Lemma bisect_right_correct (fuel : nat) :
  forall rlo rhi,
    0 <= rlo <= rhi -> rhi <= len a -> (Z.to_nat (rhi - rlo) <= fuel)%nat ->
    keys_below key a xr rlo -> keys_from key a xr rhi ->
    exists r,
      bisect_right key a xr fuel rlo rhi = Ok r
      /\ rlo <= r <= rhi /\ keys_below key a xr r /\ keys_from key a xr r.
Proof.
  induction fuel as [|fuel IH]; intros rlo rhi Hlo Hhi Hfuel Hb Hf.
  - assert (rlo = rhi) by lia. subst.
    rewrite bisect_right_done by lia. exists rhi. repeat split; auto; lia.
  - destruct (Z.eq_dec rlo rhi) as [Heq|Hne].
    + subst. rewrite bisect_right_done by lia.
      exists rhi. repeat split; auto; lia.
    + simpl.
      replace (rlo <? rhi) with true by (symmetry; apply Z.ltb_lt; lia).
      set (mid := (rlo + rhi) / 2).
      assert (Hmid : rlo <= mid < rhi).
      { unfold mid. split.
        - apply Z.div_le_lower_bound; lia.
        - apply Z.div_lt_upper_bound; lia. }
      destruct (getitem_nth a mid) as [v [Hget Hnth]]; [lia|].
      rewrite Hget. simpl.
      destruct (xr <=? key v) eqn:Hle.
      * apply Z.leb_le in Hle.
        assert (Hf' : keys_from key a xr mid)
          by (apply (keys_from_extend xr mid v); auto; lia).
        destruct (IH rlo mid) as [r [Hr Hp]]; auto; try lia.
        exists r. split; [assumption|]. repeat split; try apply Hp; lia.
      * apply Z.leb_gt in Hle.
        assert (Hb' : keys_below key a xr (mid + 1))
          by (apply (keys_below_extend xr (mid + 1) mid v); auto; lia).
        destruct (IH (mid + 1) rhi) as [r [Hr Hp]]; auto; try lia.
        exists r. split; [assumption|]. repeat split; try apply Hp; lia.
Qed.

End IntervalOffsetsCorrect.

(** The three loops together: the pair that [_interval_offsets] returns
    splits a sorted list at the two ends of the query. *)
Lemma interval_offsets_correct :
  forall (A : Type) (key : A -> Z) (a : list A) (xl xr : Z),
    sorted_by key a -> xl <= xr ->
    exists l r,
      _interval_offsets key a xl xr 0 None = Ok (l, r)
      /\ 0 <= l <= r /\ r <= len a
      /\ Forall (fun v => key v < xl) (slice a 0 l)
      /\ Forall (fun v => xl <= key v < xr) (slice a l r)
      /\ Forall (fun v => xr <= key v) (slice_from a r)
      /\ (xl = xr -> l = r).
Proof.
  intros A key a xl xr Hsorted Hle.
  assert (Hfinal : forall l r,
             0 <= l <= r -> r <= len a ->
             keys_below key a xl l -> keys_from key a xl l ->
             keys_below key a xr r -> keys_from key a xr r ->
             Forall (fun v => key v < xl) (slice a 0 l)
             /\ Forall (fun v => xl <= key v < xr) (slice a l r)
             /\ Forall (fun v => xr <= key v) (slice_from a r)
             /\ (xl = xr -> l = r)).
  { intros l r Hl Hr Hbl Hfl Hbr Hfr. pose proof (len_nonneg a) as Hn.
    repeat split.
    - apply Forall_forall. intros v Hin.
      apply In_slice in Hin; try lia. destruct Hin as [i [Hi Hv]].
      apply (Hbl i v); auto.
    - apply Forall_forall. intros v Hin.
      apply In_slice in Hin; try lia. destruct Hin as [i [Hi Hv]].
      split; [apply (Hfl i v) | apply (Hbr i v)]; auto; lia.
    - apply Forall_forall. intros v Hin.
      apply In_slice_from in Hin; try lia. destruct Hin as [i [Hi Hv]].
      apply (Hfr i v); auto.
    - intros ->. destruct (Z.eq_dec l r) as [|Hne]; [assumption|].
      destruct (getitem_nth a l) as [v [_ Hv]]; [lia|].
      pose proof (Hfl l v ltac:(lia) Hv). pose proof (Hbr l v ltac:(lia) Hv).
      lia. }
  pose proof (len_nonneg a) as Hn.
  unfold _interval_offsets. simpl (0 <? 0).
  destruct (xl >? xr) eqn:Hgt; [apply Z.gtb_lt in Hgt; lia|].
  destruct (0 =? len a) eqn:Hempty.
  - apply Z.eqb_eq in Hempty. exists 0, (len a).
    split; [reflexivity|]. split; [lia|]. split; [lia|].
    apply Hfinal; try lia.
    + intros i v Hi. lia.
    + intros i v Hi Hv. apply nth_error_lt in Hv. unfold len in *. lia.
    + intros i v Hi Hv. apply nth_error_lt in Hv. unfold len in *. lia.
    + intros i v Hi Hv. apply nth_error_lt in Hv. unfold len in *. lia.
  - apply Z.eqb_neq in Hempty.
    destruct (reduce_range_correct key a xl xr Hsorted Hle
                (Z.to_nat (len a - 0)) 0 (len a) None)
      as [lo [hi [mid [Hred Hpost]]]]; try lia.
    + intros i v Hi; lia.
    + intros i v Hi Hv. apply nth_error_lt in Hv. unfold len in *. lia.
    + rewrite Hred. simpl.
      destruct Hpost as [Hlo [Hhi [Hmid [Hb [Hf Hcase]]]]].
      destruct Hcase as [[Heq Hnext] | [Hin [v [Hv Hkey]]]].
      * (* the range is empty *)
        subst hi.
        assert (Hl : bisect_left key a xl (Z.to_nat (mid - lo)) lo mid = Ok lo)
          by (apply bisect_left_done; lia).
        assert (Hr : bisect_right key a xr (Z.to_nat (lo - mid)) mid lo = Ok lo).
        { destruct Hnext as [-> | Hnext]; [apply bisect_right_done; lia|].
          replace (Z.to_nat (lo - mid)) with 1%nat by lia. simpl.
          replace (mid <? lo) with true by (symmetry; apply Z.ltb_lt; lia).
          replace ((mid + lo) / 2) with mid
            by (apply Z.div_unique with (r := 1); lia).
          destruct (getitem_nth a mid) as [w [Hget Hw]]; [lia|].
          rewrite Hget. simpl.
          pose proof (Hb mid w ltac:(lia) Hw).
          replace (xr <=? key w) with false
            by (symmetry; apply Z.leb_gt; lia).
          replace (mid + 1 <? lo) with false
            by (symmetry; apply Z.ltb_ge; lia).
          f_equal. lia. }
        rewrite Hl, Hr. simpl. rewrite Z.eqb_refl. simpl.
        exists lo, lo. split; [reflexivity|]. split; [lia|]. split; [lia|].
        apply Hfinal; auto; try lia.
        -- intros i w Hi Hw. specialize (Hf i w Hi Hw). lia.
        -- apply (keys_below_weaken key a xl xr); auto.
      * (* [mid] is inside the query *)
        destruct (bisect_left_correct key a xl Hsorted
                    (Z.to_nat (mid - lo)) lo mid)
          as [l [Hl [Hlr [Hbl Hfl]]]]; auto; try lia.
        { apply (keys_from_extend key a Hsorted xl mid v); auto; lia. }
        destruct (bisect_right_correct key a xr Hsorted
                    (Z.to_nat (hi - mid)) mid hi)
          as [r [Hr [Hrr [Hbr Hfr]]]]; auto; try lia.
        { intros i w Hi Hw.
          assert (key w <= key v).
          { apply (sorted_by_nth key a Hsorted (Z.to_nat i) (Z.to_nat mid));
              auto; lia. }
          lia. }
        rewrite Hl, Hr. simpl.
        assert (Ha1 : (if lo =? l then Ok tt
                       else x <- getitem a (l - 1) ;; py_assert (key x <? xl))
                      = Ok tt).
        { destruct (lo =? l) eqn:E; [reflexivity|]. apply Z.eqb_neq in E.
          destruct (getitem_nth a (l - 1)) as [w [Hget Hw]]; [lia|].
          rewrite Hget. simpl.
          pose proof (Hbl (l - 1) w ltac:(lia) Hw).
          replace (key w <? xl) with true by (symmetry; apply Z.ltb_lt; lia).
          reflexivity. }
        assert (Ha2 : (if hi =? r then Ok tt
                       else x <- getitem a r ;; py_assert (key x >=? xr))
                      = Ok tt).
        { destruct (hi =? r) eqn:E; [reflexivity|]. apply Z.eqb_neq in E.
          destruct (getitem_nth a r) as [w [Hget Hw]]; [lia|].
          rewrite Hget. simpl.
          pose proof (Hfr r w ltac:(lia) Hw).
          replace (key w >=? xr) with true
            by (symmetry; rewrite Z.geb_leb; apply Z.leb_le; lia).
          reflexivity. }
        rewrite Ha1. simpl. rewrite Ha2. simpl.
        exists l, r. split; [reflexivity|]. split; [lia|]. split; [lia|].
        apply Hfinal; auto; lia.
Qed.

(** C2.  On a list sorted non-decreasingly under [key], and for
    [xl <= xr], [_interval_offsets(a, xl, xr)] returns a pair [(l, r)] of
    indices of [a] such that every element of [a[0:l]] has a key below
    [xl], every element of [a[l:r]] has its key in [[xl, xr)], and every
    element of [a[r:]] has a key of at least [xr]; when [xl = xr] the slice
    is empty ([l = r]); and on [[1,3,3,5,8]] with query [[3,5)] the answer
    is [(1, 3)]. *)
Theorem interval_offsets_partition :
  forall (A : Type) (key : A -> Z) (a : list A) (xl xr : Z),
    sorted_by key a -> xl <= xr ->
    (exists l r,
        _interval_offsets key a xl xr 0 None = Ok (l, r)
        /\ 0 <= l <= r /\ r <= len a
        /\ Forall (fun v => key v < xl) (slice a 0 l)
        /\ Forall (fun v => xl <= key v < xr) (slice a l r)
        /\ Forall (fun v => xr <= key v) (slice_from a r)
        /\ (xl = xr -> l = r))
    /\ _interval_offsets (fun x => x) [1; 3; 3; 5; 8] 3 5 0 None = Ok (1, 3).
Proof.
  intros A key a xl xr Hsorted Hle.
  split; [apply interval_offsets_correct; assumption | reflexivity].
Qed.

(** A witness for C2: the list of the claim, with the query [[3, 5)]. *)
Lemma interval_offsets_partition_witness :
  exists l r,
    _interval_offsets (fun x => x) [1; 3; 3; 5; 8] 3 5 0 None = Ok (l, r)
    /\ 0 <= l <= r /\ r <= len [1; 3; 3; 5; 8]
    /\ Forall (fun v => v < 3) (slice [1; 3; 3; 5; 8] 0 l)
    /\ Forall (fun v => 3 <= v < 5) (slice [1; 3; 3; 5; 8] l r)
    /\ Forall (fun v => 5 <= v) (slice_from [1; 3; 3; 5; 8] r)
    /\ (3 = 5 -> l = r).
Proof.
  apply (interval_offsets_partition Z (fun x => x) [1; 3; 3; 5; 8] 3 5).
  - unfold sorted_by.
    repeat (constructor; [|repeat (constructor; try lia)]). constructor.
  - lia.
Defined.

(** ** Writing a preprocessing result *)

Lemma insert_sorted_In (x y : Z) (l : list Z) :
  In y (insert_sorted x l) -> y = x \/ In y l.
Proof.
  induction l as [|h t IH]; simpl.
  - intros [H|[]]; auto.
  - destruct (x <? h); simpl; intros [H|H]; auto.
    destruct (IH H); auto.
Qed.

Lemma insert_sorted_sorted (x : Z) (l : list Z) :
  StronglySorted Z.le l -> StronglySorted Z.le (insert_sorted x l).
Proof.
  induction 1 as [|h t Hs IH Hall]; simpl.
  - repeat constructor.
  - destruct (x <? h) eqn:E.
    + apply Z.ltb_lt in E. constructor; [constructor; assumption|].
      constructor; [lia|]. eapply Forall_impl; [|exact Hall].
      simpl; intros; lia.
    + apply Z.ltb_ge in E. constructor; [assumption|].
      apply Forall_forall. intros y Hy.
      apply insert_sorted_In in Hy. destruct Hy as [->|Hy]; [assumption|].
      rewrite Forall_forall in Hall. auto.
Qed.

Lemma fold_insert_sorted (l acc : list Z) :
  StronglySorted Z.le acc ->
  StronglySorted Z.le (fold_left (fun acc x => insert_sorted x acc) l acc).
Proof.
  revert acc. induction l as [|x l IH]; simpl; intros acc H; auto.
  apply IH. apply insert_sorted_sorted. assumption.
Qed.

Lemma sorted_is_sorted (l : list Z) : StronglySorted Z.le (sorted l).
Proof. apply fold_insert_sorted. constructor. Qed.

Lemma insert_sorted_last (x : Z) (l : list Z) :
  Forall (fun y => y <= x) l -> insert_sorted x l = l ++ [x].
Proof.
  induction 1 as [|h t Hh Ht IH]; simpl; [reflexivity|].
  replace (x <? h) with false by (symmetry; apply Z.ltb_ge; lia).
  rewrite IH. reflexivity.
Qed.

Lemma sorted_app_le (acc l : list Z) (x : Z) :
  StronglySorted Z.le (acc ++ x :: l) -> Forall (fun y => y <= x) acc.
Proof.
  induction acc as [|h t IH]; simpl; intros H; [constructor|].
  inversion H as [|? ? Hs Hall]; subst. constructor; [|auto].
  rewrite Forall_forall in Hall. apply Hall.
  apply in_or_app. right. left. reflexivity.
Qed.

Lemma fold_insert_id (l acc : list Z) :
  StronglySorted Z.le (acc ++ l) ->
  fold_left (fun acc x => insert_sorted x acc) l acc = acc ++ l.
Proof.
  revert acc. induction l as [|x l IH]; simpl; intros acc H.
  - rewrite app_nil_r. reflexivity.
  - rewrite insert_sorted_last by (eapply sorted_app_le; eassumption).
    rewrite IH; rewrite <- app_assoc; simpl; [reflexivity | assumption].
Qed.

Lemma sorted_fixed_point (l : list Z) :
  sorted l = l <-> StronglySorted Z.le l.
Proof.
  split.
  - intros <-. apply sorted_is_sorted.
  - intros H. unfold sorted. rewrite fold_insert_id; auto.
Qed.

Lemma nodup_length_le (l : list Z) :
  (List.length (nodup Z.eq_dec l) <= List.length l)%nat.
Proof.
  induction l as [|x l IH]; simpl; [lia|].
  destruct (in_dec Z.eq_dec x l); simpl; lia.
Qed.

Lemma len_set_NoDup (l : list Z) : len_set l = len l <-> NoDup l.
Proof.
  unfold len_set, len. split.
  - induction l as [|x l IH]; simpl; intros H; [constructor|].
    pose proof (nodup_length_le l).
    destruct (in_dec Z.eq_dec x l); simpl in H; [lia|].
    constructor; [assumption | apply IH; lia].
  - intros H. rewrite nodup_fixed_point; auto.
Qed.

Lemma strictly_increasing (l : list Z) :
  StronglySorted Z.lt l <-> StronglySorted Z.le l /\ NoDup l.
Proof.
  split.
  - induction 1 as [|h t Hs IH Hall]; [split; constructor|].
    destruct IH as [IH1 IH2]. split.
    + constructor; [assumption|].
      eapply Forall_impl; [|exact Hall]. simpl; intros; lia.
    + constructor; [|assumption]. intros Hin.
      rewrite Forall_forall in Hall. specialize (Hall h Hin). lia.
  - intros [Hs Hn]. induction Hs as [|h t Hs IH Hall]; [constructor|].
    inversion Hn as [|? ? Hnotin Hn']; subst.
    constructor; [auto|]. apply Forall_forall. intros y Hy.
    rewrite Forall_forall in Hall. specialize (Hall y Hy).
    assert (y <> h) by (intros ->; contradiction). lia.
Qed.

Lemma getitem_first {A : Type} (l : list A) :
  getitem l 0 = match hd_error l with Some x => Ok x | None => Raise IndexError end.
Proof.
  destruct l as [|x l]; [reflexivity|].
  unfold getitem, len. simpl.
  destruct (Z.pos (Pos.of_succ_nat (List.length l))) eqn:E; try lia; reflexivity.
Qed.

Lemma getitem_last {A : Type} (l : list A) :
  getitem l (-1) =
  match hd_error (rev l) with Some x => Ok x | None => Raise IndexError end.
Proof.
  destruct l as [|x l _] using rev_ind; [reflexivity|].
  rewrite rev_app_distr. cbn [rev app hd_error].
  unfold getitem. change (-1 <? 0) with true. cbv iota.
  assert (Hlen : len (l ++ [x]) = len l + 1)
    by (unfold len; rewrite length_app; simpl; lia).
  pose proof (len_nonneg l).
  replace ((0 <=? -1 + len (l ++ [x])) && (-1 + len (l ++ [x]) <? len (l ++ [x])))
    with true
    by (symmetry; apply andb_true_iff; split;
        [apply Z.leb_le | apply Z.ltb_lt]; lia).
  replace (Z.to_nat (-1 + len (l ++ [x]))) with (List.length l)
    by (unfold len in *; lia).
  rewrite nth_error_app2 by lia. rewrite Nat.sub_diag. reflexivity.
Qed.

Lemma forallb_is_int (res : list pyval) :
  forallb is_int res = true <-> Forall (fun x => is_int x = true) res.
Proof. apply forallb_forall_iff || (rewrite forallb_forall, Forall_forall; tauto). Qed.

Lemma list_Z_eqb_eq (l1 l2 : list Z) : list_Z_eqb l1 l2 = true <-> l1 = l2.
Proof.
  unfold list_Z_eqb. destruct (list_eq_dec Z.eq_dec l1 l2); split;
    congruence.
Qed.

(** The checks of the sentencer step pass exactly on the valid results. *)
Lemma check_sentencer_valid (self : IEDocument) (res : list pyval) :
  check_sentencer self res = Ok tt <-> valid_sentencer_result self res.
Proof.
  unfold check_sentencer, valid_sentencer_result.
  rewrite <- forallb_is_int.
  destruct (forallb is_int res); simpl;
    [|split; [discriminate | intros [H _]; discriminate]].
  rewrite strictly_increasing, <- sorted_fixed_point, <- len_set_NoDup.
  rewrite <- list_Z_eqb_eq.
  destruct (list_Z_eqb (sorted (ints res)) (ints res)); simpl;
    [|split; [discriminate | intros [_ [[H _] _]]; discriminate]].
  pose proof (nodup_length_le (ints res)) as Hle.
  destruct (len_set (ints res) <? len (ints res)) eqn:Hdup.
  { apply Z.ltb_lt in Hdup.
    split; [discriminate | intros [_ [[_ H] _]]; lia]. }
  apply Z.ltb_ge in Hdup.
  assert (Hset : len_set (ints res) = len (ints res))
    by (unfold len_set, len in *; lia).
  rewrite getitem_first, getitem_last.
  destruct (hd_error (ints res)) as [first|]; simpl;
    [|split; [discriminate | intros [_ [_ [H _]]]; discriminate]].
  destruct (first =? 0) eqn:Hfirst; simpl.
  - apply Z.eqb_eq in Hfirst. subst first.
    destruct (hd_error (rev (ints res))) as [last|]; simpl;
      [|split; [discriminate | intros [_ [_ [_ H]]]; discriminate]].
    destruct (last =? len (doc_tokens self)) eqn:Hlast; simpl.
    + apply Z.eqb_eq in Hlast. subst last. tauto.
    + apply Z.eqb_neq in Hlast.
      split; [discriminate | intros [_ [_ [_ H]]]; congruence].
  - apply Z.eqb_neq in Hfirst.
    split; [discriminate | intros [_ [_ [H _]]]; congruence].
Qed.

Lemma getitem_not_out_of_fuel {A : Type} (l : list A) (i : Z) :
  getitem l i <> OutOfFuel.
Proof.
  unfold getitem.
  destruct ((0 <=? (if i <? 0 then i + len l else i))
            && ((if i <? 0 then i + len l else i) <? len l));
    [destruct (nth_error l _)|]; discriminate.
Qed.

Lemma check_sentencer_raises (self : IEDocument) (res : list pyval) :
  check_sentencer self res <> Ok tt ->
  exists e, check_sentencer self res = Raise e.
Proof.
  intros Hne. unfold check_sentencer in *.
  destruct (negb (forallb is_int res)); [eauto|].
  destruct (negb (list_Z_eqb (sorted (ints res)) (ints res))); [eauto|].
  destruct (len_set (ints res) <? len (ints res)); [eauto|].
  pose proof (getitem_not_out_of_fuel (ints res) 0) as H0.
  pose proof (getitem_not_out_of_fuel (ints res) (-1)) as H1.
  destruct (getitem (ints res) 0) as [first| |]; simpl in *;
    [|eauto|contradiction].
  destruct (negb (first =? 0)); [eauto|].
  destruct (getitem (ints res) (-1)) as [last| |]; simpl in *;
    [|eauto|contradiction].
  destruct (negb (last =? len (doc_tokens self))); [eauto|].
  contradiction.
Qed.

(** C8.  [set_preprocess_result] validates before it mutates.  For the
    sentencer step a result that is not made of integers only, strictly
    increasing, starting at 0 and ending at the token count raises an
    exception and leaves the document as it was, and a result that is all of
    this is written; for the tagging step a result whose length is not the
    token count raises [ValueError] and leaves the document as it was, and a
    result of the right length is written. *)
Theorem set_preprocess_result_validates :
  forall (self : IEDocument) (now : Z),
    (forall res : list pyval,
        ~ valid_sentencer_result self res ->
        exists e,
          set_preprocess_result self now (Some sentencer) res
          = (self, Raise e))
    /\ (forall res : list pyval,
           valid_sentencer_result self res ->
           set_preprocess_result self now (Some sentencer) res
           = (flag_preprocess_done (set_sentences self (ints res)) now
                sentencer, Ok tt))
    /\ (forall res : list string,
           len res <> len (doc_tokens self) ->
           set_preprocess_result self now (Some tagging) res
           = (self, Raise ValueError))
    /\ (forall res : list string,
           len res = len (doc_tokens self) ->
           set_preprocess_result self now (Some tagging) res
           = (flag_preprocess_done (set_postags self res) now tagging, Ok tt)).
Proof.
  intros self now. repeat split.
  - intros res Hinvalid. simpl.
    destruct (check_sentencer_raises self res) as [e He].
    + intros Hok. apply Hinvalid. apply check_sentencer_valid. exact Hok.
    + rewrite He. exists e. reflexivity.
  - intros res Hvalid. simpl.
    apply check_sentencer_valid in Hvalid. rewrite Hvalid. reflexivity.
  - intros res Hlen. simpl. unfold check_tagging.
    apply Z.eqb_neq in Hlen. rewrite Hlen. reflexivity.
  - intros res Hlen. simpl. unfold check_tagging.
    apply Z.eqb_eq in Hlen. rewrite Hlen. reflexivity.
Qed.

(** C10.  With the sentencer step and an empty result the call raises
    [IndexError] and the document is as it was: the three checks before
    [result[0]] pass on the empty list, and reading [result[0]] raises. *)
Theorem sentencer_empty_result_index_error :
  forall (self : IEDocument) (now : Z),
    set_preprocess_result self now (Some sentencer) ([] : list pyval)
    = (self, Raise IndexError)
    /\ forallb is_int [] = true
    /\ list_Z_eqb (sorted (ints [])) (ints []) = true
    /\ (len_set (ints []) <? len (ints [])) = false
    /\ getitem (ints []) 0 = Raise IndexError.
Proof. intros self now. repeat split. Qed.

(** ** Building a segment *)

Lemma slices_cover {A : Type} (a : list A) (l r : Z) :
  0 <= l <= r -> r <= len a ->
  a = slice a 0 l ++ slice a l r ++ slice_from a r.
Proof.
  intros Hl Hr. pose proof (len_nonneg a) as Hn.
  unfold slice, slice_from.
  rewrite !slice_bound_id by lia.
  replace (Z.to_nat (l - 0)) with (Z.to_nat l) by lia.
  change (skipn (Z.to_nat 0) a) with a.
  replace (Z.to_nat r) with (Z.to_nat (r - l) + Z.to_nat l)%nat by lia.
  rewrite <- skipn_skipn.
  rewrite firstn_skipn, firstn_skipn. reflexivity.
Qed.

Lemma filter_none {A : Type} (p : A -> bool) (l : list A) :
  Forall (fun x => p x = false) l -> filter p l = [].
Proof.
  induction 1 as [|x l Hx Hl IH]; simpl; [reflexivity|].
  rewrite Hx. assumption.
Qed.

Lemma filter_all {A : Type} (p : A -> bool) (l : list A) :
  Forall (fun x => p x = true) l -> filter p l = l.
Proof.
  induction 1 as [|x l Hx Hl IH]; simpl; [reflexivity|].
  rewrite Hx, IH. reflexivity.
Qed.

Lemma for_each_rebase (start end_ : Z) (l : list EntityOccurrence) :
  Forall (fun o => in_window start end_ o = true) l ->
  for_each (entity_in_segment start end_) l = Ok (map (rebase start) l).
Proof.
  induction 1 as [|o l Ho Hl IH]; simpl; [reflexivity|].
  unfold entity_in_segment at 1. unfold in_window in Ho. rewrite Ho. simpl.
  rewrite IH. reflexivity.
Qed.

Lemma len_slice_le {A : Type} (a : list A) (i j : Z) :
  i <= j -> len (slice a i j) <= j - i.
Proof.
  intros Hij. pose proof (len_nonneg a) as Hn. unfold slice.
  set (n := len a) in *. unfold len. rewrite length_firstn.
  unfold slice_bound.
  destruct (i <? 0) eqn:Ei; destruct (j <? 0) eqn:Ej;
    rewrite ?Z.ltb_lt, ?Z.ltb_ge in *; lia.
Qed.

(** The entities of a built segment, when the occurrences of the document
    are sorted by offset. *)
Lemma build_entities_of_window (document : IEDocument)
    (token_offset token_offset_end : Z) (s : TextSegment) :
  sorted_by occ_offset (doc_entities document) ->
  TextSegment_build document token_offset token_offset_end = Ok s ->
  token_offset <= token_offset_end
  /\ seg_entities s
     = map (rebase token_offset)
         (filter (in_window token_offset token_offset_end)
            (doc_entities document))
  /\ seg_tokens s = slice (doc_tokens document) token_offset token_offset_end
  /\ seg_offset s = token_offset.
Proof.
  intros Hsorted Hbuild.
  assert (Hle : token_offset <= token_offset_end).
  { destruct (Z_le_gt_dec token_offset token_offset_end) as [|Hgt]; auto.
    exfalso. unfold TextSegment_build in Hbuild.
    destruct (if token_offset <? len (doc_offsets document) then _ else _);
      simpl in Hbuild; try discriminate.
    destruct (if token_offset_end <? len (doc_offsets document) then _ else _);
      simpl in Hbuild; try discriminate.
    unfold _interval_offsets at 1 in Hbuild. simpl (0 <? 0) in Hbuild.
    replace (token_offset >? token_offset_end) with true in Hbuild
      by (symmetry; apply Z.gtb_lt; lia).
    discriminate. }
  split; [assumption|].
  destruct (interval_offsets_correct _ occ_offset (doc_entities document)
              token_offset token_offset_end Hsorted Hle)
    as [l [r [Hlr [Hl [Hr [Hbelow [Hin [Hfrom _]]]]]]]].
  unfold TextSegment_build in Hbuild.
  destruct (if token_offset <? len (doc_offsets document) then _ else _);
    simpl in Hbuild; try discriminate.
  destruct (if token_offset_end <? len (doc_offsets document) then _ else _);
    simpl in Hbuild; try discriminate.
  rewrite Hlr in Hbuild. simpl in Hbuild.
  rewrite for_each_rebase in Hbuild.
  2:{ eapply Forall_impl; [|exact Hin]. simpl. intros o Ho.
      unfold in_window. apply andb_true_iff.
      split; [apply Z.leb_le | apply Z.ltb_lt]; lia. }
  simpl in Hbuild.
  destruct (_interval_offsets (fun x => x) (doc_sentences document) _ _ _ _)
    as [[l' r'] | |]; simpl in Hbuild; try discriminate.
  injection Hbuild as <-. simpl.
  split; [|split; reflexivity].
  f_equal.
  rewrite (slices_cover (doc_entities document) l r) at 2 by lia.
  rewrite !filter_app.
  rewrite (filter_none _ (slice (doc_entities document) 0 l)).
  2:{ eapply Forall_impl; [|exact Hbelow]. simpl. intros o Ho.
      unfold in_window. apply andb_false_iff. left. apply Z.leb_gt. lia. }
  rewrite (filter_none _ (slice_from (doc_entities document) r)).
  2:{ eapply Forall_impl; [|exact Hfrom]. simpl. intros o Ho.
      unfold in_window. apply andb_false_iff. right. apply Z.ltb_ge. lia. }
  rewrite filter_all.
  2:{ eapply Forall_impl; [|exact Hin]. simpl. intros o Ho.
      unfold in_window. apply andb_true_iff.
      split; [apply Z.leb_le | apply Z.ltb_lt]; lia. }
  rewrite app_nil_r. reflexivity.
Qed.

(** [TextSegment.build] returns a segment on a document whose occurrences
    and sentence starts are sorted, for a window inside the tokens. *)
Lemma build_returns (document : IEDocument)
    (token_offset token_offset_end : Z) :
  sorted_by occ_offset (doc_entities document) ->
  sorted_by (fun x => x) (doc_sentences document) ->
  0 <= token_offset <= token_offset_end ->
  exists s, TextSegment_build document token_offset token_offset_end = Ok s.
Proof.
  intros Hents Hsents [H0 Hle].
  destruct (interval_offsets_correct _ occ_offset (doc_entities document)
              token_offset token_offset_end Hents Hle)
    as [l [r [Hlr [Hl [Hr [_ [Hin _]]]]]]].
  destruct (interval_offsets_correct _ (fun x => x) (doc_sentences document)
              token_offset token_offset_end Hsents Hle)
    as [l' [r' [Hlr' _]]].
  unfold TextSegment_build.
  assert (Hget : forall i, 0 <= i ->
            exists z, (if i <? len (doc_offsets document)
                       then getitem (doc_offsets document) i
                       else Ok (len_string (doc_text document))) = Ok z).
  { intros i Hi. destruct (i <? len (doc_offsets document)) eqn:E; [|eauto].
    apply Z.ltb_lt in E.
    destruct (getitem_nth (doc_offsets document) i) as [z [Hz _]]; [lia|].
    eauto. }
  destruct (Hget token_offset H0) as [z1 ->].
  destruct (Hget token_offset_end ltac:(lia)) as [z2 ->]. simpl.
  rewrite Hlr. simpl.
  rewrite for_each_rebase.
  2:{ eapply Forall_impl; [|exact Hin]. simpl. intros o Ho.
      unfold in_window. apply andb_true_iff.
      split; [apply Z.leb_le | apply Z.ltb_lt]; lia. }
  simpl. rewrite Hlr'. simpl. eauto.
Qed.

Lemma rebase_offset (start : Z) (o o' : EntityOccurrence) :
  rebase start o = rebase start o' -> occ_offset o = occ_offset o'.
Proof.
  intros H. apply (f_equal eis_offset) in H. simpl in H. lia.
Qed.

(** C9.  On a document whose occurrences are sorted by offset, the
    entities of [TextSegment.build(document, token_offset,
    token_offset_end)] are exactly the occurrences whose offset lies in
    [[token_offset, token_offset_end)], in their order, with [token_offset]
    subtracted from both offsets: an occurrence that begins before
    [token_offset] is not among them, whatever its end, and an occurrence of
    the window that ends after [token_offset_end] is among them with an
    [offset_end] larger than the number of tokens of the segment.  The call
    returns a segment when the sentence starts are sorted as well and
    [0 <= token_offset <= token_offset_end]. *)
Theorem build_entities_begin_in_window :
  forall (document : IEDocument) (token_offset token_offset_end : Z),
    sorted_by occ_offset (doc_entities document) ->
    (forall s,
        TextSegment_build document token_offset token_offset_end = Ok s ->
        seg_entities s
        = map (rebase token_offset)
            (filter (in_window token_offset token_offset_end)
               (doc_entities document))
        /\ (forall o,
               occ_offset o < token_offset ->
               ~ In (rebase token_offset o) (seg_entities s))
        /\ (forall o,
               In o (doc_entities document) ->
               token_offset <= occ_offset o < token_offset_end ->
               token_offset_end < occ_offset_end o ->
               In (rebase token_offset o) (seg_entities s)
               /\ len (seg_tokens s) < eis_offset_end (rebase token_offset o)))
    /\ (sorted_by (fun x => x) (doc_sentences document) ->
        0 <= token_offset <= token_offset_end ->
        exists s,
          TextSegment_build document token_offset token_offset_end = Ok s).
Proof.
  intros document token_offset token_offset_end Hsorted. split.
  - intros s Hbuild.
    destruct (build_entities_of_window document token_offset token_offset_end
                s Hsorted Hbuild) as [Hle [Hents [Htokens _]]].
    split; [assumption|]. split.
    + intros o Hbefore Hin. rewrite Hents in Hin.
      apply in_map_iff in Hin. destruct Hin as [o' [Heq Hin]].
      apply filter_In in Hin. destruct Hin as [_ Hwin].
      apply rebase_offset in Heq. unfold in_window in Hwin.
      apply andb_true_iff in Hwin. destruct Hwin as [Hwin _].
      apply Z.leb_le in Hwin. lia.
    + intros o Hin Hwin Hend. split.
      * rewrite Hents. apply in_map. apply filter_In. split; [assumption|].
        unfold in_window. apply andb_true_iff.
        split; [apply Z.leb_le | apply Z.ltb_lt]; lia.
      * rewrite Htokens. simpl.
        pose proof (len_slice_le (doc_tokens document) token_offset
                      token_offset_end Hle).
        lia.
  - intros Hsents Hrange. apply build_returns; assumption.
Qed.

(** A witness for C9: ten tokens, an occurrence on [[1, 4)] and one on
    [[5, 9)], and the window [[3, 7)]. *)
Lemma build_entities_begin_in_window_witness :
  exists s,
    TextSegment_build
      (example_document 10
         [example_occurrence "A" 1 4; example_occurrence "B" 5 9]) 3 7
    = Ok s
    /\ seg_entities s = [rebase 3 (example_occurrence "B" 5 9)]
    /\ ~ In (rebase 3 (example_occurrence "A" 1 4)) (seg_entities s)
    /\ len (seg_tokens s) < eis_offset_end (rebase 3 (example_occurrence "B" 5 9)).
Proof.
  assert (Hents : sorted_by occ_offset
            [example_occurrence "A" 1 4; example_occurrence "B" 5 9]).
  { unfold sorted_by. repeat constructor. simpl. lia. }
  assert (Hsents : sorted_by (fun x => x) [0; 10]).
  { unfold sorted_by. repeat constructor. lia. }
  destruct (build_entities_begin_in_window
              (example_document 10
                 [example_occurrence "A" 1 4; example_occurrence "B" 5 9])
              3 7 Hents) as [Hpartial Htotal].
  destruct (Htotal Hsents ltac:(lia)) as [s Hs].
  destruct (Hpartial s Hs) as [Heq [Hout Hin]].
  exists s. split; [exact Hs|]. split; [exact Heq|]. split.
  - apply Hout. simpl. lia.
  - apply (Hin (example_occurrence "B" 5 9)); simpl; auto; lia.
Defined.

(** A witness for C8: on a document of three tokens, a sentencer result
    with a duplicate is refused and the valid result [[0, 2, 3]] is
    written; a tagging result of two tags is refused and one of three tags
    is written. *)
Lemma set_preprocess_result_validates_witness :
  (exists e,
      set_preprocess_result (example_document 3 []) 7 (Some sentencer)
        [PyInt 0; PyInt 0; PyInt 3]
      = (example_document 3 [], Raise e))
  /\ set_preprocess_result (example_document 3 []) 7 (Some sentencer)
       [PyInt 0; PyInt 2; PyInt 3]
     = (flag_preprocess_done
          (set_sentences (example_document 3 []) [0; 2; 3]) 7 sentencer,
        Ok tt)
  /\ set_preprocess_result (example_document 3 []) 7 (Some tagging)
       ["DT"; "NN"]%string
     = (example_document 3 [], Raise ValueError)
  /\ set_preprocess_result (example_document 3 []) 7 (Some tagging)
       ["DT"; "NN"; "VB"]%string
     = (flag_preprocess_done
          (set_postags (example_document 3 []) ["DT"; "NN"; "VB"]%string) 7
          tagging,
        Ok tt).
Proof.
  destruct (set_preprocess_result_validates (example_document 3 []) 7)
    as [Hbad [Hgood [Htbad Htgood]]].
  split; [|split; [|split]].
  - apply Hbad. intros [_ [Hs _]]. simpl in Hs.
    inversion Hs as [|? ? _ Hall]; subst.
    inversion Hall as [|? ? Hlt _]; subst. lia.
  - apply (Hgood [PyInt 0; PyInt 2; PyInt 3]).
    unfold valid_sentencer_result. simpl.
    repeat split; repeat constructor; lia.
  - apply Htbad. discriminate.
  - apply Htgood. reflexivity.
Defined.

(** ** Dictionaries *)

Lemma find_app_last {A : Type} (p : A -> bool) (l1 l2 : list A) :
  find p (l1 ++ l2)
  = match find p l1 with Some x => Some x | None => find p l2 end.
Proof.
  induction l1 as [|x l1 IH]; simpl; [reflexivity|].
  destruct (p x); [reflexivity | assumption].
Qed.

Section DictFacts.

Context {K V : Type}.
Variable eqb : K -> K -> bool.
Hypothesis eqb_eq : forall x y, eqb x y = true <-> x = y.

Lemma eqb_refl (x : K) : eqb x x = true.
Proof. apply eqb_eq. reflexivity. Qed.

Lemma eqb_neq (x y : K) : eqb x y = false <-> x <> y.
Proof.
  split.
  - intros H Heq. apply eqb_eq in Heq. congruence.
  - intros H. destruct (eqb x y) eqn:E; [|reflexivity].
    apply eqb_eq in E. contradiction.
Qed.

Lemma dict_get_set (d : list (K * V)) (k k' : K) (v : V) :
  dict_get eqb (dict_set eqb d k v) k'
  = if eqb k' k then Some v else dict_get eqb d k'.
Proof.
  induction d as [|[k0 v0] d IH]; simpl.
  - destruct (eqb k' k); reflexivity.
  - destruct (eqb k k0) eqn:E; simpl.
    + apply eqb_eq in E. subst k0. destruct (eqb k' k); reflexivity.
    + rewrite IH. destruct (eqb k' k0) eqn:E0; [|reflexivity].
      apply eqb_eq in E0. subst k0.
      destruct (eqb k' k) eqn:E1; [|reflexivity].
      apply eqb_eq in E1. subst k'. rewrite eqb_refl in E. discriminate.
Qed.

Lemma dict_get_set_same (d : list (K * V)) (k : K) (v : V) :
  dict_get eqb (dict_set eqb d k v) k = Some v.
Proof. rewrite dict_get_set, eqb_refl. reflexivity. Qed.

Lemma dict_get_set_other (d : list (K * V)) (k k' : K) (v : V) :
  k' <> k -> dict_get eqb (dict_set eqb d k v) k' = dict_get eqb d k'.
Proof.
  intros H. rewrite dict_get_set. apply eqb_neq in H. rewrite H.
  reflexivity.
Qed.

Lemma dict_get_In_keys (d : list (K * V)) (k : K) :
  In k (dict_keys d) <-> exists v, dict_get eqb d k = Some v.
Proof.
  unfold dict_keys. induction d as [|[k0 v0] d IH]; simpl.
  - split; [intros [] | intros [v Hv]; discriminate].
  - destruct (eqb k k0) eqn:E.
    + apply eqb_eq in E. subst. split; eauto.
    + apply eqb_neq in E. rewrite <- IH. split.
      * intros [H|H]; [congruence | assumption].
      * auto.
Qed.

Lemma dict_get_In (d : list (K * V)) (k : K) (v : V) :
  dict_get eqb d k = Some v -> In (k, v) d.
Proof.
  induction d as [|[k0 v0] d IH]; simpl; [discriminate|].
  destruct (eqb k k0) eqn:E.
  - apply eqb_eq in E. subst. intros [= ->]. auto.
  - auto.
Qed.

Lemma dict_keys_set (d : list (K * V)) (k k' : K) (v : V) :
  In k' (dict_keys (dict_set eqb d k v)) <-> k' = k \/ In k' (dict_keys d).
Proof.
  rewrite !dict_get_In_keys, dict_get_set.
  destruct (eqb k' k) eqn:E.
  - apply eqb_eq in E. split; eauto.
  - apply eqb_neq in E. split; [auto | intros [H|H]; [contradiction | auto]].
Qed.

Lemma dict_set_NoDup (d : list (K * V)) (k : K) (v : V) :
  NoDup (dict_keys d) -> NoDup (dict_keys (dict_set eqb d k v)).
Proof.
  unfold dict_keys. induction d as [|[k0 v0] d IH]; simpl; intros H.
  - repeat constructor. intros [].
  - inversion H as [|? ? Hnotin Hnodup]; subst.
    destruct (eqb k k0) eqn:E; simpl.
    + constructor; assumption.
    + constructor; [|auto].
      intros Hin. apply (dict_keys_set d k k0 v) in Hin.
      apply eqb_neq in E. destruct Hin; [congruence | contradiction].
Qed.

Lemma dict_update_NoDup (items d : list (K * V)) :
  NoDup (dict_keys d) -> NoDup (dict_keys (dict_update eqb d items)).
Proof.
  unfold dict_update. revert d.
  induction items as [|[k v] items IH]; simpl; intros d H; auto.
  apply IH. apply dict_set_NoDup. assumption.
Qed.

Lemma dict_of_NoDup (items : list (K * V)) :
  NoDup (dict_keys (dict_of eqb items)).
Proof. apply dict_update_NoDup. constructor. Qed.

Lemma dict_keys_update (items d : list (K * V)) (k : K) :
  In k (dict_keys (dict_update eqb d items))
  <-> In k (dict_keys d) \/ In k (map fst items).
Proof.
  unfold dict_update. revert d.
  induction items as [|[k0 v0] items IH]; simpl; intros d.
  - tauto.
  - rewrite IH, dict_keys_set. intuition congruence.
Qed.

Lemma dict_keys_of (items : list (K * V)) (k : K) :
  In k (dict_keys (dict_of eqb items)) <-> In k (map fst items).
Proof. unfold dict_of. rewrite dict_keys_update. simpl. tauto. Qed.

(** The value of a key after [update]: the one of the last item with this
    key, and the old one when there is none. *)
Lemma dict_get_update (items d : list (K * V)) (k : K) :
  dict_get eqb (dict_update eqb d items) k
  = match find (fun kv => eqb k (fst kv)) (rev items) with
    | Some kv => Some (snd kv)
    | None => dict_get eqb d k
    end.
Proof.
  unfold dict_update. revert d.
  induction items as [|[k0 v0] items IH]; simpl; intros d; [reflexivity|].
  rewrite IH, find_app_last.
  destruct (find (fun kv => eqb k (fst kv)) (rev items)); [reflexivity|].
  simpl. rewrite dict_get_set. destruct (eqb k k0); reflexivity.
Qed.

Lemma dict_set_In (d : list (K * V)) (k k' : K) (v v' : V) :
  In (k', v') (dict_set eqb d k v) -> (k' = k /\ v' = v) \/ In (k', v') d.
Proof.
  induction d as [|[k0 v0] d IH]; simpl.
  - intros [[= <- <-]|[]]. auto.
  - destruct (eqb k k0) eqn:E; simpl.
    + apply eqb_eq in E. subst k0. intros [[= <- <-]|H]; auto.
    + intros [H|H]; [auto|]. destruct (IH H); auto.
Qed.

Lemma dict_update_In (items d : list (K * V)) (k : K) (v : V) :
  In (k, v) (dict_update eqb d items) -> In (k, v) d \/ In (k, v) items.
Proof.
  unfold dict_update. revert d.
  induction items as [|[k0 v0] items IH]; simpl; intros d H; [auto|].
  destruct (IH _ H) as [H'|H']; [|auto].
  apply dict_set_In in H'. destruct H' as [[-> ->]|H']; auto.
Qed.

End DictFacts.

Lemma Evidence_eqb_eq (x y : Evidence) : Evidence_eqb x y = true <-> x = y.
Proof.
  unfold Evidence_eqb. destruct (Evidence_eq_dec x y); split; congruence.
Qed.

Lemma Fact_eqb_eq (x y : Fact) : Fact_eqb x y = true <-> x = y.
Proof.
  unfold Fact_eqb. destruct (Fact_eq_dec x y); split; congruence.
Qed.

Lemma String_eqb_eq (x y : string) : String.eqb x y = true <-> x = y.
Proof. apply String.eqb_eq. Qed.

(** ** Construction of the pipeline *)

Lemma kinds_check (f : Fact) (u1 u2 : string) :
  negb (String.eqb (ent_kind (e1 f)) u1 && String.eqb (ent_kind (e2 f)) u2)
  = false
  <-> (u1, u2) = fact_kinds f.
Proof.
  unfold fact_kinds. rewrite negb_false_iff, andb_true_iff, !String.eqb_eq.
  split; [intros [-> ->]; reflexivity | intros [= -> ->]; auto].
Qed.

(** The loop succeeds on keys that agree with the table and with each
    other, and then the table has the kinds of every key. *)
Lemma build_relations_ok (keys : list Evidence) :
  forall rels,
    (forall e k, In e keys ->
                 dict_get String.eqb rels (relation (fact e)) = Some k ->
                 k = fact_kinds (fact e)) ->
    (forall e e', In e keys -> In e' keys ->
                  relation (fact e) = relation (fact e') ->
                  fact_kinds (fact e) = fact_kinds (fact e')) ->
    exists rels',
      build_relations keys rels = Ok rels'
      /\ (forall e, In e keys ->
                    dict_get String.eqb rels' (relation (fact e))
                    = Some (fact_kinds (fact e)))
      /\ (forall r, (forall e, In e keys -> relation (fact e) <> r) ->
                    dict_get String.eqb rels' r = dict_get String.eqb rels r).
Proof.
  induction keys as [|e keys IH]; intros rels Htable Hpairs.
  - exists rels. split; [reflexivity|]. split; [intros e []|reflexivity].
  - assert (Hstep : build_relations (e :: keys) rels
                    = build_relations keys
                        (dict_set String.eqb rels (relation (fact e))
                           (fact_kinds (fact e)))).
    { simpl. destruct (dict_get String.eqb rels (relation (fact e)))
        as [[u1 u2]|] eqn:Hget; [|reflexivity].
      rewrite (proj2 (kinds_check (fact e) u1 u2)); [reflexivity|].
      apply (Htable e); simpl; auto. }
    rewrite Hstep.
    destruct (IH (dict_set String.eqb rels (relation (fact e))
                    (fact_kinds (fact e)))) as [rels' [Hb [Hin Hout]]].
    + intros e' k Hin' Hget.
      rewrite (dict_get_set String.eqb String_eqb_eq) in Hget.
      destruct (String.eqb (relation (fact e')) (relation (fact e))) eqn:E.
      * apply String.eqb_eq in E. injection Hget as <-.
        symmetry. apply Hpairs; simpl; auto.
      * apply (Htable e'); simpl; auto.
    + intros x y Hx Hy. apply Hpairs; simpl; auto.
    + exists rels'. split; [assumption|]. split.
      * intros e' [<-|Hin']; [|auto].
        destruct (in_dec string_dec (relation (fact e))
                    (map (fun x => relation (fact x)) keys)) as [Hdup|Hnew].
        -- apply in_map_iff in Hdup. destruct Hdup as [x [Hx Hxin]].
           rewrite <- Hx, (Hin x Hxin). f_equal.
           apply Hpairs; simpl; auto.
        -- rewrite Hout.
           ++ apply (dict_get_set_same String.eqb String_eqb_eq).
           ++ intros x Hx Heq. apply Hnew. apply in_map_iff. eauto.
      * intros r Hr. rewrite Hout by (intros x Hx; apply Hr; simpl; auto).
        apply (dict_get_set_other String.eqb String_eqb_eq).
        intros ->. apply (Hr e); simpl; auto.
Qed.

(** When the loop raises, a key disagrees with the table or with another
    key, and the exception is [ValueError]. *)
Lemma build_relations_raise (keys : list Evidence) :
  forall rels x,
    build_relations keys rels = Raise x ->
    x = ValueError
    /\ ((exists e k, In e keys
                     /\ dict_get String.eqb rels (relation (fact e)) = Some k
                     /\ k <> fact_kinds (fact e))
        \/ (exists e e', In e keys /\ In e' keys
                         /\ relation (fact e) = relation (fact e')
                         /\ fact_kinds (fact e) <> fact_kinds (fact e'))).
Proof.
  induction keys as [|e keys IH]; intros rels x Hraise; [discriminate|].
  simpl in Hraise.
  assert (Hrec : build_relations keys
                   (dict_set String.eqb rels (relation (fact e))
                      (fact_kinds (fact e))) = Raise x ->
                 x = ValueError
                 /\ ((exists e0 k, In e0 (e :: keys)
                        /\ dict_get String.eqb rels (relation (fact e0)) = Some k
                        /\ k <> fact_kinds (fact e0))
                     \/ (exists e0 e', In e0 (e :: keys) /\ In e' (e :: keys)
                           /\ relation (fact e0) = relation (fact e')
                           /\ fact_kinds (fact e0) <> fact_kinds (fact e')))).
  { intros Hr. destruct (IH _ _ Hr) as [-> [[e' [k [Hin [Hget Hne]]]] | Hpair]].
    - split; [reflexivity|].
      rewrite (dict_get_set String.eqb String_eqb_eq) in Hget.
      destruct (String.eqb (relation (fact e')) (relation (fact e))) eqn:E.
      + apply String.eqb_eq in E. injection Hget as <-.
        right. exists e, e'. simpl. auto.
      + left. exists e', k. simpl. auto.
    - split; [reflexivity|]. right.
      destruct Hpair as [x [y [Hx [Hy Hxy]]]]. exists x, y. simpl. auto. }
  destruct (dict_get String.eqb rels (relation (fact e))) as [[u1 u2]|] eqn:Hget;
    [|auto].
  destruct (negb _) eqn:Hcheck; [|auto].
  injection Hraise as <-. split; [reflexivity|]. left.
  exists e, (u1, u2). split; [simpl; auto|]. split; [assumption|].
  intros Heq. apply kinds_check in Heq. congruence.
Qed.

(** When the loop succeeds, the keys agree with the table it started from
    and with each other. *)
Lemma build_relations_ok_inv (keys : list Evidence) :
  forall rels rels',
    build_relations keys rels = Ok rels' ->
    (forall e k, In e keys ->
                 dict_get String.eqb rels (relation (fact e)) = Some k ->
                 k = fact_kinds (fact e))
    /\ (forall e e', In e keys -> In e' keys ->
                     relation (fact e) = relation (fact e') ->
                     fact_kinds (fact e) = fact_kinds (fact e')).
Proof.
  induction keys as [|e0 keys IH]; intros rels rels' Hb.
  - split; intros e; intros; contradiction.
  - assert (Hhead : forall k,
               dict_get String.eqb rels (relation (fact e0)) = Some k ->
               k = fact_kinds (fact e0)).
    { intros [u1 u2] Hget. simpl in Hb. rewrite Hget in Hb.
      destruct (negb _) eqn:Hcheck; [discriminate|].
      apply kinds_check in Hcheck. assumption. }
    assert (Hnext : build_relations keys
                      (dict_set String.eqb rels (relation (fact e0))
                         (fact_kinds (fact e0))) = Ok rels').
    { simpl in Hb.
      destruct (dict_get String.eqb rels (relation (fact e0))) as [[u1 u2]|];
        [destruct (negb _); [discriminate|]|]; exact Hb. }
    destruct (IH _ _ Hnext) as [Htable Hpairs].
    assert (Hsame : forall y, In y keys ->
               relation (fact y) = relation (fact e0) ->
               fact_kinds (fact e0) = fact_kinds (fact y)).
    { intros y Hy Hrel. apply (Htable y); [assumption|].
      rewrite Hrel. apply (dict_get_set_same String.eqb String_eqb_eq). }
    split.
    + intros e k [<-|He] Hget; [auto|].
      destruct (string_dec (relation (fact e)) (relation (fact e0)))
        as [Heq|Hne].
      * rewrite Heq in Hget. rewrite (Hhead k Hget). auto.
      * apply (Htable e); [assumption|].
        rewrite (dict_get_set_other String.eqb String_eqb_eq); assumption.
    + intros e e' [<-|He] [<-|He'] Hrel; auto.
      symmetry. auto.
Qed.

Lemma build_relations_fuel (keys : list Evidence) :
  forall rels, build_relations keys rels <> OutOfFuel.
Proof.
  induction keys as [|e keys IH]; intros rels; simpl; [discriminate|].
  destruct (dict_get String.eqb rels (relation (fact e))) as [[u1 u2]|];
    [destruct (negb _); [discriminate|]|]; apply IH.
Qed.

(** The keys of the knowledge that [__init__] builds are the evidences of
    the seed facts. *)
Lemma seed_keys (seed_facts : list Fact) (e : Evidence) :
  In e (dict_keys
          (dict_of Evidence_eqb
             (map (fun f => (seed_evidence f, Some 1%Q)) seed_facts)))
  <-> exists f, In f seed_facts /\ e = seed_evidence f.
Proof.
  rewrite (dict_keys_of Evidence_eqb Evidence_eqb_eq), map_map. simpl.
  rewrite in_map_iff. split; intros [f [H1 H2]]; exists f; auto.
Qed.

(** C7.  Construction raises (a [ValueError], and no pipeline is created)
    if and only if two of the seed facts have the same relation label and
    different pairs of entity kinds; otherwise it returns a pipeline whose
    relation table has exactly the relation labels of the seed facts, each
    with the pair of kinds of the seed facts of this label. *)
Theorem init_fails_iff_ambiguous :
  forall (db_connector : list TextSegment) (seed_facts : list Fact),
    ((exists x, init db_connector seed_facts = Raise x) <-> ambiguous seed_facts)
    /\ (init db_connector seed_facts = Raise ValueError
        <-> ambiguous seed_facts)
    /\ (~ ambiguous seed_facts ->
        exists p,
          init db_connector seed_facts = Ok p
          /\ (forall f, In f seed_facts ->
                        dict_get String.eqb (relations p) (relation f)
                        = Some (fact_kinds f))
          /\ (forall r, In r (dict_keys (relations p))
                        <-> exists f, In f seed_facts /\ relation f = r)).
Proof.
  intros db_connector seed_facts.
  set (keys := dict_keys
                 (dict_of Evidence_eqb
                    (map (fun f => (seed_evidence f, Some 1%Q)) seed_facts))).
  assert (Hinit : forall x,
             init db_connector seed_facts = Raise x
             <-> build_relations keys [] = Raise x).
  { intros x. unfold init. fold keys.
    destruct (build_relations keys []); simpl; split; congruence. }
  assert (Hraise : forall x, build_relations keys [] = Raise x ->
                             x = ValueError /\ ambiguous seed_facts).
  { intros x Hx. destruct (build_relations_raise keys [] x Hx)
      as [-> [[e [k [_ [Hget _]]]] | [e [e' [He [He' [Hrel Hkinds]]]]]]].
    - discriminate.
    - split; [reflexivity|].
      apply seed_keys in He. destruct He as [f [Hf ->]].
      apply seed_keys in He'. destruct He' as [g [Hg ->]].
      exists f, g. auto. }
  assert (Hok : ~ ambiguous seed_facts ->
                exists rels,
                  build_relations keys [] = Ok rels
                  /\ (forall e, In e keys ->
                                dict_get String.eqb rels (relation (fact e))
                                = Some (fact_kinds (fact e)))
                  /\ (forall r, (forall e, In e keys -> relation (fact e) <> r) ->
                                dict_get String.eqb rels r = None)).
  { intros Hna. apply (build_relations_ok keys []).
    - intros e k _ Hget. discriminate.
    - intros e e' He He' Hrel.
      apply seed_keys in He. destruct He as [f [Hf ->]].
      apply seed_keys in He'. destruct He' as [g [Hg ->]].
      simpl in *.
      destruct (string_dec (fst (fact_kinds f)) (fst (fact_kinds g)));
        destruct (string_dec (snd (fact_kinds f)) (snd (fact_kinds g)));
        try (destruct (fact_kinds f), (fact_kinds g); simpl in *; congruence);
        exfalso; apply Hna; exists f, g; repeat split; auto;
          intros Heq; rewrite Heq in *; congruence. }
  assert (Hamb : ambiguous seed_facts ->
                 build_relations keys [] = Raise ValueError).
  { intros [f [g [Hf [Hg [Hrel Hkinds]]]]].
    destruct (build_relations keys []) as [rels|x|] eqn:Hb.
    - exfalso. apply Hkinds.
      destruct (build_relations_ok_inv keys [] rels Hb) as [_ Hcons].
      apply (Hcons (seed_evidence f) (seed_evidence g));
        try (apply seed_keys; eauto); assumption.
    - destruct (Hraise x eq_refl) as [-> _]. reflexivity.
    - exfalso. apply (build_relations_fuel keys [] Hb). }
  split; [|split].
  - split.
    + intros [x Hx]. apply Hinit in Hx. apply Hraise in Hx. apply Hx.
    + intros H. exists ValueError. apply Hinit. auto.
  - split.
    + intros Hx. apply Hinit in Hx. apply Hraise in Hx. apply Hx.
    + intros H. apply Hinit. auto.
  - intros Hna. destruct (Hok Hna) as [rels [Hb [Hin Hout]]].
    unfold init. fold keys. rewrite Hb. simpl.
    eexists. split; [reflexivity|]. simpl. split.
    + intros f Hf.
      apply (Hin (seed_evidence f)). apply seed_keys. eauto.
    + intros r. rewrite (dict_get_In_keys String.eqb String_eqb_eq). split.
      * intros [v Hv].
        destruct (in_dec string_dec r (map relation seed_facts)) as [Hr|Hr].
        -- apply in_map_iff in Hr. destruct Hr as [f [Hf1 Hf2]]. eauto.
        -- rewrite Hout in Hv; [discriminate|].
           intros e He Hrel. apply seed_keys in He.
           destruct He as [f [Hf ->]]. simpl in Hrel.
           apply Hr. apply in_map_iff. eauto.
      * intros [f [Hf <-]]. exists (fact_kinds f).
        apply (Hin (seed_evidence f)). apply seed_keys. eauto.
Qed.

(** A witness for C7: the one seed fact (PersonX, works_for, OrgY). *)
Lemma init_fails_iff_ambiguous_witness :
  exists p,
    init [] [works_for PersonX OrgY] = Ok p
    /\ dict_get String.eqb (relations p) "works_for"%string
       = Some ("person", "organization")%string.
Proof.
  destruct (init_fails_iff_ambiguous [] [works_for PersonX OrgY])
    as [_ [_ Hok]].
  destruct Hok as [p [Hp [Hrel _]]].
  - intros [f [g [Hf [Hg [_ Hkinds]]]]].
    destruct Hf as [<-|[]]. destruct Hg as [<-|[]].
    apply Hkinds. reflexivity.
  - exists p. split; [exact Hp|].
    apply (Hrel (works_for PersonX OrgY)). left. reflexivity.
Defined.

(** ** The steps of the pipeline *)

Lemma Qltb_lt (x y : Q) : Qltb x y = true <-> (x < y)%Q.
Proof.
  unfold Qltb. rewrite negb_true_iff. split.
  - intros H. apply Qnot_le_lt. intros Hle.
    apply Qle_bool_iff in Hle. congruence.
  - intros H. destruct (Qle_bool y x) eqn:E; [|reflexivity].
    apply Qle_bool_iff in E. exfalso. apply (Qlt_not_le x y); assumption.
Qed.

Lemma dict_get_None_keys {V : Type} (d : list (Evidence * V)) (e : Evidence) :
  ~ In e (dict_keys d) -> dict_get Evidence_eqb d e = None.
Proof.
  intros H. destruct (dict_get Evidence_eqb d e) eqn:E; [|reflexivity].
  exfalso. apply H.
  apply (dict_get_In_keys Evidence_eqb Evidence_eqb_eq). eauto.
Qed.

(** The loop of [filter_facts] on scores that are all numbers. *)
Lemma merge_facts_scores (threshold : Q) (items : list (Evidence * score)) :
  forall k,
    (forall e s, In (e, s) items -> s <> None) ->
    NoDup (dict_keys items) ->
    exists k',
      merge_facts threshold k items = (k', Ok tt)
      /\ (forall e,
             dict_get Evidence_eqb k' e
             = merged_score threshold (dict_get Evidence_eqb k e)
                 (dict_get Evidence_eqb items e)).
Proof.
  induction items as [|[e0 s0] items IH]; intros k Hnum Hnodup.
  - exists k. split; reflexivity.
  - inversion Hnodup as [|? ? Hnotin Hnodup']; subst.
    destruct s0 as [q|]; [|exfalso; apply (Hnum e0 None); simpl; auto].
    simpl.
    destruct (IH (if Qltb threshold q then dict_set Evidence_eqb k e0 (Some q)
                  else k)) as [k' [Hk' Hget]].
    + intros e s Hin. apply (Hnum e s). simpl. auto.
    + assumption.
    + exists k'. split.
      * destruct (Qltb threshold q); exact Hk'.
      * intros e. rewrite Hget.
        destruct (Evidence_eqb e e0) eqn:E.
        -- apply Evidence_eqb_eq in E. subst e0.
           rewrite (dict_get_None_keys items e Hnotin). simpl.
           destruct (Qltb threshold q); [|reflexivity].
           apply (dict_get_set_same Evidence_eqb Evidence_eqb_eq).
        -- assert (Hne : e <> e0)
             by (intros ->; rewrite (eqb_refl Evidence_eqb Evidence_eqb_eq) in E;
                 discriminate).
           destruct (Qltb threshold q); [|reflexivity].
           rewrite (dict_get_set_other Evidence_eqb Evidence_eqb_eq);
             auto.
Qed.

Section PipelineSteps.

Variable Classifier : Type.

(** What [extract_facts] hands to [filter_facts] is a dictionary whose
    scores are numbers. *)
Lemma score_relations_scored (Entity_objects : list Entity)
    (predict_proba_true : Classifier -> list Evidence -> list Q)
    (self : BootstrappedIEPipeline) (extractors : data Classifier)
    (rels : list (string * (string * string))) :
  forall acc k,
    NoDup (dict_keys acc) ->
    (forall e s, In (e, s) acc -> s <> None) ->
    score_relations Entity_objects Classifier predict_proba_true self
      extractors rels acc = Ok k ->
    NoDup (dict_keys k) /\ (forall e s, In (e, s) k -> s <> None).
Proof.
  induction rels as [|[r [lkind rkind]] rels IH]; simpl;
    intros acc k Hnodup Hnum H.
  - injection H as <-. auto.
  - destruct (relation_evidence _ _ _ _ _) as [es| |]; simpl in H;
      try discriminate.
    destruct (find_extractor _ _ _) as [c| |]; simpl in H; try discriminate.
    refine (IH _ _ _ _ H).
    + apply (dict_update_NoDup Evidence_eqb Evidence_eqb_eq). assumption.
    + intros e s Hin.
      apply (dict_update_In Evidence_eqb Evidence_eqb_eq) in Hin.
      destruct Hin as [Hin|Hin]; [eauto|].
      apply in_combine_r in Hin. apply in_map_iff in Hin.
      destruct Hin as [q [<- _]]. discriminate.
Qed.

Lemma extract_facts_scored (Entity_objects : list Entity)
    (predict_proba_true : Classifier -> list Evidence -> list Q)
    (self : BootstrappedIEPipeline) (extractors d : data Classifier) :
  snd (extract_facts Entity_objects Classifier predict_proba_true self
         extractors) = Ok d ->
  exists k,
    d = DataKnowledge Classifier k
    /\ NoDup (dict_keys k) /\ (forall e s, In (e, s) k -> s <> None).
Proof.
  unfold extract_facts. simpl. intros H.
  destruct (score_relations _ _ _ _ _ _ _) as [k| |] eqn:Hk; simpl in H;
    try discriminate.
  injection H as <-. exists k. split; [reflexivity|].
  refine (score_relations_scored _ _ _ _ _ _ _ _ _ Hk).
  - constructor.
  - intros e s [].
Qed.

(** [filter_facts] never shortens the knowledge. *)
Lemma merge_facts_length (threshold : Q) (items : list (Evidence * score)) :
  forall k, len k <= len (fst (merge_facts threshold k items)).
Proof.
  assert (Hset : forall (k : Knowledge) e s,
             len k <= len (dict_set Evidence_eqb k e s)).
  { unfold len. induction k as [|[e0 s0] k IH]; intros e s.
    - simpl. lia.
    - cbn [dict_set]. destruct (Evidence_eqb e e0); cbn [List.length].
      + lia.
      + specialize (IH e s). lia. }
  induction items as [|[e s] items IH]; intros k; simpl; [lia|].
  destruct (score_gt s threshold) as [[|]| |]; simpl; try lia.
  - specialize (IH (dict_set Evidence_eqb k e s)).
    specialize (Hset k e s). lia.
  - apply IH.
Qed.

(** C6.  On a scored set [facts] (a dictionary whose scores are numbers)
    [filter_facts] returns [facts] itself, the whole of it.  In the
    pipeline that it leaves, [known_facts()] maps a key to the score it
    has in [facts] when that one exceeds [fact_threshold] and is as it was
    before otherwise: exactly the items above the threshold are merged,
    the keys afterwards are the keys before and the keys of these items,
    none is removed, the knowledge is not shorter than before, and nothing
    but the knowledge has changed in the pipeline. *)
Theorem filter_facts_merges :
  forall (self : BootstrappedIEPipeline) (facts : Knowledge),
    (forall e s, In (e, s) facts -> s <> None) ->
    NoDup (dict_keys facts) ->
    let r := filter_facts Classifier self (DataKnowledge Classifier facts) in
    let after := fst r in
    snd r = Ok (DataKnowledge Classifier facts)
    /\ (forall e,
           dict_get Evidence_eqb (known_facts after) e
           = merged_score (fact_threshold self)
               (dict_get Evidence_eqb (known_facts self) e)
               (dict_get Evidence_eqb facts e))
    /\ (forall e s,
           In (e, Some s) facts -> (fact_threshold self < s)%Q ->
           dict_get Evidence_eqb (known_facts after) e = Some (Some s))
    /\ (forall e,
           (forall s, In (e, Some s) facts ->
                      ~ (fact_threshold self < s)%Q) ->
           dict_get Evidence_eqb (known_facts after) e
           = dict_get Evidence_eqb (known_facts self) e)
    /\ (forall e,
           In e (dict_keys (known_facts after))
           <-> In e (dict_keys (known_facts self))
               \/ exists s, In (e, Some s) facts
                            /\ (fact_threshold self < s)%Q)
    /\ len (known_facts self) <= len (known_facts after)
    /\ db_con after = db_con self
    /\ evidence_threshold after = evidence_threshold self
    /\ fact_threshold after = fact_threshold self
    /\ questions after = questions self
    /\ answers after = answers self
    /\ step_iterator after = step_iterator self
    /\ relations after = relations self.
Proof.
  intros self facts Hnum Hnodup r after.
  destruct (merge_facts_scores (fact_threshold self) facts (knowledge self)
              Hnum Hnodup) as [k' [Hmerge Hget]].
  pose proof (merge_facts_length (fact_threshold self) facts
                (knowledge self)) as Hlen.
  assert (Hr : r = (set_knowledge self k',
                    Ok (DataKnowledge Classifier facts))).
  { unfold r, filter_facts. rewrite Hmerge. reflexivity. }
  rewrite Hmerge in Hlen. cbn [fst] in Hlen.
  unfold after. rewrite Hr. cbn [fst snd]. unfold known_facts.
  cbn [set_knowledge knowledge db_con evidence_threshold fact_threshold
       questions answers step_iterator relations].
  split; [reflexivity|]. split; [exact Hget|].
  assert (Hunique : forall e s, In (e, s) facts ->
                                dict_get Evidence_eqb facts e = Some s).
  { clear - Hnodup. induction facts as [|[e0 s0] l IH]; intros e s Hin;
      [destruct Hin|].
    inversion Hnodup as [|? ? Hnotin Hnodup']; subst. simpl.
    destruct Hin as [[= -> ->]|Hin].
    - rewrite (eqb_refl Evidence_eqb Evidence_eqb_eq). reflexivity.
    - destruct (Evidence_eqb e e0) eqn:E; [|auto].
      apply Evidence_eqb_eq in E. subst e0. exfalso. apply Hnotin.
      apply in_map_iff. exists (e, s). auto. }
  split; [|split; [|split; [|split; [exact Hlen|repeat split]]]].
  - intros e s Hin Hgt. rewrite Hget, (Hunique e (Some s) Hin). simpl.
    apply Qltb_lt in Hgt. rewrite Hgt. reflexivity.
  - intros e Hlow. rewrite Hget. unfold merged_score.
    destruct (dict_get Evidence_eqb facts e) as [[s|]|] eqn:E;
      try reflexivity.
    destruct (Qltb (fact_threshold self) s) eqn:Hgt; [|reflexivity].
    exfalso. apply (Hlow s).
    + apply (dict_get_In Evidence_eqb Evidence_eqb_eq). assumption.
    + apply Qltb_lt. assumption.
  - intros e. rewrite !(dict_get_In_keys Evidence_eqb Evidence_eqb_eq).
    rewrite Hget. unfold merged_score.
    destruct (dict_get Evidence_eqb facts e) as [[s|]|] eqn:E.
    + destruct (Qltb (fact_threshold self) s) eqn:Hgt.
      * split; [|eauto]. intros _. right. exists s. split.
        -- apply (dict_get_In Evidence_eqb Evidence_eqb_eq). exact E.
        -- apply Qltb_lt. exact Hgt.
      * split; [auto|]. intros [H|[s' [Hin Hlt]]]; [exact H|].
        rewrite (Hunique e (Some s') Hin) in E. injection E as ->.
        apply Qltb_lt in Hlt. congruence.
    + split; [auto|]. intros [H|[s' [Hin Hlt]]]; [exact H|].
      rewrite (Hunique e (Some s') Hin) in E. discriminate.
    + split; [auto|]. intros [H|[s' [Hin Hlt]]]; [exact H|].
      rewrite (Hunique e (Some s') Hin) in E. discriminate.
Qed.

End PipelineSteps.

(** ** The invariant of the evidence *)

Lemma In_combine_seq {A : Type} (l : list A) :
  forall (s : nat) (k : Z) (x : A),
    In (k, x) (combine (map Z.of_nat (seq s (List.length l))) l) ->
    exists n, k = Z.of_nat (s + n) /\ nth_error l n = Some x.
Proof.
  induction l as [|y l IH]; simpl; intros s k x Hin; [destruct Hin|].
  destruct Hin as [[= <- <-]|Hin].
  - exists 0%nat. split; [f_equal; lia | reflexivity].
  - destruct (IH (S s) k x Hin) as [n [Hk Hn]].
    exists (S n). split; [rewrite Hk; f_equal; lia | assumption].
Qed.

Lemma indices_where_getitem {A : Type} (p : A -> bool) (l : list A) (i : Z) :
  In i (indices_where p l) -> exists x, getitem l i = Ok x /\ p x = true.
Proof.
  unfold indices_where. intros Hin.
  apply in_map_iff in Hin. destruct Hin as [[k x] [Hk Hin]]. simpl in Hk.
  subst k. apply filter_In in Hin. destruct Hin as [Hin Hp]. simpl in Hp.
  apply In_combine_seq in Hin. destruct Hin as [n [-> Hn]]. simpl in *.
  pose proof (nth_error_lt l n x Hn) as Hlt.
  destruct (getitem_nth l (Z.of_nat n)) as [y [Hget Hy]];
    [unfold len; lia|].
  rewrite Nat2Z.id in Hy. exists x. split; [congruence | assumption].
Qed.

Lemma product_off_diagonal_In (ls rs : list Z) (i j : Z) :
  In (i, j) (product_off_diagonal ls rs) -> In i ls /\ In j rs.
Proof.
  unfold product_off_diagonal. intros H. apply filter_In in H.
  destruct H as [H _]. apply in_prod_iff in H. assumption.
Qed.

Lemma get_entity_matches (objects : list Entity) (kind literal : string)
    (e : Entity) :
  get_entity objects kind literal = Ok e ->
  ent_kind e = kind /\ ent_key e = literal.
Proof.
  unfold get_entity. intros H.
  destruct (filter _ objects) as [|x [|y l]] eqn:Hf; try discriminate.
  injection H as <-.
  assert (Hin : In x (filter
                        (fun e => String.eqb (ent_kind e) kind
                                  && String.eqb (ent_key e) literal) objects))
    by (rewrite Hf; simpl; auto).
  apply filter_In in Hin. destruct Hin as [_ Hin].
  apply andb_true_iff in Hin. rewrite !String.eqb_eq in Hin. assumption.
Qed.

Lemma for_each_Forall {A B : Type} (f : A -> result B) (P : B -> Prop)
    (l : list A) :
  (forall x y, In x l -> f x = Ok y -> P y) ->
  forall ys, for_each f l = Ok ys -> Forall P ys.
Proof.
  induction l as [|x l IH]; simpl; intros Hf ys Hys.
  - injection Hys as <-. constructor.
  - destruct (f x) as [y| |] eqn:Hy; simpl in Hys; try discriminate.
    destruct (for_each f l) as [ys'| |]; simpl in Hys; try discriminate.
    injection Hys as <-. constructor; eauto.
Qed.

Lemma seed_evidence_invariant (f : Fact) : evidence_invariant (seed_evidence f).
Proof.
  unfold evidence_invariant. simpl.
  repeat split; auto; intros; discriminate.
Qed.

Lemma located_evidence_invariant (f : Fact) (s : TextSegment) (i j : Z) :
  occurrence_matches s i (e1 f) -> occurrence_matches s j (e2 f) ->
  evidence_invariant
    {| fact := f; segment := Some s; o1 := Some i; o2 := Some j |}.
Proof.
  intros H1 H2. unfold evidence_invariant. simpl.
  repeat split; try discriminate.
  - intros s' i' [= <-] [= <-]. assumption.
  - intros s' j' [= <-] [= <-]. assumption.
Qed.

Lemma keys_invariant_dict_of {V : Type} (items : list (Evidence * V)) :
  (forall e, In e (map fst items) -> evidence_invariant e) ->
  keys_invariant (dict_of Evidence_eqb items).
Proof.
  intros H e He. apply H.
  apply (dict_keys_of Evidence_eqb Evidence_eqb_eq). assumption.
Qed.

Lemma keys_invariant_update {V : Type} (d items : list (Evidence * V)) :
  keys_invariant d ->
  (forall e, In e (map fst items) -> evidence_invariant e) ->
  keys_invariant (dict_update Evidence_eqb d items).
Proof.
  intros Hd Hitems e He.
  apply (dict_keys_update Evidence_eqb Evidence_eqb_eq) in He.
  destruct He; auto.
Qed.

Lemma keys_invariant_filter {V : Type} (p : Evidence * V -> bool)
    (d : list (Evidence * V)) :
  keys_invariant d -> keys_invariant (dict_of Evidence_eqb (filter p d)).
Proof.
  intros Hd. apply keys_invariant_dict_of. intros e He.
  apply in_map_iff in He. destruct He as [[e' v] [<- Hin]].
  apply filter_In in Hin. destruct Hin as [Hin _].
  apply Hd. unfold dict_keys. apply in_map_iff. exists (e', v). auto.
Qed.

Lemma merge_facts_invariant (threshold : Q) (items : list (Evidence * score)) :
  forall k,
    keys_invariant k -> keys_invariant items ->
    keys_invariant (fst (merge_facts threshold k items)).
Proof.
  induction items as [|[e s] items IH]; intros k Hk Hitems; [assumption|].
  assert (Hrest : keys_invariant items)
    by (intros x Hx; apply Hitems; simpl; auto).
  simpl. destruct (score_gt s threshold) as [[|]| |]; simpl; auto.
  apply IH; [|assumption].
  intros x Hx. apply (dict_keys_set Evidence_eqb Evidence_eqb_eq) in Hx.
  destruct Hx as [->|Hx]; [apply Hitems; simpl; auto | auto].
Qed.

Section EvidenceInvariant.

Variable Entity_objects : list Entity.
Variable Classifier : Type.
Variable FactExtractorFactory : Knowledge -> Classifier.
Variable predict_proba_true : Classifier -> list Evidence -> list Q.

(** The invariant of a pipeline, and of what a step receives. *)
Let pipeline_invariant (p : BootstrappedIEPipeline) : Prop :=
  keys_invariant (knowledge p) /\ keys_invariant (questions p).

Let data_invariant (d : data Classifier) : Prop :=
  match d with
  | DataKnowledge _ k => keys_invariant k
  | _ => True
  end.

Lemma candidate_evidence_invariant (r : string) (s : TextSegment)
    (o : Z * Z) (e : Evidence) :
  candidate_evidence Entity_objects r s o = Ok e -> evidence_invariant e.
Proof.
  destruct o as [i j]. unfold candidate_evidence. intros H.
  destruct (getitem (seg_entities s) i) as [x1| |] eqn:H1;
    simpl in H; try discriminate.
  destruct (get_entity Entity_objects (eis_kind x1) (eis_key x1))
    as [a1| |] eqn:G1; simpl in H; try discriminate.
  destruct (getitem (seg_entities s) j) as [x2| |] eqn:H2;
    simpl in H; try discriminate.
  destruct (get_entity Entity_objects (eis_kind x2) (eis_key x2))
    as [a2| |] eqn:G2; simpl in H; try discriminate.
  injection H as <-.
  apply get_entity_matches in G1. apply get_entity_matches in G2.
  apply located_evidence_invariant; simpl.
  - exists x1. intuition congruence.
  - exists x2. intuition congruence.
Qed.

Lemma candidate_evidence_located (r : string) (s : TextSegment)
    (o : Z * Z) (e : Evidence) :
  candidate_evidence Entity_objects r s o = Ok e -> located e.
Proof.
  destruct o as [i j]. unfold candidate_evidence. intros H.
  destruct (getitem (seg_entities s) i) as [x1| |]; simpl in H;
    try discriminate.
  destruct (get_entity Entity_objects (eis_kind x1) (eis_key x1))
    as [a1| |]; simpl in H; try discriminate.
  destruct (getitem (seg_entities s) j) as [x2| |]; simpl in H;
    try discriminate.
  destruct (get_entity Entity_objects (eis_kind x2) (eis_key x2))
    as [a2| |]; simpl in H; try discriminate.
  injection H as <-. exists s, i, j. auto.
Qed.

(** What holds of every candidate evidence holds of every key that
    [extract_facts] produces. *)
Section Candidates.

Variable P : Evidence -> Prop.
Hypothesis candidate_P :
  forall r s o e, candidate_evidence Entity_objects r s o = Ok e -> P e.

Lemma relation_evidence_Forall (r lkind rkind : string)
    (segments : list TextSegment) :
  forall es,
    relation_evidence Entity_objects r lkind rkind segments = Ok es ->
    Forall P es.
Proof.
  induction segments as [|s segments IH]; simpl; intros es H.
  - injection H as <-. constructor.
  - destruct (for_each _ _) as [es1| |] eqn:H1; simpl in H;
      try discriminate.
    destruct (relation_evidence _ _ _ _ segments) as [es2| |];
      simpl in H; try discriminate.
    injection H as <-. apply Forall_app. split; [|auto].
    eapply for_each_Forall; [|exact H1].
    intros o e _. apply candidate_P.
Qed.

Lemma score_relations_keys (self : BootstrappedIEPipeline)
    (extractors : data Classifier)
    (rels : list (string * (string * string))) :
  forall acc k,
    (forall e, In e (dict_keys acc) -> P e) ->
    score_relations Entity_objects Classifier predict_proba_true self
      extractors rels acc = Ok k ->
    forall e, In e (dict_keys k) -> P e.
Proof.
  induction rels as [|[r [lkind rkind]] rels IH]; simpl; intros acc k Hacc H.
  - injection H as <-. assumption.
  - destruct (relation_evidence _ _ _ _ _) as [es| |] eqn:Hes;
      simpl in H; try discriminate.
    destruct (find_extractor _ _ _) as [c| |]; simpl in H; try discriminate.
    refine (IH _ _ _ H).
    intros e He. apply (dict_keys_update Evidence_eqb Evidence_eqb_eq) in He.
    destruct He as [He|He]; [auto|].
    apply in_map_iff in He. destruct He as [[e' v] [<- Hin]].
    apply in_combine_l in Hin. simpl.
    apply relation_evidence_Forall in Hes.
    rewrite Forall_forall in Hes. auto.
Qed.

End Candidates.

Lemma start_evidences_located (self : BootstrappedIEPipeline) (e : Evidence) :
  In e (dict_keys (start_evidences self)) -> located e.
Proof.
  unfold start_evidences. intros He.
  apply (proj1 (dict_keys_of Evidence_eqb Evidence_eqb_eq _ _)) in He.
  apply in_map_iff in He. destruct He as [[e' v] [<- Hin]].
  simpl. apply in_flat_map in Hin. destruct Hin as [k [_ Hin]].
  apply in_flat_map in Hin. destruct Hin as [s [_ Hin]].
  apply in_map_iff in Hin. destruct Hin as [[i j] [[= <- _] _]].
  exists s, i, j. auto.
Qed.

Lemma start_evidences_invariant (self : BootstrappedIEPipeline) :
  keys_invariant (start_evidences self).
Proof.
  unfold start_evidences. apply keys_invariant_dict_of.
  intros e He. apply in_map_iff in He. destruct He as [[e' v] [<- Hin]].
  simpl. apply in_flat_map in Hin. destruct Hin as [k [_ Hin]].
  apply in_flat_map in Hin. destruct Hin as [s [_ Hin]].
  apply in_map_iff in Hin. destruct Hin as [[i j] [[= <- _] Hin]].
  unfold entity_occurrence_pairs in Hin.
  apply product_off_diagonal_In in Hin. destruct Hin as [Hi Hj].
  apply indices_where_getitem in Hi. destruct Hi as [x1 [H1 M1]].
  apply indices_where_getitem in Hj. destruct Hj as [x2 [H2 M2]].
  unfold is_entity in M1, M2.
  apply andb_true_iff in M1. apply andb_true_iff in M2.
  rewrite !String.eqb_eq in M1, M2.
  apply located_evidence_invariant; simpl.
  - exists x1. intuition.
  - exists x2. intuition.
Qed.

(** Every step but [learn_fact_extractors] needs, and every step but
    [filter_evidence] provides, data whose keys satisfy the invariant;
    [filter_evidence] hands the answers of the user to
    [learn_fact_extractors], which hands classifiers on. *)
Lemma step_invariant (n : nat) (self : BootstrappedIEPipeline)
    (d : data Classifier) :
  pipeline_invariant self ->
  (n = 4%nat \/ data_invariant d) ->
  match steps Entity_objects Classifier FactExtractorFactory
          predict_proba_true n with
  | None => True
  | Some step =>
      pipeline_invariant (fst (step self d))
      /\ forall d', snd (step self d) = Ok d' ->
                    n = 3%nat \/ data_invariant d'
  end.
Proof.
  intros [Hk Hq] Hd.
  destruct n as [|[|[|[|[|[|n]]]]]]; simpl.
  - (* generalize_knowledge *)
    destruct Hd as [Hd|Hd]; [discriminate|].
    destruct d as [|k|[|x xs]]; simpl; (split; [split; assumption|]);
      intros d' [= <-]; right; simpl.
    + apply keys_invariant_filter. assumption.
    + intros e [].
  - (* generate_questions *)
    destruct Hd as [Hd|Hd]; [discriminate|].
    destruct d as [|k|[|x xs]]; simpl.
    + split; [split; assumption | discriminate].
    + split; [|intros d' [= <-]; right; exact I].
      split; [assumption|]. apply keys_invariant_filter. assumption.
    + split; [|intros d' [= <-]; right; exact I].
      split; [assumption | intros e []].
    + split; [split; assumption | discriminate].
  - exact I.
  - (* filter_evidence *)
    split; [split; assumption | auto].
  - (* learn_fact_extractors *)
    destruct d as [|k|x]; simpl; (split; [split; assumption|]);
      try discriminate.
    intros d' H.
    destruct (train_classifiers _ _ _ _) as [c| |]; simpl in H;
      try discriminate.
    injection H as <-. right. exact I.
  - (* extract_facts *)
    split; [split; assumption|]. intros d' H.
    destruct (score_relations _ _ _ _ _ _ _) as [k| |] eqn:Hs; simpl in H;
      try discriminate.
    injection H as <-. right. simpl.
    refine (score_relations_keys evidence_invariant
              candidate_evidence_invariant _ _ _ _ _ _ Hs).
    intros e [].
  - (* filter_facts *)
    destruct Hd as [Hd|Hd]; [discriminate|].
    destruct d as [|k|[|x xs]]; simpl.
    + split; [split; assumption | discriminate].
    + pose proof (merge_facts_invariant (fact_threshold self) k
                    (knowledge self) Hk Hd) as Hm.
      destruct (merge_facts (fact_threshold self) (knowledge self) k)
        as [k' r]. simpl in *.
      split; [split; assumption|].
      intros d' H. destruct r; simpl in H; try discriminate.
      injection H as <-. right. assumption.
    + split; [split; assumption|]. intros d' [= <-]. right. exact I.
    + split; [split; assumption | discriminate].
Qed.

Lemma steps_keep_iterator (n : nat) (self : BootstrappedIEPipeline)
    (d : data Classifier) :
  match steps Entity_objects Classifier FactExtractorFactory
          predict_proba_true n with
  | None => True
  | Some step => step_iterator (fst (step self d)) = step_iterator self
  end.
Proof.
  destruct n as [|[|[|[|[|[|n]]]]]]; simpl; auto.
  - destruct d as [|k|[|? ?]]; reflexivity.
  - destruct d as [|k|[|? ?]]; reflexivity.
  - destruct d; reflexivity.
  - destruct d as [|k|[|? ?]]; simpl; try reflexivity.
    destruct (merge_facts _ _ _). reflexivity.
Qed.

Lemma do_iteration_step (fuel : nat) (self : BootstrappedIEPipeline)
    (d : data Classifier) :
  do_iteration Entity_objects Classifier FactExtractorFactory
    predict_proba_true (S fuel) self d
  = let self' :=
      set_step_iterator self (Nat.modulo (S (step_iterator self)) 7) in
    match steps Entity_objects Classifier FactExtractorFactory
            predict_proba_true (step_iterator self) with
    | None => (self', Ok tt)
    | Some step =>
        match step self' d with
        | (self'', Ok d') =>
            do_iteration Entity_objects Classifier FactExtractorFactory
              predict_proba_true fuel self'' d'
        | (self'', Raise e) => (self'', Raise e)
        | (self'', OutOfFuel) => (self'', OutOfFuel)
        end
    end.
Proof. reflexivity. Qed.

Lemma do_iteration_invariant (fuel : nat) :
  forall (self : BootstrappedIEPipeline) (d : data Classifier),
    pipeline_invariant self ->
    (step_iterator self = 4%nat \/ data_invariant d) ->
    pipeline_invariant
      (fst (do_iteration Entity_objects Classifier FactExtractorFactory
              predict_proba_true fuel self d)).
Proof.
  induction fuel as [|fuel IH]; intros self d Hp Hd; [assumption|].
  rewrite do_iteration_step.
  set (self' := set_step_iterator self (Nat.modulo (S (step_iterator self)) 7)).
  cbv zeta.
  assert (Hp' : pipeline_invariant self') by exact Hp.
  pose proof (step_invariant (step_iterator self) self' d Hp' Hd) as Hstep.
  pose proof (steps_keep_iterator (step_iterator self) self' d) as Hpos.
  destruct (steps _ _ _ _ (step_iterator self)) as [step|]; [|assumption].
  destruct Hstep as [Hafter Hdata].
  destruct (step self' d) as [self'' r] eqn:Hs.
  cbn [fst snd] in Hafter, Hdata, Hpos.
  destruct r as [d'| |]; try assumption.
  apply IH; [assumption|].
  destruct (Hdata d' eq_refl) as [E|D]; [left | right; assumption].
  rewrite Hpos. unfold self'. cbn [step_iterator set_step_iterator].
  rewrite E. reflexivity.
Qed.

(** C5.  In every pipeline that construction and the user API produce,
    every evidence that is a key of the knowledge or of the pending
    questions satisfies the invariant: its segment is [None] iff [o1] is
    [None] iff [o2] is [None], and when they are set the occurrences of
    the segment at [o1] and [o2] have the kind and the key of [fact.e1]
    and of [fact.e2].  The evidence of a seed fact has all three [None];
    the evidence that [start] and [extract_facts] build has all three set,
    and matching. *)
Theorem stored_evidence_invariant :
  (forall p : BootstrappedIEPipeline,
      reachable Entity_objects Classifier FactExtractorFactory
        predict_proba_true p ->
      keys_invariant (knowledge p) /\ keys_invariant (questions p))
  /\ (forall f : Fact,
         segment (seed_evidence f) = None /\ o1 (seed_evidence f) = None
         /\ o2 (seed_evidence f) = None)
  /\ (forall (p : BootstrappedIEPipeline) (e : Evidence),
         In e (dict_keys (start_evidences p)) ->
         located e /\ evidence_invariant e)
  /\ (forall (p : BootstrappedIEPipeline) (x : data Classifier)
             (k : Knowledge) (e : Evidence),
         snd (extract_facts Entity_objects Classifier predict_proba_true p x)
         = Ok (DataKnowledge Classifier k) ->
         In e (dict_keys k) ->
         located e /\ evidence_invariant e).
Proof.
  split; [|split; [|split]].
  - induction 1 as [db seeds p Hinit | p _ IH | p e a _ IH | p _ IH
                    | p et ft _ IH].
    + unfold init in Hinit.
      destruct (build_relations _ _) as [rels| |]; simpl in Hinit;
        try discriminate.
      injection Hinit as <-. simpl. split; [|intros e []].
      apply keys_invariant_dict_of. intros e He.
      rewrite map_map in He. apply in_map_iff in He.
      destruct He as [f [<- _]]. apply seed_evidence_invariant.
    + apply do_iteration_invariant; [exact IH|].
      right. apply start_evidences_invariant.
    + exact IH.
    + apply do_iteration_invariant; [exact IH|].
      right. exact I.
    + exact IH.
  - intros f. repeat split.
  - intros p e He. split.
    + eapply start_evidences_located. exact He.
    + apply (start_evidences_invariant p). exact He.
  - intros p x k e Hx He. unfold extract_facts in Hx. simpl in Hx.
    destruct (score_relations _ _ _ _ _ _ _) as [k'| |] eqn:Hs;
      simpl in Hx; try discriminate.
    injection Hx as <-.
    refine (score_relations_keys
              (fun e => located e /\ evidence_invariant e) _ _ _ _ _ _ _ Hs
              e He).
    + intros r s o e0 H0. split.
      * eapply candidate_evidence_located. exact H0.
      * eapply candidate_evidence_invariant. exact H0.
    + intros e0 [].
Qed.

End EvidenceInvariant.

(** A witness for C5: the pipeline seeded with (PersonX, works_for, OrgY)
    over the store with the one segment, after [start]: the seed evidence
    is in the knowledge and the evidence located in the segment is the
    pending question. *)
Lemma stored_evidence_invariant_witness :
  let p := fst (start [PersonX; OrgY; OrgZ] unit example_factory
                  example_predict seeded_pipeline) in
  (keys_invariant (knowledge p) /\ keys_invariant (questions p))
  /\ dict_keys (knowledge p) = [seed_evidence (works_for PersonX OrgY)]
  /\ dict_keys (questions p) = [evidence_XY]
  /\ (located evidence_XY /\ evidence_invariant evidence_XY).
Proof.
  destruct (stored_evidence_invariant [PersonX; OrgY; OrgZ] unit
              example_factory example_predict)
    as [Hreach [_ [Hstart _]]].
  split; [|split; [|split]]; try reflexivity.
  - apply Hreach. apply reachable_start.
    apply (reachable_init _ _ _ _ [example_segment]
             [works_for PersonX OrgY]).
    reflexivity.
  - apply (Hstart seeded_pipeline). left. reflexivity.
Defined.

(** A witness for C6: the located evidence for OrgY scores 0.9921875
    and is merged, the one for OrgZ scores 0.5 and is not, and the seed
    evidence stays. *)
Lemma filter_facts_merges_witness :
  let facts : Knowledge :=
    [(evidence_XY, Some (127 # 128)%Q); (evidence_XZ, Some (1 # 2)%Q)] in
  let r := filter_facts unit seeded_pipeline (DataKnowledge unit facts) in
  snd r = Ok (DataKnowledge unit facts)
  /\ known_facts (fst r)
     = [(seed_evidence (works_for PersonX OrgY), Some 1%Q);
        (evidence_XY, Some (127 # 128)%Q)]
  /\ dict_get Evidence_eqb (known_facts (fst r)) evidence_XY
     = Some (Some (127 # 128)%Q)
  /\ dict_get Evidence_eqb (known_facts (fst r)) evidence_XZ = None
  /\ In (seed_evidence (works_for PersonX OrgY))
       (dict_keys (known_facts (fst r))).
Proof.
  intros facts r.
  destruct (filter_facts_merges unit seeded_pipeline facts)
    as [Hret [_ [Hin [Hout [Hkeys _]]]]].
  - intros e s [[= <- <-]|[[= <- <-]|[]]]; discriminate.
  - repeat constructor; simpl; [intros [H|[]]; discriminate | intros []].
  - split; [exact Hret|]. split; [reflexivity|]. split; [|split].
    + apply Hin; [simpl; auto | reflexivity].
    + fold r in Hout. rewrite Hout; [reflexivity|].
      intros s [Heq|[Heq|[]]] Hlt; [discriminate|].
      injection Heq as <-. vm_compute in Hlt. discriminate.
    + fold r in Hkeys. apply Hkeys. left. simpl. auto.
Defined.

(** ** Floats *)

(** *** Powers of two *)

Lemma pow2_pos (e : Z) : (0 < 2 ^ e)%Q.
Proof. apply Qpower_0_lt. reflexivity. Qed.

Lemma pow2_add (a b : Z) : (2 ^ (a + b) == 2 ^ a * 2 ^ b)%Q.
Proof. apply Qpower_plus. discriminate. Qed.

Lemma pow2_le (a b : Z) : a <= b -> (2 ^ a <= 2 ^ b)%Q.
Proof. intros H. apply Qpower_le_compat_l; [exact H | discriminate]. Qed.

Lemma pow2_lt_inv (a b : Z) : (2 ^ a < 2 ^ b)%Q -> a < b.
Proof. intros H. eapply Qpower_lt_compat_l_inv; [exact H | reflexivity]. Qed.

Lemma pow2_Z (n : Z) : 0 <= n -> (2 ^ n == inject_Z (2 ^ n))%Q.
Proof. intros H. rewrite (Zpower_Qpower 2 n H). reflexivity. Qed.

Lemma pow2_split (k e : Z) : (2 ^ k == 2 ^ (k - e) * 2 ^ e)%Q.
Proof. rewrite <- pow2_add. replace (k - e + e) with k by lia. reflexivity. Qed.


(** *** The binary logarithm *)

Lemma Qlog2_spec (a : Q) :
  (0 < a)%Q -> (2 ^ Qlog2 a <= a)%Q /\ (a < 2 ^ (Qlog2 a + 1))%Q.
Proof.
  intros Ha. destruct a as [n d]. unfold Qlog2. cbn [Qnum Qden].
  assert (Hn : 0 < n) by (unfold Qlt in Ha; simpl in Ha; lia).
  set (ln := Z.log2 n). set (ld := Z.log2 (Z.pos d)).
  destruct (Z.log2_spec n Hn) as [Hn1 Hn2]. fold ln in Hn1, Hn2.
  destruct (Z.log2_spec (Z.pos d) eq_refl) as [Hd1 Hd2]. fold ld in Hd1, Hd2.
  assert (Hln : 0 <= ln) by apply Z.log2_nonneg.
  assert (Hld : 0 <= ld) by apply Z.log2_nonneg.
  assert (Had : ((n # d) * inject_Z (Z.pos d) == inject_Z n)%Q).
  { unfold Qeq, Qmult, inject_Z. simpl. lia. }
  assert (Hdpos : (0 < inject_Z (Z.pos d))%Q) by reflexivity.
  assert (Q1 : (2 ^ ln <= inject_Z n)%Q).
  { rewrite pow2_Z by exact Hln. rewrite <- Zle_Qle. exact Hn1. }
  assert (Q2 : (inject_Z n < 2 ^ (ln + 1))%Q).
  { rewrite pow2_Z by lia. rewrite <- Zlt_Qlt. exact Hn2. }
  assert (Q3 : (2 ^ ld <= inject_Z (Z.pos d))%Q).
  { rewrite pow2_Z by exact Hld. rewrite <- Zle_Qle. exact Hd1. }
  assert (Q4 : (inject_Z (Z.pos d) < 2 ^ (ld + 1))%Q).
  { rewrite pow2_Z by lia. rewrite <- Zlt_Qlt. exact Hd2. }
  assert (Hup : ((n # d) < 2 ^ (ln - ld + 1))%Q).
  { apply (Qmult_lt_r _ _ (inject_Z (Z.pos d)) Hdpos). rewrite Had.
    apply Qlt_le_trans with (2 ^ (ln + 1))%Q; [exact Q2|].
    replace (ln + 1) with ((ln - ld + 1) + ld) by lia. rewrite pow2_add.
    apply Qmult_le_l; [apply pow2_pos | exact Q3]. }
  assert (Hlow : (2 ^ (ln - ld - 1) < (n # d))%Q).
  { apply (Qmult_lt_r _ _ (inject_Z (Z.pos d)) Hdpos). rewrite Had.
    apply Qlt_le_trans with (2 ^ ln)%Q; [|exact Q1].
    replace ln with ((ln - ld - 1) + (ld + 1)) at 2 by lia. rewrite pow2_add.
    apply Qmult_lt_l; [apply pow2_pos | exact Q4]. }
  destruct (Qle_bool (2 ^ (ln - ld)) (n # d)) eqn:E.
  - apply Qle_bool_iff in E. split; assumption.
  - split.
    + apply Qlt_le_weak. exact Hlow.
    + replace (ln - ld - 1 + 1) with (ln - ld) by lia.
      apply Qnot_le_lt. intros H. apply Qle_bool_iff in H. congruence.
Qed.

Lemma Qlog2_unique (a : Q) (k : Z) :
  (2 ^ k <= a)%Q -> (a < 2 ^ (k + 1))%Q -> Qlog2 a = k.
Proof.
  intros H1 H2.
  assert (Ha : (0 < a)%Q)
    by (eapply Qlt_le_trans; [apply (pow2_pos k) | exact H1]).
  destruct (Qlog2_spec a Ha) as [L1 L2].
  assert (Qlog2 a < k + 1)
    by (apply pow2_lt_inv; eapply Qle_lt_trans; eassumption).
  assert (k < Qlog2 a + 1)
    by (apply pow2_lt_inv; eapply Qle_lt_trans; eassumption).
  lia.
Qed.

Lemma Qlog2_le (a b : Q) : (0 < a)%Q -> (a <= b)%Q -> Qlog2 a <= Qlog2 b.
Proof.
  intros Ha Hab.
  assert (Hb : (0 < b)%Q) by (eapply Qlt_le_trans; eassumption).
  destruct (Qlog2_spec a Ha) as [L1 _]. destruct (Qlog2_spec b Hb) as [_ L2].
  assert (Qlog2 a < Qlog2 b + 1); [|lia].
  apply pow2_lt_inv. eapply Qle_lt_trans; [exact L1|].
  eapply Qle_lt_trans; eassumption.
Qed.

(** *** Rounding to the nearest integer *)

Lemma round_half_even_bounds (q : Q) :
  Qfloor q <= round_half_even q <= Qfloor q + 1.
Proof.
  unfold round_half_even. destruct (_ ?= _)%Q; [|lia|lia].
  destruct (Z.even _); lia.
Qed.

Lemma round_half_even_ge (q : Q) (z : Z) :
  (inject_Z z <= q)%Q -> z <= round_half_even q.
Proof.
  intros H. apply Qfloor_resp_le in H. rewrite Qfloor_Z in H.
  pose proof (round_half_even_bounds q). lia.
Qed.

Lemma round_half_even_le (q : Q) (z : Z) :
  (q <= inject_Z z)%Q -> round_half_even q <= z.
Proof.
  intros H. pose proof (Qfloor_resp_le _ _ H) as Hf. rewrite Qfloor_Z in Hf.
  pose proof (round_half_even_bounds q) as Hb.
  destruct (Z.eq_dec (Qfloor q) z) as [E|E]; [|lia].
  unfold round_half_even. rewrite E.
  assert (Hq : (q - inject_Z z <= 0)%Q).
  { apply (Qplus_le_l _ _ (inject_Z z)). ring_simplify. exact H. }
  destruct (Qcompare_spec (q - inject_Z z) (1 # 2)) as [C|C|C].
  - exfalso. rewrite C in Hq. unfold Qle in Hq. simpl in Hq. lia.
  - lia.
  - exfalso. apply (Qlt_not_le _ _ C).
    eapply Qle_trans; [exact Hq | unfold Qle; simpl; lia].
Qed.

Lemma round_half_even_Z (z : Z) : round_half_even (inject_Z z) = z.
Proof.
  pose proof (round_half_even_ge (inject_Z z) z (Qle_refl _)).
  pose proof (round_half_even_le (inject_Z z) z (Qle_refl _)).
  lia.
Qed.

Lemma round_half_even_le_compat (p q : Q) :
  (p <= q)%Q -> round_half_even p <= round_half_even q.
Proof.
  intros H. pose proof (Qfloor_resp_le _ _ H) as Hf.
  pose proof (round_half_even_bounds p) as Hp.
  pose proof (round_half_even_bounds q) as Hq.
  destruct (Z.eq_dec (Qfloor p) (Qfloor q)) as [E|E]; [|lia].
  unfold round_half_even in *. rewrite E in *.
  assert (Hr : (p - inject_Z (Qfloor q) <= q - inject_Z (Qfloor q))%Q)
    by (apply Qplus_le_l; exact H).
  destruct (Qcompare_spec (p - inject_Z (Qfloor q)) (1 # 2)) as [C|C|C];
    destruct (Qcompare_spec (q - inject_Z (Qfloor q)) (1 # 2)) as [D|D|D];
    try lia; try (destruct (Z.even (Qfloor q)); lia); exfalso.
  - rewrite C in Hr. apply (Qlt_not_le _ _ D). exact Hr.
  - apply (Qlt_not_le _ _ C). eapply Qle_trans; [exact Hr|].
    rewrite D. apply Qle_refl.
  - apply (Qlt_not_le _ _ C). eapply Qle_trans; [exact Hr|].
    apply Qlt_le_weak. exact D.
Qed.

Lemma round_half_even_comp (p q : Q) :
  (p == q)%Q -> round_half_even p = round_half_even q.
Proof.
  intros H.
  assert (round_half_even p <= round_half_even q)
    by (apply round_half_even_le_compat; rewrite H; apply Qle_refl).
  assert (round_half_even q <= round_half_even p)
    by (apply round_half_even_le_compat; rewrite H; apply Qle_refl).
  lia.
Qed.

(** *** Rounding to a float *)

Lemma Qlog2_comp (a b : Q) : (0 < a)%Q -> (a == b)%Q -> Qlog2 a = Qlog2 b.
Proof.
  intros Ha H. destruct (Qlog2_spec a Ha) as [L1 L2].
  symmetry. apply Qlog2_unique; rewrite <- H; assumption.
Qed.

Lemma round_magnitude_0 (a : Q) : (a == 0)%Q -> (round_magnitude a == 0)%Q.
Proof.
  intros H. unfold round_magnitude. generalize (ulp_exponent a). intros e.
  rewrite (round_half_even_comp _ (inject_Z 0)).
  - rewrite round_half_even_Z. apply Qmult_0_l.
  - rewrite H. apply Qmult_0_l.
Qed.

Lemma round_magnitude_nonneg (a : Q) : (0 <= a)%Q -> (0 <= round_magnitude a)%Q.
Proof.
  intros H. unfold round_magnitude. apply Qmult_le_0_compat.
  - change 0%Q with (inject_Z 0). rewrite <- Zle_Qle.
    apply round_half_even_ge. simpl. apply Qmult_le_0_compat; [exact H|].
    apply Qlt_le_weak. apply pow2_pos.
  - apply Qlt_le_weak. apply pow2_pos.
Qed.

(** The scaled number lies between the scaled powers of two around it. *)
Lemma scaled_le (a : Q) (e k : Z) :
  (a <= 2 ^ k)%Q -> (a * 2 ^ (- e) <= 2 ^ (k - e))%Q.
Proof.
  intros H. replace (k - e) with (k + - e) by lia. rewrite pow2_add.
  apply Qmult_le_compat_r; [exact H|]. apply Qlt_le_weak. apply pow2_pos.
Qed.

Lemma scaled_ge (a : Q) (e k : Z) :
  (2 ^ k <= a)%Q -> (2 ^ (k - e) <= a * 2 ^ (- e))%Q.
Proof.
  intros H. replace (k - e) with (k + - e) by lia. rewrite pow2_add.
  apply Qmult_le_compat_r; [exact H|]. apply Qlt_le_weak. apply pow2_pos.
Qed.

Lemma round_magnitude_le_pow2 (a : Q) (k : Z) :
  (a <= 2 ^ k)%Q -> ulp_exponent a <= k -> (round_magnitude a <= 2 ^ k)%Q.
Proof.
  intros H He. unfold round_magnitude. set (e := ulp_exponent a) in *.
  rewrite (pow2_split k e).
  apply Qmult_le_compat_r; [|apply Qlt_le_weak; apply pow2_pos].
  rewrite (pow2_Z (k - e)) by lia. rewrite <- Zle_Qle.
  apply round_half_even_le. rewrite <- pow2_Z by lia.
  apply scaled_le. exact H.
Qed.

Lemma round_magnitude_ge_pow2 (a : Q) (k : Z) :
  (2 ^ k <= a)%Q -> ulp_exponent a <= k -> (2 ^ k <= round_magnitude a)%Q.
Proof.
  intros H He. unfold round_magnitude. set (e := ulp_exponent a) in *.
  rewrite (pow2_split k e).
  apply Qmult_le_compat_r; [|apply Qlt_le_weak; apply pow2_pos].
  rewrite (pow2_Z (k - e)) by lia. rewrite <- Zle_Qle.
  apply round_half_even_ge. rewrite <- pow2_Z by lia.
  apply scaled_ge. exact H.
Qed.

Lemma round_magnitude_le_compat (a b : Q) :
  (0 <= a)%Q -> (a <= b)%Q -> (round_magnitude a <= round_magnitude b)%Q.
Proof.
  intros Ha Hab.
  destruct (Qeq_dec a 0) as [Hz|Hnz].
  { rewrite (round_magnitude_0 a Hz). apply round_magnitude_nonneg.
    eapply Qle_trans; eassumption. }
  assert (Hpos : (0 < a)%Q).
  { apply Qle_lteq in Ha. destruct Ha as [Ha|Ha]; [exact Ha|].
    exfalso. apply Hnz. symmetry. exact Ha. }
  assert (Hb : (0 < b)%Q) by (eapply Qlt_le_trans; eassumption).
  pose proof (Qlog2_le a b Hpos Hab) as Hlog.
  destruct (Qlog2_spec a Hpos) as [_ A2]. destruct (Qlog2_spec b Hb) as [B1 _].
  destruct (Z.eq_dec (ulp_exponent a) (ulp_exponent b)) as [E|E].
  - unfold round_magnitude. rewrite E.
    apply Qmult_le_compat_r; [|apply Qlt_le_weak; apply pow2_pos].
    rewrite <- Zle_Qle. apply round_half_even_le_compat.
    apply Qmult_le_compat_r; [exact Hab|]. apply Qlt_le_weak. apply pow2_pos.
  - unfold ulp_exponent in E.
    assert (Hlt : Qlog2 a < Qlog2 b) by lia.
    apply Qle_trans with (2 ^ Qlog2 b)%Q.
    + apply round_magnitude_le_pow2.
      * apply Qle_trans with (2 ^ (Qlog2 a + 1))%Q;
          [apply Qlt_le_weak; exact A2 | apply pow2_le; lia].
      * unfold ulp_exponent. lia.
    + apply round_magnitude_ge_pow2; [exact B1|]. unfold ulp_exponent. lia.
Qed.

Lemma round_magnitude_comp (a b : Q) :
  (0 <= a)%Q -> (a == b)%Q -> (round_magnitude a == round_magnitude b)%Q.
Proof.
  intros Ha H. apply Qle_antisym.
  - apply round_magnitude_le_compat; [exact Ha | rewrite H; apply Qle_refl].
  - apply round_magnitude_le_compat; rewrite <- H;
      [exact Ha | apply Qle_refl].
Qed.

Lemma round64_nonneg (x : Q) : (0 <= x)%Q -> round64 x = round_magnitude x.
Proof.
  intros H. unfold round64. apply Qle_bool_iff in H. rewrite H. reflexivity.
Qed.

Lemma round64_neg (x : Q) :
  (x < 0)%Q -> round64 x = (- round_magnitude (- x))%Q.
Proof.
  intros H. unfold round64. destruct (Qle_bool 0 x) eqn:E; [|reflexivity].
  apply Qle_bool_iff in E. exfalso. apply (Qlt_not_le _ _ H). exact E.
Qed.

Lemma Qopp_pos (x : Q) : (x < 0)%Q -> (0 < - x)%Q.
Proof.
  intros H. apply (Qplus_lt_l _ _ x). ring_simplify. exact H.
Qed.

(** Rounding keeps the order. *)
Lemma round64_le_compat (x y : Q) : (x <= y)%Q -> (round64 x <= round64 y)%Q.
Proof.
  intros H. destruct (Qlt_le_dec x 0) as [Hx|Hx];
    destruct (Qlt_le_dec y 0) as [Hy|Hy].
  - rewrite (round64_neg x Hx), (round64_neg y Hy). apply Qopp_le_compat.
    apply round_magnitude_le_compat.
    + apply Qlt_le_weak. apply Qopp_pos. exact Hy.
    + apply Qopp_le_compat. exact H.
  - rewrite (round64_neg x Hx), (round64_nonneg y Hy).
    apply Qle_trans with 0%Q.
    + apply (Qplus_le_l _ _ (round_magnitude (- x))). ring_simplify.
      apply round_magnitude_nonneg. apply Qlt_le_weak. apply Qopp_pos.
      exact Hx.
    + apply round_magnitude_nonneg. exact Hy.
  - exfalso. apply (Qlt_not_le _ _ Hy). eapply Qle_trans; eassumption.
  - rewrite (round64_nonneg x Hx), (round64_nonneg y Hy).
    apply round_magnitude_le_compat; assumption.
Qed.

(** Rounding does not depend on the fraction that stands for the number. *)
Lemma round64_comp (x y : Q) : (x == y)%Q -> (round64 x == round64 y)%Q.
Proof.
  intros H. apply Qle_antisym; apply round64_le_compat; rewrite H;
    apply Qle_refl.
Qed.

(** Rounding is symmetric. *)
Lemma round64_opp (x : Q) : (round64 (- x) == - round64 x)%Q.
Proof.
  destruct (Qlt_le_dec x 0) as [Hx|Hx].
  - rewrite (round64_neg x Hx).
    rewrite (round64_nonneg (- x))
      by (apply Qlt_le_weak; apply Qopp_pos; exact Hx).
    ring.
  - destruct (Qeq_dec x 0) as [Hz|Hnz].
    + rewrite (round64_comp (- x) 0) by (rewrite Hz; reflexivity).
      rewrite (round64_comp x 0) by exact Hz. reflexivity.
    + assert (Hneg : (- x < 0)%Q).
      { apply (Qplus_lt_l _ _ x). ring_simplify.
        apply Qle_lteq in Hx. destruct Hx as [Hx|Hx]; [exact Hx|].
        exfalso. apply Hnz. symmetry. exact Hx. }
      rewrite (round64_neg (- x) Hneg), (round64_nonneg x Hx).
      apply Qopp_comp. apply round_magnitude_comp.
      * apply Qlt_le_weak. apply Qopp_pos. exact Hneg.
      * ring.
Qed.

(** A float is rounded to itself. *)
Lemma round_magnitude_binary64 (m e : Z) :
  0 <= m < 2 ^ 53 -> -1074 <= e ->
  (round_magnitude (inject_Z m * 2 ^ e) == inject_Z m * 2 ^ e)%Q.
Proof.
  intros Hm He. destruct (Z.eq_dec m 0) as [->|NZ].
  { rewrite round_magnitude_0 by apply Qmult_0_l. symmetry. apply Qmult_0_l. }
  assert (Hpos : 0 < m) by lia.
  set (a := (inject_Z m * 2 ^ e)%Q).
  destruct (Z.log2_spec m Hpos) as [L1 L2].
  assert (Hlog : Z.log2 m < 53) by (apply Z.log2_lt_pow2; lia).
  assert (Hl0 : 0 <= Z.log2 m) by apply Z.log2_nonneg.
  assert (HL : Qlog2 a = Z.log2 m + e).
  { apply Qlog2_unique; unfold a.
    - rewrite pow2_add. apply Qmult_le_compat_r;
        [|apply Qlt_le_weak; apply pow2_pos].
      rewrite pow2_Z by exact Hl0. rewrite <- Zle_Qle. exact L1.
    - replace (Z.log2 m + e + 1) with ((Z.log2 m + 1) + e) by lia.
      rewrite pow2_add. apply Qmult_lt_r; [apply pow2_pos|].
      rewrite pow2_Z by lia. rewrite <- Zlt_Qlt. exact L2. }
  unfold round_magnitude.
  assert (Hu : ulp_exponent a <= e) by (unfold ulp_exponent; lia).
  set (u := ulp_exponent a) in *.
  assert (Hs : (a * 2 ^ (- u) == inject_Z (m * 2 ^ (e - u)))%Q).
  { unfold a. rewrite inject_Z_mult, <- pow2_Z by lia.
    replace (e - u) with (e + - u) by lia. rewrite pow2_add. ring. }
  rewrite (round_half_even_comp _ _ Hs), round_half_even_Z.
  rewrite inject_Z_mult, <- pow2_Z by lia. unfold a.
  rewrite <- Qmult_assoc, <- pow2_split. reflexivity.
Qed.

Lemma round64_binary64 (x : Q) : binary64 x -> (round64 x == x)%Q.
Proof.
  intros [m [e [Hm [He Hx]]]]. rewrite (round64_comp _ _ Hx).
  destruct (Z_lt_le_dec m 0) as [Hneg|Hpos].
  - assert (Hopp : (inject_Z m * 2 ^ e == - (inject_Z (- m) * 2 ^ e))%Q).
    { rewrite inject_Z_opp. ring. }
    rewrite (round64_comp _ _ Hopp), round64_opp.
    rewrite round64_nonneg.
    + rewrite round_magnitude_binary64 by lia. rewrite Hx, Hopp. reflexivity.
    + apply Qmult_le_0_compat; [|apply Qlt_le_weak; apply pow2_pos].
      change 0%Q with (inject_Z 0). rewrite <- Zle_Qle. lia.
  - rewrite round64_nonneg.
    + rewrite round_magnitude_binary64 by lia. symmetry. exact Hx.
    + apply Qmult_le_0_compat; [|apply Qlt_le_weak; apply pow2_pos].
      change 0%Q with (inject_Z 0). rewrite <- Zle_Qle. lia.
Qed.




Lemma binary64_pow2 (m e : Z) :
  Z.abs m < 2 ^ 53 -> -1074 <= e -> binary64 (inject_Z m * 2 ^ e).
Proof. intros Hm He. exists m, e. repeat split; auto. Qed.

Lemma binary64_half : binary64 (1 # 2).
Proof. exists 1, (-1). repeat split; lia. Qed.




Lemma round64_ge_binary64 (x d : Q) :
  binary64 d -> (d <= x)%Q -> (d <= round64 x)%Q.
Proof.
  intros Hd H. apply Qle_trans with (round64 d).
  - rewrite (round64_binary64 d Hd). apply Qle_refl.
  - apply round64_le_compat. exact H.
Qed.


Lemma certainty_half_le (p : Q) : ((1 # 2) <= certainty (Some p))%Q.
Proof.
  unfold certainty. apply round64_ge_binary64; [exact binary64_half|].
  rewrite <- (Qplus_0_r (1 # 2)) at 1.
  apply Qplus_le_r. apply Qabs_nonneg.
Qed.















(** ** Ranking by certainty *)

Section SortedReverseFacts.

Context {K A : Type}.
Variable lt : K -> K -> result bool.
Variable ge : K -> K -> Prop.
Hypothesis ge_trans : forall x y z, ge x y -> ge y z -> ge x z.
Hypothesis lt_true : forall x y, lt x y = Ok true -> ge y x.
Hypothesis lt_false : forall x y, lt x y = Ok false -> ge x y.

Let GE (x y : K * A) : Prop := ge (fst x) (fst y).

Lemma insert_desc_permutation (x : K * A) (l : list (K * A)) :
  forall r, insert_desc lt x l = Ok r -> Permutation r (x :: l).
Proof.
  induction l as [|y l IH]; simpl; intros r H.
  - injection H as <-. apply Permutation_refl.
  - destruct (lt (fst x) (fst y)) as [[|]| |]; simpl in H; try discriminate.
    + destruct (insert_desc lt x l) as [r'| |]; simpl in H; try discriminate.
      injection H as <-.
      apply perm_trans with (y :: x :: l); [|apply perm_swap].
      apply perm_skip. apply IH. reflexivity.
    + injection H as <-. apply Permutation_refl.
Qed.

Lemma insert_desc_sorted (x : K * A) (l : list (K * A)) :
  StronglySorted GE l ->
  forall r, insert_desc lt x l = Ok r -> StronglySorted GE r.
Proof.
  induction 1 as [|y l Hs IH Hall]; simpl; intros r H.
  - injection H as <-. repeat constructor.
  - destruct (lt (fst x) (fst y)) as [[|]| |] eqn:Hlt; simpl in H;
      try discriminate.
    + destruct (insert_desc lt x l) as [r'| |] eqn:Hins; simpl in H;
        try discriminate.
      injection H as <-. constructor; [apply IH; reflexivity|].
      apply Forall_forall. intros z Hz.
      apply (Permutation_in _ (insert_desc_permutation x l r' Hins)) in Hz.
      destruct Hz as [<-|Hz].
      * apply lt_true. assumption.
      * rewrite Forall_forall in Hall. auto.
    + injection H as <-. apply lt_false in Hlt.
      constructor; [constructor; assumption|].
      constructor; [assumption|].
      eapply Forall_impl; [|exact Hall].
      intros z Hz. eapply ge_trans; eassumption.
Qed.

Lemma sort_desc_sorted (l : list (K * A)) :
  forall r, sort_desc lt l = Ok r -> Permutation r l /\ StronglySorted GE r.
Proof.
  induction l as [|x l IH]; simpl; intros r H.
  - injection H as <-. split; constructor.
  - destruct (sort_desc lt l) as [r'| |]; simpl in H; try discriminate.
    destruct (IH r' eq_refl) as [Hperm Hsorted]. split.
    + apply perm_trans with (x :: r').
      * apply insert_desc_permutation. assumption.
      * apply perm_skip. assumption.
    + eapply insert_desc_sorted; eassumption.
Qed.

End SortedReverseFacts.

Lemma for_each_combine {A B : Type} (f : A -> result B) (l : list A) :
  forall ys,
    for_each f l = Ok ys ->
    map snd (combine ys l) = l
    /\ forall y x, In (y, x) (combine ys l) -> f x = Ok y.
Proof.
  induction l as [|x l IH]; simpl; intros ys H.
  - injection H as <-. split; [reflexivity | intros y x []].
  - destruct (f x) as [y| |] eqn:Hy; simpl in H; try discriminate.
    destruct (for_each f l) as [ys'| |]; simpl in H; try discriminate.
    injection H as <-. destruct (IH ys' eq_refl) as [Hmap Hin]. simpl.
    split; [rewrite Hmap; reflexivity|].
    intros y0 x0 [[= <- <-]|Hin0]; auto.
Qed.

(** The number in the key of [by_certainty] orders the scores as their
    certainty does. *)
Lemma key_number_certainty (s t : score) :
  ((match t with Some _ => certainty t | None => 0 end)
   <= (match s with Some _ => certainty s | None => 0 end))%Q ->
  (certainty t <= certainty s)%Q.
Proof.
  destruct s as [q|], t as [r|]; intros H.
  - exact H.
  - apply certainty_half_le.
  - exfalso. pose proof (certainty_half_le r) as Hr.
    assert (Hc : ((1 # 2) <= 0)%Q) by (eapply Qle_trans; eassumption).
    unfold Qle in Hc. simpl in Hc. lia.
  - apply Qle_refl.
Qed.

Lemma key_ge_trans (x y z : Q * Evidence) :
  key_ge x y -> key_ge y z -> key_ge x z.
Proof. unfold key_ge. intros H1 H2. eapply Qle_trans; eassumption. Qed.

Lemma key_lt_true (x y : Q * Evidence) : key_lt x y = Ok true -> key_ge y x.
Proof.
  unfold key_lt, key_ge. intros Hlt.
  destruct (Qeq_bool (fst x) (fst y)) eqn:E.
  - apply Qeq_bool_iff in E. rewrite E. apply Qle_refl.
  - injection Hlt as Hlt. apply Qltb_lt in Hlt. apply Qlt_le_weak.
    assumption.
Qed.

Lemma key_lt_false (x y : Q * Evidence) : key_lt x y = Ok false -> key_ge x y.
Proof.
  unfold key_lt, key_ge. intros Hlt.
  destruct (Qeq_bool (fst x) (fst y)) eqn:E.
  - apply Qeq_bool_iff in E. rewrite E. apply Qle_refl.
  - injection Hlt as Hlt. unfold Qltb in Hlt. apply negb_false_iff in Hlt.
    apply Qle_bool_iff. assumption.
Qed.

(** Whenever [by_certainty] returns, it returns the items of the
    knowledge, each once, in an order of non-increasing certainty. *)
Lemma by_certainty_sorted (self : Knowledge) (l : list (Evidence * score)) :
  NoDup (dict_keys self) ->
  by_certainty self = Ok l ->
  Permutation l self
  /\ StronglySorted
       (fun x y => (certainty (snd y) <= certainty (snd x))%Q) l.
Proof.
  intros Hnodup H. unfold by_certainty, sorted_reverse in H.
  destruct (for_each (key_funct self) self) as [keys| |] eqn:Hkeys;
    simpl in H; try discriminate.
  destruct (sort_desc key_lt (combine keys self)) as [r| |] eqn:Hsort;
    simpl in H; try discriminate.
  injection H as <-.
  destruct (for_each_combine _ _ _ Hkeys) as [Hmap Hkey].
  destruct (sort_desc_sorted key_lt key_ge key_ge_trans key_lt_true
              key_lt_false
              (combine keys self) r Hsort) as [Hperm Hsorted].
  split.
  - apply perm_trans with (map snd (combine keys self));
      [apply Permutation_map; assumption | rewrite Hmap; apply Permutation_refl].
  - assert (Hnum : forall k es, In (k, es) r ->
               fst k = match snd es with
                       | Some _ => certainty (snd es)
                       | None => 0%Q
                       end).
    { intros k [e s] Hin.
      apply (Permutation_in _ Hperm) in Hin.
      pose proof (in_combine_r _ _ _ _ Hin) as Hself.
      apply Hkey in Hin. unfold key_funct, dict_getitem in Hin. simpl in Hin.
      assert (Hget : dict_get Evidence_eqb self e = Some s).
      { clear - Hnodup Hself. induction self as [|[e0 s0] d IH];
          [destruct Hself|].
        inversion Hnodup as [|? ? Hnotin Hnodup']; subst. simpl.
        destruct Hself as [[= -> ->]|Hself].
        - rewrite (eqb_refl Evidence_eqb Evidence_eqb_eq). reflexivity.
        - destruct (Evidence_eqb e e0) eqn:E; [|auto].
          apply Evidence_eqb_eq in E. subst e0. exfalso. apply Hnotin.
          apply in_map_iff. exists (e, s). auto. }
      rewrite Hget in Hin. simpl in Hin. injection Hin as <-. reflexivity. }
    clear - Hsorted Hnum. induction Hsorted as [|[k es] r Hs IH Hall];
      simpl; [constructor|].
    constructor.
    + apply IH. intros k' es' Hin. apply Hnum. right. assumption.
    + rewrite Forall_forall in Hall. apply Forall_forall.
      intros es' Hin. apply in_map_iff in Hin.
      destruct Hin as [[k' es''] [<- Hin]]. simpl.
      specialize (Hall _ Hin). simpl in Hall.
      apply key_number_certainty.
      rewrite <- (Hnum k es (or_introl eq_refl)).
      rewrite <- (Hnum k' es'' (or_intror Hin)). assumption.
Qed.

(** C1.  On the knowledge that maps the evidence for OrgZ to [None] and the
    evidence for OrgY to 0.5, [by_certainty] puts the evidence for OrgY
    first: the key of a score of [None] is 0, below every certainty.  With
    [None] ranked as 0.5, as the docstring has it, the two keys tie and the
    order of the evidence puts OrgZ first, which is also what
    [by_certainty] answers when the score [None] is replaced by 0.5. *)
Theorem by_certainty_ranks_None_last :
  let k := [(evidence_XZ, None); (evidence_XY, Some (1 # 2)%Q)] in
  let k' := [(evidence_XZ, Some (1 # 2)%Q); (evidence_XY, Some (1 # 2)%Q)] in
  by_certainty k = Ok [(evidence_XY, Some (1 # 2)%Q); (evidence_XZ, None)]
  /\ by_certainty_documented k
     = Ok [(evidence_XZ, None); (evidence_XY, Some (1 # 2)%Q)]
  /\ by_certainty k'
     = Ok [(evidence_XZ, Some (1 # 2)%Q); (evidence_XY, Some (1 # 2)%Q)]
  /\ key_funct k (evidence_XZ, None) = Ok (0%Q, evidence_XZ)
  /\ certainty None = (1 # 2)%Q.
Proof. repeat split. Qed.

(** ** Contextual segments *)

(** C3.  On a document of 100 tokens with four one-token occurrences at
    the offsets 1 to 4 and [d = 10], the candidate windows are [[0, 14)],
    [[0, 15)] and [[0, 15)] again: the third repeats the second and is
    discarded, but the first two are both materialised although they
    overlap and the first lies inside the second.  On a document with an
    occurrence that contains the others the window [[48, 54)] is
    materialised although it lies strictly inside [[0, 100)], the window
    before it: a window is discarded only when its end is the end of the
    window before. *)
Theorem overlapping_windows_both_materialized :
  let doc := example_document 100
               [example_occurrence "A" 1 2; example_occurrence "B" 2 3;
                example_occurrence "C" 3 4; example_occurrence "D" 4 5] in
  let nested := example_document 200
                  [example_occurrence "A" 0 100; example_occurrence "B" 1 2;
                   example_occurrence "C" 50 51;
                   example_occurrence "D" 51 52] in
  (map (fun c => (window c, is_materialized c))
     (fst (build_contextual_segments doc 10))
   = [((0, 14), true); ((0, 15), true); ((0, 15), false)]
   /\ snd (build_contextual_segments doc 10) = Ok tt)
  /\ (map (fun c => (window c, is_materialized c))
        (fst (build_contextual_segments nested 2))
      = [((0, 100), true); ((48, 54), true)]
      /\ snd (build_contextual_segments nested 2) = Ok tt).
Proof. vm_compute. repeat split. Qed.

(** C4.  On a document of 20 tokens with the occurrences [[0, 10)],
    [[1, 2)], [[8, 9)] and [[9, 10)] and [d = 2], the second window that is
    materialised is [[6, 12)]: its start lies strictly inside the first
    occurrence, which is split.  The loop that moves [start] to the left
    stops at the occurrence [[1, 2)], which ends before the window, and
    never reaches the occurrence [[0, 10)] behind it. *)
Theorem window_splits_enclosing_occurrence :
  let doc := example_document 20
               [example_occurrence "A" 0 10; example_occurrence "B" 1 2;
                example_occurrence "C" 8 9; example_occurrence "D" 9 10] in
  map window (materialized (fst (build_contextual_segments doc 2)))
  = [(0, 10); (6, 12)]
  /\ snd (build_contextual_segments doc 2) = Ok tt
  /\ In (example_occurrence "A" 0 10) (doc_entities doc)
  /\ splits 6 12 (example_occurrence "A" 0 10)
  /\ widen_start doc 2%nat 2 6 = Ok 6.
Proof.
  repeat split; try reflexivity.
  - left. reflexivity.
  - left. unfold example_occurrence; simpl; lia.
Qed.

(** *** The repeat test, in general *)

Lemma contextual_loop_step (self : IEDocument) (d : Z) (fuel : nat)
    (i lstart lend : Z) (acc : list candidate) :
  contextual_loop self d (S fuel) i lstart lend acc
  = if i + 1 <? len (doc_entities self) then
      match next_window self d i lstart lend with
      | Ok None => (acc, Ok tt)
      | Ok (Some (i', c)) =>
          contextual_loop self d fuel (i' + 1) (cand_start c) (cand_end c)
            (acc ++ [c])
      | Raise e => (acc, Raise e)
      | OutOfFuel => (acc, OutOfFuel)
      end
    else (acc, Ok tt).
Proof. reflexivity. Qed.

Lemma next_window_guard (self : IEDocument) (d i lstart lend i' : Z)
    (c : candidate) :
  next_window self d i lstart lend = Ok (Some (i', c)) ->
  is_materialized c
  = negb ((cand_end c =? lend) && (cand_start c >=? lstart)).
Proof.
  unfold next_window. intros H.
  destruct (left_middle self i) as [[l m]| |]; simpl in H; try discriminate.
  destruct (find_close self d _ i l m) as [[[[j l'] m']|]| |];
    simpl in H; try discriminate.
  destruct (if j + 2 <? len (doc_entities self) then _ else _) as [r| |];
    simpl in H; try discriminate.
  destruct (widen_start self _ j _) as [start| |]; simpl in H;
    try discriminate.
  destruct (widen_end self _ j _) as [end_| |]; simpl in H; try discriminate.
  destruct (negb ((end_ =? lend) && (start >=? lstart))) eqn:G.
  - destruct (TextSegment_build self start end_) as [s| |]; simpl in H;
      try discriminate.
    injection H as _ <-. simpl. symmetry. exact G.
  - injection H as _ <-. simpl. symmetry. exact G.
Qed.

(** Whatever the document and [d], the candidates that the loop adds obey
    the repeat test. *)
Lemma contextual_loop_guard (self : IEDocument) (d : Z) (fuel : nat) :
  forall i lstart lend acc,
  exists new,
    fst (contextual_loop self d fuel i lstart lend acc) = acc ++ new
    /\ repeat_guard lstart lend new.
Proof.
  induction fuel as [|fuel IH]; intros i lstart lend acc.
  - exists []. rewrite app_nil_r. split; [|exact I].
    simpl. destruct (i + 1 <? _); reflexivity.
  - rewrite contextual_loop_step.
    destruct (i + 1 <? len (doc_entities self));
      [|exists []; rewrite app_nil_r; split; [reflexivity | exact I]].
    destruct (next_window self d i lstart lend) as [[[i' c]|]| |] eqn:Hn;
      try (exists []; rewrite app_nil_r; split; [reflexivity | exact I]).
    destruct (IH (i' + 1) (cand_start c) (cand_end c) (acc ++ [c]))
      as [new [Hnew Hguard]].
    exists (c :: new). split.
    + rewrite Hnew, <- app_assoc. reflexivity.
    + split; [|assumption]. eapply next_window_guard; eassumption.
Qed.

Lemma build_contextual_segments_guard (self : IEDocument) (d : Z) :
  repeat_guard (-1) (-1) (fst (build_contextual_segments self d)).
Proof.
  unfold build_contextual_segments.
  destruct (contextual_loop_guard self d
              (Z.to_nat (len (doc_entities self))) 0 (-1) (-1) [])
    as [new [Hnew Hguard]].
  rewrite Hnew. exact Hguard.
Qed.

(** *** Occurrences that do not overlap are never split *)

Lemma StronglySorted_nth {A : Type} (R : A -> A -> Prop) (l : list A) :
  StronglySorted R l ->
  forall (i j : nat) (x y : A),
    (i < j)%nat -> nth_error l i = Some x -> nth_error l j = Some y -> R x y.
Proof.
  induction 1 as [|h t Hs IH Hall]; intros i j x y Hij Hi Hj.
  - destruct i; discriminate.
  - destruct j as [|j]; [lia|]. destruct i as [|i]; simpl in *.
    + injection Hi as <-. apply nth_error_In in Hj.
      rewrite Forall_forall in Hall. auto.
    + apply (IH i j); auto; lia.
Qed.

Lemma getitem_nth_inv {A : Type} (a : list A) (i : Z) (x : A) :
  0 <= i -> getitem a i = Ok x -> nth_error a (Z.to_nat i) = Some x.
Proof.
  intros Hi H. unfold getitem in H.
  replace (i <? 0) with false in H by (symmetry; apply Z.ltb_ge; lia).
  destruct ((0 <=? i) && (i <? len a)); [|discriminate].
  destruct (nth_error a (Z.to_nat i)); [congruence | discriminate].
Qed.

Lemma left_middle_nth (self : IEDocument) (i : Z)
    (l m : EntityOccurrence) :
  0 <= i -> left_middle self i = Ok (l, m) ->
  nth_error (doc_entities self) (Z.to_nat i) = Some l
  /\ nth_error (doc_entities self) (Z.to_nat (i + 1)) = Some m.
Proof.
  intros Hi H. unfold left_middle, slice in H.
  set (es := doc_entities self) in *.
  assert (Hs : Z.to_nat (slice_bound (len es) i) = Z.to_nat i \/
               (List.length es <= Z.to_nat (slice_bound (len es) i))%nat).
  { unfold slice_bound, len.
    replace (i <? 0) with false by (symmetry; apply Z.ltb_ge; lia). lia. }
  destruct Hs as [Hs|Hs].
  - rewrite Hs in H.
    destruct (skipn (Z.to_nat i) es) as [|a [|b r]] eqn:Hskip.
    + rewrite firstn_nil in H. discriminate.
    + destruct (Z.to_nat (_ - _)) as [|[|k]]; simpl in H; discriminate.
    + destruct (Z.to_nat (_ - _)) as [|[|k]]; simpl in H; try discriminate.
      assert (a = l /\ b = m) as [-> ->].
      { destruct (firstn k r); [|discriminate]. split; congruence. }
      assert (H0 : nth_error (skipn (Z.to_nat i) es) 0 = Some l)
        by (rewrite Hskip; reflexivity).
      assert (H1 : nth_error (skipn (Z.to_nat i) es) 1 = Some m)
        by (rewrite Hskip; reflexivity).
      rewrite nth_error_skipn in H0, H1.
      rewrite Nat.add_0_r in H0.
      replace (Z.to_nat (i + 1)) with (Z.to_nat i + 1)%nat by lia. auto.
  - rewrite skipn_all2 in H by assumption. rewrite firstn_nil in H.
    discriminate.
Qed.

Section NoSplit.

Variable self : IEDocument.
Variable d : Z.
Hypothesis well_formed : disjoint_occurrences self.

Let es := doc_entities self.
Let at_ (k : Z) : option EntityOccurrence := nth_error es (Z.to_nat k).

Lemma occurrence_bounds (k : Z) (x : EntityOccurrence) :
  at_ k = Some x ->
  0 <= occ_offset x <= occ_offset_end x
  /\ occ_offset_end x <= len (doc_tokens self).
Proof.
  intros H. apply (proj1 well_formed). eapply nth_error_In. exact H.
Qed.

Lemma occurrences_apart (j k : Z) (x y : EntityOccurrence) :
  0 <= j < k -> at_ j = Some x -> at_ k = Some y ->
  occ_offset_end x <= occ_offset y.
Proof.
  intros Hjk Hx Hy.
  apply (StronglySorted_nth _ es (proj2 well_formed)
           (Z.to_nat j) (Z.to_nat k)); auto; lia.
Qed.

(** After the loop to the left no occurrence up to [i] has [start]
    strictly inside. *)
Lemma widen_start_clear (i : Z) (fuel : nat) :
  forall j start,
    -1 <= j <= i -> i < len es -> (Z.to_nat (j + 1) <= fuel)%nat ->
    (forall k x, j < k <= i -> at_ k = Some x -> start <= occ_offset x) ->
    exists start',
      widen_start self fuel j start = Ok start'
      /\ start' <= start
      /\ (0 <= start -> 0 <= start')
      /\ (forall k x, 0 <= k <= i -> at_ k = Some x ->
                      start' <= occ_offset x \/ occ_offset_end x <= start').
Proof.
  induction fuel as [|fuel IH]; intros j start Hj Hi Hfuel Hinv.
  - assert (j = -1) by lia. subst j. exists start.
    split; [reflexivity|]. split; [lia|]. split; [auto|].
    intros k x Hk Hx. left. apply (Hinv k x); auto; lia.
  - destruct (Z.eq_dec j (-1)) as [->|Hne].
    { exists start. split; [reflexivity|]. split; [lia|]. split; [auto|].
      intros k x Hk Hx. left. apply (Hinv k x); auto; lia. }
    simpl. replace (j >=? 0) with true
      by (symmetry; rewrite Z.geb_leb; apply Z.leb_le; lia).
    destruct (getitem_nth es j) as [e [Hget He]]; [lia|].
    fold es. rewrite Hget. simpl.
    pose proof (occurrence_bounds j e He) as Hb.
    destruct (occ_offset_end e >? start) eqn:Hgt.
    + apply Z.gtb_lt in Hgt.
      destruct (IH (j - 1) (Z.min start (occ_offset e)))
        as [start' [Hw [Hle [Hpos Hclear]]]]; try lia.
      * intros k x Hk Hx. destruct (Z.eq_dec k j) as [->|Hkj].
        -- unfold at_ in Hx. rewrite He in Hx. injection Hx as <-. lia.
        -- pose proof (Hinv k x ltac:(lia) Hx). lia.
      * exists start'. split; [exact Hw|]. split; [lia|].
        split; [intros; apply Hpos; lia | exact Hclear].
    + rewrite Z.gtb_ltb in Hgt. apply Z.ltb_ge in Hgt.
      exists start. split; [reflexivity|]. split; [lia|]. split; [auto|].
      intros k x Hk Hx.
      destruct (Z_lt_le_dec j k) as [Hjk|Hkj].
      * left. apply (Hinv k x); auto; lia.
      * right. destruct (Z.eq_dec k j) as [->|Hne'].
        -- unfold at_ in Hx. rewrite He in Hx. injection Hx as <-. lia.
        -- pose proof (occurrences_apart k j x e ltac:(lia) Hx He). lia.
Qed.

(** After the loop to the right no occurrence from [i] on has [end]
    strictly inside. *)
Lemma widen_end_clear (i : Z) (fuel : nat) :
  forall j end_,
    0 <= i <= j -> j <= len es -> (Z.to_nat (len es - j) <= fuel)%nat ->
    (forall k x, i <= k < j -> at_ k = Some x -> occ_offset_end x <= end_) ->
    exists end',
      widen_end self fuel j end_ = Ok end'
      /\ end_ <= end'
      /\ (forall k x, i <= k -> at_ k = Some x ->
                      occ_offset_end x <= end' \/ end' <= occ_offset x).
Proof.
  induction fuel as [|fuel IH]; intros j end_ Hj Hlen Hfuel Hinv.
  - assert (j = len es) by lia. subst j. exists end_.
    split; [simpl; fold es; rewrite Z.ltb_irrefl; reflexivity|].
    split; [lia|]. intros k x Hk Hx.
    pose proof (nth_error_lt es _ x Hx). left.
    apply (Hinv k x); auto. unfold len. lia.
  - destruct (Z.eq_dec j (len es)) as [->|Hne].
    { exists end_.
      split; [simpl; fold es; rewrite Z.ltb_irrefl; reflexivity|].
      split; [lia|]. intros k x Hk Hx.
      pose proof (nth_error_lt es _ x Hx). left.
      apply (Hinv k x); auto. unfold len. lia. }
    simpl. fold es.
    replace (j <? len es) with true by (symmetry; apply Z.ltb_lt; lia).
    destruct (getitem_nth es j) as [e [Hget He]]; [lia|].
    rewrite Hget. simpl.
    pose proof (occurrence_bounds j e He) as Hb.
    destruct (occ_offset e <? end_) eqn:Hlt.
    + apply Z.ltb_lt in Hlt.
      destruct (IH (j + 1) (Z.max end_ (occ_offset_end e)))
        as [end' [Hw [Hle Hclear]]]; try lia.
      * intros k x Hk Hx. destruct (Z.eq_dec k j) as [->|Hkj].
        -- unfold at_ in Hx. rewrite He in Hx. injection Hx as <-. lia.
        -- pose proof (Hinv k x ltac:(lia) Hx). lia.
      * exists end'. split; [exact Hw|]. split; [lia | exact Hclear].
    + apply Z.ltb_ge in Hlt.
      exists end_. split; [reflexivity|]. split; [lia|].
      intros k x Hk Hx.
      destruct (Z_lt_le_dec k j) as [Hkj|Hjk].
      * left. apply (Hinv k x); auto; lia.
      * right. destruct (Z.eq_dec k j) as [->|Hne'].
        -- unfold at_ in Hx. rewrite He in Hx. injection Hx as <-. lia.
        -- pose proof (occurrences_apart j k e x ltac:(lia) He Hx).
           pose proof (occurrence_bounds k x Hx). lia.
Qed.

(** The inner loop answers a pair of neighbours that are close. *)
Lemma find_close_pair (fuel : nat) :
  forall i l m j l' m',
    0 <= i -> at_ i = Some l -> at_ (i + 1) = Some m ->
    find_close self d fuel i l m = Ok (Some (j, l', m')) ->
    i <= j /\ at_ j = Some l' /\ at_ (j + 1) = Some m'
    /\ occ_offset m' - occ_offset_end l' < d.
Proof.
  induction fuel as [|fuel IH]; intros i l m j l' m' Hi Hl Hm H; simpl in H.
  - destruct (occ_offset m - occ_offset_end l >=? d) eqn:G; [discriminate|].
    injection H as <- <- <-. rewrite Z.geb_leb in G. apply Z.leb_gt in G.
    auto with zarith.
  - destruct (occ_offset m - occ_offset_end l >=? d) eqn:G.
    + destruct (i + 1 + 1 =? len (doc_entities self)); [discriminate|].
      destruct (left_middle self (i + 1)) as [[l2 m2]| |] eqn:Hlm;
        simpl in H; try discriminate.
      apply left_middle_nth in Hlm; [|lia]. destruct Hlm as [Hl2 Hm2].
      destruct (IH (i + 1) l2 m2 j l' m') as [Hij Hrest]; auto; try lia.
      split; [lia | exact Hrest].
    + injection H as <- <- <-. rewrite Z.geb_leb in G. apply Z.leb_gt in G.
      auto with zarith.
Qed.

(** A candidate window splits no occurrence. *)
Lemma next_window_no_split (i lstart lend j : Z) (c : candidate) :
  0 <= i ->
  next_window self d i lstart lend = Ok (Some (j, c)) ->
  i <= j
  /\ forall o, In o es -> ~ splits (cand_start c) (cand_end c) o.
Proof.
  intros Hi H. unfold next_window in H.
  destruct (left_middle self i) as [[l m]| |] eqn:Hlm; simpl in H;
    try discriminate.
  apply left_middle_nth in Hlm; [|assumption]. destruct Hlm as [Hl Hm].
  destruct (find_close self d _ i l m) as [[[[j' l'] m']|]| |] eqn:Hfc;
    simpl in H; try discriminate.
  apply find_close_pair in Hfc; auto.
  destruct Hfc as [Hij [Hl' [Hm' Hgap]]].
  pose proof (occurrence_bounds _ _ Hl') as Bl.
  pose proof (occurrence_bounds _ _ Hm') as Bm.
  pose proof (occurrences_apart j' (j' + 1) l' m' ltac:(lia) Hl' Hm') as Alm.
  assert (Hlen : j' + 1 < len es).
  { pose proof (nth_error_lt es _ _ Hm'). unfold len. lia. }
  (* the rightmost occurrence of the window *)
  destruct (if j' + 2 <? len (doc_entities self) then _ else _)
    as [r| |] eqn:Hr; simpl in H; try discriminate.
  assert (Br : occ_offset_end l' <= occ_offset_end r
               /\ occ_offset_end r <= len (doc_tokens self)).
  { destruct (j' + 2 <? len (doc_entities self)) eqn:E.
    - destruct (getitem (doc_entities self) (j' + 2)) as [e| |] eqn:He;
        simpl in Hr; try discriminate.
      apply getitem_nth_inv in He; [|lia]. fold es in He.
      pose proof (occurrence_bounds (j' + 2) e He).
      pose proof (occurrences_apart j' (j' + 2) l' e ltac:(lia) Hl' He).
      destruct (occ_offset e - occ_offset_end m' <? d);
        injection Hr as <-; lia.
    - injection Hr as <-. lia. }
  destruct (widen_start_clear j' (Z.to_nat (j' + 1)) j'
              (Z.max 0 (occ_offset l' - d)))
    as [start [Hws [Hsle [Hspos Hsclear]]]]; try lia.
  fold es in H. rewrite Hws in H. simpl in H.
  destruct (widen_end_clear j' (Z.to_nat (len es - j')) j'
              (Z.min (occ_offset_end r + d) (len (doc_tokens self))))
    as [end_ [Hwe [Hele Heclear]]]; try lia.
  unfold es in Hwe. fold es in Hwe.
  replace (len (doc_entities self)) with (len es) in H by reflexivity.
  rewrite Hwe in H. simpl in H.
  assert (Hc : j = j' /\ cand_start c = start /\ cand_end c = end_).
  { destruct (negb _) in H.
    - destruct (TextSegment_build self start end_); simpl in H;
        try discriminate.
      injection H as <- <-. auto.
    - injection H as <- <-. auto. }
  destruct Hc as [-> [-> ->]]. split; [assumption|].
  intros o Hin Hsplit. apply In_nth_error in Hin. destruct Hin as [n Hn].
  assert (Ho : at_ (Z.of_nat n) = Some o)
    by (unfold at_; rewrite Nat2Z.id; exact Hn).
  pose proof (occurrence_bounds _ _ Ho) as Bo.
  destruct Hsplit as [Hs|He].
  - (* the start *)
    destruct (Z_le_gt_dec (Z.of_nat n) j') as [Hle|Hgt].
    + destruct (Hsclear (Z.of_nat n) o ltac:(lia) Ho); lia.
    + pose proof (occurrences_apart j' (Z.of_nat n) l' o ltac:(lia) Hl' Ho).
      destruct (Hsclear j' l' ltac:(lia) Hl'); lia.
  - (* the end *)
    destruct (Z_le_gt_dec j' (Z.of_nat n)) as [Hle|Hgt].
    + destruct (Heclear (Z.of_nat n) o ltac:(lia) Ho); lia.
    + pose proof (occurrences_apart (Z.of_nat n) j' o l' ltac:(lia) Ho Hl').
      destruct (Heclear j' l' ltac:(lia) Hl'); lia.
Qed.

Lemma contextual_loop_no_split (fuel : nat) :
  forall i lstart lend acc,
    0 <= i ->
    (forall c o, In c acc -> In o es ->
                 ~ splits (cand_start c) (cand_end c) o) ->
    forall c o,
      In c (fst (contextual_loop self d fuel i lstart lend acc)) ->
      In o es -> ~ splits (cand_start c) (cand_end c) o.
Proof.
  induction fuel as [|fuel IH]; intros i lstart lend acc Hi Hacc.
  - simpl. destruct (i + 1 <? _); exact Hacc.
  - rewrite contextual_loop_step.
    destruct (i + 1 <? len (doc_entities self)); [|exact Hacc].
    destruct (next_window self d i lstart lend) as [[[j c0]|]| |] eqn:Hn;
      try exact Hacc.
    apply next_window_no_split in Hn; [|assumption].
    destruct Hn as [Hij Hc0].
    apply IH; [lia|].
    intros c o Hc Ho. apply in_app_or in Hc.
    destruct Hc as [Hc|[<-|[]]]; auto.
Qed.

(** On a document whose occurrences lie inside the tokens and do not
    overlap, no candidate window of [build_contextual_segments], built or
    discarded, splits an occurrence. *)
Lemma disjoint_occurrences_never_split :
  forall c o,
    In c (fst (build_contextual_segments self d)) ->
    In o (doc_entities self) ->
    ~ splits (cand_start c) (cand_end c) o.
Proof.
  unfold build_contextual_segments.
  apply contextual_loop_no_split; [lia|]. intros c o [].
Qed.

End NoSplit.

(** ** The fuel is sufficient

    The bound that every caller hands to a loop is enough on every input:
    no function of the model answers [OutOfFuel]. *)

Lemma bind_fuel {A B : Type} (r : result A) (k : A -> result B) :
  r <> OutOfFuel -> (forall a, r = Ok a -> k a <> OutOfFuel) ->
  bind r k <> OutOfFuel.
Proof.
  intros Hr Hk. destruct r as [a| |]; simpl; [auto | discriminate | auto].
Qed.

Lemma midpoint_between (lo hi : Z) :
  lo < hi -> lo <= (lo + hi) / 2 < hi.
Proof.
  intros H. split.
  - apply Z.div_le_lower_bound; lia.
  - apply Z.div_lt_upper_bound; lia.
Qed.

Section IntervalOffsetsFuel.

Context {A : Type}.
Variable key : A -> Z.
Variable a : list A.
Variables xl xr : Z.

Lemma reduce_range_fuel (fuel : nat) :
  forall lo hi mid,
    (Z.to_nat (hi - lo) <= fuel)%nat ->
    reduce_range key a xl xr fuel lo hi mid <> OutOfFuel.
Proof.
  induction fuel as [|fuel IH]; intros lo hi mid Hfuel; simpl.
  - destruct (lo <? hi) eqn:E; [apply Z.ltb_lt in E; lia | discriminate].
  - destruct (lo <? hi) eqn:E; [|discriminate]. apply Z.ltb_lt in E.
    pose proof (midpoint_between lo hi E) as Hmid.
    apply bind_fuel; [apply getitem_not_out_of_fuel|]. intros x _.
    destruct ((xl <=? key x) && (xr <=? key x)); [apply IH; lia|].
    destruct ((key x <? xl) && (key x <? xr)); [apply IH; lia|].
    discriminate.
Qed.

Lemma bisect_left_fuel (fuel : nat) :
  forall llo lhi,
    (Z.to_nat (lhi - llo) <= fuel)%nat ->
    bisect_left key a xl fuel llo lhi <> OutOfFuel.
Proof.
  induction fuel as [|fuel IH]; intros llo lhi Hfuel; simpl.
  - destruct (llo <? lhi) eqn:E; [apply Z.ltb_lt in E; lia | discriminate].
  - destruct (llo <? lhi) eqn:E; [|discriminate]. apply Z.ltb_lt in E.
    pose proof (midpoint_between llo lhi E) as Hmid.
    apply bind_fuel; [apply getitem_not_out_of_fuel|]. intros x _.
    destruct (key x <? xl); apply IH; lia.
Qed.

Lemma bisect_right_fuel (fuel : nat) :
  forall rlo rhi,
    (Z.to_nat (rhi - rlo) <= fuel)%nat ->
    bisect_right key a xr fuel rlo rhi <> OutOfFuel.
Proof.
  induction fuel as [|fuel IH]; intros rlo rhi Hfuel; simpl.
  - destruct (rlo <? rhi) eqn:E; [apply Z.ltb_lt in E; lia | discriminate].
  - destruct (rlo <? rhi) eqn:E; [|discriminate]. apply Z.ltb_lt in E.
    pose proof (midpoint_between rlo rhi E) as Hmid.
    apply bind_fuel; [apply getitem_not_out_of_fuel|]. intros x _.
    destruct (xr <=? key x); apply IH; lia.
Qed.

Lemma py_assert_fuel (c : bool) : py_assert c <> OutOfFuel.
Proof. destruct c; discriminate. Qed.

(** [_interval_offsets] returns or raises, whatever the list and the
    bounds. *)
Lemma interval_offsets_fuel (lo : Z) (hi : option Z) :
  _interval_offsets key a xl xr lo hi <> OutOfFuel.
Proof.
  unfold _interval_offsets.
  set (h := match hi with None => len a | Some h => h end).
  destruct (lo <? 0); [discriminate|].
  destruct (xl >? xr); [discriminate|].
  destruct (lo =? h); [discriminate|].
  apply bind_fuel; [apply reduce_range_fuel; lia|].
  intros [[lo' hi'] [mid|]] _; [|discriminate].
  apply bind_fuel; [apply bisect_left_fuel; lia|]. intros llo _.
  apply bind_fuel; [apply bisect_right_fuel; lia|]. intros rlo _.
  apply bind_fuel.
  { destruct (lo' =? llo); [discriminate|].
    apply bind_fuel; [apply getitem_not_out_of_fuel|].
    intros x _. apply py_assert_fuel. }
  intros _ _. apply bind_fuel; [|discriminate].
  destruct (hi' =? rlo); [discriminate|].
  apply bind_fuel; [apply getitem_not_out_of_fuel|].
  intros x _. apply py_assert_fuel.
Qed.

End IntervalOffsetsFuel.

Lemma for_each_fuel {A B : Type} (f : A -> result B) (l : list A) :
  (forall x, f x <> OutOfFuel) -> for_each f l <> OutOfFuel.
Proof.
  intros Hf. induction l as [|x l IH]; simpl; [discriminate|].
  apply bind_fuel; [apply Hf|]. intros y _.
  apply bind_fuel; [exact IH | discriminate].
Qed.

Lemma TextSegment_build_fuel (document : IEDocument)
    (token_offset token_offset_end : Z) :
  TextSegment_build document token_offset token_offset_end <> OutOfFuel.
Proof.
  unfold TextSegment_build.
  apply bind_fuel.
  { destruct (token_offset <? _);
      [apply getitem_not_out_of_fuel | discriminate]. }
  intros text_start _. apply bind_fuel.
  { destruct (token_offset_end <? _);
      [apply getitem_not_out_of_fuel | discriminate]. }
  intros text_end _.
  apply bind_fuel; [apply interval_offsets_fuel|]. intros [l r] _.
  apply bind_fuel.
  { apply for_each_fuel. intros o. unfold entity_in_segment.
    apply bind_fuel; [apply py_assert_fuel | discriminate]. }
  intros entities _.
  apply bind_fuel; [apply interval_offsets_fuel|]. intros [l' r'] _.
  discriminate.
Qed.

Section ContextualSegmentsFuel.

Variable self : IEDocument.
Variable d : Z.

Let L := len (doc_entities self).

Lemma left_middle_fuel (i : Z) : left_middle self i <> OutOfFuel.
Proof.
  unfold left_middle.
  destruct (slice (doc_entities self) i (i + 2)) as [|l [|m [|x r]]];
    discriminate.
Qed.

Lemma find_close_fuel (fuel : nat) :
  forall i l m,
    i + 1 < L -> (Z.to_nat (L - i - 1) <= fuel)%nat ->
    find_close self d fuel i l m <> OutOfFuel.
Proof.
  induction fuel as [|fuel IH]; intros i l m Hi Hfuel; [lia|].
  simpl. destruct (occ_offset m - occ_offset_end l >=? d); [|discriminate].
  fold L. destruct (i + 1 + 1 =? L) eqn:E; [discriminate|].
  apply Z.eqb_neq in E.
  apply bind_fuel; [apply left_middle_fuel|]. intros [l' m'] _.
  apply IH; lia.
Qed.

Lemma find_close_index (fuel : nat) :
  forall i l m j l' m',
    find_close self d fuel i l m = Ok (Some (j, l', m')) -> i <= j.
Proof.
  induction fuel as [|fuel IH]; intros i l m j l' m' H; simpl in H.
  - destruct (occ_offset m - occ_offset_end l >=? d); [discriminate|].
    injection H as <- _ _. lia.
  - destruct (occ_offset m - occ_offset_end l >=? d).
    + destruct (i + 1 + 1 =? len (doc_entities self)); [discriminate|].
      destruct (left_middle self (i + 1)) as [[l2 m2]| |]; simpl in H;
        try discriminate.
      apply IH in H. lia.
    + injection H as <- _ _. lia.
Qed.

Lemma widen_start_fuel (fuel : nat) :
  forall j start,
    (Z.to_nat (j + 1) <= fuel)%nat ->
    widen_start self fuel j start <> OutOfFuel.
Proof.
  induction fuel as [|fuel IH]; intros j start Hfuel; simpl.
  - destruct (j >=? 0) eqn:E; [|discriminate].
    rewrite Z.geb_leb in E. apply Z.leb_le in E. lia.
  - destruct (j >=? 0); [|discriminate].
    apply bind_fuel; [apply getitem_not_out_of_fuel|]. intros e _.
    destruct (occ_offset_end e >? start); [apply IH; lia | discriminate].
Qed.

Lemma widen_end_fuel (fuel : nat) :
  forall j end_,
    (Z.to_nat (L - j) <= fuel)%nat ->
    widen_end self fuel j end_ <> OutOfFuel.
Proof.
  induction fuel as [|fuel IH]; intros j end_ Hfuel; simpl; fold L.
  - destruct (j <? L) eqn:E; [|discriminate]. apply Z.ltb_lt in E. lia.
  - destruct (j <? L); [|discriminate].
    apply bind_fuel; [apply getitem_not_out_of_fuel|]. intros e _.
    destruct (occ_offset e <? end_); [apply IH; lia | discriminate].
Qed.

Lemma next_window_fuel (i lstart lend : Z) :
  i + 1 < L -> next_window self d i lstart lend <> OutOfFuel.
Proof.
  intros Hi. unfold next_window.
  apply bind_fuel; [apply left_middle_fuel|]. intros [l m] _.
  apply bind_fuel; [apply find_close_fuel; fold L; lia|].
  intros [[[j l'] m']|] _; [|discriminate].
  apply bind_fuel.
  { destruct (j + 2 <? _); [|discriminate].
    apply bind_fuel; [apply getitem_not_out_of_fuel|]. intros e _.
    destruct (_ <? d); discriminate. }
  intros r _.
  apply bind_fuel; [apply widen_start_fuel; lia|]. intros start _.
  apply bind_fuel; [apply widen_end_fuel; fold L; lia|]. intros end_ _.
  destruct (negb _); [|discriminate].
  apply bind_fuel; [apply TextSegment_build_fuel | discriminate].
Qed.

Lemma next_window_index (i lstart lend j : Z) (c : candidate) :
  next_window self d i lstart lend = Ok (Some (j, c)) -> i <= j.
Proof.
  unfold next_window. intros H.
  destruct (left_middle self i) as [[l m]| |]; simpl in H; try discriminate.
  destruct (find_close self d _ i l m) as [[[[j' l'] m']|]| |] eqn:Hfc;
    simpl in H; try discriminate.
  apply find_close_index in Hfc.
  destruct (if j' + 2 <? len (doc_entities self) then _ else _) as [r| |];
    simpl in H; try discriminate.
  destruct (widen_start self _ j' _) as [start| |]; simpl in H;
    try discriminate.
  destruct (widen_end self _ j' _) as [end_| |]; simpl in H;
    try discriminate.
  destruct (negb _).
  - destruct (TextSegment_build self start end_); simpl in H;
      try discriminate.
    injection H as <- _. assumption.
  - injection H as <- _. assumption.
Qed.

Lemma contextual_loop_fuel (fuel : nat) :
  forall i lstart lend acc,
    (Z.to_nat (L - i - 1) <= fuel)%nat ->
    snd (contextual_loop self d fuel i lstart lend acc) <> OutOfFuel.
Proof.
  induction fuel as [|fuel IH]; intros i lstart lend acc Hfuel.
  - simpl. fold L. destruct (i + 1 <? L) eqn:E; [|discriminate].
    apply Z.ltb_lt in E. lia.
  - rewrite contextual_loop_step. fold L.
    destruct (i + 1 <? L) eqn:E; [|discriminate]. apply Z.ltb_lt in E.
    pose proof (next_window_fuel i lstart lend E) as Hn.
    destruct (next_window self d i lstart lend) as [[[j c]|]| |] eqn:Hw;
      try discriminate; [|contradiction].
    apply next_window_index in Hw. apply IH. lia.
Qed.

(** [build_contextual_segments] returns or raises, whatever the document
    and [d]. *)
Lemma build_contextual_segments_fuel :
  snd (build_contextual_segments self d) <> OutOfFuel.
Proof.
  unfold build_contextual_segments. apply contextual_loop_fuel. fold L. lia.
Qed.

End ContextualSegmentsFuel.

Section PipelineFuel.

Variable Entity_objects : list Entity.
Variable Classifier : Type.
Variable FactExtractorFactory : Knowledge -> Classifier.
Variable predict_proba_true : Classifier -> list Evidence -> list Q.

Lemma score_gt_fuel (s : score) (t : Q) : score_gt s t <> OutOfFuel.
Proof. destruct s; discriminate. Qed.

Lemma get_entity_fuel (kind literal : string) :
  get_entity Entity_objects kind literal <> OutOfFuel.
Proof.
  unfold get_entity. destruct (filter _ _) as [|e [|e' l]]; discriminate.
Qed.

Lemma strong_predictions_fuel (self : BootstrappedIEPipeline)
    (items : list (Evidence * score)) :
  strong_predictions self items <> OutOfFuel.
Proof.
  induction items as [|[e s] items IH]; simpl; [discriminate|].
  destruct (_ && _); [|exact IH].
  apply bind_fuel; [apply score_gt_fuel|]. intros b _.
  apply bind_fuel; [exact IH | discriminate].
Qed.

Lemma train_classifiers_fuel (groups : list (string * Knowledge)) :
  forall classifiers,
    train_classifiers Classifier FactExtractorFactory groups classifiers
    <> OutOfFuel.
Proof.
  induction groups as [|[rel k] groups IH]; intros classifiers; simpl;
    [discriminate|].
  destruct (_ || _); [apply IH|].
  apply bind_fuel; [apply py_assert_fuel|]. intros _ _. apply IH.
Qed.

Lemma relation_evidence_fuel (r lkind rkind : string)
    (segments : list TextSegment) :
  relation_evidence Entity_objects r lkind rkind segments <> OutOfFuel.
Proof.
  induction segments as [|s segments IH]; simpl; [discriminate|].
  apply bind_fuel.
  { apply for_each_fuel. intros [i j]. unfold candidate_evidence.
    apply bind_fuel; [apply getitem_not_out_of_fuel|]. intros x1 _.
    apply bind_fuel; [apply get_entity_fuel|]. intros a1 _.
    apply bind_fuel; [apply getitem_not_out_of_fuel|]. intros x2 _.
    apply bind_fuel; [apply get_entity_fuel | discriminate]. }
  intros es _. apply bind_fuel; [exact IH | discriminate].
Qed.

Lemma score_relations_fuel (self : BootstrappedIEPipeline)
    (extractors : data Classifier)
    (rels : list (string * (string * string))) :
  forall acc,
    score_relations Entity_objects Classifier predict_proba_true self
      extractors rels acc <> OutOfFuel.
Proof.
  induction rels as [|[r [lkind rkind]] rels IH]; intros acc; simpl;
    [discriminate|].
  apply bind_fuel; [apply relation_evidence_fuel|]. intros es _.
  apply bind_fuel; [destruct extractors; discriminate|]. intros c _.
  apply IH.
Qed.

Lemma merge_facts_fuel (threshold : Q) (items : list (Evidence * score)) :
  forall k, snd (merge_facts threshold k items) <> OutOfFuel.
Proof.
  induction items as [|[e s] items IH]; intros k; simpl; [discriminate|].
  destruct s as [q|]; simpl; [|discriminate].
  destruct (Qltb threshold q); apply IH.
Qed.

Lemma steps_fuel (n : nat) (self : BootstrappedIEPipeline)
    (d : data Classifier) :
  match steps Entity_objects Classifier FactExtractorFactory
          predict_proba_true n with
  | None => True
  | Some step => snd (step self d) <> OutOfFuel
  end.
Proof.
  destruct n as [|[|[|[|[|[|n]]]]]]; simpl; auto.
  - destruct d as [|k|[|? ?]]; discriminate.
  - destruct d as [|k|[|? ?]]; discriminate.
  - apply bind_fuel; [apply strong_predictions_fuel | discriminate].
  - destruct d as [|k|x]; simpl; try discriminate.
    apply bind_fuel; [apply train_classifiers_fuel | discriminate].
  - apply bind_fuel; [apply score_relations_fuel | discriminate].
  - destruct d as [|k|[|? ?]]; simpl; try discriminate.
    pose proof (merge_facts_fuel (fact_threshold self) k (knowledge self))
      as Hm.
    destruct (merge_facts _ _ _) as [k' r]. simpl in *.
    apply bind_fuel; [exact Hm | discriminate].
Qed.

(** The number of turns of [do_iteration] from the step at index [n] to
    the pause, the pause included. *)
Let turns (n : nat) : nat :=
  match n with
  | 0%nat => 3%nat
  | 1%nat => 2%nat
  | 2%nat => 1%nat
  | 3%nat => 7%nat
  | 4%nat => 6%nat
  | 5%nat => 5%nat
  | _ => 4%nat
  end.

Lemma do_iteration_fuel (fuel : nat) :
  forall (self : BootstrappedIEPipeline) (d : data Classifier),
    (step_iterator self < 7)%nat ->
    (turns (step_iterator self) <= fuel)%nat ->
    snd (do_iteration Entity_objects Classifier FactExtractorFactory
           predict_proba_true fuel self d) <> OutOfFuel.
Proof.
  induction fuel as [|fuel IH]; intros self d Hlt Hfuel.
  - destruct (step_iterator self) as [|[|[|[|[|[|n]]]]]]; simpl in Hfuel; lia.
  - rewrite do_iteration_step. cbv zeta.
    set (self' := set_step_iterator self
                    (Nat.modulo (S (step_iterator self)) 7)).
    pose proof (steps_fuel (step_iterator self) self' d) as Hstep.
    pose proof (steps_keep_iterator Entity_objects Classifier
                  FactExtractorFactory predict_proba_true
                  (step_iterator self) self' d) as Hpos.
    destruct (steps _ _ _ _ (step_iterator self)) as [step|] eqn:Hs;
      [|discriminate].
    destruct (step self' d) as [self'' r]. cbn [fst snd] in Hstep, Hpos.
    destruct r as [d'| |]; [|discriminate|contradiction].
    assert (Hnext : step_iterator self''
                    = Nat.modulo (S (step_iterator self)) 7)
      by (rewrite Hpos; reflexivity).
    apply IH; rewrite Hnext.
    + apply Nat.mod_upper_bound. discriminate.
    + destruct (step_iterator self) as [|[|[|[|[|[|[|n]]]]]]];
        simpl in *; try lia; discriminate.
Qed.

(** [start] and [force_process] return or raise on every pipeline whose
    step iterator is one of the seven positions. *)
Lemma start_force_process_fuel (self : BootstrappedIEPipeline) :
  (step_iterator self < 7)%nat ->
  snd (start Entity_objects Classifier FactExtractorFactory
         predict_proba_true self) <> OutOfFuel
  /\ snd (force_process Entity_objects Classifier FactExtractorFactory
            predict_proba_true self) <> OutOfFuel.
Proof.
  intros Hlt. split; apply do_iteration_fuel; auto;
    destruct (step_iterator self) as [|[|[|[|[|[|[|n]]]]]]]; simpl; lia.
Qed.

End PipelineFuel.

(** * More of the code *)

(** ** Reading a preprocessing result back *)

Lemma map_PyInt_ints (res : list pyval) :
  forallb is_int res = true -> map PyInt (ints res) = res.
Proof.
  induction res as [|x res IH]; simpl; [reflexivity|].
  destruct x; simpl; try discriminate. intros H. rewrite IH; auto.
Qed.

Lemma step_name_injective (s t : PreProcessSteps) :
  step_name s = step_name t -> s = t.
Proof. destruct s, t; simpl; intros H; try reflexivity; discriminate. Qed.

Lemma was_preprocess_done_flag (self : IEDocument) (now : Z)
    (step step' : PreProcessSteps) :
  was_preprocess_done (flag_preprocess_done self now step) step'
  = if String.eqb (step_name step') (step_name step) then true
    else was_preprocess_done self step'.
Proof.
  unfold was_preprocess_done, dict_mem, flag_preprocess_done. simpl.
  rewrite (dict_get_set String.eqb String_eqb_eq).
  destruct (String.eqb (step_name step') (step_name step)); reflexivity.
Qed.

(** X1.  After a call of [set_preprocess_result] that succeeded,
    [get_preprocess_result] of the same step returns the result that was
    written and the step counts as done; for every other step, whether it
    is done and what [get_preprocess_result] returns are as before the
    call. *)
Theorem preprocess_result_round_trip :
  forall (self self' : IEDocument) (now : Z) (step : PreProcessSteps)
         (res : result_type (Some step)),
    set_preprocess_result self now (Some step) res = (self', Ok tt) ->
    get_preprocess_result self' step = Ok (Some res)
    /\ was_preprocess_done self' step = true
    /\ (forall step',
           step' <> step ->
           was_preprocess_done self' step' = was_preprocess_done self step'
           /\ get_preprocess_result self' step'
              = get_preprocess_result self step').
Proof.
  intros self self' now step res H.
  assert (Hother : forall t t' : PreProcessSteps,
             t' <> t -> String.eqb (step_name t') (step_name t) = false).
  { intros t t' Hne. apply (eqb_neq String.eqb String_eqb_eq).
    intros Heq. apply Hne. apply step_name_injective. assumption. }
  destruct step; simpl in H.
  - (* tokenization *)
    destruct (List.split res) as [offsets tokens] eqn:Hsplit.
    injection H as <-. unfold get_preprocess_result.
    rewrite !was_preprocess_done_flag, String.eqb_refl. simpl.
    split; [|split; [reflexivity|]].
    + rewrite (split_combine res Hsplit). reflexivity.
    + intros step' Hne. rewrite !was_preprocess_done_flag, Hother by assumption.
      split; [reflexivity|].
      destruct step'; try reflexivity. contradiction.
  - (* sentencer *)
    destruct (check_sentencer self res) as [[]| |] eqn:Hcheck;
      try discriminate.
    injection H as <-. unfold get_preprocess_result.
    rewrite !was_preprocess_done_flag, String.eqb_refl. simpl.
    split; [|split; [reflexivity|]].
    + apply check_sentencer_valid in Hcheck. destruct Hcheck as [Hints _].
      rewrite map_PyInt_ints; [reflexivity|].
      apply forallb_is_int. assumption.
    + intros step' Hne. rewrite !was_preprocess_done_flag, Hother by assumption.
      split; [reflexivity|].
      destruct step'; try reflexivity. contradiction.
  - (* tagging *)
    destruct (check_tagging self res) as [[]| |] eqn:Hcheck; try discriminate.
    injection H as <-. unfold get_preprocess_result.
    rewrite !was_preprocess_done_flag, String.eqb_refl. simpl.
    split; [reflexivity|]. split; [reflexivity|].
    intros step' Hne. rewrite !was_preprocess_done_flag, Hother by assumption.
    split; [reflexivity|].
    destruct step'; try reflexivity. contradiction.
  - (* ner *)
    injection H as <-. unfold get_preprocess_result.
    rewrite !was_preprocess_done_flag, String.eqb_refl. simpl.
    split; [reflexivity|]. split; [reflexivity|].
    intros step' Hne. rewrite !was_preprocess_done_flag, Hother by assumption.
    split; [reflexivity|].
    destruct step'; try reflexivity. contradiction.
  - discriminate.
Qed.

(** A witness for X1: the sentence starts [[0, 2, 3]] written to a
    document of three tokens and read back. *)
Lemma preprocess_result_round_trip_witness :
  get_preprocess_result
    (fst (set_preprocess_result (example_document 3 []) 7 (Some sentencer)
            [PyInt 0; PyInt 2; PyInt 3])) sentencer
  = Ok (Some [PyInt 0; PyInt 2; PyInt 3]).
Proof.
  apply (preprocess_result_round_trip (example_document 3 []) _ 7 sentencer
           [PyInt 0; PyInt 2; PyInt 3]).
  reflexivity.
Defined.

(** ** Sentences *)

Lemma firstn_plus {A : Type} (m n : nat) :
  forall b : list A,
    firstn m b ++ firstn n (skipn m b) = firstn (m + n) b.
Proof.
  induction m as [|m IH]; intros b; [reflexivity|].
  destruct b as [|x b]; simpl.
  - rewrite firstn_nil. reflexivity.
  - rewrite IH. reflexivity.
Qed.

Lemma slice_app {A : Type} (a : list A) (i j k : Z) :
  0 <= i <= j -> j <= k -> k <= len a ->
  slice a i j ++ slice a j k = slice a i k.
Proof.
  intros Hi Hj Hk. unfold slice. rewrite !slice_bound_id by lia.
  replace (skipn (Z.to_nat j) a)
    with (skipn (Z.to_nat (j - i)) (skipn (Z.to_nat i) a))
    by (rewrite skipn_skipn; f_equal; lia).
  rewrite firstn_plus. f_equal. lia.
Qed.

Lemma slice_all {A : Type} (a : list A) : slice a 0 (len a) = a.
Proof.
  pose proof (len_nonneg a). unfold slice.
  rewrite !slice_bound_id by lia. simpl.
  replace (Z.to_nat (len a - 0)) with (List.length a) by (unfold len; lia).
  apply firstn_all.
Qed.

Lemma len_slice {A : Type} (a : list A) (i j : Z) :
  0 <= i <= j -> j <= len a -> len (slice a i j) = j - i.
Proof.
  intros Hi Hj. unfold slice. rewrite !slice_bound_id by lia.
  unfold len in *. rewrite length_firstn, length_skipn. lia.
Qed.

Lemma last_cons {A : Type} (l : list A) :
  forall x d : A, last (x :: l) d = last l x.
Proof.
  induction l as [|y l IH]; intros x d; [reflexivity|].
  change (last (x :: y :: l) d) with (last (y :: l) d).
  rewrite (IH y d), (IH y x). reflexivity.
Qed.

Lemma last_sorted_bounds (ends : list Z) (n : Z) :
  forall e,
    StronglySorted Z.lt (e :: ends) ->
    Forall (fun x => x <= n) (e :: ends) ->
    e <= last ends e <= n.
Proof.
  induction ends as [|x ends IH]; intros e Hs Hb.
  - simpl. inversion Hb; subst. lia.
  - inversion Hs as [|? ? Hs' Hall]; subst.
    inversion Hall as [|? ? Hlt _]; subst.
    inversion Hb as [|? ? _ Hb']; subst.
    rewrite last_cons. specialize (IH x Hs' Hb'). lia.
Qed.

(** The sentences from [start] on, along sentence ends that increase. *)
Lemma sentences_from_concat (tokens : list string) (ends : list Z) :
  forall start,
    0 <= start ->
    StronglySorted Z.lt (start :: ends) ->
    Forall (fun e => e <= len tokens) (start :: ends) ->
    List.concat (sentences_from tokens start ends)
    = slice tokens start (last ends start)
    /\ Forall (fun s => s <> []) (sentences_from tokens start ends)
    /\ List.length (sentences_from tokens start ends) = List.length ends.
Proof.
  induction ends as [|e ends IH]; intros start H0 Hsorted Hbound.
  - simpl. split; [|split; [constructor | reflexivity]].
    unfold slice. replace (Z.to_nat (_ - _)) with 0%nat by lia. reflexivity.
  - inversion Hsorted as [|? ? Hs Hall]; subst.
    inversion Hbound as [|? ? Hb Hbs]; subst.
    inversion Hall as [|? ? Hlt Hall']; subst.
    destruct (IH e ltac:(lia) Hs Hbs) as [Hc [Hne Hlen]].
    pose proof (last_sorted_bounds ends (len tokens) e Hs Hbs) as Hlast.
    simpl sentences_from. simpl List.concat. rewrite Hc, last_cons.
    split; [|split].
    + apply slice_app; lia.
    + constructor; [|assumption].
      intros Hnil. apply (f_equal len) in Hnil.
      rewrite len_slice in Hnil by lia. unfold len in Hnil. simpl in Hnil. lia.
    + simpl. rewrite Hlen. reflexivity.
Qed.

Lemma sorted_last_bound (l : list Z) (n : Z) :
  StronglySorted Z.lt l -> hd_error (rev l) = Some n ->
  Forall (fun x => x <= n) l.
Proof.
  intros Hs. induction Hs as [|x l Hs IH Hall]; intros Hlast; [constructor|].
  destruct l as [|y l].
  - simpl in Hlast. injection Hlast as <-. repeat constructor. lia.
  - assert (Hl : hd_error (rev (y :: l)) = Some n).
    { simpl in *. destruct (rev l ++ [y]) eqn:E.
      - destruct (rev l); discriminate.
      - simpl in *. assumption. }
    specialize (IH Hl). constructor; [|assumption].
    inversion Hall as [|? ? Hlt _]; subst.
    rewrite Forall_forall in IH.
    pose proof (IH y (or_introl eq_refl)). lia.
Qed.

Lemma hd_rev_last (l : list Z) (x n : Z) :
  hd_error (rev (x :: l)) = Some n -> last l x = n.
Proof.
  revert x. induction l as [|y l IH]; intros x H.
  - simpl in H. injection H as <-. reflexivity.
  - rewrite last_cons. apply IH.
    simpl in *. destruct (rev l ++ [y]) eqn:E.
    + destruct (rev l); discriminate.
    + simpl in *. assumption.
Qed.

(** X2.  After a sentencer result was written with success,
    [get_sentences] cuts the tokens of the document into sentences: the
    sentences are non-empty, there is one for every sentence start but the
    first, and put one after the other they are the tokens of the
    document. *)
Theorem get_sentences_partition :
  forall (self self' : IEDocument) (now : Z) (res : list pyval),
    set_preprocess_result self now (Some sentencer) res = (self', Ok tt) ->
    List.concat (get_sentences self') = doc_tokens self'
    /\ Forall (fun s => s <> []) (get_sentences self')
    /\ len (get_sentences self') = len (doc_sentences self') - 1.
Proof.
  intros self self' now res H. simpl in H.
  destruct (check_sentencer self res) as [[]| |] eqn:Hcheck; try discriminate.
  injection H as <-.
  apply check_sentencer_valid in Hcheck.
  destruct Hcheck as [_ [Hsorted [Hfirst Hlast]]].
  unfold get_sentences. simpl.
  destruct (ints res) as [|z ends] eqn:Hints; [discriminate|].
  simpl in Hfirst. injection Hfirst as ->.
  pose proof (sorted_last_bound _ _ Hsorted Hlast) as Hbound.
  pose proof (hd_rev_last _ _ _ Hlast) as Hl.
  assert (Hends : slice_from (0 :: ends) 1 = ends).
  { unfold slice_from, slice_bound, len. simpl.
    destruct ends; simpl; [reflexivity|].
    replace (Z.to_nat (Z.min 1 (Z.pos (Pos.succ (Pos.of_succ_nat _)))))
      with 1%nat by lia.
    reflexivity. }
  rewrite Hends.
  destruct (sentences_from_concat (doc_tokens self) ends 0 ltac:(lia)
              Hsorted Hbound) as [Hc [Hne Hlen]].
  rewrite Hc, Hl. split; [apply slice_all|]. split; [assumption|].
  unfold len. rewrite Hlen.
  change (List.length (0 :: ends)) with (S (List.length ends)). lia.
Qed.

(** A witness for X2: three tokens and the sentence starts [[0, 2, 3]]. *)
Lemma get_sentences_partition_witness :
  let self' :=
    fst (set_preprocess_result (example_document 3 []) 7 (Some sentencer)
           [PyInt 0; PyInt 2; PyInt 3]) in
  get_sentences self' = [["t"; "t"]; ["t"]]%string
  /\ List.concat (get_sentences self') = doc_tokens self'.
Proof.
  split; [reflexivity|].
  apply (get_sentences_partition (example_document 3 []) _ 7
           [PyInt 0; PyInt 2; PyInt 3]).
  reflexivity.
Defined.

(** ** Pairs of occurrences *)

Lemma nth_error_combine_seq {A : Type} (l : list A) :
  forall (s n : nat) (x : A),
    nth_error l n = Some x ->
    In (Z.of_nat (s + n), x) (combine (map Z.of_nat (seq s (List.length l))) l).
Proof.
  induction l as [|y l IH]; intros s n x Hn; [destruct n; discriminate|].
  destruct n as [|n]; simpl in *.
  - injection Hn as <-. left. f_equal. f_equal. lia.
  - right. replace (s + S n)%nat with (S s + n)%nat by lia. apply IH.
    assumption.
Qed.

Lemma indices_where_iff {A : Type} (p : A -> bool) (l : list A) (i : Z) :
  In i (indices_where p l)
  <-> 0 <= i /\ exists x, nth_error l (Z.to_nat i) = Some x /\ p x = true.
Proof.
  split.
  - intros Hin. unfold indices_where in Hin.
    apply in_map_iff in Hin. destruct Hin as [[k x] [Hk Hin]]. simpl in Hk.
    subst k. apply filter_In in Hin. destruct Hin as [Hin Hp]. simpl in Hp.
    apply In_combine_seq in Hin. destruct Hin as [n [-> Hn]]. simpl.
    split; [lia|]. exists x. rewrite Nat2Z.id. auto.
  - intros [Hi [x [Hx Hp]]]. unfold indices_where.
    apply in_map_iff. exists (i, x). split; [reflexivity|].
    apply filter_In. split; [|assumption].
    replace i with (Z.of_nat (0 + Z.to_nat i)) at 1 by lia.
    apply nth_error_combine_seq. assumption.
Qed.

Lemma NoDup_map_fst_filter_combine {A B : Type} (q : A * B -> bool) :
  forall (idx : list A) (l : list B),
    NoDup idx -> NoDup (map fst (filter q (combine idx l))).
Proof.
  induction idx as [|i idx IH]; intros l Hnd; [constructor|].
  destruct l as [|x l]; [constructor|].
  inversion Hnd as [|? ? Hnotin Hnd']; subst. simpl.
  destruct (q (i, x)); simpl; [|auto].
  constructor; [|auto]. intros Hin. apply Hnotin.
  apply in_map_iff in Hin. destruct Hin as [[k y] [Hk Hin]]. simpl in Hk.
  subst k. apply filter_In in Hin. destruct Hin as [Hin _].
  apply in_combine_l in Hin. assumption.
Qed.

Lemma indices_where_NoDup {A : Type} (p : A -> bool) (l : list A) :
  NoDup (indices_where p l).
Proof.
  unfold indices_where. apply NoDup_map_fst_filter_combine.
  apply NoDup_map_NoDup_ForallPairs; [|apply seq_NoDup].
  intros x y _ _ H. lia.
Qed.

Lemma NoDup_list_prod {A B : Type} (l1 : list A) (l2 : list B) :
  NoDup l1 -> NoDup l2 -> NoDup (list_prod l1 l2).
Proof.
  intros H1 H2. induction H1 as [|x l1 Hnotin H1 IH]; simpl; [constructor|].
  apply NoDup_app.
  - apply NoDup_map_NoDup_ForallPairs; [|assumption].
    intros a b _ _ H. congruence.
  - assumption.
  - intros [a b] Hin Hin'. apply in_map_iff in Hin.
    destruct Hin as [b' [[= <- <-] _]].
    apply in_prod_iff in Hin'. destruct Hin' as [Hin' _]. contradiction.
Qed.

Lemma product_off_diagonal_iff (ls rs : list Z) (i j : Z) :
  In (i, j) (product_off_diagonal ls rs) <-> i <> j /\ In i ls /\ In j rs.
Proof.
  unfold product_off_diagonal. rewrite filter_In, in_prod_iff. simpl.
  rewrite negb_true_iff, Z.eqb_neq. tauto.
Qed.

(** X3.  [entity_occurrence_pairs(e1, e2)] returns exactly the pairs of
    two different indices of the segment's entities of which the first
    points at an occurrence of [e1] (its key and its kind) and the second
    at an occurrence of [e2], and [kind_occurrence_pairs(lkind, rkind)] the
    pairs of two different indices that point at occurrences of the two
    kinds.  No pair has the same index twice, and no pair is returned
    twice. *)
Theorem occurrence_pairs_exactly :
  forall (self : TextSegment),
    (forall (e1 e2 : Entity) (l r : Z),
        In (l, r) (entity_occurrence_pairs self e1 e2)
        <-> l <> r
            /\ occurs_at self l (fun o => is_entity o e1)
            /\ occurs_at self r (fun o => is_entity o e2))
    /\ (forall (lkind rkind : string) (l r : Z),
           In (l, r) (kind_occurrence_pairs self lkind rkind)
           <-> l <> r
               /\ occurs_at self l (fun o => String.eqb (eis_kind o) lkind)
               /\ occurs_at self r (fun o => String.eqb (eis_kind o) rkind))
    /\ (forall e1 e2, NoDup (entity_occurrence_pairs self e1 e2))
    /\ (forall lkind rkind, NoDup (kind_occurrence_pairs self lkind rkind)).
Proof.
  intros self. unfold entity_occurrence_pairs, kind_occurrence_pairs.
  unfold occurs_at.
  split; [|split; [|split]].
  - intros e1 e2 l r. rewrite product_off_diagonal_iff.
    rewrite !indices_where_iff. reflexivity.
  - intros lkind rkind l r. rewrite product_off_diagonal_iff.
    rewrite !indices_where_iff. reflexivity.
  - intros e1 e2. apply NoDup_filter.
    apply NoDup_list_prod; apply indices_where_NoDup.
  - intros lkind rkind. apply NoDup_filter.
    apply NoDup_list_prod; apply indices_where_NoDup.
Qed.

(** ** The queries of the store and the pairs they are used for *)

Lemma existsb_indices_where {A : Type} (p : A -> bool) (l : list A) :
  existsb p l = true <-> exists i, In i (indices_where p l).
Proof.
  rewrite existsb_exists. split.
  - intros [x [Hin Hp]]. apply In_nth_error in Hin. destruct Hin as [n Hn].
    exists (Z.of_nat n). apply indices_where_iff. split; [lia|].
    exists x. rewrite Nat2Z.id. auto.
  - intros [i Hi]. apply indices_where_iff in Hi.
    destruct Hi as [_ [x [Hx Hp]]]. exists x. split; [|assumption].
    eapply nth_error_In. exact Hx.
Qed.

Lemma length_filter_combine {A B : Type} (p : B -> bool) :
  forall (l : list B) (idx : list A),
    List.length idx = List.length l ->
    List.length (filter (fun io => p (snd io)) (combine idx l))
    = List.length (filter p l).
Proof.
  induction l as [|x l IH]; intros [|i idx] Hlen; try discriminate;
    [reflexivity|].
  simpl in *. destruct (p x); simpl; auto.
Qed.

Lemma length_indices_where {A : Type} (p : A -> bool) (l : list A) :
  List.length (indices_where p l) = List.length (filter p l).
Proof.
  unfold indices_where. rewrite length_map. apply length_filter_combine.
  rewrite length_map, length_seq. reflexivity.
Qed.

Lemma two_elements_iff (l : list Z) :
  NoDup l ->
  ((2 <= List.length l)%nat <-> exists i j, i <> j /\ In i l /\ In j l).
Proof.
  intros Hnd. split.
  - destruct l as [|i [|j l]]; simpl; try lia. intros _.
    exists i, j. inversion Hnd as [|? ? Hnotin _]; subst.
    split; [|auto]. intros ->. apply Hnotin. left. reflexivity.
  - intros [i [j [Hne [Hi Hj]]]].
    destruct l as [|x [|y l]]; simpl in *; [contradiction| |lia].
    destruct Hi as [<-|[]], Hj as [<-|[]]. congruence.
Qed.

(** The segments that the query for two kinds answers. *)
Lemma segments_with_both_kinds_iff :
  forall (segments : list TextSegment) (lkind rkind : string)
         (s : TextSegment),
    In s (segments_with_both_kinds segments lkind rkind)
    <-> In s segments /\ kind_occurrence_pairs s lkind rkind <> [].
Proof.
  intros segments lkind rkind s.
  assert (Hpairs : kind_occurrence_pairs s lkind rkind <> []
                   <-> exists l r, In (l, r)
                                     (kind_occurrence_pairs s lkind rkind)).
  { split.
    - destruct (kind_occurrence_pairs s lkind rkind) as [|[l r] ps];
        [congruence|]. intros _. exists l, r. left. reflexivity.
    - intros [l [r Hin]] Heq. rewrite Heq in Hin. contradiction. }
  rewrite Hpairs. unfold kind_occurrence_pairs, segments_with_both_kinds.
  destruct (String.eqb lkind rkind) eqn:Hk; simpl negb; cbv iota.
  - apply String.eqb_eq in Hk. subst rkind. rewrite filter_In.
    apply and_iff_compat_l. rewrite Z.leb_le. unfold len.
    rewrite <- length_indices_where.
    assert (Hnd := indices_where_NoDup
                     (fun o => String.eqb (eis_kind o) lkind)
                     (seg_entities s)).
    apply two_elements_iff in Hnd.
    split.
    + intros Hlen. destruct (proj1 Hnd) as [i [j H]]; [lia|].
      exists i, j. apply product_off_diagonal_iff. exact H.
    + intros [i [j H]]. apply product_off_diagonal_iff in H.
      assert (2 <= List.length
                     (indices_where (fun o => String.eqb (eis_kind o) lkind)
                        (seg_entities s)))%nat
        by (apply Hnd; exists i, j; exact H).
      lia.
  - rewrite filter_In. apply and_iff_compat_l.
    rewrite andb_true_iff, !existsb_indices_where. split.
    + intros [[i Hi] [j Hj]]. exists i, j.
      apply product_off_diagonal_iff. split; [|auto].
      intros ->. apply indices_where_iff in Hi, Hj.
      destruct Hi as [_ [x [Hx Hpx]]]. destruct Hj as [_ [y [Hy Hpy]]].
      rewrite Hx in Hy. injection Hy as <-.
      apply String.eqb_eq in Hpx, Hpy. apply String.eqb_neq in Hk.
      congruence.
    + intros [i [j H]]. apply product_off_diagonal_iff in H.
      split; [exists i|exists j]; tauto.
Qed.

(** X4.  [segments_with_both_kinds(lkind, rkind)] answers exactly the
    segments of the store that have at least one pair in
    [kind_occurrence_pairs(lkind, rkind)]: the query hands [extract_facts]
    no segment without a pair and keeps back none that has one, also when
    the two kinds are the same. *)
Theorem segments_with_both_kinds_have_pairs :
  forall (segments : list TextSegment) (lkind rkind : string)
         (s : TextSegment),
    In s (segments_with_both_kinds segments lkind rkind)
    <-> In s segments /\ kind_occurrence_pairs s lkind rkind <> [].
Proof. exact segments_with_both_kinds_iff. Qed.

Lemma is_entity_key (o : EntityInSegment) (e : Entity) :
  is_entity o e = true -> String.eqb (eis_key o) (ent_key e) = true.
Proof.
  unfold is_entity. intros H. apply andb_true_iff in H. tauto.
Qed.

Lemma indices_where_weaken {A : Type} (p q : A -> bool) (l : list A) (i : Z) :
  (forall x, p x = true -> q x = true) ->
  In i (indices_where p l) -> In i (indices_where q l).
Proof.
  intros Hpq Hi. apply indices_where_iff in Hi. apply indices_where_iff.
  destruct Hi as [H0 [x [Hx Hp]]]. split; [assumption|]. exists x. auto.
Qed.

(** X5.  The evidence that [start()] hands to the first iteration is
    exactly this: for every evidence of the knowledge, every segment of
    the store and every pair of [entity_occurrence_pairs] of that segment
    for the two entities of the fact, the evidence of the fact in that
    segment at that pair.  The query [segments_with_both_entities] loses
    none of them, although it looks at the keys only. *)
Theorem start_evidences_exactly :
  forall (self : BootstrappedIEPipeline) (e : Evidence),
    In e (dict_keys (start_evidences self))
    <-> exists k s l r,
          In k (dict_keys (knowledge self))
          /\ In s (db_con self)
          /\ In (l, r) (entity_occurrence_pairs s (e1 (fact k)) (e2 (fact k)))
          /\ e = {| fact := fact k; segment := Some s;
                    o1 := Some l; o2 := Some r |}.
Proof.
  intros self e. unfold start_evidences.
  rewrite (dict_keys_of Evidence_eqb Evidence_eqb_eq). rewrite in_map_iff.
  split.
  - intros [[e' v] [<- Hin]]. simpl.
    apply in_flat_map in Hin. destruct Hin as [k [Hk Hin]].
    apply in_flat_map in Hin. destruct Hin as [s [Hs Hin]].
    apply in_map_iff in Hin. destruct Hin as [[l r] [[= <- _] Hlr]].
    exists k, s, l, r. unfold segments_with_both_entities in Hs.
    apply filter_In in Hs. tauto.
  - intros [k [s [l [r [Hk [Hs [Hlr ->]]]]]]].
    exists ({| fact := fact k; segment := Some s;
               o1 := Some l; o2 := Some r |}, Some (1 # 2)%Q).
    split; [reflexivity|].
    apply in_flat_map. exists k. split; [assumption|].
    apply in_flat_map. exists s. split.
    + unfold segments_with_both_entities. apply filter_In.
      split; [assumption|].
      unfold entity_occurrence_pairs in Hlr.
      apply product_off_diagonal_iff in Hlr. destruct Hlr as [_ [Hl Hr]].
      apply andb_true_iff. split; apply existsb_indices_where.
      * exists l. revert Hl. apply indices_where_weaken.
        intros x. apply is_entity_key.
      * exists r. revert Hr. apply indices_where_weaken.
        intros x. apply is_entity_key.
    + apply in_map_iff. exists (l, r). split; [reflexivity|assumption].
Qed.

(** ** Looking an entity up *)

Lemma filter_unique_key {A K : Type} (f : A -> K) (p : A -> bool) (e : A) :
  forall l,
    (forall x, p x = true <-> f x = f e) ->
    NoDup (map f l) -> In e l -> filter p l = [e].
Proof.
  intros l Hp. induction l as [|x l IH]; intros Hnd Hin; [contradiction|].
  simpl in Hnd. inversion Hnd as [|? ? Hnotin Hnd']; subst. simpl.
  destruct Hin as [->|Hin].
  - rewrite (proj2 (Hp e) eq_refl). f_equal.
    apply filter_none. apply Forall_forall. intros y Hy.
    destruct (p y) eqn:Hpy; [|reflexivity].
    exfalso. apply Hnotin. apply Hp in Hpy. rewrite <- Hpy.
    apply in_map. assumption.
  - destruct (p x) eqn:Hpx; [|auto].
    exfalso. apply Hnotin. apply Hp in Hpx. rewrite Hpx.
    apply in_map. assumption.
Qed.

Lemma NoDup_map_filter {K V : Type} (key : V -> K) (keep : V -> bool) :
  forall items : list V,
    NoDup (map key items) -> NoDup (map key (filter keep items)).
Proof.
  intros items. induction items as [|x items IH]; simpl; intros H;
    [constructor|].
  inversion H as [|? ? Hnotin Hnd]; subst.
  destruct (keep x); simpl; [|auto]. constructor; [|auto].
  intros Hin. apply Hnotin. apply in_map_iff in Hin.
  destruct Hin as [y [Hy Hin]]. apply filter_In in Hin.
  rewrite <- Hy. apply in_map. tauto.
Qed.

Lemma entity_key_eqb_eq (x y : string * string) :
  entity_key_eqb x y = true <-> x = y.
Proof.
  unfold entity_key_eqb. rewrite andb_true_iff, !String.eqb_eq.
  destruct x, y; simpl. split; [intros [-> ->] | intros [= -> ->]]; auto.
Qed.

Lemma In_firstn {A : Type} (n : nat) (l : list A) (x : A) :
  In x (firstn n l) -> In x l.
Proof.
  intros H. rewrite <- (firstn_skipn n l). apply in_or_app. auto.
Qed.

Lemma NoDup_keys_firstn {K V : Type} (n : nat) (d : list (K * V)) :
  NoDup (dict_keys d) -> NoDup (dict_keys (firstn n d)).
Proof.
  unfold dict_keys. rewrite <- (firstn_skipn n d) at 1. rewrite map_app.
  apply NoDup_app_remove_r.
Qed.

(** Dropping the entries of a key that is in the dictionary makes it
    shorter. *)
Lemma length_without_key {K V : Type} (eqb : K -> K -> bool)
    (d : list (K * V)) (k : K) (v : V) :
  dict_get eqb d k = Some v ->
  (List.length (filter (fun kv => negb (eqb k (fst kv))) d)
   < List.length d)%nat.
Proof.
  induction d as [|[k0 v0] d IH]; simpl; [discriminate|].
  destruct (eqb k k0) eqn:E; simpl.
  - intros _. pose proof (filter_length_le
                            (fun kv => negb (eqb k (fst kv))) d).
    lia.
  - intros H. specialize (IH H). lia.
Qed.

(** X6.  A call of [get_entity(kind, literal)] with arguments that are in
    the cache answers the cached entity, whatever the store holds, and
    moves the entry to the front.  Any other call asks the store: it
    answers an entity only if that one is in the store, and then caches it
    in front of at most 19 of the entries that were there; it raises
    [DoesNotExist] exactly when the store has no entity with this kind and
    key; an exception leaves the cache as it was; and when no two entities
    of the store share their kind and key, an entity of the store is found
    under its own kind and key.  What a call has answered once is answered
    again by the next call with these arguments, whatever has become of
    the store in between.  Calls keep the cache free of double keys, at 20
    entries at most, and with an entity of the right kind and key under
    every key, so that an answer always has the kind and the key that were
    asked for.  On a cache that agrees with the store, as the empty one
    does, a call answers what the store answers and leaves a cache that
    agrees with the store. *)
Theorem get_entity_lookup :
  forall (Entity_objects : list Entity)
         (cache : list ((string * string) * Entity))
         (kind literal : string),
    let r := get_entity_cached Entity_objects cache kind literal in
    (forall e,
        dict_get entity_key_eqb cache (kind, literal) = Some e ->
        snd r = Ok e
        /\ fst r
           = ((kind, literal), e)
             :: filter
                  (fun kv => negb (entity_key_eqb (kind, literal) (fst kv)))
                  cache)
    /\ (dict_get entity_key_eqb cache (kind, literal) = None ->
        snd r = get_entity Entity_objects kind literal
        /\ (forall e,
               snd r = Ok e ->
               In e Entity_objects
               /\ fst r = ((kind, literal), e) :: firstn 19 cache)
        /\ (forall x, snd r = Raise x -> fst r = cache)
        /\ (snd r = Raise DoesNotExist
            <-> (forall e, In e Entity_objects ->
                           ~ (ent_kind e = kind /\ ent_key e = literal)))
        /\ (NoDup (map (fun e => (ent_kind e, ent_key e)) Entity_objects) ->
            forall e, In e Entity_objects ->
                      ent_kind e = kind -> ent_key e = literal ->
                      snd r = Ok e))
    /\ (forall (e : Entity) (objects' : list Entity),
           snd r = Ok e ->
           snd (get_entity_cached objects' (fst r) kind literal) = Ok e)
    /\ (entity_cache cache ->
        entity_cache (fst r)
        /\ forall e, snd r = Ok e -> ent_kind e = kind /\ ent_key e = literal)
    /\ (cache_agrees Entity_objects cache ->
        snd r = get_entity Entity_objects kind literal
        /\ cache_agrees Entity_objects (fst r)).
Proof.
  intros objs cache kind literal r.
  assert (Hrefl : entity_key_eqb (kind, literal) (kind, literal) = true)
    by (apply entity_key_eqb_eq; reflexivity).
  assert (Hhit : forall e,
             dict_get entity_key_eqb cache (kind, literal) = Some e ->
             r = (((kind, literal), e)
                  :: filter
                       (fun kv =>
                          negb (entity_key_eqb (kind, literal) (fst kv)))
                       cache,
                  Ok e)).
  { intros e H. unfold r, get_entity_cached, lru_cache. rewrite H.
    reflexivity. }
  assert (Hmiss : dict_get entity_key_eqb cache (kind, literal) = None ->
                  r = match get_entity objs kind literal with
                      | Ok v => (((kind, literal), v) :: firstn 19 cache,
                                 Ok v)
                      | Raise x => (cache, Raise x)
                      | OutOfFuel => (cache, OutOfFuel)
                      end).
  { intros H. unfold r, get_entity_cached, lru_cache. rewrite H.
    cbn [fst snd]. destruct (get_entity objs kind literal); reflexivity. }
  split; [|split; [|split; [|split]]].
  - intros e H. rewrite (Hhit e H). split; reflexivity.
  - intros H. rewrite (Hmiss H).
    split; [destruct (get_entity objs kind literal); reflexivity|].
    split; [|split; [|split]].
    + intros e He.
      destruct (get_entity objs kind literal) as [v| |] eqn:Hg;
        try discriminate.
      injection He as ->. split; [|reflexivity].
      unfold get_entity in Hg.
      destruct (filter _ objs) as [|x [|y l]] eqn:Hf; try discriminate.
      injection Hg as <-.
      assert (Hin : In x (filter
                            (fun e => String.eqb (ent_kind e) kind
                                      && String.eqb (ent_key e) literal)
                            objs))
        by (rewrite Hf; simpl; auto).
      apply filter_In in Hin. tauto.
    + intros x Hx.
      destruct (get_entity objs kind literal); try discriminate.
      reflexivity.
    + assert (Hsnd : snd match get_entity objs kind literal with
                         | Ok v => (((kind, literal), v) :: firstn 19 cache,
                                    Ok v)
                         | Raise x => (cache, Raise x)
                         | OutOfFuel => (cache, OutOfFuel)
                         end
                     = get_entity objs kind literal)
        by (destruct (get_entity objs kind literal); reflexivity).
      rewrite Hsnd. unfold get_entity. split.
      * intros Hr e Hin [Hk Hl].
        assert (Hin' : In e (filter
                               (fun e => String.eqb (ent_kind e) kind
                                         && String.eqb (ent_key e) literal)
                               objs)).
        { apply filter_In. split; [assumption|].
          apply andb_true_iff. rewrite !String.eqb_eq. auto. }
        destruct (filter _ objs) as [|x [|y l]]; try discriminate.
        contradiction.
      * intros Hnone.
        destruct (filter _ objs) as [|x l] eqn:Hf; [reflexivity|].
        exfalso.
        assert (Hin : In x (filter
                              (fun e => String.eqb (ent_kind e) kind
                                        && String.eqb (ent_key e) literal)
                              objs))
          by (rewrite Hf; simpl; auto).
        apply filter_In in Hin. destruct Hin as [Hin Hp].
        apply andb_true_iff in Hp. rewrite !String.eqb_eq in Hp.
        exact (Hnone x Hin Hp).
    + intros Hnd e Hin <- <-.
      assert (Hg : get_entity objs (ent_kind e) (ent_key e) = Ok e).
      { unfold get_entity.
        rewrite (filter_unique_key (fun e => (ent_kind e, ent_key e)) _ e);
          [reflexivity| |assumption|assumption].
        intros x. rewrite andb_true_iff, !String.eqb_eq. split.
        - intros [-> ->]. reflexivity.
        - intros [= -> ->]. auto. }
      rewrite Hg. reflexivity.
  - intros e objs' He.
    assert (Hfront : exists rest, fst r = ((kind, literal), e) :: rest).
    { destruct (dict_get entity_key_eqb cache (kind, literal)) as [v|] eqn:H.
      - rewrite (Hhit v eq_refl) in He |- *. cbn [fst snd] in *.
        injection He as ->. eexists. reflexivity.
      - rewrite (Hmiss eq_refl) in He |- *.
        destruct (get_entity objs kind literal); try discriminate.
        cbn [fst snd] in *. injection He as ->. eexists. reflexivity. }
    destruct Hfront as [rest ->].
    unfold get_entity_cached, lru_cache. cbn [dict_get].
    rewrite Hrefl. reflexivity.
  - intros Hc. pose proof Hc as [Hnd [Hlen Hent]].
    destruct (dict_get entity_key_eqb cache (kind, literal)) as [v|] eqn:H.
    + rewrite (Hhit v eq_refl). cbn [fst snd].
      pose proof (dict_get_In entity_key_eqb entity_key_eqb_eq _ _ _ H)
        as Hin.
      split; [split; [|split]|].
      * unfold dict_keys. cbn [map fst]. constructor.
        -- intros Hk. apply in_map_iff in Hk.
           destruct Hk as [[k' e'] [Hk Hf]]. apply filter_In in Hf.
           destruct Hf as [_ Hf]. cbn [fst] in Hk, Hf. subst k'.
           rewrite Hrefl in Hf. discriminate.
        -- apply NoDup_map_filter. exact Hnd.
      * pose proof (length_without_key entity_key_eqb cache _ _ H) as Hl.
        unfold len in *. cbn [List.length]. lia.
      * intros key e [[= <- <-]|Hf]; [exact (Hent _ _ Hin)|].
        apply filter_In in Hf. apply Hent. tauto.
      * intros e [= <-]. exact (Hent _ _ Hin).
    + rewrite (Hmiss eq_refl).
      destruct (get_entity objs kind literal) as [v| |] eqn:Hg;
        cbn [fst snd]; try (split; [exact Hc | intros ? ?; discriminate]).
      pose proof (get_entity_matches _ _ _ _ Hg) as Hv.
      split; [split; [|split]|].
      * unfold dict_keys. cbn [map fst]. constructor.
        -- intros Hk. apply in_map_iff in Hk.
           destruct Hk as [[k' e'] [Hk Hf]]. apply In_firstn in Hf.
           cbn [fst] in Hk. subst k'.
           assert (Hkeys : In (kind, literal) (dict_keys cache))
             by (unfold dict_keys; apply in_map_iff;
                 exists ((kind, literal), e'); auto).
           apply (dict_get_In_keys entity_key_eqb entity_key_eqb_eq)
             in Hkeys.
           destruct Hkeys as [w Hw]. congruence.
        -- apply (NoDup_keys_firstn 19). exact Hnd.
      * unfold len, ENTITY_CACHE_SIZE in *. cbn [List.length].
        pose proof (firstn_le_length 19 cache). 
        assert (List.length (firstn 19 cache) <= 19)%nat
          by (rewrite length_firstn; lia).
        lia.
      * intros key e [[= <- <-]|Hf]; [exact Hv|].
        apply In_firstn in Hf. exact (Hent _ _ Hf).
      * intros e [= <-]. exact Hv.
  - intros Hagree.
    destruct (dict_get entity_key_eqb cache (kind, literal)) as [v|] eqn:H.
    + rewrite (Hhit v eq_refl). cbn [fst snd].
      pose proof (dict_get_In entity_key_eqb entity_key_eqb_eq _ _ _ H)
        as Hin.
      pose proof (Hagree _ _ Hin) as Hv. cbn [fst snd] in Hv.
      split; [symmetry; exact Hv|].
      intros key e [[= <- <-]|Hf]; [exact Hv|].
      apply filter_In in Hf. apply Hagree. tauto.
    + rewrite (Hmiss eq_refl).
      destruct (get_entity objs kind literal) as [v| |] eqn:Hg;
        cbn [fst snd]; try (split; [reflexivity | exact Hagree]).
      split; [reflexivity|].
      intros key e [[= <- <-]|Hf]; [exact Hg|].
      apply In_firstn in Hf. exact (Hagree _ _ Hf).
Qed.

(** X6 at the entities of the examples: OrgY is looked up with an empty
    cache and found in the store; it is answered again after it has left
    the store, which then on its own knows of no such entity. *)
Lemma get_entity_lookup_witness :
  let kind := ent_kind OrgY in
  let literal := ent_key OrgY in
  let r := get_entity_cached [PersonX; OrgY; OrgZ] [] kind literal in
  entity_cache []
  /\ r = ([((kind, literal), OrgY)], Ok OrgY)
  /\ entity_cache (fst r)
  /\ get_entity_cached [PersonX; OrgZ] (fst r) kind literal
     = ([((kind, literal), OrgY)], Ok OrgY)
  /\ get_entity [PersonX; OrgZ] kind literal = Raise DoesNotExist.
Proof.
  intros kind literal r.
  assert (Hempty : entity_cache []).
  { split; [constructor|]. split; [vm_compute; discriminate|].
    intros key e []. }
  destruct (get_entity_lookup [PersonX; OrgY; OrgZ] [] kind literal)
    as [_ [_ [_ [Hinv _]]]].
  split; [exact Hempty|]. split; [reflexivity|].
  split; [exact (proj1 (Hinv Hempty))|]. split; reflexivity.
Defined.

(** ** Certainty *)



(** ** Ranking by certainty: when it returns *)

Section SortedReverseTotal.

Context {K A : Type}.
Variable lt : K -> K -> result bool.

Section Good.

Variable good : K -> Prop.
Hypothesis lt_good : forall x y, good x -> good y -> exists b, lt x y = Ok b.

Lemma insert_desc_total (x : K * A) (l : list (K * A)) :
  good (fst x) -> Forall (fun y => good (fst y)) l ->
  exists r, insert_desc lt x l = Ok r /\ Forall (fun y => good (fst y)) r.
Proof.
  intros Hx Hl. induction Hl as [|y l Hy Hl IH]; simpl.
  - exists [x]. split; [reflexivity|]. constructor; [assumption|constructor].
  - destruct (lt_good _ _ Hx Hy) as [b ->]. simpl. destruct b.
    + destruct IH as [r [-> Hr]]. simpl. exists (y :: r).
      split; [reflexivity|]. constructor; assumption.
    + exists (x :: y :: l). split; [reflexivity|].
      repeat constructor; assumption.
Qed.

Lemma sort_desc_total (l : list (K * A)) :
  Forall (fun y => good (fst y)) l ->
  exists r, sort_desc lt l = Ok r /\ Forall (fun y => good (fst y)) r.
Proof.
  induction 1 as [|x l Hx Hl IH]; simpl.
  - exists []. split; [reflexivity|constructor].
  - destruct IH as [r [-> Hr]]. simpl. apply insert_desc_total; assumption.
Qed.

End Good.

Section Raises.

Variable P : exn -> Prop.
Hypothesis lt_raise : forall x y e, lt x y = Raise e -> P e.



End Raises.

End SortedReverseTotal.

Lemma for_each_total {A B : Type} (f : A -> result B) (l : list A) :
  (forall x, In x l -> exists y, f x = Ok y) ->
  exists ys, for_each f l = Ok ys.
Proof.
  induction l as [|x l IH]; simpl; intros Hf; [eauto|].
  destruct (Hf x (or_introl eq_refl)) as [y ->]. simpl.
  destruct IH as [ys ->]; [auto|]. simpl. eauto.
Qed.




Lemma Evidence_lt_saved (x y : Evidence) :
  saved x -> saved y -> exists b, Evidence_lt x y = Ok b.
Proof.
  intros [s [i [j [Hs [Hid [Hi Hj]]]]]] [s' [i' [j' [Hs' [Hid' [Hi' Hj']]]]]].
  unfold Evidence_lt, TextSegment_lt. rewrite Hs, Hs', Hi, Hi', Hj, Hj'.
  destruct (Fact_eq_dec _ _); [|eauto].
  destruct (option_eq_dec TextSegment_eq_dec _ _).
  - destruct (option_eq_dec Z.eq_dec _ _).
    + destruct (option_eq_dec Z.eq_dec _ _); simpl; eauto.
    + simpl. eauto.
  - destruct (seg_id s), (seg_id s'); try congruence. simpl. eauto.
Qed.


Lemma key_lt_good (good : Evidence -> Prop) :
  (forall x y, good x -> good y -> exists b, Evidence_lt x y = Ok b) ->
  forall x y : Q * Evidence,
    good (snd x) -> good (snd y) -> exists b, key_lt x y = Ok b.
Proof.
  intros Hgood x y Hx Hy. unfold key_lt.
  destruct (Qeq_bool _ _); [|eauto].
  destruct (Evidence_eq_dec _ _); eauto.
Qed.

Lemma key_funct_total (self : Knowledge) (es : Evidence * score) :
  In es self -> exists n, key_funct self es = Ok (n, fst es).
Proof.
  intros Hin. unfold key_funct, dict_getitem.
  assert (Hk : In (fst es) (dict_keys self))
    by (unfold dict_keys; apply in_map; assumption).
  apply (dict_get_In_keys Evidence_eqb Evidence_eqb_eq) in Hk.
  destruct Hk as [v ->]. simpl. eauto.
Qed.

Lemma by_certainty_total (good : Evidence -> Prop) (self : Knowledge) :
  (forall x y, good x -> good y -> exists b, Evidence_lt x y = Ok b) ->
  (forall e, In e (dict_keys self) -> good e) ->
  exists l, by_certainty self = Ok l.
Proof.
  intros Hlt Hgood. unfold by_certainty, sorted_reverse.
  destruct (for_each_total (key_funct self) self) as [keys Hkeys].
  { intros x Hx. destruct (key_funct_total self x Hx) as [n Hn]. eauto. }
  rewrite Hkeys. simpl.
  destruct (sort_desc_total key_lt (fun k => good (snd k))
              (key_lt_good good Hlt) (combine keys self)) as [r [-> _]].
  - apply Forall_forall. intros [k es] Hin.
    destruct (for_each_combine _ _ _ Hkeys) as [_ Hkey].
    pose proof (Hkey _ _ Hin) as Hk.
    assert (Hes : In es self) by (eapply in_combine_r; exact Hin).
    destruct (key_funct_total self es Hes) as [n Hn].
    rewrite Hn in Hk. injection Hk as <-. simpl.
    apply Hgood. unfold dict_keys. apply in_map. assumption.
  - simpl. eauto.
Qed.



(** ** Dictionaries whose items have different keys *)

Section DictFresh.

Context {K V : Type}.
Variable eqb : K -> K -> bool.
Hypothesis eqb_eq : forall x y, eqb x y = true <-> x = y.

Lemma dict_set_new (d : list (K * V)) (k : K) (v : V) :
  ~ In k (dict_keys d) -> dict_set eqb d k v = d ++ [(k, v)].
Proof.
  unfold dict_keys. induction d as [|[k0 v0] d IH]; simpl; intros H;
    [reflexivity|].
  destruct (eqb k k0) eqn:E.
  - apply eqb_eq in E. subst k0. exfalso. auto.
  - rewrite IH by auto. reflexivity.
Qed.

Lemma dict_update_new (items : list (K * V)) :
  forall d,
    NoDup (map fst items) ->
    (forall k, In k (map fst items) -> ~ In k (dict_keys d)) ->
    dict_update eqb d items = d ++ items.
Proof.
  unfold dict_update.
  induction items as [|[k v] items IH]; simpl; intros d Hnd Hnew.
  - rewrite app_nil_r. reflexivity.
  - inversion Hnd as [|? ? Hnotin Hnd']; subst.
    rewrite dict_set_new by auto. rewrite IH; [|assumption|].
    + rewrite <- app_assoc. reflexivity.
    + intros k' Hk' Hin. unfold dict_keys in Hin. rewrite map_app in Hin.
      apply in_app_or in Hin. destruct Hin as [Hin|[<-|[]]].
      * exact (Hnew k' (or_intror Hk') Hin).
      * contradiction.
Qed.

Lemma dict_of_unique (items : list (K * V)) :
  NoDup (map fst items) -> dict_of eqb items = items.
Proof.
  intros Hnd. unfold dict_of. rewrite dict_update_new; auto.
Qed.

End DictFresh.

(** ** The knowledge of one relation *)

Lemma per_relation_fold (items : list (Evidence * score)) :
  forall (pre : list (Evidence * score)) (acc : list (string * Knowledge)),
    NoDup (map fst (pre ++ items)) ->
    (forall r,
        dict_get String.eqb acc r
        = match filter (fun es => String.eqb (relation (fact (fst es))) r)
                  pre with
          | [] => None
          | g => Some g
          end) ->
    forall r,
      dict_get String.eqb
        (fold_left
           (fun result es =>
              let r := relation (fact (fst es)) in
              let k := match dict_get String.eqb result r with
                       | Some k => k
                       | None => []
                       end in
              dict_set String.eqb result r
                (dict_set Evidence_eqb k (fst es) (snd es)))
           items acc) r
      = match filter (fun es => String.eqb (relation (fact (fst es))) r)
                (pre ++ items) with
        | [] => None
        | g => Some g
        end.
Proof.
  induction items as [|[e s] items IH]; intros pre acc Hnd Hacc r.
  - simpl. rewrite app_nil_r. apply Hacc.
  - simpl fold_left.
    replace (pre ++ (e, s) :: items) with ((pre ++ [(e, s)]) ++ items)
      by (rewrite <- app_assoc; reflexivity).
    apply IH.
    + rewrite <- app_assoc. exact Hnd.
    + intros r'. cbn [fst snd]. rewrite (dict_get_set String.eqb String_eqb_eq).
      rewrite filter_app. simpl filter at 2. cbn [fst].
      rewrite (String.eqb_sym r').
      destruct (String.eqb (relation (fact e)) r') eqn:Hr.
      * apply String.eqb_eq in Hr. subst r'.
        rewrite Hacc.
        assert (Hfresh :
                  ~ In e (dict_keys
                            (filter
                               (fun es => String.eqb
                                            (relation (fact (fst es)))
                                            (relation (fact e))) pre))).
        { intros Hin. unfold dict_keys in Hin. apply in_map_iff in Hin.
          destruct Hin as [[e' s'] [He' Hin]]. simpl in He'. subst e'.
          apply filter_In in Hin. destruct Hin as [Hin _].
          rewrite map_app in Hnd. simpl in Hnd.
          apply NoDup_remove_2 in Hnd. apply Hnd. apply in_or_app. left.
          apply in_map_iff. exists (e, s'). auto. }
        destruct (filter _ pre) as [|p l]; [reflexivity|].
        rewrite (dict_set_new Evidence_eqb Evidence_eqb_eq) by exact Hfresh.
        reflexivity.
      * rewrite app_nil_r. apply Hacc.
Qed.

(** X9.  [per_relation] splits a knowledge by the relation of the fact:
    under a relation it holds exactly the items of the knowledge with that
    relation, in their order, and it has no entry for a relation that no
    item has.  No item is lost, and none gets under another relation. *)
Theorem per_relation_partition :
  forall (self : Knowledge) (r : string),
    NoDup (dict_keys self) ->
    dict_get String.eqb (per_relation self) r
    = match filter (fun es => String.eqb (relation (fact (fst es))) r) self with
      | [] => None
      | g => Some g
      end.
Proof.
  intros self r Hnd. unfold per_relation.
  apply (per_relation_fold self [] []); [exact Hnd|]. reflexivity.
Qed.

(** X9 at a knowledge with the two questions of the example, of one
    relation. *)
Lemma per_relation_partition_witness :
  let self : Knowledge :=
    [(evidence_XY, Some 1%Q); (evidence_XZ, Some 0%Q)] in
  NoDup (dict_keys self)
  /\ dict_get String.eqb (per_relation self) "works_for"%string = Some self
  /\ dict_get String.eqb (per_relation self) "born_in"%string = None.
Proof.
  intros self.
  assert (Hnd : NoDup (dict_keys self)).
  { repeat constructor; simpl; intros H;
      repeat (destruct H as [H|H]; [discriminate|]); exact H. }
  split; [exact Hnd|]. split.
  - rewrite (per_relation_partition self "works_for"%string Hnd). reflexivity.
  - rewrite (per_relation_partition self "born_in"%string Hnd). reflexivity.
Defined.

(** ** The user API and the cycle of steps *)

Lemma start_evidences_NoDup (self : BootstrappedIEPipeline) :
  NoDup (dict_keys (start_evidences self)).
Proof. apply (dict_of_NoDup Evidence_eqb Evidence_eqb_eq). Qed.

Lemma start_evidences_known (self : BootstrappedIEPipeline) :
  filter
    (fun x : Evidence * score =>
       existsb (Fact_eqb (fact (fst x)))
         (map fact (dict_keys (knowledge self))))
    (start_evidences self)
  = start_evidences self.
Proof.
  apply filter_all. apply Forall_forall. intros [e v] Hin. simpl.
  apply existsb_exists. unfold start_evidences in Hin.
  apply (dict_update_In Evidence_eqb Evidence_eqb_eq) in Hin.
  destruct Hin as [[]|Hin].
  apply in_flat_map in Hin. destruct Hin as [k [Hk Hin]].
  apply in_flat_map in Hin. destruct Hin as [s [_ Hin]].
  apply in_map_iff in Hin. destruct Hin as [[i j] [[= <- _] _]]. simpl.
  exists (fact k). split; [apply in_map; exact Hk|].
  apply Fact_eqb_eq. reflexivity.
Qed.

Lemma dict_mem_keys {V : Type} (d : list (Evidence * V)) (e : Evidence) :
  dict_mem Evidence_eqb d e = true <-> In e (dict_keys d).
Proof.
  unfold dict_mem.
  rewrite (dict_get_In_keys Evidence_eqb Evidence_eqb_eq).
  destruct (dict_get Evidence_eqb d e) as [v|].
  - split; eauto.
  - split; [discriminate|]. intros [v Hv]. discriminate.
Qed.

Section Cycle.

Variable Entity_objects : list Entity.
Variable Classifier : Type.
Variable FactExtractorFactory : Knowledge -> Classifier.
Variable predict_proba_true : Classifier -> list Evidence -> list Q.

(** What [start()] answers from the first step of the cycle. *)
Lemma start_from_first_step :
  forall self : BootstrappedIEPipeline,
    step_iterator self = 0%nat ->
    start Entity_objects Classifier FactExtractorFactory predict_proba_true
      self
    = (set_step_iterator
         (set_questions self
            (filter
               (fun es => negb (dict_mem Evidence_eqb (answers self) (fst es)))
               (start_evidences self)))
         3,
       Ok tt).
Proof.
  intros self H0. unfold start.
  rewrite do_iteration_step. rewrite H0. cbv zeta.
  cbn [steps generalize_knowledge knowledge set_step_iterator].
  rewrite start_evidences_known.
  rewrite (dict_of_unique Evidence_eqb Evidence_eqb_eq)
    by apply start_evidences_NoDup.
  rewrite do_iteration_step.
  cbn [steps step_iterator set_step_iterator generate_questions Nat.modulo
       Nat.divmod fst snd Nat.sub].
  cbn [answers set_step_iterator].
  rewrite (dict_of_unique Evidence_eqb Evidence_eqb_eq)
    by (apply NoDup_map_filter; apply start_evidences_NoDup).
  rewrite do_iteration_step.
  cbn [steps step_iterator set_step_iterator set_questions Nat.modulo
       Nat.divmod fst snd Nat.sub].
  reflexivity.
Qed.

(** X10.  On a pipeline whose cycle stands at its first step, as after
    [__init__], [start()] returns without an exception at the pause: the
    questions are then the evidence that [start] collected less
    the evidence that has an answer, each with the score 0.5, and nothing
    else of the pipeline has changed. *)
Theorem start_asks_the_unanswered :
  forall self : BootstrappedIEPipeline,
    step_iterator self = 0%nat ->
    start Entity_objects Classifier FactExtractorFactory predict_proba_true
      self
    = (set_step_iterator
         (set_questions self
            (filter
               (fun es => negb (dict_mem Evidence_eqb (answers self) (fst es)))
               (start_evidences self)))
         3,
       Ok tt).
Proof. exact start_from_first_step. Qed.

(** X11.  [force_process()] on a pipeline whose cycle stands at its
    first step, that is before [start()], raises [AttributeError]: the
    first step is handed [None].  The cycle has moved on to the second
    step all the same; nothing else has changed. *)
Theorem force_process_before_start :
  forall self : BootstrappedIEPipeline,
    step_iterator self = 0%nat ->
    force_process Entity_objects Classifier FactExtractorFactory
      predict_proba_true self
    = (set_step_iterator self 1, Raise AttributeError).
Proof.
  intros self H0. unfold force_process.
  rewrite do_iteration_step. rewrite H0. reflexivity.
Qed.

(** X12.  At the pause, where [start()] and a completed
    [force_process()] leave the cycle, [start()] does what
    [force_process()] does: the step after the pause ignores the evidence
    that [start] collected. *)
Theorem start_at_the_pause_is_force_process :
  forall self : BootstrappedIEPipeline,
    step_iterator self = 3%nat ->
    start Entity_objects Classifier FactExtractorFactory predict_proba_true
      self
    = force_process Entity_objects Classifier FactExtractorFactory
        predict_proba_true self.
Proof.
  intros self H3. unfold start, force_process.
  rewrite !do_iteration_step. rewrite H3. reflexivity.
Qed.

(** X13.  After [add_answer(e, a)], the questions that
    [generate_questions(k)] stores are the evidence of [k] other than [e]
    that had no answer before: an evidence with an answer is not asked
    again. *)
Theorem answered_is_not_asked :
  forall (self : BootstrappedIEPipeline) (e : Evidence) (a : bool)
         (k : Knowledge) (e' : Evidence),
    In e' (dict_keys
             (questions
                (fst (generate_questions Classifier (add_answer self e a)
                        (DataKnowledge Classifier k)))))
    <-> In e' (dict_keys k)
        /\ e' <> e
        /\ ~ In e' (dict_keys (answers self)).
Proof.
  intros self e a k e'. cbn [generate_questions fst questions set_questions].
  rewrite (dict_keys_of Evidence_eqb Evidence_eqb_eq).
  cbn [add_answer answers set_answers].
  rewrite in_map_iff. split.
  - intros [[x v] [<- Hin]]. apply filter_In in Hin.
    destruct Hin as [Hin Hmem]. cbn [fst] in *.
    split; [unfold dict_keys; apply in_map_iff; exists (x, v); auto|].
    apply negb_true_iff in Hmem.
    assert (Hnot : ~ In x (dict_keys
                             (dict_set Evidence_eqb (answers self) e
                                (of_bool a)))).
    { intros H. apply dict_mem_keys in H. congruence. }
    rewrite (dict_keys_set Evidence_eqb Evidence_eqb_eq) in Hnot. tauto.
  - intros [Hin [Hne Hnot]]. unfold dict_keys in Hin.
    apply in_map_iff in Hin. destruct Hin as [[x v] [<- Hin]].
    exists (x, v). split; [reflexivity|]. apply filter_In.
    split; [assumption|]. cbn [fst] in *. apply negb_true_iff.
    destruct (dict_mem Evidence_eqb _ x) eqn:Hmem; [|reflexivity].
    apply dict_mem_keys in Hmem.
    rewrite (dict_keys_set Evidence_eqb Evidence_eqb_eq) in Hmem. tauto.
Qed.

End Cycle.

(** X10, X11 and X12 at the pipeline of the example. *)
Lemma start_asks_the_unanswered_witness :
  step_iterator seeded_pipeline = 0%nat
  /\ start [PersonX; OrgY; OrgZ] unit example_factory example_predict
       seeded_pipeline
     = (set_step_iterator
          (set_questions seeded_pipeline
             (filter
                (fun es =>
                   negb (dict_mem Evidence_eqb (answers seeded_pipeline)
                           (fst es)))
                (start_evidences seeded_pipeline)))
          3,
        Ok tt).
Proof.
  split; [reflexivity|].
  apply start_asks_the_unanswered. reflexivity.
Defined.

Lemma force_process_before_start_witness :
  step_iterator seeded_pipeline = 0%nat
  /\ force_process [PersonX; OrgY; OrgZ] unit example_factory example_predict
       seeded_pipeline
     = (set_step_iterator seeded_pipeline 1, Raise AttributeError).
Proof.
  split; [reflexivity|].
  apply force_process_before_start. reflexivity.
Defined.

Lemma start_at_the_pause_is_force_process_witness :
  let paused :=
    fst (start [PersonX; OrgY; OrgZ] unit example_factory example_predict
           seeded_pipeline) in
  step_iterator paused = 3%nat
  /\ start [PersonX; OrgY; OrgZ] unit example_factory example_predict paused
     = force_process [PersonX; OrgY; OrgZ] unit example_factory
         example_predict paused.
Proof.
  intros paused. split; [reflexivity|].
  apply start_at_the_pause_is_force_process. reflexivity.
Defined.

(** ** The evidence to learn from *)

Lemma In_dict_get {V : Type} (d : list (Evidence * V)) (e : Evidence) (v : V) :
  NoDup (dict_keys d) -> In (e, v) d -> dict_get Evidence_eqb d e = Some v.
Proof.
  unfold dict_keys. induction d as [|[e0 v0] d IH]; simpl; intros Hnd Hin;
    [contradiction|].
  inversion Hnd as [|? ? Hnotin Hnd']; subst.
  destruct Hin as [[= -> ->]|Hin].
  - rewrite (eqb_refl Evidence_eqb Evidence_eqb_eq). reflexivity.
  - destruct (Evidence_eqb e e0) eqn:E; [|auto].
    apply Evidence_eqb_eq in E. subst e0. exfalso. apply Hnotin.
    apply in_map_iff. exists (e, v). auto.
Qed.

Lemma strong_predictions_labels (self : BootstrappedIEPipeline)
    (items : list (Evidence * score)) :
  (forall e s, In (e, s) items -> s <> None) ->
  strong_predictions self items
  = Ok (map (fun es => (fst es, predicted_label (snd es)))
          (filter (strong self) items)).
Proof.
  induction items as [|[e s] items IH]; intros Hnum; [reflexivity|].
  cbn [strong_predictions filter]. unfold strong at 1. cbn [fst snd].
  destruct (Qltb (evidence_threshold self) (certainty s)
            && negb (dict_mem Evidence_eqb (answers self) e)).
  - destruct s as [q|]; [|exfalso; eapply Hnum; [left|]; reflexivity].
    simpl. rewrite IH by (intros e' s' H; apply (Hnum e' s'); right; exact H).
    reflexivity.
  - apply IH. intros e' s' H. apply (Hnum e' s'). right. exact H.
Qed.

Section FilterEvidence.

Variable Classifier : Type.

(** What [filter_evidence] answers when the questions have numbers for
    scores. *)
Lemma filter_evidence_result :
  forall (self : BootstrappedIEPipeline) (d : data Classifier),
    NoDup (dict_keys (answers self)) ->
    NoDup (dict_keys (questions self)) ->
    (forall e s, In (e, s) (questions self) -> s <> None) ->
    filter_evidence Classifier self d
    = (self,
       Ok (DataKnowledge Classifier
             (map (fun ea => (fst ea, Some (snd ea))) (answers self)
              ++ map (fun es => (fst es, predicted_label (snd es)))
                   (filter (strong self) (questions self))))).
Proof.
  intros self d Hans Hq Hnum. unfold filter_evidence.
  rewrite strong_predictions_labels by exact Hnum. cbn [bind].
  assert (Hkeys : map fst (map (fun ea : Evidence * Q =>
                                  (fst ea, Some (snd ea))) (answers self))
                  = dict_keys (answers self)).
  { unfold dict_keys. rewrite map_map. reflexivity. }
  rewrite (dict_of_unique Evidence_eqb Evidence_eqb_eq)
    by (rewrite Hkeys; exact Hans).
  rewrite (dict_update_new Evidence_eqb Evidence_eqb_eq); [reflexivity| |].
  - rewrite map_map. cbn [fst]. apply NoDup_map_filter. exact Hq.
  - intros k Hk Hin. rewrite map_map in Hk. cbn [fst] in Hk.
    apply in_map_iff in Hk. destruct Hk as [[e s] [<- Hes]].
    apply filter_In in Hes. destruct Hes as [_ Hstrong].
    unfold strong in Hstrong. apply andb_true_iff in Hstrong.
    destruct Hstrong as [_ Hmem]. apply negb_true_iff in Hmem.
    cbn [fst] in *. unfold dict_keys in Hin. rewrite map_map in Hin.
    change (In e (dict_keys (answers self))) in Hin.
    apply dict_mem_keys in Hin. congruence.
Qed.

End FilterEvidence.

Lemma set_of_values_fold (vals : list score) :
  forall acc,
    Forall is_label vals -> label_set acc ->
    let r := fold_left
               (fun acc s =>
                  if existsb (score_eqb s) acc then acc else acc ++ [s])
               vals acc in
    label_set r
    /\ (forall b,
           existsb (score_eqb (Some (of_bool b))) r
           = existsb (score_eqb (Some (of_bool b))) acc
             || existsb (score_eqb (Some (of_bool b))) vals).
Proof.
  induction vals as [|s vals IH]; intros acc Hvals Hacc; simpl.
  - split; [assumption|]. intros b. rewrite orb_false_r. reflexivity.
  - inversion Hvals as [|? ? [b0 Hs] Hvals']; subst.
    destruct (IH (if existsb (score_eqb (Some (of_bool b0))) acc
                  then acc else acc ++ [Some (of_bool b0)]) Hvals')
      as [Hshape Hmem].
    + destruct Hacc as [->|[->|[->|[->| ->]]]]; destruct b0; vm_compute;
        tauto.
    + split; [exact Hshape|]. intros b. rewrite Hmem.
      rewrite orb_assoc. f_equal.
      destruct Hacc as [->|[->|[->|[->| ->]]]]; destruct b0, b;
        reflexivity.
Qed.

Lemma set_of_values_labels (k : Knowledge) :
  (forall e s, In (e, s) k -> is_label s) ->
  (forall b, existsb (score_eqb (Some (of_bool b))) (set_of_values k)
             = has_label b k)
  /\ (has_label true k = true -> has_label false k = true ->
      len (set_of_values k) = 2).
Proof.
  intros Hk.
  assert (Hvals : Forall is_label (map snd k)).
  { apply Forall_forall. intros s Hs. apply in_map_iff in Hs.
    destruct Hs as [[e s'] [<- Hin]]. eapply Hk. exact Hin. }
  destruct (set_of_values_fold (map snd k) [] Hvals (or_introl eq_refl))
    as [Hshape Hmem].
  fold (set_of_values k) in Hshape, Hmem. split.
  - intros b. rewrite Hmem. reflexivity.
  - unfold has_label. intros Ht Hf.
    pose proof (Hmem true) as H1. pose proof (Hmem false) as H0.
    rewrite Ht in H1. rewrite Hf in H0.
    destruct Hshape as [E|[E|[E|[E|E]]]]; rewrite E in H1, H0 |- *;
      vm_compute in H1, H0; try discriminate; reflexivity.
Qed.

Lemma per_relation_NoDup (self : Knowledge) :
  NoDup (dict_keys (per_relation self)).
Proof.
  unfold per_relation.
  assert (H : forall items acc,
             NoDup (dict_keys acc) ->
             NoDup (dict_keys
                      (fold_left
                         (fun result (es : Evidence * score) =>
                            let r := relation (fact (fst es)) in
                            let k := match dict_get String.eqb result r with
                                     | Some k => k
                                     | None => []
                                     end in
                            dict_set String.eqb result r
                              (dict_set Evidence_eqb k (fst es) (snd es)))
                         items acc))).
  { induction items as [|es items IH]; intros acc Hacc; [exact Hacc|].
    simpl. apply IH. apply (dict_set_NoDup String.eqb String_eqb_eq).
    exact Hacc. }
  apply H. constructor.
Qed.

Lemma In_dict_get_string {V : Type} (d : list (string * V)) (r : string)
    (v : V) :
  NoDup (dict_keys d) -> In (r, v) d -> dict_get String.eqb d r = Some v.
Proof.
  unfold dict_keys. induction d as [|[r0 v0] d IH]; simpl; intros Hnd Hin;
    [contradiction|].
  inversion Hnd as [|? ? Hnotin Hnd']; subst.
  destruct Hin as [[= -> ->]|Hin].
  - rewrite String.eqb_refl. reflexivity.
  - destruct (String.eqb r r0) eqn:E; [|auto].
    apply String.eqb_eq in E. subst r0. exfalso. apply Hnotin.
    apply in_map_iff. exists (r, v). auto.
Qed.

Section Training.

Variable Classifier : Type.
Variable FactExtractorFactory : Knowledge -> Classifier.

Lemma train_classifiers_labels (groups : list (string * Knowledge)) :
  forall acc,
    NoDup (dict_keys groups) ->
    (forall rel k e s, In (rel, k) groups -> In (e, s) k -> is_label s) ->
    exists c,
      train_classifiers Classifier FactExtractorFactory groups acc = Ok c
      /\ forall r,
           dict_get String.eqb c r
           = match dict_get String.eqb groups r with
             | Some k =>
                 if has_label true k && has_label false k
                 then Some (FactExtractorFactory k)
                 else dict_get String.eqb acc r
             | None => dict_get String.eqb acc r
             end.
Proof.
  induction groups as [|[rel k] groups IH]; intros acc Hnd Hlab.
  - exists acc. split; reflexivity.
  - unfold dict_keys in Hnd. simpl in Hnd.
    inversion Hnd as [|? ? Hnotin Hnd']; subst.
    assert (Hk : forall e s, In (e, s) k -> is_label s)
      by (intros e s H; eapply Hlab; [left; reflexivity | exact H]).
    assert (Hrest : forall rel' k' e s,
               In (rel', k') groups -> In (e, s) k' -> is_label s)
      by (intros rel' k' e s H; eapply Hlab; right; exact H).
    destruct (set_of_values_labels k Hk) as [Hmem Hlen].
    assert (Hnone : dict_get String.eqb groups rel = None).
    { destruct (dict_get String.eqb groups rel) eqn:E; [|reflexivity].
      exfalso. apply Hnotin.
      apply (dict_get_In_keys String.eqb String_eqb_eq). eauto. }
    cbn [train_classifiers].
    change (Some 1%Q) with (Some (of_bool true)).
    change (Some 0%Q) with (Some (of_bool false)).
    rewrite !Hmem.
    destruct (has_label true k) eqn:Ht; destruct (has_label false k) eqn:Hf;
      cbn [negb orb andb].
    + rewrite Hlen by reflexivity. cbn [Z.eqb Pos.eqb py_assert bind].
      destruct (IH (dict_set String.eqb acc rel (FactExtractorFactory k))
                  Hnd' Hrest) as [c [Hc Hget]].
      exists c. split; [exact Hc|]. intros r. rewrite Hget.
      cbn [dict_get]. destruct (String.eqb r rel) eqn:E.
      * apply String.eqb_eq in E. subst r. rewrite Hnone, Ht, Hf.
        apply (dict_get_set_same String.eqb String_eqb_eq).
      * destruct (dict_get String.eqb groups r); [|];
          rewrite (dict_get_set String.eqb String_eqb_eq), E; reflexivity.
    + destruct (IH acc Hnd' Hrest) as [c [Hc Hget]].
      exists c. split; [exact Hc|]. intros r. rewrite Hget.
      cbn [dict_get]. destruct (String.eqb r rel) eqn:E; [|reflexivity].
      apply String.eqb_eq in E. subst r. rewrite Hnone, Ht, Hf. reflexivity.
    + destruct (IH acc Hnd' Hrest) as [c [Hc Hget]].
      exists c. split; [exact Hc|]. intros r. rewrite Hget.
      cbn [dict_get]. destruct (String.eqb r rel) eqn:E; [|reflexivity].
      apply String.eqb_eq in E. subst r. rewrite Hnone, Ht, Hf. reflexivity.
    + destruct (IH acc Hnd' Hrest) as [c [Hc Hget]].
      exists c. split; [exact Hc|]. intros r. rewrite Hget.
      cbn [dict_get]. destruct (String.eqb r rel) eqn:E; [|reflexivity].
      apply String.eqb_eq in E. subst r. rewrite Hnone, Ht, Hf. reflexivity.
Qed.

(** X15.  On evidence whose scores are all labels, as
    [filter_evidence] returns it, [learn_fact_extractors] returns without
    an exception (its assertion that the classification is binary holds)
    and leaves the pipeline as it is.  It has trained a classifier for
    exactly the relations that have an item with the label [True] and one
    with the label [False], each on exactly the items of its relation. *)
Theorem learn_fact_extractors_trains_binary :
  forall (self : BootstrappedIEPipeline) (evidence : Knowledge),
    NoDup (dict_keys evidence) ->
    (forall e s, In (e, s) evidence -> is_label s) ->
    exists c,
      learn_fact_extractors Classifier FactExtractorFactory self
        (DataKnowledge Classifier evidence)
      = (self, Ok (DataExtractors Classifier c))
      /\ forall r,
           dict_get String.eqb c r
           = let k := filter
                        (fun es => String.eqb (relation (fact (fst es))) r)
                        evidence in
             if has_label true k && has_label false k
             then Some (FactExtractorFactory k)
             else None.
Proof.
  intros self evidence Hnd Hlab.
  assert (Hget : forall r,
             dict_get String.eqb (per_relation evidence) r
             = match filter
                       (fun es => String.eqb (relation (fact (fst es))) r)
                       evidence with
               | [] => None
               | g => Some g
               end).
  { intros r. unfold per_relation.
    apply (per_relation_fold evidence [] []); [exact Hnd|]. reflexivity. }
  destruct (train_classifiers_labels (per_relation evidence) []
              (per_relation_NoDup evidence)) as [c [Hc Hcget]].
  { intros rel k e s Hin Hes.
    apply (In_dict_get_string _ _ _ (per_relation_NoDup evidence)) in Hin.
    rewrite Hget in Hin.
    destruct (filter _ evidence) as [|p l] eqn:Hf; [discriminate|].
    injection Hin as <-. rewrite <- Hf in Hes. apply filter_In in Hes.
    eapply Hlab. apply Hes. }
  exists c. unfold learn_fact_extractors. rewrite Hc. split; [reflexivity|].
  intros r. rewrite Hcget, Hget. cbv zeta.
  destruct (filter _ evidence) as [|p l]; [reflexivity|].
  cbn [dict_get]. destruct (_ && _); reflexivity.
Qed.

End Training.


(** X15 at an evidence with one item of each label. *)
Lemma learn_fact_extractors_trains_binary_witness :
  let evidence : Knowledge :=
    [(evidence_XY, Some 1%Q); (evidence_XZ, Some 0%Q)] in
  NoDup (dict_keys evidence)
  /\ (forall e s, In (e, s) evidence -> is_label s)
  /\ exists c,
       learn_fact_extractors unit example_factory seeded_pipeline
         (DataKnowledge unit evidence)
       = (seeded_pipeline, Ok (DataExtractors unit c))
       /\ dict_get String.eqb c "works_for"%string = Some tt.
Proof.
  intros evidence.
  assert (Hnd : NoDup (dict_keys evidence)).
  { repeat constructor; simpl; intros H;
      repeat (destruct H as [H|H]; [discriminate|]); exact H. }
  assert (Hlab : forall e s, In (e, s) evidence -> is_label s).
  { intros e s [[= <- <-]|[[= <- <-]|[]]];
      [exists true | exists false]; reflexivity. }
  split; [exact Hnd|]. split; [exact Hlab|].
  destruct (learn_fact_extractors_trains_binary unit example_factory
              seeded_pipeline evidence Hnd Hlab) as [c [Hc Hget]].
  exists c. split; [exact Hc|]. rewrite Hget. reflexivity.
Defined.

(** ** What the cycle keeps *)

Section KnowledgeInvariant.

Variable Entity_objects : list Entity.
Variable Classifier : Type.
Variable FactExtractorFactory : Knowledge -> Classifier.
Variable predict_proba_true : Classifier -> list Evidence -> list Q.

Variable KInv : Knowledge -> Prop.
Variable DInv : Knowledge -> Prop.
Hypothesis DInv_empty : DInv [].
Hypothesis DInv_filter :
  forall (p : Evidence * score -> bool) k,
    DInv k -> DInv (dict_of Evidence_eqb (filter p k)).
Hypothesis DInv_extract :
  forall self x k,
    score_relations Entity_objects Classifier predict_proba_true self x
      (relations self) [] = Ok k ->
    DInv k.
Hypothesis KInv_merge :
  forall t k items,
    KInv k -> DInv items -> KInv (fst (merge_facts t k items)).

Let data_inv (d : data Classifier) : Prop :=
  match d with
  | DataKnowledge _ k => DInv k
  | _ => True
  end.

Lemma step_knowledge (n : nat) (self : BootstrappedIEPipeline)
    (d : data Classifier) :
  KInv (knowledge self) ->
  (n = 4%nat \/ data_inv d) ->
  match steps Entity_objects Classifier FactExtractorFactory
          predict_proba_true n with
  | None => True
  | Some step =>
      KInv (knowledge (fst (step self d)))
      /\ forall d', snd (step self d) = Ok d' -> n = 3%nat \/ data_inv d'
  end.
Proof.
  intros Hk Hd.
  destruct n as [|[|[|[|[|[|n]]]]]]; simpl.
  - destruct Hd as [Hd|Hd]; [discriminate|].
    destruct d as [|k|[|x xs]]; simpl; (split; [assumption|]);
      intros d' [= <-]; right; simpl; auto.
  - destruct Hd as [Hd|Hd]; [discriminate|].
    destruct d as [|k|[|x xs]]; simpl; (split; [assumption|]);
      try discriminate; intros d' [= <-]; right; exact I.
  - exact I.
  - split; [assumption | auto].
  - destruct d as [|k|x]; simpl; (split; [assumption|]);
      try discriminate.
    intros d' H.
    destruct (train_classifiers _ _ _ _) as [c| |]; simpl in H;
      try discriminate.
    injection H as <-. right. exact I.
  - split; [assumption|]. intros d' H.
    destruct (score_relations _ _ _ _ _ _ _) as [k| |] eqn:Hs; simpl in H;
      try discriminate.
    injection H as <-. right. simpl. eapply DInv_extract. exact Hs.
  - destruct Hd as [Hd|Hd]; [discriminate|].
    destruct d as [|k|[|x xs]]; simpl.
    + split; [assumption | discriminate].
    + pose proof (KInv_merge (fact_threshold self) (knowledge self) k
                    Hk Hd) as Hm.
      destruct (merge_facts (fact_threshold self) (knowledge self) k)
        as [k' r]. simpl in *.
      split; [assumption|].
      intros d' H. destruct r; simpl in H; try discriminate.
      injection H as <-. right. assumption.
    + split; [assumption|]. intros d' [= <-]. right. exact I.
    + split; [assumption | discriminate].
Qed.

Lemma do_iteration_knowledge (fuel : nat) :
  forall (self : BootstrappedIEPipeline) (d : data Classifier),
    KInv (knowledge self) ->
    (step_iterator self = 4%nat \/ data_inv d) ->
    KInv (knowledge
            (fst (do_iteration Entity_objects Classifier FactExtractorFactory
                    predict_proba_true fuel self d))).
Proof.
  induction fuel as [|fuel IH]; intros self d Hp Hd; [assumption|].
  rewrite do_iteration_step.
  set (self' := set_step_iterator self (Nat.modulo (S (step_iterator self)) 7)).
  cbv zeta.
  assert (Hp' : KInv (knowledge self')) by exact Hp.
  pose proof (step_knowledge (step_iterator self) self' d Hp' Hd) as Hstep.
  pose proof (steps_keep_iterator Entity_objects Classifier
                FactExtractorFactory predict_proba_true
                (step_iterator self) self' d) as Hpos.
  destruct (steps _ _ _ _ (step_iterator self)) as [step|]; [|assumption].
  destruct Hstep as [Hafter Hdata].
  destruct (step self' d) as [self'' r] eqn:Hs.
  cbn [fst snd] in Hafter, Hdata, Hpos.
  destruct r as [d'| |]; try assumption.
  apply IH; [assumption|].
  destruct (Hdata d' eq_refl) as [E|D]; [left | right; assumption].
  rewrite Hpos. unfold self'. cbn [step_iterator set_step_iterator].
  rewrite E. reflexivity.
Qed.

Lemma start_knowledge (self : BootstrappedIEPipeline) :
  KInv (knowledge self) -> DInv (start_evidences self) ->
  KInv (knowledge
          (fst (start Entity_objects Classifier FactExtractorFactory
                  predict_proba_true self))).
Proof.
  intros Hk Hd. apply do_iteration_knowledge; [assumption|]. right. exact Hd.
Qed.

Lemma force_process_knowledge (self : BootstrappedIEPipeline) :
  KInv (knowledge self) ->
  KInv (knowledge
          (fst (force_process Entity_objects Classifier FactExtractorFactory
                  predict_proba_true self))).
Proof.
  intros Hk. apply do_iteration_knowledge; [assumption|]. right. exact I.
Qed.

End KnowledgeInvariant.

Lemma merge_facts_keys (t : Q) (items : list (Evidence * score)) :
  forall k e,
    In e (dict_keys k) -> In e (dict_keys (fst (merge_facts t k items))).
Proof.
  induction items as [|[e0 s0] items IH]; intros k e He; [assumption|].
  simpl. destruct (score_gt s0 t) as [[|]| |]; simpl; auto.
  apply IH. apply (dict_keys_set Evidence_eqb Evidence_eqb_eq). auto.
Qed.

Lemma merge_facts_known_scored (t : Q) (items : list (Evidence * score)) :
  forall k,
    known_scored k ->
    (forall e, In e (dict_keys items) -> located e) ->
    known_scored (fst (merge_facts t k items)).
Proof.
  induction items as [|[e0 s0] items IH]; intros k Hk Hitems; [assumption|].
  assert (Hrest : forall e, In e (dict_keys items) -> located e)
    by (intros e He; apply Hitems; right; exact He).
  simpl. destruct (score_gt s0 t) as [[|]| |] eqn:Hgt; simpl;
    [|apply IH; assumption|assumption|assumption].
  apply IH; [|assumption].
  intros e s Hin.
  apply (dict_set_In Evidence_eqb Evidence_eqb_eq) in Hin.
  destruct Hin as [[-> ->]|Hin]; [|auto].
  right. split; [apply Hitems; left; reflexivity|].
  intros ->. discriminate Hgt.
Qed.

Section Settings.

Variable Entity_objects : list Entity.
Variable Classifier : Type.
Variable FactExtractorFactory : Knowledge -> Classifier.
Variable predict_proba_true : Classifier -> list Evidence -> list Q.

Lemma step_settings (n : nat) (self : BootstrappedIEPipeline)
    (d : data Classifier) :
  match steps Entity_objects Classifier FactExtractorFactory
          predict_proba_true n with
  | None => True
  | Some step => same_settings self (fst (step self d))
  end.
Proof.
  unfold same_settings.
  destruct n as [|[|[|[|[|[|n]]]]]]; simpl; try exact I;
    try (destruct d as [|k|[|? ?]]); simpl;
    try (destruct (merge_facts _ _ _)); simpl;
    repeat split; reflexivity.
Qed.

Lemma do_iteration_settings (fuel : nat) :
  forall (self : BootstrappedIEPipeline) (d : data Classifier),
    same_settings self
      (fst (do_iteration Entity_objects Classifier FactExtractorFactory
              predict_proba_true fuel self d)).
Proof.
  induction fuel as [|fuel IH]; intros self d.
  - simpl. unfold same_settings. auto 6.
  - rewrite do_iteration_step.
    set (self' := set_step_iterator self (Nat.modulo (S (step_iterator self)) 7)).
    cbv zeta.
    pose proof (step_settings (step_iterator self) self' d) as Hstep.
    destruct (steps _ _ _ _ (step_iterator self)) as [step|].
    + destruct (step self' d) as [self'' r] eqn:Hs. cbn [fst] in Hstep.
      assert (Hs'' : same_settings self self'') by exact Hstep.
      destruct r as [d'| |]; try exact Hs''.
      pose proof (IH self'' d') as Hrec.
      unfold same_settings in *.
      destruct Hs'' as [H1 [H2 [H3 [H4 H5]]]].
      destruct Hrec as [G1 [G2 [G3 [G4 G5]]]].
      repeat split; congruence.
    + unfold same_settings. simpl. auto 6.
Qed.

(** X16.  Whatever [start()] and [force_process()] do, and whether they
    return or raise, they leave the store, the relations, the two
    thresholds and the answers of the pipeline as they are, and every
    evidence that was known before is known after: the cycle adds to the
    knowledge and never takes from it. *)
Theorem cycle_keeps_settings_and_knowledge :
  forall self : BootstrappedIEPipeline,
    let started :=
      fst (start Entity_objects Classifier FactExtractorFactory
             predict_proba_true self) in
    let processed :=
      fst (force_process Entity_objects Classifier FactExtractorFactory
             predict_proba_true self) in
    (same_settings self started
     /\ forall e, In e (dict_keys (knowledge self)) ->
                  In e (dict_keys (knowledge started)))
    /\ (same_settings self processed
        /\ forall e, In e (dict_keys (knowledge self)) ->
                     In e (dict_keys (knowledge processed))).
Proof.
  intros self started processed.
  assert (Hkeys : forall fuel d e,
             In e (dict_keys (knowledge self)) ->
             In e (dict_keys
                     (knowledge
                        (fst (do_iteration Entity_objects Classifier
                                FactExtractorFactory predict_proba_true
                                fuel self d))))).
  { intros fuel d e He.
    refine (do_iteration_knowledge Entity_objects Classifier
              FactExtractorFactory predict_proba_true
              (fun k => In e (dict_keys k)) (fun _ => True)
              I _ _ _ fuel self d He _).
    - intros; exact I.
    - intros; exact I.
    - intros t k items Hk _. apply merge_facts_keys. exact Hk.
    - right. destruct d; exact I. }
  split; split.
  - apply do_iteration_settings.
  - intros e. apply Hkeys.
  - apply do_iteration_settings.
  - intros e. apply Hkeys.
Qed.

(** The scores of the knowledge of a pipeline that the user API
    produces. *)
Lemma reachable_known_scored :
  forall p : BootstrappedIEPipeline,
    reachable Entity_objects Classifier FactExtractorFactory
      predict_proba_true p ->
    known_scored (known_facts p).
Proof.
  unfold known_facts.
  assert (Hext : forall self x k,
             score_relations Entity_objects Classifier predict_proba_true
               self x (relations self) [] = Ok k ->
             forall e, In e (dict_keys k) -> located e).
  { intros self x k Hs.
    refine (score_relations_keys Entity_objects Classifier
              predict_proba_true located _ _ _ _ _ _ _ Hs).
    - intros r s o e. apply candidate_evidence_located.
    - intros e []. }
  assert (Hfil : forall (p : Evidence * score -> bool) k,
             (forall e, In e (dict_keys k) -> located e) ->
             forall e, In e (dict_keys (dict_of Evidence_eqb (filter p k))) ->
                       located e).
  { intros p k Hk e He.
    apply (proj1 (dict_keys_of Evidence_eqb Evidence_eqb_eq _ _)) in He.
    apply in_map_iff in He. destruct He as [[e' v] [<- Hin]].
    apply filter_In in Hin. apply Hk. unfold dict_keys. apply in_map_iff.
    exists (e', v). tauto. }
  induction 1 as [db seeds p Hinit | p _ IH | p e a _ IH | p _ IH
                  | p et ft _ IH].
  - unfold init in Hinit.
    destruct (build_relations _ _) as [rels| |]; simpl in Hinit;
      try discriminate.
    injection Hinit as <-. simpl. intros e s Hin.
    apply (dict_update_In Evidence_eqb Evidence_eqb_eq) in Hin.
    destruct Hin as [[]|Hin].
    apply in_map_iff in Hin. destruct Hin as [f [[= <- <-] _]].
    left. split; [repeat split | reflexivity].
  - refine (start_knowledge Entity_objects Classifier FactExtractorFactory
              predict_proba_true known_scored
              (fun k => forall e, In e (dict_keys k) -> located e)
              _ Hfil Hext _ p IH _).
    + intros e [].
    + intros t k items. apply merge_facts_known_scored.
    + intros e. apply start_evidences_located.
  - exact IH.
  - refine (force_process_knowledge Entity_objects Classifier
              FactExtractorFactory predict_proba_true known_scored
              (fun k => forall e, In e (dict_keys k) -> located e)
              _ Hfil Hext _ p IH).
    + intros e [].
    + intros t k items. apply merge_facts_known_scored.
  - exact IH.
Qed.

(** X17.  In every pipeline that construction and the user API produce,
    an evidence of [known_facts()] either has no segment and no
    occurrences and the score 1, as the seed facts have, or it is located
    in a segment and has a number for a score: no known evidence has the
    score [None], and the cycle never gives a seed fact another score. *)
Theorem known_facts_scored :
  forall p : BootstrappedIEPipeline,
    reachable Entity_objects Classifier FactExtractorFactory
      predict_proba_true p ->
    known_scored (known_facts p).
Proof. exact reachable_known_scored. Qed.

End Settings.

(** X17 at the pipeline of the example after [start()]. *)
Lemma known_facts_scored_witness :
  let p :=
    fst (start [PersonX; OrgY; OrgZ] unit example_factory example_predict
           seeded_pipeline) in
  reachable [PersonX; OrgY; OrgZ] unit example_factory example_predict p
  /\ known_scored (known_facts p).
Proof.
  intros p.
  assert (Hp : reachable [PersonX; OrgY; OrgZ] unit example_factory
                 example_predict p).
  { apply reachable_start.
    apply (reachable_init _ _ _ _ [example_segment]
             [works_for PersonX OrgY]).
    reflexivity. }
  split; [exact Hp|].
  exact (known_facts_scored [PersonX; OrgY; OrgZ] unit example_factory
           example_predict p Hp).
Defined.

(** ** The rest of a built segment *)

Lemma window_of_sorted {A : Type} (key : A -> Z) (a : list A) (xl xr l r : Z) :
  0 <= l <= r -> r <= len a ->
  Forall (fun v => key v < xl) (slice a 0 l) ->
  Forall (fun v => xl <= key v < xr) (slice a l r) ->
  Forall (fun v => xr <= key v) (slice_from a r) ->
  slice a l r = filter (fun v => (xl <=? key v) && (key v <? xr)) a.
Proof.
  intros Hl Hr Hbelow Hin Hfrom.
  rewrite (slices_cover a l r) at 2 by lia.
  rewrite !filter_app.
  rewrite (filter_none _ (slice a 0 l)).
  2:{ eapply Forall_impl; [|exact Hbelow]. simpl. intros o Ho.
      apply andb_false_iff. left. apply Z.leb_gt. lia. }
  rewrite (filter_none _ (slice_from a r)).
  2:{ eapply Forall_impl; [|exact Hfrom]. simpl. intros o Ho.
      apply andb_false_iff. right. apply Z.ltb_ge. lia. }
  rewrite filter_all.
  2:{ eapply Forall_impl; [|exact Hin]. simpl. intros o Ho.
      apply andb_true_iff. split; [apply Z.leb_le | apply Z.ltb_lt]; lia. }
  rewrite app_nil_r. reflexivity.
Qed.

(** X18.  On a document whose sentence starts are sorted, the sentences
    of [TextSegment.build(document, token_offset, token_offset_end)] are
    exactly the sentence starts of the document in
    [[token_offset, token_offset_end)], in their order, less
    [token_offset]: each lies in [[0, token_offset_end - token_offset)].
    The tokens and the tags are the slices of the document's, the offset is
    [token_offset], and the segment has no identifier yet.  With
    [0 <= token_offset_end < token_offset] the call raises [ValueError]. *)
Theorem build_sentences_in_window :
  forall (document : IEDocument) (token_offset token_offset_end : Z),
    (sorted_by (fun x => x) (doc_sentences document) ->
     forall s,
       TextSegment_build document token_offset token_offset_end = Ok s ->
       seg_sentences s
       = map (fun o => o - token_offset)
           (filter (fun o => (token_offset <=? o) && (o <? token_offset_end))
              (doc_sentences document))
       /\ Forall (fun o => 0 <= o < token_offset_end - token_offset)
            (seg_sentences s)
       /\ seg_tokens s
          = slice (doc_tokens document) token_offset token_offset_end
       /\ seg_postags s
          = slice (doc_postags document) token_offset token_offset_end
       /\ seg_offset s = token_offset
       /\ seg_document s = human_identifier document
       /\ seg_id s = None)
    /\ (0 <= token_offset_end < token_offset ->
        TextSegment_build document token_offset token_offset_end
        = Raise ValueError).
Proof.
  intros document token_offset token_offset_end.
  assert (Hget : forall i, 0 <= i ->
            exists z, (if i <? len (doc_offsets document)
                       then getitem (doc_offsets document) i
                       else Ok (len_string (doc_text document))) = Ok z).
  { intros i Hi. destruct (i <? len (doc_offsets document)) eqn:E; [|eauto].
    apply Z.ltb_lt in E.
    destruct (getitem_nth (doc_offsets document) i) as [z [Hz _]]; [lia|].
    eauto. }
  split.
  - intros Hsorted s Hbuild. unfold TextSegment_build in Hbuild.
    destruct (if token_offset <? len (doc_offsets document) then _ else _);
      simpl in Hbuild; try discriminate.
    destruct (if token_offset_end <? len (doc_offsets document) then _ else _);
      simpl in Hbuild; try discriminate.
    destruct (_interval_offsets occ_offset _ _ _ _ _) as [[l r]| |] eqn:Hents;
      simpl in Hbuild; try discriminate.
    assert (Hle : token_offset <= token_offset_end).
    { destruct (Z_le_gt_dec token_offset token_offset_end) as [|Hgt]; auto.
      exfalso. unfold _interval_offsets in Hents. simpl (0 <? 0) in Hents.
      replace (token_offset >? token_offset_end) with true in Hents
        by (symmetry; apply Z.gtb_lt; lia).
      discriminate. }
    destruct (for_each _ _) as [entities| |]; simpl in Hbuild;
      try discriminate.
    destruct (interval_offsets_correct _ (fun x => x) (doc_sentences document)
                token_offset token_offset_end Hsorted Hle)
      as [l' [r' [Hlr [Hl [Hr [Hbelow [Hin [Hfrom _]]]]]]]].
    rewrite Hlr in Hbuild. simpl in Hbuild. injection Hbuild as <-. simpl.
    rewrite (window_of_sorted (fun x => x) (doc_sentences document)
               token_offset token_offset_end l' r') in * by assumption.
    repeat split; try reflexivity.
    apply Forall_forall. intros o Ho. apply in_map_iff in Ho.
    destruct Ho as [x [<- Hx]]. rewrite Forall_forall in Hin.
    specialize (Hin x Hx). simpl in Hin. lia.
  - intros [H0 Hlt]. unfold TextSegment_build.
    destruct (Hget token_offset ltac:(lia)) as [z1 ->].
    destruct (Hget token_offset_end ltac:(lia)) as [z2 ->]. simpl.
    unfold _interval_offsets. simpl (0 <? 0).
    replace (token_offset >? token_offset_end) with true
      by (symmetry; apply Z.gtb_lt; lia).
    reflexivity.
Qed.

(** X18 at a document of ten tokens in three sentences. *)
Lemma build_sentences_in_window_witness :
  let document :=
    {| human_identifier := "doc"; doc_title := ""; doc_url := "";
       doc_text := ""; preprocess_metadata := [];
       doc_tokens := repeat "t"%string 10; doc_offsets := [];
       doc_postags := repeat "p"%string 10;
       doc_sentences := [0; 4; 7; 10]; doc_entities := [] |} in
  sorted_by (fun x => x) (doc_sentences document)
  /\ (exists s,
         TextSegment_build document 3 8 = Ok s
         /\ seg_sentences s = [1; 4])
  /\ TextSegment_build document 8 3 = Raise ValueError.
Proof.
  intros document.
  assert (Hsorted : sorted_by (fun x => x) (doc_sentences document)).
  { unfold sorted_by. simpl. repeat constructor; lia. }
  destruct (build_sentences_in_window document 3 8) as [Hs _].
  destruct (build_sentences_in_window document 8 3) as [_ He].
  split; [exact Hsorted|]. split.
  - eexists. split; [reflexivity|].
    apply (Hs Hsorted _ eq_refl).
  - apply He. lia.
Defined.

(** ** The interval-offset lookup inside a window *)

Lemma nth_error_slice {A : Type} (a : list A) (lo hi i : Z) :
  0 <= lo -> hi <= len a -> lo <= i < hi ->
  nth_error (slice a lo hi) (Z.to_nat (i - lo)) = nth_error a (Z.to_nat i).
Proof.
  intros Hlo Hhi Hi. unfold slice. rewrite !slice_bound_id by lia.
  rewrite nth_error_firstn.
  replace (Z.to_nat (i - lo) <? Z.to_nat (hi - lo))%nat with true
    by (symmetry; apply Nat.ltb_lt; lia).
  rewrite nth_error_skipn. f_equal. lia.
Qed.

Lemma getitem_slice {A : Type} (a : list A) (lo hi i : Z) :
  0 <= lo -> hi <= len a -> lo <= i < hi ->
  getitem (slice a lo hi) (i - lo) = getitem a i.
Proof.
  intros Hlo Hhi Hi.
  destruct (getitem_nth a i) as [x [Hx Hn]]; [lia|].
  destruct (getitem_nth (slice a lo hi) (i - lo)) as [y [Hy Hm]].
  { rewrite len_slice by lia. lia. }
  rewrite nth_error_slice in Hm by lia. congruence.
Qed.

Lemma slice_slice {A : Type} (a : list A) (lo hi i j : Z) :
  0 <= lo -> hi <= len a -> 0 <= i <= j -> lo + j <= hi ->
  slice (slice a lo hi) i j = slice a (lo + i) (lo + j).
Proof.
  intros Hlo Hhi Hi Hj.
  assert (Hlen : len (slice a lo hi) = hi - lo) by (apply len_slice; lia).
  unfold slice at 1. rewrite Hlen. rewrite !slice_bound_id by lia.
  unfold slice. rewrite !slice_bound_id by lia.
  rewrite skipn_firstn_comm, firstn_firstn, skipn_skipn.
  f_equal; [lia | f_equal; lia].
Qed.

Section IntervalOffsetsWindow.

Context {A : Type}.
Variable key : A -> Z.
Variable a : list A.
Variables xl xr : Z.
Variables lo0 hi0 : Z.
Hypothesis lo0_nonneg : 0 <= lo0.
Hypothesis hi0_le_len : hi0 <= len a.

Lemma midpoint_shift (lo hi : Z) :
  (lo - lo0 + (hi - lo0)) / 2 = (lo + hi) / 2 - lo0.
Proof.
  replace (lo - lo0 + (hi - lo0)) with (lo + hi + (- lo0) * 2) by lia.
  rewrite Z.div_add by lia. lia.
Qed.

Lemma reduce_range_shift (fuel : nat) :
  forall lo hi mid,
    lo0 <= lo -> hi <= hi0 ->
    reduce_range key a xl xr fuel lo hi mid
    = match reduce_range key (slice a lo0 hi0) xl xr fuel (lo - lo0)
              (hi - lo0) (option_map (fun m => m - lo0) mid) with
      | Ok (l, h, m) => Ok (l + lo0, h + lo0, option_map (fun m => m + lo0) m)
      | Raise e => Raise e
      | OutOfFuel => OutOfFuel
      end.
Proof.
  induction fuel as [|fuel IH]; intros lo hi mid Hlo Hhi; simpl;
    replace (lo - lo0 <? hi - lo0) with (lo <? hi)
      by (destruct (lo <? hi) eqn:E; symmetry;
          [apply Z.ltb_lt; apply Z.ltb_lt in E | apply Z.ltb_ge;
           apply Z.ltb_ge in E]; lia);
    destruct (lo <? hi) eqn:E;
    try (replace (lo - lo0 + lo0) with lo by lia;
         replace (hi - lo0 + lo0) with hi by lia;
         destruct mid as [m|]; simpl; [|reflexivity];
         replace (m - lo0 + lo0) with m by lia; reflexivity).
  apply Z.ltb_lt in E. rewrite midpoint_shift.
    set (m := (lo + hi) / 2).
    assert (Hm : lo <= m < hi).
    { unfold m. split.
      - apply Z.div_le_lower_bound; lia.
      - apply Z.div_lt_upper_bound; lia. }
    rewrite getitem_slice by lia.
    destruct (getitem a m) as [x| |]; simpl; try reflexivity.
    destruct ((xl <=? key x) && (xr <=? key x)).
    + rewrite IH by lia. reflexivity.
    + destruct ((key x <? xl) && (key x <? xr)).
      * rewrite IH by lia.
        replace (m + 1 - lo0) with (m - lo0 + 1) by lia. reflexivity.
      * simpl. repeat f_equal; lia.
Qed.

Lemma bisect_left_shift (fuel : nat) :
  forall llo lhi,
    lo0 <= llo -> lhi <= hi0 ->
    bisect_left key a xl fuel llo lhi
    = match bisect_left key (slice a lo0 hi0) xl fuel (llo - lo0)
              (lhi - lo0) with
      | Ok l => Ok (l + lo0)
      | Raise e => Raise e
      | OutOfFuel => OutOfFuel
      end.
Proof.
  induction fuel as [|fuel IH]; intros llo lhi Hlo Hhi; simpl;
    replace (llo - lo0 <? lhi - lo0) with (llo <? lhi)
      by (destruct (llo <? lhi) eqn:E; symmetry;
          [apply Z.ltb_lt; apply Z.ltb_lt in E | apply Z.ltb_ge;
           apply Z.ltb_ge in E]; lia);
    destruct (llo <? lhi) eqn:E;
    try (f_equal; lia).
  apply Z.ltb_lt in E. rewrite midpoint_shift.
    set (m := (llo + lhi) / 2).
    assert (Hm : llo <= m < lhi).
    { unfold m. split.
      - apply Z.div_le_lower_bound; lia.
      - apply Z.div_lt_upper_bound; lia. }
    rewrite getitem_slice by lia.
    destruct (getitem a m) as [x| |]; simpl; try reflexivity.
    destruct (key x <? xl).
    + rewrite IH by lia.
      replace (m + 1 - lo0) with (m - lo0 + 1) by lia. reflexivity.
    + rewrite IH by lia. reflexivity.
Qed.

Lemma bisect_right_shift (fuel : nat) :
  forall rlo rhi,
    lo0 <= rlo -> rhi <= hi0 ->
    bisect_right key a xr fuel rlo rhi
    = match bisect_right key (slice a lo0 hi0) xr fuel (rlo - lo0)
              (rhi - lo0) with
      | Ok r => Ok (r + lo0)
      | Raise e => Raise e
      | OutOfFuel => OutOfFuel
      end.
Proof.
  induction fuel as [|fuel IH]; intros rlo rhi Hlo Hhi; simpl;
    replace (rlo - lo0 <? rhi - lo0) with (rlo <? rhi)
      by (destruct (rlo <? rhi) eqn:E; symmetry;
          [apply Z.ltb_lt; apply Z.ltb_lt in E | apply Z.ltb_ge;
           apply Z.ltb_ge in E]; lia);
    destruct (rlo <? rhi) eqn:E;
    try (f_equal; lia).
  apply Z.ltb_lt in E. rewrite midpoint_shift.
    set (m := (rlo + rhi) / 2).
    assert (Hm : rlo <= m < rhi).
    { unfold m. split.
      - apply Z.div_le_lower_bound; lia.
      - apply Z.div_lt_upper_bound; lia. }
    rewrite getitem_slice by lia.
    destruct (getitem a m) as [x| |]; simpl; try reflexivity.
    destruct (xr <=? key x).
    + rewrite IH by lia. reflexivity.
    + rewrite IH by lia.
      replace (m + 1 - lo0) with (m - lo0 + 1) by lia. reflexivity.
Qed.

End IntervalOffsetsWindow.

Lemma slice_from_slice {A : Type} (a : list A) (r : Z) :
  0 <= r <= len a -> slice_from a r = slice a r (len a).
Proof.
  intros Hr. unfold slice_from, slice. rewrite !slice_bound_id by lia.
  symmetry. apply firstn_all2. rewrite length_skipn. unfold len. lia.
Qed.

Lemma slice_empty {A : Type} (a : list A) (i : Z) :
  0 <= i <= len a -> slice a i i = [].
Proof.
  intros Hi. unfold slice. rewrite !slice_bound_id by lia.
  rewrite Z.sub_diag. reflexivity.
Qed.

(** The three loops and the two checks on a sorted list that is not
    empty. *)
Lemma interval_offsets_trace {A : Type} (key : A -> Z) (b : list A)
    (xl xr : Z) :
  sorted_by key b -> xl <= xr -> 0 < len b ->
  exists lo1 hi1 mid l r,
    reduce_range key b xl xr (Z.to_nat (len b)) 0 (len b) None
    = Ok (lo1, hi1, Some mid)
    /\ bisect_left key b xl (Z.to_nat (mid - lo1)) lo1 mid = Ok l
    /\ bisect_right key b xr (Z.to_nat (hi1 - mid)) mid hi1 = Ok r
    /\ 0 <= lo1 /\ hi1 <= len b /\ 0 <= mid < len b
    /\ (lo1 = l
        \/ (1 <= l <= len b
            /\ exists w, getitem b (l - 1) = Ok w /\ key w < xl))
    /\ (hi1 = r
        \/ (0 <= r < len b /\ exists w, getitem b r = Ok w /\ xr <= key w))
    /\ 0 <= l <= r /\ r <= len b
    /\ keys_below key b xl l /\ keys_from key b xl l
    /\ keys_below key b xr r /\ keys_from key b xr r.
Proof.
  intros Hsorted Hle Hlen.
  destruct (reduce_range_correct key b xl xr Hsorted Hle
              (Z.to_nat (len b)) 0 (len b) None)
    as [lo [hi [mid [Hred Hpost]]]]; try lia.
  { intros i v Hi; lia. }
  { intros i v Hi Hv. apply nth_error_lt in Hv. unfold len in *. lia. }
  destruct Hpost as [Hlo [Hhi [Hmid [Hb [Hf Hcase]]]]].
  destruct Hcase as [[Heq Hnext] | [Hin [v [Hv Hkey]]]].
  - subst hi.
    assert (Hl : bisect_left key b xl (Z.to_nat (mid - lo)) lo mid = Ok lo)
      by (apply bisect_left_done; lia).
    assert (Hr : bisect_right key b xr (Z.to_nat (lo - mid)) mid lo = Ok lo).
    { destruct Hnext as [-> | Hnext]; [apply bisect_right_done; lia|].
      replace (Z.to_nat (lo - mid)) with 1%nat by lia. simpl.
      replace (mid <? lo) with true by (symmetry; apply Z.ltb_lt; lia).
      replace ((mid + lo) / 2) with mid
        by (apply Z.div_unique with (r := 1); lia).
      destruct (getitem_nth b mid) as [w [Hget Hw]]; [lia|].
      rewrite Hget. simpl.
      pose proof (Hb mid w ltac:(lia) Hw).
      replace (xr <=? key w) with false
        by (symmetry; apply Z.leb_gt; lia).
      replace (mid + 1 <? lo) with false
        by (symmetry; apply Z.ltb_ge; lia).
      f_equal. lia. }
    exists lo, lo, mid, lo, lo.
    repeat (split; [first [assumption | lia | left; reflexivity]|]).
    split; [|split].
    + intros i w Hi Hw. specialize (Hf i w Hi Hw). lia.
    + apply (keys_below_weaken key b xl xr); auto.
    + assumption.
  - destruct (bisect_left_correct key b xl Hsorted
                (Z.to_nat (mid - lo)) lo mid)
      as [l [Hl [Hlr [Hbl Hfl]]]]; auto; try lia.
    { apply (keys_from_extend key b Hsorted xl mid v); auto; lia. }
    destruct (bisect_right_correct key b xr Hsorted
                (Z.to_nat (hi - mid)) mid hi)
      as [r [Hr [Hrr [Hbr Hfr]]]]; auto; try lia.
    { intros i w Hi Hw.
      assert (key w <= key v).
      { apply (sorted_by_nth key b Hsorted (Z.to_nat i) (Z.to_nat mid));
          auto; lia. }
      lia. }
    exists lo, hi, mid, l, r.
    repeat (split; [first [assumption | lia]|]).
    split; [|split; [|repeat (split; [first [assumption | lia]|]);
                      assumption]].
    + destruct (Z.eq_dec lo l) as [|Hne]; [left; assumption | right].
      split; [lia|].
      destruct (getitem_nth b (l - 1)) as [w [Hget Hw]]; [lia|].
      exists w. split; [assumption|]. apply (Hbl (l - 1) w); [lia|assumption].
    + destruct (Z.eq_dec hi r) as [|Hne]; [left; assumption | right].
      split; [lia|].
      destruct (getitem_nth b r) as [w [Hget Hw]]; [lia|].
      exists w. split; [assumption|]. apply (Hfr r w); [lia|assumption].
Qed.

(** X19.  With explicit bounds [0 <= lo <= hi <= len(a)], on a list that
    is sorted under [key] between [lo] and [hi], and for [xl <= xr],
    [_interval_offsets(a, xl, xr, lo, hi)] returns a pair [(l, r)] with
    [lo <= l <= r <= hi] such that every element of [a[lo:l]] has a key
    below [xl], every element of [a[l:r]] has its key in [[xl, xr)], and
    every element of [a[r:hi]] has a key of at least [xr]: what is outside
    [a[lo:hi]] plays no part. *)
Theorem interval_offsets_window :
  forall (A : Type) (key : A -> Z) (a : list A) (xl xr lo hi : Z),
    0 <= lo <= hi -> hi <= len a ->
    sorted_by key (slice a lo hi) -> xl <= xr ->
    exists l r,
      _interval_offsets key a xl xr lo (Some hi) = Ok (l, r)
      /\ lo <= l <= r /\ r <= hi
      /\ Forall (fun v => key v < xl) (slice a lo l)
      /\ Forall (fun v => xl <= key v < xr) (slice a l r)
      /\ Forall (fun v => xr <= key v) (slice a r hi).
Proof.
  intros A key a xl xr lo hi Hlo Hhi Hsorted Hle.
  unfold _interval_offsets.
  replace (lo <? 0) with false by (symmetry; apply Z.ltb_ge; lia).
  replace (xl >? xr) with false
    by (symmetry; rewrite Z.gtb_ltb; apply Z.ltb_ge; lia).
  destruct (lo =? hi) eqn:Hempty.
  - apply Z.eqb_eq in Hempty. subst hi. exists lo, lo.
    split; [reflexivity|]. rewrite slice_empty by lia.
    repeat split; try lia; constructor.
  - apply Z.eqb_neq in Hempty.
    set (b := slice a lo hi) in *.
    assert (Hlen : len b = hi - lo) by (apply len_slice; lia).
    destruct (interval_offsets_trace key b xl xr Hsorted Hle ltac:(lia))
      as [lo1 [hi1 [mid [l [r [Hred [Hl [Hr [Hlo1 [Hhi1 [Hmid [Ha1 [Ha2
          [Hlr [Hrb [Hbl [Hfl [Hbr Hfr]]]]]]]]]]]]]]]]]].
    rewrite (reduce_range_shift key a xl xr lo hi) by lia.
    fold b. replace (lo - lo) with 0 by lia. rewrite <- Hlen.
    replace (Z.to_nat (len b)) with (Z.to_nat (len b)) in Hred by reflexivity.
    cbn [option_map]. rewrite Hred. cbn [bind option_map].
    rewrite (bisect_left_shift key a xl lo hi) by lia.
    fold b.
    replace (lo1 + lo - lo) with lo1 by lia.
    replace (mid + lo - lo) with mid by lia.
    replace (mid + lo - (lo1 + lo)) with (mid - lo1) by lia.
    rewrite Hl. cbn [bind].
    rewrite (bisect_right_shift key a xr lo hi) by lia.
    fold b.
    replace (hi1 + lo - lo) with hi1 by lia.
    replace (mid + lo - lo) with mid by lia.
    replace (hi1 + lo - (mid + lo)) with (hi1 - mid) by lia.
    rewrite Hr. cbn [bind].
    assert (Hc1 : (if lo1 + lo =? l + lo then Ok tt
                   else x <- getitem a (l + lo - 1) ;;
                        py_assert (key x <? xl)) = Ok tt).
    { destruct Ha1 as [->|[Hl1 [w [Hw Hkey]]]]; [rewrite Z.eqb_refl; reflexivity|].
      destruct (lo1 + lo =? l + lo); [reflexivity|].
      replace (l + lo - 1) with (l - 1 + lo) by lia.
      rewrite <- (getitem_slice a lo hi (l - 1 + lo)) by lia.
      fold b. replace (l - 1 + lo - lo) with (l - 1) by lia.
      rewrite Hw. simpl.
      replace (key w <? xl) with true by (symmetry; apply Z.ltb_lt; lia).
      reflexivity. }
    assert (Hc2 : (if hi1 + lo =? r + lo then Ok tt
                   else x <- getitem a (r + lo) ;;
                        py_assert (key x >=? xr)) = Ok tt).
    { destruct Ha2 as [->|[Hr1 [w [Hw Hkey]]]]; [rewrite Z.eqb_refl; reflexivity|].
      destruct (hi1 + lo =? r + lo); [reflexivity|].
      rewrite <- (getitem_slice a lo hi (r + lo)) by lia.
      fold b. replace (r + lo - lo) with r by lia.
      rewrite Hw. simpl.
      replace (key w >=? xr) with true
        by (symmetry; rewrite Z.geb_leb; apply Z.leb_le; lia).
      reflexivity. }
    rewrite Hc1. cbn [bind]. rewrite Hc2. cbn [bind].
    exists (l + lo), (r + lo). split; [reflexivity|].
    split; [lia|]. split; [lia|].
    replace (slice a lo (l + lo)) with (slice b 0 l)
      by (unfold b; rewrite slice_slice by lia; f_equal; lia).
    replace (slice a (l + lo) (r + lo)) with (slice b l r)
      by (unfold b; rewrite slice_slice by lia; f_equal; lia).
    replace (slice a (r + lo) hi) with (slice b r (hi - lo))
      by (unfold b; rewrite slice_slice by lia; f_equal; lia).
    repeat split.
    + apply Forall_forall. intros v Hin.
      apply In_slice in Hin; try lia. destruct Hin as [i [Hi Hv]].
      apply (Hbl i v); auto.
    + apply Forall_forall. intros v Hin.
      apply In_slice in Hin; try lia. destruct Hin as [i [Hi Hv]].
      split; [apply (Hfl i v) | apply (Hbr i v)]; auto; lia.
    + apply Forall_forall. intros v Hin.
      apply In_slice in Hin; try lia. destruct Hin as [i [Hi Hv]].
      apply (Hfr i v); auto. lia.
Qed.

(** X19 at a list that is sorted inside the window only. *)
Lemma interval_offsets_window_witness :
  0 <= 1 <= 6 /\ 6 <= len [9; 1; 3; 3; 5; 8; 0]
  /\ sorted_by (fun x => x) (slice [9; 1; 3; 3; 5; 8; 0] 1 6)
  /\ 3 <= 5
  /\ exists l r,
       _interval_offsets (fun x => x) [9; 1; 3; 3; 5; 8; 0] 3 5 1 (Some 6)
       = Ok (l, r)
       /\ 1 <= l <= r /\ r <= 6
       /\ Forall (fun v => v < 3) (slice [9; 1; 3; 3; 5; 8; 0] 1 l)
       /\ Forall (fun v => 3 <= v < 5) (slice [9; 1; 3; 3; 5; 8; 0] l r)
       /\ Forall (fun v => 5 <= v) (slice [9; 1; 3; 3; 5; 8; 0] r 6).
Proof.
  assert (Hsorted : sorted_by (fun x => x) (slice [9; 1; 3; 3; 5; 8; 0] 1 6)).
  { unfold sorted_by. vm_compute slice. repeat constructor; lia. }
  assert (Hlen : 6 <= len [9; 1; 3; 3; 5; 8; 0]) by (vm_compute; discriminate).
  split; [lia|]. split; [exact Hlen|]. split; [exact Hsorted|].
  split; [lia|].
  apply (interval_offsets_window Z (fun x => x) [9; 1; 3; 3; 5; 8; 0] 3 5 1 6);
    [lia | exact Hlen | exact Hsorted | lia].
Defined.

(** X20.  [_interval_offsets] refuses a negative [lo] and a query with
    [xl > xr] with [ValueError], whatever the list; and with [hi < lo] (and
    no other fault) it raises [UnboundLocalError]: no loop runs, and [mid]
    is read without having been assigned. *)
Theorem interval_offsets_errors :
  forall (A : Type) (key : A -> Z) (a : list A) (xl xr lo : Z)
         (hi : option Z),
    (lo < 0 -> _interval_offsets key a xl xr lo hi = Raise ValueError)
    /\ (xr < xl -> _interval_offsets key a xl xr lo hi = Raise ValueError)
    /\ (forall h, hi = Some h -> 0 <= lo -> xl <= xr -> h < lo ->
                  _interval_offsets key a xl xr lo hi
                  = Raise UnboundLocalError).
Proof.
  intros A key a xl xr lo hi. unfold _interval_offsets. repeat split.
  - intros Hlo.
    replace (lo <? 0) with true by (symmetry; apply Z.ltb_lt; lia).
    reflexivity.
  - intros Hq. destruct (lo <? 0); [reflexivity|].
    replace (xl >? xr) with true by (symmetry; apply Z.gtb_lt; lia).
    reflexivity.
  - intros h -> Hlo Hq Hh.
    replace (lo <? 0) with false by (symmetry; apply Z.ltb_ge; lia).
    replace (xl >? xr) with false
      by (symmetry; rewrite Z.gtb_ltb; apply Z.ltb_ge; lia).
    replace (lo =? h) with false by (symmetry; apply Z.eqb_neq; lia).
    rewrite reduce_range_done by lia. reflexivity.
Qed.

(** X20 at a list of three numbers. *)
Lemma interval_offsets_errors_witness :
  _interval_offsets (fun x => x) [1; 2; 3] 0 5 (-1) None = Raise ValueError
  /\ _interval_offsets (fun x => x) [1; 2; 3] 5 0 0 None = Raise ValueError
  /\ _interval_offsets (fun x => x) [1; 2; 3] 0 5 2 (Some 1)
     = Raise UnboundLocalError.
Proof.
  destruct (interval_offsets_errors Z (fun x => x) [1; 2; 3] 0 5 (-1) None)
    as [H1 _].
  destruct (interval_offsets_errors Z (fun x => x) [1; 2; 3] 5 0 0 None)
    as [_ [H2 _]].
  destruct (interval_offsets_errors Z (fun x => x) [1; 2; 3] 0 5 2 (Some 1))
    as [_ [_ H3]].
  split; [apply H1; lia|]. split; [apply H2; lia|].
  apply (H3 1); [reflexivity | lia | lia | lia].
Defined.

(** ** Syntactic segments *)

Lemma window_count {A : Type} (key : A -> Z) (a : list A) (xl xr l r : Z) :
  0 <= l <= r -> r <= len a ->
  keys_below key a xl l -> keys_from key a xl l ->
  keys_below key a xr r -> keys_from key a xr r ->
  len (filter (fun v => (xl <=? key v) && (key v <? xr)) a) = r - l.
Proof.
  intros Hl Hr Hbl Hfl Hbr Hfr. pose proof (len_nonneg a) as Hn.
  rewrite <- (window_of_sorted key a xl xr l r); try assumption.
  - apply len_slice; lia.
  - apply Forall_forall. intros v Hin.
    apply In_slice in Hin; try lia. destruct Hin as [i [Hi Hv]].
    apply (Hbl i v); auto.
  - apply Forall_forall. intros v Hin.
    apply In_slice in Hin; try lia. destruct Hin as [i [Hi Hv]].
    split; [apply (Hfl i v) | apply (Hbr i v)]; auto; lia.
  - apply Forall_forall. intros v Hin.
    apply In_slice_from in Hin; try lia. destruct Hin as [i [Hi Hv]].
    apply (Hfr i v); auto.
Qed.

Lemma keys_below_le {A : Type} (key : A -> Z) (a : list A) (x n m : Z) :
  n <= m -> keys_below key a x m -> keys_below key a x n.
Proof. intros Hnm H i v Hi Hv. apply (H i v); [lia | assumption]. Qed.

Lemma keys_below_lt {A : Type} (key : A -> Z) (a : list A) (x y n : Z) :
  x <= y -> keys_below key a x n -> keys_below key a y n.
Proof. intros Hxy H i v Hi Hv. specialize (H i v Hi Hv). lia. Qed.

Section SyntacticSegmentsFacts.

Variable self : IEDocument.
Hypothesis entities_sorted : sorted_by occ_offset (doc_entities self).

Let entities := doc_entities self.
Let L := len (doc_entities self).

Lemma keys_below_all (x n : Z) :
  L <= n -> keys_below occ_offset entities x L ->
  keys_below occ_offset entities x n.
Proof.
  intros Hn H i v Hi Hv. apply (H i v); [|assumption].
  apply nth_error_lt in Hv. unfold L, entities, len in *. lia.
Qed.

Lemma keys_from_end (x n : Z) :
  L <= n -> 0 <= n -> keys_from occ_offset entities x n.
Proof.
  intros Hn H0 i v Hi Hv. apply nth_error_lt in Hv.
  unfold L, entities, len in *. lia.
Qed.

Lemma skip_entities_spec (start : Z) (n : nat) :
  forall k v,
    0 <= k -> k + Z.of_nat n = L ->
    keys_below occ_offset entities start k ->
    exists E1,
      skip_entities self n k v start = Ok E1
      /\ ((k <= E1 < L
           /\ keys_below occ_offset entities start E1
           /\ keys_from occ_offset entities start E1)
          \/ (keys_below occ_offset entities start L
              /\ E1 = if Nat.eqb n 0 then v else L - 1)).
Proof.
  induction n as [|n IH]; intros k v Hk Hn Hb.
  - exists v. split; [reflexivity|]. right.
    split; [|reflexivity]. replace L with k by lia. exact Hb.
  - cbn [skip_entities].
    destruct (getitem_nth entities k) as [e [Hget Hnth]]; [unfold L, entities in *; lia|].
    fold entities. rewrite Hget. cbn [bind].
    destruct (occ_offset e >=? start) eqn:Hge.
    + rewrite Z.geb_leb in Hge. apply Z.leb_le in Hge.
      exists k. split; [reflexivity|]. left.
      split; [lia|]. split; [exact Hb|].
      apply (keys_from_extend occ_offset entities entities_sorted start k e);
        auto.
    + rewrite Z.geb_leb in Hge. apply Z.leb_gt in Hge.
      destruct (IH (k + 1) k) as [E1 [HE1 Hcase]]; [lia | lia | |].
      { apply (keys_below_extend occ_offset entities entities_sorted start
                 (k + 1) k e); auto. }
      exists E1. split; [exact HE1|].
      destruct Hcase as [[Hr Hrest]|[Hall Heq]]; [left | right].
      * split; [lia | exact Hrest].
      * split; [exact Hall|]. cbn [Nat.eqb].
        destruct (Nat.eqb n 0) eqn:E0; [|exact Heq].
        apply Nat.eqb_eq in E0. subst n. lia.
Qed.

Lemma count_entities_spec (end_ : Z) (n : nat) :
  forall k v c,
    0 <= k -> k + Z.of_nat n = L ->
    keys_below occ_offset entities end_ k ->
    exists E2 c',
      count_entities self n k v end_ c = Ok (E2, c')
      /\ ((k <= E2 < L
           /\ keys_below occ_offset entities end_ E2
           /\ keys_from occ_offset entities end_ E2
           /\ c' = c + (E2 - k))
          \/ (keys_below occ_offset entities end_ L
              /\ c' = c + Z.of_nat n
              /\ E2 = if Nat.eqb n 0 then v else L - 1)).
Proof.
  induction n as [|n IH]; intros k v c Hk Hn Hb.
  - exists v, c. split; [reflexivity|]. right.
    split; [replace L with k by lia; exact Hb|].
    split; [simpl; lia | reflexivity].
  - cbn [count_entities].
    destruct (getitem_nth entities k) as [e [Hget Hnth]]; [unfold L, entities in *; lia|].
    fold entities. rewrite Hget. cbn [bind].
    destruct (occ_offset e >=? end_) eqn:Hge.
    + rewrite Z.geb_leb in Hge. apply Z.leb_le in Hge.
      exists k, c. split; [reflexivity|]. left.
      split; [lia|]. split; [exact Hb|]. split; [|lia].
      apply (keys_from_extend occ_offset entities entities_sorted end_ k e);
        auto.
    + rewrite Z.geb_leb in Hge. apply Z.leb_gt in Hge.
      destruct (IH (k + 1) k (c + 1)) as [E2 [c' [HE2 Hcase]]];
        [lia | lia | |].
      { apply (keys_below_extend occ_offset entities entities_sorted end_
                 (k + 1) k e); auto. }
      exists E2, c'. split; [exact HE2|].
      destruct Hcase as [[Hr [Hbl [Hfr Hc]]]|[Hall [Hc Heq]]]; [left | right].
      * split; [lia|]. split; [exact Hbl|]. split; [exact Hfr | lia].
      * split; [exact Hall|]. split; [lia|]. cbn [Nat.eqb].
        destruct (Nat.eqb n 0) eqn:E0; [|exact Heq].
        apply Nat.eqb_eq in E0. subst n. lia.
Qed.


Hypothesis sentences_sorted : sorted_by (fun x => x) (doc_sentences self).

Lemma syntactic_sentence_spec (i start E end_ : Z) :
  0 <= E <= L -> 0 <= start <= end_ ->
  keys_below occ_offset entities start E ->
  (if i + 1 <? len (doc_sentences self)
   then getitem (doc_sentences self) (i + 1)
   else Ok (len (doc_tokens self))) = Ok end_ ->
  exists E2 c,
    syntactic_sentence self i start E = Ok (E2, c)
    /\ 0 <= E2 <= L
    /\ keys_below occ_offset entities end_ E2
    /\ cand_start c = start /\ cand_end c = end_
    /\ match cand_segment c with
       | Some s =>
           TextSegment_build self start end_ = Ok s
           /\ 2 <= len (filter (in_window start end_) entities)
       | None => len (filter (in_window start end_) entities) < 2
       end.
Proof.
  intros HE Hse Hb Hend. unfold syntactic_sentence. rewrite Hend.
  cbn [bind].
  assert (Hcount :
            exists E2 c',
              (E1 <- skip_entities self
                       (Z.to_nat (len (doc_entities self) - E)) E E start ;;
               count_entities self
                 (Z.to_nat (len (doc_entities self) - E1)) E1 E1 end_ 0)
              = Ok (E2, c')
              /\ 0 <= E2 <= L
              /\ keys_below occ_offset entities end_ E2
              /\ (c' = len (filter (in_window start end_) entities)
                  \/ (c' <= 1
                      /\ len (filter (in_window start end_) entities) = 0))).
  { destruct (skip_entities_spec start (Z.to_nat (L - E)) E E)
      as [E1 [HE1 Hcase]]; [lia | lia | exact Hb |].
    fold L. rewrite HE1. cbn [bind].
    destruct Hcase as [[Hr [Hb1 Hf1]]|[Hall Heq]].
    - destruct (count_entities_spec end_ (Z.to_nat (L - E1)) E1 E1 0)
        as [E2 [c' [HE2 Hcase]]]; [lia | lia | |].
      { apply (keys_below_lt occ_offset entities start end_); [lia|exact Hb1]. }
      exists E2, c'. split; [exact HE2|].
      destruct Hcase as [[Hr2 [Hb2 [Hf2 Hc]]]|[Hall2 [Hc Heq2]]].
      + split; [lia|]. split; [exact Hb2|]. left.
        unfold in_window.
        rewrite (window_count occ_offset entities start end_ E1 E2);
          auto; try lia. unfold L, entities in *. lia.
      + replace (Nat.eqb (Z.to_nat (L - E1)) 0) with false in Heq2
          by (symmetry; apply Nat.eqb_neq; lia).
        subst E2. split; [lia|].
        split; [apply (keys_below_le occ_offset entities end_ (L - 1) L);
                [lia | exact Hall2]|].
        left. unfold in_window.
        rewrite (window_count occ_offset entities start end_ E1 L);
          auto; try lia.
        * unfold L, entities in *. lia.
        * apply keys_from_end; lia.
    - pose proof (len_nonneg (doc_entities self)) as HL. fold L in HL.
      assert (HN : len (filter (in_window start end_) entities) = 0).
      { unfold in_window.
        rewrite (window_count occ_offset entities start end_ L L);
          [lia | lia | unfold L, entities; lia | exact Hall
           | apply keys_from_end; lia
           | apply (keys_below_lt occ_offset entities start end_);
             [lia | exact Hall]
           | apply keys_from_end; lia]. }
      assert (Hb1 : keys_below occ_offset entities end_ E1).
      { apply (keys_below_lt occ_offset entities start end_); [lia|].
        apply (keys_below_le occ_offset entities start E1 L); [|exact Hall].
        destruct (Nat.eqb (Z.to_nat (L - E)) 0); lia. }
      assert (HE1r : 0 <= E1 <= L)
        by (destruct (Nat.eqb (Z.to_nat (L - E)) 0) eqn:E0;
            [lia | apply Nat.eqb_neq in E0; lia]).
      destruct (count_entities_spec end_ (Z.to_nat (L - E1)) E1 E1 0)
        as [E2 [c' [HE2 Hcase]]]; [lia | lia | exact Hb1 |].
      exists E2, c'. split; [exact HE2|].
      assert (Hsmall : L - E1 <= 1).
      { destruct (Nat.eqb (Z.to_nat (L - E)) 0) eqn:E0; [|lia].
        apply Nat.eqb_eq in E0. lia. }
      destruct Hcase as [[Hr2 [Hb2 [Hf2 Hc]]]|[Hall2 [Hc Heq2]]].
      + split; [lia|]. split; [exact Hb2|]. right. split; [lia | exact HN].
      + assert (HE2r : 0 <= E2 <= L)
          by (destruct (Nat.eqb (Z.to_nat (L - E1)) 0) eqn:E0;
              [lia | apply Nat.eqb_neq in E0; lia]).
        split; [exact HE2r|].
        split; [apply (keys_below_le occ_offset entities end_ E2 L);
                [lia | exact Hall2]|].
        right. split; [lia | exact HN]. }
  destruct Hcount as [E2 [c' [Hrun [HE2 [Hb2 Hc]]]]].
  destruct (skip_entities self _ E E start) as [E1| |]; cbn [bind] in Hrun;
    try discriminate.
  cbn [bind]. rewrite Hrun. cbn [bind].
  destruct (c' >=? 2) eqn:Hge.
  - rewrite Z.geb_leb in Hge. apply Z.leb_le in Hge.
    destruct (build_returns self start end_ entities_sorted sentences_sorted
                Hse) as [s Hs].
    rewrite Hs. cbn [bind]. exists E2. eexists. split; [reflexivity|].
    cbn [cand_start cand_end cand_segment].
    repeat (split; [first [assumption | reflexivity | lia]|]).
    lia.
  - rewrite Z.geb_leb in Hge. apply Z.leb_gt in Hge.
    exists E2. eexists. split; [reflexivity|].
    cbn [cand_start cand_end cand_segment].
    repeat (split; [first [assumption | reflexivity | lia]|]).
    lia.
Qed.

Hypothesis sentences_bounded :
  Forall (fun s => 0 <= s <= len (doc_tokens self)) (doc_sentences self).

Lemma syntactic_loop_spec (rest : list Z) :
  forall (pre : list Z) (E : Z) (acc : list candidate),
    doc_sentences self = pre ++ rest ->
    0 <= E <= L ->
    match rest with
    | start :: _ => keys_below occ_offset entities start E
    | [] => True
    end ->
    exists cs,
      syntactic_loop self rest (len pre) E acc = (acc ++ cs, Ok tt)
      /\ map cand_start cs = rest
      /\ map cand_end cs
         = match rest with
           | [] => []
           | _ :: t => t ++ [len (doc_tokens self)]
           end
      /\ Forall
           (fun c =>
              match cand_segment c with
              | Some s =>
                  TextSegment_build self (cand_start c) (cand_end c) = Ok s
                  /\ 2 <= len (filter (in_window (cand_start c) (cand_end c))
                                 entities)
              | None =>
                  len (filter (in_window (cand_start c) (cand_end c))
                         entities) < 2
              end) cs.
Proof.
  induction rest as [|start rest IH]; intros pre E acc Hpre HE Hb.
  - exists []. rewrite app_nil_r. repeat split. constructor.
  - assert (Hstart : 0 <= start <= len (doc_tokens self)).
    { rewrite Forall_forall in sentences_bounded.
      apply sentences_bounded. rewrite Hpre. apply in_or_app. right. left.
      reflexivity. }
    assert (Hend :
              exists end_,
                (if len pre + 1 <? len (doc_sentences self)
                 then getitem (doc_sentences self) (len pre + 1)
                 else Ok (len (doc_tokens self))) = Ok end_
                /\ start <= end_
                /\ match rest with
                   | [] => end_ = len (doc_tokens self)
                   | next :: _ => end_ = next
                   end).
    { destruct rest as [|next rest'].
      - exists (len (doc_tokens self)).
        replace (len pre + 1 <? len (doc_sentences self)) with false.
        + split; [reflexivity|]. split; [lia | reflexivity].
        + symmetry. apply Z.ltb_ge. rewrite Hpre. unfold len.
          rewrite length_app. simpl. lia.
      - exists next.
        assert (Hnth : nth_error (doc_sentences self)
                         (Z.to_nat (len pre + 1)) = Some next).
        { rewrite Hpre. unfold len.
          rewrite nth_error_app2 by lia.
          replace (Z.to_nat (Z.of_nat (List.length pre) + 1)
                   - List.length pre)%nat with 1%nat by lia.
          reflexivity. }
        assert (Hnth0 : nth_error (doc_sentences self) (Z.to_nat (len pre))
                        = Some start).
        { rewrite Hpre. unfold len. rewrite nth_error_app2 by lia.
          replace (Z.to_nat (Z.of_nat (List.length pre))
                   - List.length pre)%nat with 0%nat by lia.
          reflexivity. }
        replace (len pre + 1 <? len (doc_sentences self)) with true.
        + destruct (getitem_nth (doc_sentences self) (len pre + 1))
            as [x [Hx Hn]].
          { apply nth_error_lt in Hnth. unfold len in *. lia. }
          rewrite Hx. rewrite Hnth in Hn. injection Hn as <-.
          split; [reflexivity|]. split; [|reflexivity].
          apply (sorted_by_nth (fun x => x) (doc_sentences self)
                   sentences_sorted (Z.to_nat (len pre))
                   (Z.to_nat (len pre + 1)) start next);
            [unfold len; lia | exact Hnth0 | exact Hnth].
        + symmetry. apply Z.ltb_lt. apply nth_error_lt in Hnth.
          unfold len in *. lia. }
    destruct Hend as [end_ [Hend [Hle Hnext]]].
    destruct (syntactic_sentence_spec (len pre) start E end_ HE
                ltac:(lia) Hb Hend)
      as [E2 [c [Hrun [HE2 [Hb2 [Hcs [Hce Hgood]]]]]]].
    cbn [syntactic_loop]. rewrite Hrun.
    destruct (IH (pre ++ [start]) E2 (acc ++ [c])) as [cs [Hloop [Hs [He Hall]]]].
    + rewrite <- app_assoc. exact Hpre.
    + exact HE2.
    + destruct rest as [|next rest']; [exact I|]. subst end_. exact Hb2.
    + exists (c :: cs).
      replace (len pre + 1) with (len (pre ++ [start]))
        by (unfold len; rewrite length_app; simpl; lia).
      rewrite Hloop. rewrite <- app_assoc. split; [reflexivity|].
      split; [simpl; rewrite Hcs, Hs; reflexivity|].
      split.
      * simpl. rewrite Hce, He.
        destruct rest as [|next rest']; subst end_; reflexivity.
      * constructor; [|exact Hall]. rewrite Hcs, Hce. exact Hgood.
Qed.

End SyntacticSegmentsFacts.

(** X21.  On a document whose occurrences are sorted by offset and whose
    sentence starts are sorted and lie between 0 and the number of tokens,
    [build_syntactic_segments] returns without an exception.  It looks at
    every entry of [sentences] with the next entry (the number of tokens
    for the last) as its end, and it builds and saves the segment
    [TextSegment.build(self, start, end)] for exactly the entries with at
    least two occurrences whose offset is in [[start, end)].  That the
    loop variable [entity] keeps a stale last index when all occurrences
    lie before a sentence makes the count 1 at most there, never 2. *)
Theorem syntactic_segments_hold_two_entities :
  forall self : IEDocument,
    sorted_by occ_offset (doc_entities self) ->
    sorted_by (fun x => x) (doc_sentences self) ->
    Forall (fun s => 0 <= s <= len (doc_tokens self)) (doc_sentences self) ->
    exists cs,
      build_syntactic_segments self = (cs, Ok tt)
      /\ map cand_start cs = doc_sentences self
      /\ map cand_end cs
         = match doc_sentences self with
           | [] => []
           | _ :: t => t ++ [len (doc_tokens self)]
           end
      /\ forall c,
           In c cs ->
           match cand_segment c with
           | Some s =>
               TextSegment_build self (cand_start c) (cand_end c) = Ok s
               /\ 2 <= len (filter (in_window (cand_start c) (cand_end c))
                              (doc_entities self))
           | None =>
               len (filter (in_window (cand_start c) (cand_end c))
                      (doc_entities self)) < 2
           end.
Proof.
  intros self Hents Hsents Hbound.
  destruct (syntactic_loop_spec self Hents Hsents Hbound
              (doc_sentences self) [] 0 [])
    as [cs [Hrun [Hs [He Hall]]]].
  - reflexivity.
  - pose proof (len_nonneg (doc_entities self)). lia.
  - destruct (doc_sentences self); [exact I|]. intros i v Hi. lia.
  - exists cs. unfold build_syntactic_segments.
    split; [exact Hrun|]. split; [exact Hs|]. split; [exact He|].
    rewrite Forall_forall in Hall. exact Hall.
Qed.

(** X21 at a document of ten tokens in three sentences with two
    occurrences in the first sentence and one in the last. *)
Lemma syntactic_segments_hold_two_entities_witness :
  let document :=
    {| human_identifier := "doc"; doc_title := ""; doc_url := "";
       doc_text := ""; preprocess_metadata := [];
       doc_tokens := repeat "t"%string 10; doc_offsets := [];
       doc_postags := repeat "p"%string 10;
       doc_sentences := [0; 4; 7; 10];
       doc_entities :=
         [example_occurrence "A" 1 2; example_occurrence "B" 2 3;
          example_occurrence "C" 8 9] |} in
  sorted_by occ_offset (doc_entities document)
  /\ sorted_by (fun x => x) (doc_sentences document)
  /\ Forall (fun s => 0 <= s <= len (doc_tokens document))
       (doc_sentences document)
  /\ exists cs,
       build_syntactic_segments document = (cs, Ok tt)
       /\ map is_materialized cs = [true; false; false; false].
Proof.
  intros document.
  assert (H1 : sorted_by occ_offset (doc_entities document)).
  { unfold sorted_by. simpl. repeat constructor; simpl; lia. }
  assert (H2 : sorted_by (fun x => x) (doc_sentences document)).
  { unfold sorted_by. simpl. repeat constructor; lia. }
  assert (H3 : Forall (fun s => 0 <= s <= len (doc_tokens document))
                 (doc_sentences document)).
  { simpl. repeat constructor; vm_compute; discriminate. }
  split; [exact H1|]. split; [exact H2|]. split; [exact H3|].
  destruct (syntactic_segments_hold_two_entities document H1 H2 H3)
    as [cs [Hrun _]].
  exists cs. split; [exact Hrun|].
  vm_compute in Hrun. injection Hrun as <-. reflexivity.
Defined.

(** ** Contextual segments of a well-formed document *)

Lemma disjoint_occurrences_sorted (self : IEDocument) :
  disjoint_occurrences self -> sorted_by occ_offset (doc_entities self).
Proof.
  intros [Hb Hs]. unfold sorted_by.
  induction Hs as [|x l Hs IH Hx]; constructor.
  - apply IH. intros o Ho. apply Hb. right. exact Ho.
  - rewrite Forall_forall in *. intros y Hy.
    specialize (Hx y Hy). pose proof (Hb x (or_introl eq_refl)). lia.
Qed.

Section ContextualWindows.

Variable self : IEDocument.
Variable d : Z.
Hypothesis well_formed : disjoint_occurrences self.
Hypothesis sentences_sorted : sorted_by (fun x => x) (doc_sentences self).

Let es := doc_entities self.
Let at_ (k : Z) : option EntityOccurrence := nth_error es (Z.to_nat k).

Lemma left_middle_total (i : Z) :
  0 <= i -> i + 1 < len es ->
  exists l m,
    left_middle self i = Ok (l, m) /\ at_ i = Some l /\ at_ (i + 1) = Some m.
Proof.
  intros Hi Hlen.
  destruct (getitem_nth es i) as [l [_ Hl]]; [lia|].
  destruct (getitem_nth es (i + 1)) as [m [_ Hm]]; [lia|].
  exists l, m. split; [|split; assumption].
  unfold left_middle, slice. fold es.
  rewrite !slice_bound_id by lia.
  replace (Z.to_nat (i + 2 - i)) with 2%nat by lia.
  pose proof (nth_error_split es (Z.to_nat i) Hl) as [l1 [l2 [Heq Hlen1]]].
  rewrite Heq in Hm |- *.
  replace (Z.to_nat i) with (List.length l1 + 0)%nat by lia.
  rewrite skipn_app, skipn_all2 by lia.
  replace (List.length l1 + 0 - List.length l1)%nat with 0%nat by lia.
  simpl skipn. rewrite app_nil_l.
  replace (Z.to_nat (i + 1)) with (List.length l1 + 1)%nat in Hm by lia.
  rewrite nth_error_app2 in Hm by lia.
  replace (List.length l1 + 1 - List.length l1)%nat with 1%nat in Hm by lia.
  simpl in Hm. destruct l2 as [|m' l2]; [discriminate|].
  simpl in Hm. injection Hm as ->. reflexivity.
Qed.

Lemma find_close_total (fuel : nat) :
  forall i l m,
    0 <= i -> i + 1 < len es -> (Z.to_nat (len es - i - 1) <= fuel)%nat ->
    at_ i = Some l -> at_ (i + 1) = Some m ->
    exists r,
      find_close self d fuel i l m = Ok r
      /\ match r with
         | None => True
         | Some (j, l', m') =>
             i <= j /\ j + 1 < len es
             /\ at_ j = Some l' /\ at_ (j + 1) = Some m'
             /\ occ_offset m' - occ_offset_end l' < d
         end.
Proof.
  induction fuel as [|fuel IH]; intros i l m Hi Hlen Hfuel Hl Hm; [lia|].
  simpl. destruct (occ_offset m - occ_offset_end l >=? d) eqn:G.
  - fold es. destruct (i + 1 + 1 =? len es) eqn:E.
    + exists None. split; [reflexivity | exact I].
    + apply Z.eqb_neq in E.
      destruct (left_middle_total (i + 1)) as [l2 [m2 [Hlm [Hl2 Hm2]]]];
        [lia | lia |].
      rewrite Hlm. simpl.
      destruct (IH (i + 1) l2 m2) as [r [Hr Hpost]]; auto; try lia.
      exists r. split; [exact Hr|].
      destruct r as [[[j l'] m']|]; [|exact I].
      destruct Hpost as [Hij Hrest]. split; [lia | exact Hrest].
  - rewrite Z.geb_leb in G. apply Z.leb_gt in G.
    exists (Some (i, l, m)). split; [reflexivity|].
    repeat split; auto; lia.
Qed.

Lemma widen_end_bound (fuel : nat) :
  forall j end_ end',
    0 <= j ->
    widen_end self fuel j end_ = Ok end' ->
    end_ <= len (doc_tokens self) -> end' <= len (doc_tokens self).
Proof.
  induction fuel as [|fuel IH]; intros j end_ end' Hj H Hle; simpl in H;
    fold es in H.
  - destruct (j <? len es); [|injection H as <-; exact Hle].
    destruct (getitem es j) as [e| |]; simpl in H; try discriminate.
    destruct (occ_offset e <? end_); [discriminate|].
    injection H as <-. exact Hle.
  - destruct (j <? len es); [|injection H as <-; exact Hle].
    destruct (getitem es j) as [e| |] eqn:He; simpl in H; try discriminate.
    destruct (occ_offset e <? end_); [|injection H as <-; exact Hle].
    apply (IH (j + 1) _ _ ltac:(lia) H).
    apply getitem_nth_inv in He; [|lia].
    pose proof (proj1 well_formed e (nth_error_In _ _ He)). lia.
Qed.

Lemma next_window_total (i lstart lend : Z) :
  0 <= i -> i + 1 < len es ->
  exists r,
    next_window self d i lstart lend = Ok r
    /\ match r with
       | None => True
       | Some (j, c) =>
           i <= j /\ j + 1 < len es
           /\ 0 <= cand_start c <= cand_end c
           /\ cand_end c <= len (doc_tokens self)
           /\ covers_close_pair self d c
           /\ built_from self c
       end.
Proof.
  intros Hi Hlen. unfold next_window.
  destruct (left_middle_total i Hi Hlen) as [l [m [Hlm [Hl Hm]]]].
  rewrite Hlm. cbn [bind].
  destruct (find_close_total (Z.to_nat (len (doc_entities self) - i)) i l m)
    as [r [Hfc Hpost]]; auto; try (fold es; lia).
  rewrite Hfc. cbn [bind].
  destruct r as [[[j l'] m']|]; [|exists None; split; [reflexivity | exact I]].
  destruct Hpost as [Hij [Hj [Hl' [Hm' Hgap]]]].
  pose proof (occurrence_bounds self well_formed _ _ Hl') as Bl.
  pose proof (occurrence_bounds self well_formed _ _ Hm') as Bm.
  pose proof (occurrences_apart self well_formed j (j + 1) l' m'
                ltac:(lia) Hl' Hm') as Alm.
  assert (Hr : exists r,
             (if j + 2 <? len (doc_entities self) then
                e <- getitem (doc_entities self) (j + 2) ;;
                if occ_offset e - occ_offset_end m' <? d
                then Ok e else Ok m'
              else Ok m') = Ok r
             /\ occ_offset_end m' <= occ_offset_end r
             /\ occ_offset_end r <= len (doc_tokens self)).
  { destruct (j + 2 <? len (doc_entities self)) eqn:E.
    - apply Z.ltb_lt in E.
      destruct (getitem_nth (doc_entities self) (j + 2)) as [e [He Hn]];
        [lia|].
      rewrite He. cbn [bind].
      pose proof (occurrence_bounds self well_formed (j + 2) e Hn).
      pose proof (occurrences_apart self well_formed (j + 1) (j + 2) m' e
                    ltac:(lia) Hm' Hn).
      destruct (occ_offset e - occ_offset_end m' <? d);
        eexists; (split; [reflexivity|]); lia.
    - exists m'. split; [reflexivity|]. lia. }
  destruct Hr as [r [Hr [Br1 Br2]]]. rewrite Hr. cbn [bind].
  destruct (widen_start_clear self well_formed j (Z.to_nat (j + 1)) j
              (Z.max 0 (occ_offset l' - d)))
    as [start [Hws [Hsle [Hspos _]]]]; try (fold es; lia).
  rewrite Hws. cbn [bind].
  destruct (widen_end_clear self well_formed j
              (Z.to_nat (len (doc_entities self) - j)) j
              (Z.min (occ_offset_end r + d) (len (doc_tokens self))))
    as [end_ [Hwe [Hele _]]]; try (fold es; lia).
  rewrite Hwe. cbn [bind].
  assert (Hend : end_ <= len (doc_tokens self))
    by (apply (widen_end_bound _ j _ _ ltac:(lia) Hwe); lia).
  assert (Hwin : 0 <= start <= end_) by lia.
  assert (Hpair : forall seg,
             covers_close_pair self d
               {| cand_start := start; cand_end := end_;
                  cand_segment := seg |}).
  { intros seg. exists j, l', m'. cbn [cand_start cand_end].
    repeat split; auto; lia. }
  destruct (negb ((end_ =? lend) && (start >=? lstart))).
  - destruct (build_returns self start end_
                (disjoint_occurrences_sorted self well_formed)
                sentences_sorted Hwin) as [s Hs].
    rewrite Hs. cbn [bind]. eexists. split; [reflexivity|].
    cbn [cand_start cand_end].
    split; [lia|]. split; [lia|]. split; [lia|]. split; [lia|].
    split; [apply Hpair|]. intros s' [= <-]. exact Hs.
  - eexists. split; [reflexivity|]. cbn [cand_start cand_end].
    split; [lia|]. split; [lia|]. split; [lia|]. split; [lia|].
    split; [apply Hpair|]. intros s' H. discriminate H.
Qed.

Lemma contextual_loop_total (fuel : nat) :
  forall i lstart lend acc,
    0 <= i -> (Z.to_nat (len es - i - 1) <= fuel)%nat ->
    exists cs,
      contextual_loop self d fuel i lstart lend acc = (acc ++ cs, Ok tt)
      /\ Forall
           (fun c =>
              0 <= cand_start c <= cand_end c
              /\ cand_end c <= len (doc_tokens self)
              /\ covers_close_pair self d c
              /\ built_from self c) cs.
Proof.
  induction fuel as [|fuel IH]; intros i lstart lend acc Hi Hfuel.
  - exists []. rewrite app_nil_r. split; [|constructor].
    simpl. fold es.
    replace (i + 1 <? len es) with false
      by (symmetry; apply Z.ltb_ge; lia).
    reflexivity.
  - rewrite contextual_loop_step. fold es.
    destruct (i + 1 <? len es) eqn:E.
    + apply Z.ltb_lt in E.
      destruct (next_window_total i lstart lend Hi E) as [r [Hr Hpost]].
      rewrite Hr. destruct r as [[j c]|].
      * destruct Hpost as [Hij [Hj Hc]].
        destruct (IH (j + 1) (cand_start c) (cand_end c) (acc ++ [c]))
          as [cs [Hloop Hall]]; [lia | lia |].
        exists (c :: cs). rewrite Hloop, <- app_assoc.
        split; [reflexivity|]. constructor; [|exact Hall].
        tauto.
      * exists []. rewrite app_nil_r. split; [reflexivity | constructor].
    + exists []. rewrite app_nil_r. split; [reflexivity | constructor].
Qed.

End ContextualWindows.

(** X22.  On a document whose occurrences lie inside the tokens and do
    not overlap, and whose sentence starts are sorted,
    [build_contextual_segments(d)] returns without an exception, and
    every window it considers, built or taken for a repeat, lies inside
    the tokens, holds two neighbouring occurrences that are less than [d]
    tokens apart, and splits no occurrence; the segment of a window that
    was built is [TextSegment.build(self, start, end)].  So a document
    without two such occurrences gets no segment. *)
Theorem contextual_windows_well_formed :
  forall (self : IEDocument) (d : Z),
    disjoint_occurrences self ->
    sorted_by (fun x => x) (doc_sentences self) ->
    exists cs,
      build_contextual_segments self d = (cs, Ok tt)
      /\ forall c,
           In c cs ->
           0 <= cand_start c <= cand_end c
           /\ cand_end c <= len (doc_tokens self)
           /\ covers_close_pair self d c
           /\ built_from self c
           /\ forall o, In o (doc_entities self) ->
                        ~ splits (cand_start c) (cand_end c) o.
Proof.
  intros self d Hwf Hsents.
  destruct (contextual_loop_total self d Hwf Hsents
              (Z.to_nat (len (doc_entities self))) 0 (-1) (-1) [])
    as [cs [Hrun Hall]]; [lia | lia |].
  exists cs. split; [exact Hrun|].
  intros c Hc. rewrite Forall_forall in Hall.
  destruct (Hall c Hc) as [H1 [H2 [H3 H4]]].
  repeat (split; [first [assumption | lia]|]).
  intros o Ho.
  apply (contextual_loop_no_split self d Hwf
           (Z.to_nat (len (doc_entities self))) 0 (-1) (-1) []);
    [lia | intros c' o' [] | | exact Ho].
  rewrite Hrun. exact Hc.
Qed.

(** X22 at a document of twenty tokens with two occurrences that are close
    and a third one far away. *)
Lemma contextual_windows_well_formed_witness :
  let document :=
    example_document 20
      [example_occurrence "A" 1 2; example_occurrence "B" 3 4;
       example_occurrence "C" 15 16] in
  disjoint_occurrences document
  /\ sorted_by (fun x => x) (doc_sentences document)
  /\ exists cs,
       build_contextual_segments document 3 = (cs, Ok tt)
       /\ map window cs = [(0, 7)].
Proof.
  intros document.
  assert (H1 : disjoint_occurrences document).
  { split.
    - intros o [<-|[<-|[<-|[]]]]; vm_compute; repeat split; discriminate.
    - simpl. repeat constructor; simpl; lia. }
  assert (H2 : sorted_by (fun x => x) (doc_sentences document)).
  { unfold sorted_by. simpl. repeat constructor; lia. }
  split; [exact H1|]. split; [exact H2|].
  destruct (contextual_windows_well_formed document 3 H1 H2) as [cs [Hrun _]].
  exists cs. split; [exact Hrun|].
  vm_compute in Hrun. injection Hrun as <-. reflexivity.
Defined.

(** ** The colored text of an evidence *)

Lemma list_insert_app {A : Type} (l1 l2 : list A) (i : Z) (x : A) :
  i = len l1 -> list_insert (l1 ++ l2) i x = l1 ++ x :: l2.
Proof.
  intros ->. unfold list_insert, len.
  rewrite slice_bound_id by (rewrite length_app; lia).
  rewrite Nat2Z.id.
  rewrite firstn_app, firstn_all, Nat.sub_diag, skipn_app, skipn_all,
    Nat.sub_diag.
  simpl. rewrite app_nil_r. reflexivity.
Qed.

Lemma len_app {A : Type} (l1 l2 : list A) : len (l1 ++ l2) = len l1 + len l2.
Proof. unfold len. rewrite length_app. lia. Qed.

Lemma list_insert_marks {A : Type} (p1 p2 p3 p4 p5 : list A)
    (a a' b b' : Z) (ca cb r : A) :
  a = len p1 -> a' = a + len p2 -> b = a' + len p3 -> b' = b + len p4 ->
  list_insert
    (list_insert
       (list_insert
          (list_insert (p1 ++ p2 ++ p3 ++ p4 ++ p5) b' r) b cb) a' r) a ca
  = p1 ++ ca :: p2 ++ r :: p3 ++ cb :: p4 ++ r :: p5.
Proof.
  intros Ha Ha' Hb Hb'.
  replace (p1 ++ p2 ++ p3 ++ p4 ++ p5) with ((p1 ++ p2 ++ p3 ++ p4) ++ p5)
    by (rewrite <- !app_assoc; reflexivity).
  rewrite list_insert_app by (rewrite !len_app; lia).
  replace ((p1 ++ p2 ++ p3 ++ p4) ++ r :: p5)
    with ((p1 ++ p2 ++ p3) ++ p4 ++ r :: p5)
    by (rewrite <- !app_assoc; reflexivity).
  rewrite list_insert_app by (rewrite !len_app; lia).
  replace ((p1 ++ p2 ++ p3) ++ cb :: p4 ++ r :: p5)
    with ((p1 ++ p2) ++ p3 ++ cb :: p4 ++ r :: p5)
    by (rewrite <- !app_assoc; reflexivity).
  rewrite list_insert_app by (rewrite !len_app; lia).
  rewrite <- app_assoc.
  rewrite list_insert_app by lia.
  reflexivity.
Qed.

Lemma list_insert_marked (tokens : list string) (a a' b b' : Z)
    (ca cb r : string) :
  0 <= a <= a' -> a' <= b <= b' -> b' <= len tokens ->
  list_insert
    (list_insert (list_insert (list_insert tokens b' r) b cb) a' r) a ca
  = marked tokens a a' b b' ca cb r.
Proof.
  intros Ha Hb Hlen. unfold marked.
  rewrite <- (list_insert_marks (slice tokens 0 a) (slice tokens a a')
                (slice tokens a' b) (slice tokens b b')
                (slice_from tokens b') a a' b b' ca cb r);
    try (rewrite !len_slice by lia; lia).
  repeat f_equal.
  rewrite slice_from_slice by lia.
  rewrite !slice_app by lia. symmetry. apply slice_all.
Qed.

(** X23.  For an evidence in a segment whose two occurrences lie inside
    the tokens and do not overlap, the one with the smaller index before
    the other, [colored_text(color_1, color_2)] is the tokens of the
    segment joined by blanks, with [color_1] before and [RESET_ALL] after
    the tokens of the first occurrence of the evidence and [color_2]
    before and [RESET_ALL] after the tokens of the second: the order of
    the four insertions keeps the offsets of the later ones right, whether
    [o1 < o2] or not. *)
Theorem colored_text_marks_both_occurrences :
  forall (RESET_ALL : string) (self : Evidence) (color_1 color_2 : string)
         (s : TextSegment) (i1 i2 : Z) (x1 x2 : EntityInSegment),
    segment self = Some s -> o1 self = Some i1 -> o2 self = Some i2 ->
    getitem (seg_entities s) i1 = Ok x1 ->
    getitem (seg_entities s) i2 = Ok x2 ->
    0 <= eis_offset x1 <= eis_offset_end x1 ->
    0 <= eis_offset x2 <= eis_offset_end x2 ->
    eis_offset_end x1 <= len (seg_tokens s) ->
    eis_offset_end x2 <= len (seg_tokens s) ->
    (i1 < i2 -> eis_offset_end x1 <= eis_offset x2) ->
    (i2 <= i1 -> eis_offset_end x2 <= eis_offset x1) ->
    colored_text RESET_ALL self color_1 color_2
    = Ok (String.concat " "
            (if i1 <? i2
             then marked (seg_tokens s) (eis_offset x1) (eis_offset_end x1)
                    (eis_offset x2) (eis_offset_end x2)
                    color_1 color_2 RESET_ALL
             else marked (seg_tokens s) (eis_offset x2) (eis_offset_end x2)
                    (eis_offset x1) (eis_offset_end x1)
                    color_2 color_1 RESET_ALL)).
Proof.
  intros R self c1 c2 s i1 i2 x1 x2 Hs Ho1 Ho2 Hx1 Hx2 B1 B2 L1 L2 Hlt Hge.
  unfold colored_text. rewrite Hs, Ho1, Ho2, Hx1, Hx2. cbn [bind].
  destruct (i1 <? i2) eqn:E.
  - apply Z.ltb_lt in E. rewrite list_insert_marked by (try apply Hlt; lia).
    reflexivity.
  - apply Z.ltb_ge in E. rewrite list_insert_marked by (try apply Hge; lia).
    reflexivity.
Qed.

(** X23 at the evidence of the example. *)
Lemma colored_text_marks_both_occurrences_witness :
  colored_text "</>" evidence_XY "<1>" "<2>"
  = Ok "<1> X </> joined <2> Y </> not Z"%string.
Proof.
  rewrite (colored_text_marks_both_occurrences "</>" evidence_XY "<1>" "<2>"
             example_segment 0 1 (in_segment PersonX 0 1)
             (in_segment OrgY 2 3));
    try reflexivity; try (vm_compute; intuition discriminate).
Defined.

(** ** The kinds of entities *)

Lemma no_char_cons (c x : ascii) (s : string) :
  no_char c (String x s) <-> x <> c /\ no_char c s.
Proof. unfold no_char. simpl. intuition congruence. Qed.

Lemma no_char_append (c : ascii) (s1 s2 : string) :
  no_char c (s1 ++ s2) <-> no_char c s1 /\ no_char c s2.
Proof.
  induction s1 as [|x s1 IH]; simpl.
  - unfold no_char at 2. simpl. tauto.
  - rewrite !no_char_cons, IH. tauto.
Qed.

Lemma split_on_whole (sep : ascii) (s : string) :
  no_char sep s -> split_on sep s = [s].
Proof.
  induction s as [|x s IH]; intros H; [reflexivity|].
  apply no_char_cons in H. destruct H as [Hx Hs]. simpl.
  apply Ascii.eqb_neq in Hx. rewrite Hx, IH by assumption. reflexivity.
Qed.

Lemma split_on_first (sep : ascii) (s1 s2 : string) :
  no_char sep s1 ->
  split_on sep (s1 ++ String sep s2) = s1 :: split_on sep s2.
Proof.
  induction s1 as [|x s1 IH]; intros H; simpl.
  - rewrite Ascii.eqb_refl. reflexivity.
  - apply no_char_cons in H. destruct H as [Hx Hs].
    apply Ascii.eqb_neq in Hx. rewrite Hx, IH by assumption. reflexivity.
Qed.

Lemma split_on_concat (sep : ascii) (parts : list string) :
  parts <> [] -> Forall (no_char sep) parts ->
  split_on sep (String.concat (String sep "") parts) = parts.
Proof.
  induction parts as [|p parts IH]; intros Hne Hall; [congruence|].
  inversion Hall as [|? ? Hp Hrest]; subst.
  destruct parts as [|q parts].
  - simpl. apply split_on_whole. assumption.
  - change (String.concat (String sep "") (p :: q :: parts))
      with (p ++ String sep (String.concat (String sep "") (q :: parts)))%string.
    rewrite split_on_first by assumption.
    rewrite IH; [reflexivity | discriminate | assumption].
Qed.

Lemma concat_empty (sep : string) (p : string) (parts : list string) :
  p <> ""%string -> String.concat sep (p :: parts) <> ""%string.
Proof.
  intros Hp. destruct p as [|c p]; [congruence|].
  destruct parts; simpl; discriminate.
Qed.

Lemma existsb_char (c : ascii) (s : string) :
  existsb (Ascii.eqb c) (list_ascii_of_string s) = false <-> no_char c s.
Proof.
  unfold no_char. induction s as [|x s IH]; simpl.
  - split; [intros _ [] | reflexivity].
  - rewrite orb_false_iff, IH, Ascii.eqb_neq. split.
    + intros [Hx Hs] [Heq|Hin]; [congruence | auto].
    + intros H. split; [intros Heq; apply H; left; congruence | auto].
Qed.

Lemma no_char_concat (c sep : ascii) (parts : list string) :
  c <> sep ->
  (no_char c (String.concat (String sep "") parts)
   <-> Forall (no_char c) parts).
Proof.
  intros Hsep. induction parts as [|p parts IH].
  - simpl. split; [constructor | intros _ []].
  - destruct parts as [|q parts].
    + simpl. split; [intros H; repeat constructor; exact H|].
      intros H. inversion H. assumption.
    + change (String.concat (String sep "") (p :: q :: parts))
        with (p ++ String sep (String.concat (String sep "") (q :: parts)))%string.
      rewrite no_char_append, no_char_cons, IH. split.
      * intros [Hp [_ Hrest]]. constructor; assumption.
      * intros H. inversion H; subst. repeat split; auto.
Qed.

(** X24.  [set_custom_entity_kinds(kinds)] raises [ValueError] and leaves
    the environment and [ENTITY_KINDS] as they were when an identifier or
    a label holds a null character, which the environment does not take.
    Otherwise it returns, and it leaves in [ENTITY_KINDS] the base kinds
    followed by exactly the pairs of [kinds], in their order, whatever was
    in the list and in the environment before, provided that no
    identifier and no label holds a comma or a colon and that the
    marshalled text neither begins nor ends with whitespace.  The old
    custom kinds are lost, and the empty list resets the kinds to the base
    ones. *)
Theorem custom_entity_kinds_round_trip :
  forall (isspace : ascii -> bool) (st : kinds_state)
         (kinds : list (string * string)),
    let marshalled :=
      String.concat ","
        (map (fun k => (fst k ++ ":" ++ snd k)%string) kinds) in
    let clean :=
      forall k, In k kinds -> no_char "000" (fst k) /\ no_char "000" (snd k) in
    (~ clean -> set_custom_entity_kinds isspace st kinds
                = (st, Raise ValueError))
    /\ (clean ->
        (forall k, In k kinds ->
                   no_char "," (fst k) /\ no_char ":" (fst k)
                   /\ no_char "," (snd k) /\ no_char ":" (snd k)) ->
        strip isspace marshalled = marshalled ->
        set_custom_entity_kinds isspace st kinds
        = ({| environ_kinds := Some marshalled;
              ENTITY_KINDS :=
                BASE_ENTITY_KINDS ++ map (fun k => [fst k; snd k]) kinds |},
           Ok tt)).
Proof.
  intros isspace st kinds marshalled clean.
  assert (Hnull : existsb (Ascii.eqb "000") (list_ascii_of_string marshalled)
                  = false <-> clean).
  { rewrite existsb_char. unfold marshalled.
    rewrite no_char_concat by discriminate.
    rewrite Forall_forall. unfold clean. split.
    - intros H k Hk.
      assert (Hin : In (fst k ++ ":" ++ snd k)%string
                      (map (fun k => (fst k ++ ":" ++ snd k)%string) kinds))
        by (apply in_map_iff; exists k; auto).
      apply H in Hin. apply no_char_append in Hin.
      destruct Hin as [H1 H2].
      change (":" ++ snd k)%string with (String ":" (snd k)) in H2.
      apply no_char_cons in H2. tauto.
    - intros H p Hp. apply in_map_iff in Hp. destruct Hp as [k [<- Hk]].
      destruct (H k Hk) as [H1 H2]. apply no_char_append.
      split; [exact H1|].
      change (":" ++ snd k)%string with (String ":" (snd k)).
      apply no_char_cons. split; [discriminate | exact H2]. }
  split.
  - intros Hdirty. unfold set_custom_entity_kinds, environ_set.
    fold marshalled.
    destruct (existsb _ (list_ascii_of_string marshalled)); [reflexivity|].
    exfalso. apply Hdirty. apply Hnull. reflexivity.
  - intros Hclean Hchars Hstrip.
    unfold set_custom_entity_kinds, environ_set. fold marshalled.
    rewrite (proj2 Hnull Hclean).
    unfold _merge_base_and_custom_kinds, _get_custom_entity_kinds.
    cbn [environ_kinds ENTITY_KINDS app]. rewrite Hstrip.
    f_equal. f_equal. f_equal.
    destruct kinds as [|k kinds]; [reflexivity|].
    replace (String.eqb marshalled "") with false.
    2:{ symmetry. apply String.eqb_neq. unfold marshalled.
        cbn [map]. apply concat_empty.
        destruct (fst k); simpl; discriminate. }
    unfold marshalled. rewrite split_on_concat.
    + rewrite map_map. apply map_ext_in. intros k' Hk'.
      destruct (Hchars k' Hk') as [_ [H1 [_ H2]]].
      change (fst k' ++ ":" ++ snd k')%string
        with (fst k' ++ String ":" (snd k'))%string.
      rewrite split_on_first by assumption.
      rewrite split_on_whole by assumption. reflexivity.
    + discriminate.
    + apply Forall_forall. intros p Hp. apply in_map_iff in Hp.
      destruct Hp as [k' [<- Hk']].
      destruct (Hchars k' Hk') as [H1 [_ [H2 _]]].
      apply no_char_append. split; [assumption|].
      change (":" ++ snd k')%string with (String ":" (snd k')).
      apply no_char_cons. split; [discriminate | assumption].
Qed.

(** X24 at one custom kind, set over an older one; at the empty list; and
    at a label with a null character in it. *)
Lemma custom_entity_kinds_round_trip_witness :
  let isspace := fun c : ascii => Ascii.eqb c " " in
  let st :=
    {| environ_kinds := Some "drug:Drug"%string;
       ENTITY_KINDS := BASE_ENTITY_KINDS ++ [["drug"; "Drug"]%string] |} in
  set_custom_entity_kinds isspace st [("product", "Product")%string]
  = ({| environ_kinds := Some "product:Product"%string;
        ENTITY_KINDS := BASE_ENTITY_KINDS ++ [["product"; "Product"]%string] |},
     Ok tt)
  /\ set_custom_entity_kinds isspace st []
     = ({| environ_kinds := Some ""%string;
           ENTITY_KINDS := BASE_ENTITY_KINDS |}, Ok tt)
  /\ set_custom_entity_kinds isspace st
       [("product", String "000" "Product")%string]
     = (st, Raise ValueError).
Proof.
  intros isspace st. split; [|split].
  - apply (proj2 (custom_entity_kinds_round_trip isspace st
                    [("product", "Product")%string])).
    + intros k [<-|[]]. unfold no_char. simpl.
      split; intros H;
        repeat (destruct H as [H|H]; [discriminate|]); exact H.
    + intros k [<-|[]]. unfold no_char. simpl.
      repeat split; intros H;
        repeat (destruct H as [H|H]; [discriminate|]); exact H.
    + reflexivity.
  - apply (proj2 (custom_entity_kinds_round_trip isspace st []));
      [intros k [] | intros k [] | reflexivity].
  - apply (proj1 (custom_entity_kinds_round_trip isspace st
                    [("product", String "000" "Product")%string])).
    intros H. destruct (H _ (or_introl eq_refl)) as [_ Hl].
    apply Hl. simpl. auto.
Defined.

(** ** The questions after [start()] *)

Lemma start_evidences_in_store (self : BootstrappedIEPipeline)
    (e : Evidence) (v : score) :
  In (e, v) (start_evidences self) ->
  v = Some (1 # 2)%Q
  /\ exists s i j,
       In s (db_con self) /\ segment e = Some s
       /\ o1 e = Some i /\ o2 e = Some j.
Proof.
  unfold start_evidences. intros Hin.
  apply (dict_update_In Evidence_eqb Evidence_eqb_eq) in Hin.
  destruct Hin as [[]|Hin].
  apply in_flat_map in Hin. destruct Hin as [k [_ Hin]].
  apply in_flat_map in Hin. destruct Hin as [s [Hs Hin]].
  apply in_map_iff in Hin. destruct Hin as [[i j] [[= <- <-] _]].
  split; [reflexivity|]. exists s, i, j.
  unfold segments_with_both_entities in Hs. apply filter_In in Hs.
  simpl. tauto.
Qed.

Section QuestionsAfterStart.

Variable Entity_objects : list Entity.
Variable Classifier : Type.
Variable FactExtractorFactory : Knowledge -> Classifier.
Variable predict_proba_true : Classifier -> list Evidence -> list Q.

(** X25.  After [start()] on a pipeline whose cycle stands at its first
    step and whose store holds saved segments only (each has an
    identifier), [questions_available()] returns without an exception:
    it answers the questions in some order, each once and each with the
    score 0.5.  The ties between them are broken by comparing the
    evidence, which is what needs the identifiers. *)
Theorem questions_available_after_start :
  forall self : BootstrappedIEPipeline,
    step_iterator self = 0%nat ->
    (forall s, In s (db_con self) -> seg_id s <> None) ->
    let started :=
      fst (start Entity_objects Classifier FactExtractorFactory
             predict_proba_true self) in
    exists l,
      questions_available started = Ok l
      /\ Permutation l
           (filter
              (fun es => negb (dict_mem Evidence_eqb (answers self) (fst es)))
              (start_evidences self))
      /\ (forall es, In es l -> snd es = Some (1 # 2)%Q).
Proof.
  intros self H0 Hsaved started. unfold started.
  rewrite (start_from_first_step Entity_objects Classifier
             FactExtractorFactory predict_proba_true self H0).
  cbn [fst]. unfold questions_available.
  cbn [questions set_step_iterator set_questions].
  set (qs := filter _ (start_evidences self)).
  assert (Hnd : NoDup (dict_keys qs)).
  { unfold qs, dict_keys. apply NoDup_map_filter.
    apply start_evidences_NoDup. }
  destruct (by_certainty_total saved qs Evidence_lt_saved) as [l Hl].
  { intros e He. unfold dict_keys in He. apply in_map_iff in He.
    destruct He as [[e' v] [<- Hin]]. unfold qs in Hin.
    apply filter_In in Hin. destruct Hin as [Hin _].
    apply start_evidences_in_store in Hin.
    destruct Hin as [_ [s [i [j [Hs [Hseg [Hi Hj]]]]]]].
    exists s, i, j. simpl. auto. }
  exists l. split; [exact Hl|].
  destruct (by_certainty_sorted qs l Hnd Hl) as [Hperm _].
  split; [exact Hperm|].
  intros [e v] Hin. apply (Permutation_in _ Hperm) in Hin.
  unfold qs in Hin. apply filter_In in Hin. destruct Hin as [Hin _].
  apply start_evidences_in_store in Hin. simpl. tauto.
Qed.

End QuestionsAfterStart.

(** X25 at the pipeline of the example. *)
Lemma questions_available_after_start_witness :
  step_iterator seeded_pipeline = 0%nat
  /\ (forall s, In s (db_con seeded_pipeline) -> seg_id s <> None)
  /\ exists l,
       questions_available
         (fst (start [PersonX; OrgY; OrgZ] unit example_factory
                 example_predict seeded_pipeline)) = Ok l
       /\ (forall es, In es l -> snd es = Some (1 # 2)%Q).
Proof.
  assert (Hsaved : forall s, In s (db_con seeded_pipeline) -> seg_id s <> None)
    by (intros s [<-|[]]; discriminate).
  split; [reflexivity|]. split; [exact Hsaved|].
  destruct (questions_available_after_start [PersonX; OrgY; OrgZ] unit
              example_factory example_predict seeded_pipeline eq_refl Hsaved)
    as [l [Hl [_ Hhalf]]].
  exists l. split; [exact Hl | exact Hhalf].
Defined.

(** ** Answers of one kind only *)

Lemma merge_facts_half (t : Q) (items : list (Evidence * score)) :
  forall k,
    ((1 # 2) <= t)%Q ->
    (forall e s, In (e, s) items -> s = Some (1 # 2)%Q) ->
    merge_facts t k items = (k, Ok tt).
Proof.
  induction items as [|[e s] items IH]; intros k Ht Hall; [reflexivity|].
  rewrite (Hall e s (or_introl eq_refl)). cbn [merge_facts score_gt].
  replace (Qltb t (1 # 2)) with false.
  - apply IH; [exact Ht|]. intros e' s' H. apply (Hall e' s'). right. exact H.
  - symmetry. unfold Qltb. apply negb_false_iff. apply Qle_bool_iff.
    exact Ht.
Qed.

Lemma has_label_other (b : bool) (k : Knowledge) :
  (forall e s, In (e, s) k -> s = Some (of_bool b)) ->
  has_label (negb b) k = false.
Proof.
  intros Hall. unfold has_label.
  destruct (existsb _ (map snd k)) eqn:E; [|reflexivity].
  apply existsb_exists in E. destruct E as [s [Hin Heq]].
  apply in_map_iff in Hin. destruct Hin as [[e s'] [<- Hin]].
  rewrite (Hall e s' Hin) in Heq. destruct b; discriminate.
Qed.

Section OneSided.

Variable Entity_objects : list Entity.
Variable Classifier : Type.
Variable FactExtractorFactory : Knowledge -> Classifier.
Variable predict_proba_true : Classifier -> list Evidence -> list Q.

Lemma train_classifiers_one_sided (b : bool)
    (groups : list (string * Knowledge)) :
  forall acc,
    (forall rel k e s, In (rel, k) groups -> In (e, s) k ->
                       s = Some (of_bool b)) ->
    train_classifiers Classifier FactExtractorFactory groups acc = Ok acc.
Proof.
  induction groups as [|[rel k] groups IH]; intros acc Hall; [reflexivity|].
  assert (Hk : forall e s, In (e, s) k -> s = Some (of_bool b))
    by (intros e s H; eapply Hall; [left; reflexivity | exact H]).
  assert (Hlab : forall e s, In (e, s) k -> is_label s)
    by (intros e s H; exists b; eapply Hk; exact H).
  destruct (set_of_values_labels k Hlab) as [Hmem _].
  cbn [train_classifiers].
  change (Some 1%Q) with (Some (of_bool true)).
  change (Some 0%Q) with (Some (of_bool false)).
  rewrite !Hmem.
  pose proof (has_label_other b k Hk) as Hother.
  replace (negb (has_label true k) || negb (has_label false k)) with true.
  - apply IH. intros rel' k' e s H. eapply Hall. right. exact H.
  - destruct b; simpl in Hother; rewrite Hother;
      [rewrite orb_true_r | ]; reflexivity.
Qed.

Lemma score_relations_half (self : BootstrappedIEPipeline)
    (rels : list (string * (string * string))) :
  forall acc k,
    (forall e s, In (e, s) acc -> s = Some (1 # 2)%Q) ->
    score_relations Entity_objects Classifier predict_proba_true self
      (DataExtractors Classifier []) rels acc = Ok k ->
    forall e s, In (e, s) k -> s = Some (1 # 2)%Q.
Proof.
  induction rels as [|[r [lkind rkind]] rels IH]; simpl; intros acc k Hacc H.
  - injection H as <-. exact Hacc.
  - destruct (relation_evidence _ _ _ _ _) as [es| |]; simpl in H;
      try discriminate.
    refine (IH _ _ _ H).
    intros e s Hin.
    apply (dict_update_In Evidence_eqb Evidence_eqb_eq) in Hin.
    destruct Hin as [Hin|Hin]; [eapply Hacc; exact Hin|].
    apply in_combine_r in Hin. rewrite map_map in Hin.
    apply in_map_iff in Hin. destruct Hin as [x [<- _]]. reflexivity.
Qed.

(** X26.  At the pause, with questions that all have the score 0.5 (as
    after [start()]), thresholds of at least 0.5 and answers that are all
    [True] or all [False] (or no answer at all), [force_process()] leaves
    [known_facts()] as it is, whether it returns or raises: no classifier
    is trained for a relation without an answer of each kind, every
    candidate fact is scored 0.5, and none passes [fact_threshold]. *)
Theorem one_sided_answers_teach_nothing :
  forall (self : BootstrappedIEPipeline) (b : bool),
    step_iterator self = 3%nat ->
    NoDup (dict_keys (answers self)) ->
    NoDup (dict_keys (questions self)) ->
    (forall e s, In (e, s) (questions self) -> s = Some (1 # 2)%Q) ->
    (forall e a, In (e, a) (answers self) -> a = of_bool b) ->
    ((1 # 2) <= evidence_threshold self)%Q ->
    ((1 # 2) <= fact_threshold self)%Q ->
    known_facts
      (fst (force_process Entity_objects Classifier FactExtractorFactory
              predict_proba_true self))
    = known_facts self.
Proof.
  intros self b H3 Hans Hqs Hhalf Hside Het Hft.
  unfold known_facts, force_process.
  rewrite do_iteration_step. rewrite H3. cbv zeta.
  cbn [steps Nat.modulo Nat.divmod fst snd Nat.sub].
  set (self4 := set_step_iterator self 4).
  rewrite (filter_evidence_result Classifier self4 (DataNone Classifier));
    [|exact Hans | exact Hqs
     |intros e s H; rewrite (Hhalf e s H); discriminate].
  assert (Hweak : filter (strong self4) (questions self4) = []).
  { apply filter_none. apply Forall_forall. intros [e s] Hin.
    unfold strong. cbn [fst snd]. rewrite (Hhalf e s Hin).
    apply andb_false_iff. left.
    change (evidence_threshold self4) with (evidence_threshold self).
    unfold Qltb. apply negb_false_iff. apply Qle_bool_iff.
    apply Qle_trans with (1 # 2)%Q; [vm_compute; discriminate | exact Het]. }
  rewrite Hweak. cbn [map]. rewrite app_nil_r.
  set (k1 := map (fun ea : Evidence * Q => (fst ea, Some (snd ea)))
               (answers self4)).
  assert (Hk1 : forall e s, In (e, s) k1 -> s = Some (of_bool b)).
  { intros e s Hin. unfold k1 in Hin. apply in_map_iff in Hin.
    destruct Hin as [[e' a] [[= <- <-] Hin]]. simpl.
    rewrite (Hside e' a Hin). reflexivity. }
  assert (Hnd1 : NoDup (dict_keys k1)).
  { unfold k1, dict_keys. rewrite map_map. exact Hans. }
  rewrite do_iteration_step.
  cbn [steps step_iterator set_step_iterator self4 Nat.modulo Nat.divmod
       fst snd Nat.sub learn_fact_extractors].
  rewrite (train_classifiers_one_sided b).
  2:{ intros rel g e s Hg Hes.
      apply (In_dict_get_string _ _ _ (per_relation_NoDup _)) in Hg.
      unfold per_relation in Hg.
      rewrite (per_relation_fold k1 [] [] Hnd1 (fun _ => eq_refl)) in Hg.
      cbn [app] in Hg.
      match type of Hg with
      | match ?f with _ => _ end = _ => destruct f as [|p l] eqn:Hf
      end; [discriminate|].
      injection Hg as <-. rewrite <- Hf in Hes. apply filter_In in Hes.
      apply (Hk1 e s). apply Hes. }
  cbn [bind].
  rewrite do_iteration_step.
  cbn [steps step_iterator set_step_iterator Nat.modulo Nat.divmod
       fst snd Nat.sub extract_facts].
  destruct (score_relations _ _ _ _ _ _ _) as [k2| |] eqn:Hs;
    cbn [bind]; try reflexivity.
  rewrite do_iteration_step.
  cbn [steps step_iterator set_step_iterator Nat.modulo Nat.divmod
       fst snd Nat.sub filter_facts fact_threshold knowledge].
  rewrite merge_facts_half;
    [|exact Hft
     |apply (score_relations_half _ _ _ _ (fun e s (H : In (e, s) []) =>
                                            match H with end) Hs)].
  cbn [bind].
  rewrite do_iteration_step.
  cbn [steps step_iterator set_step_iterator set_knowledge Nat.modulo
       Nat.divmod fst snd Nat.sub generalize_knowledge].
  rewrite do_iteration_step.
  cbn [steps step_iterator set_step_iterator set_knowledge Nat.modulo
       Nat.divmod fst snd Nat.sub generate_questions].
  rewrite do_iteration_step.
  cbn [steps step_iterator set_step_iterator set_questions set_knowledge
       Nat.modulo Nat.divmod fst snd Nat.sub knowledge].
  reflexivity.
Qed.

End OneSided.

(** X26 at the pipeline of the example, after [start()] and the answer
    [True] to its question. *)
Lemma one_sided_answers_teach_nothing_witness :
  let self :=
    add_answer
      (fst (start [PersonX; OrgY; OrgZ] unit example_factory example_predict
              seeded_pipeline))
      evidence_XY true in
  step_iterator self = 3%nat
  /\ known_facts
       (fst (force_process [PersonX; OrgY; OrgZ] unit example_factory
               example_predict self))
     = known_facts self.
Proof.
  intros self. split; [reflexivity|].
  apply (one_sided_answers_teach_nothing [PersonX; OrgY; OrgZ] unit
           example_factory example_predict self true).
  - reflexivity.
  - repeat constructor; intros [].
  - repeat constructor; intros [].
  - intros e s [[= <- <-]|[]]. reflexivity.
  - intros e a [[= <- <-]|[]]. reflexivity.
  - vm_compute. discriminate.
  - vm_compute. discriminate.
Defined.

(** ** The candidate facts *)

Lemma for_each_In {A B : Type} (f : A -> result B) (l : list A) :
  forall ys,
    for_each f l = Ok ys ->
    forall x, In x l -> exists y, In y ys /\ f x = Ok y.
Proof.
  induction l as [|x0 l IH]; simpl; intros ys H x Hx; [contradiction|].
  destruct (f x0) as [y0| |] eqn:Hy; simpl in H; try discriminate.
  destruct (for_each f l) as [ys'| |]; simpl in H; try discriminate.
  injection H as <-. destruct Hx as [->|Hx].
  - exists y0. split; [left; reflexivity | exact Hy].
  - destruct (IH ys' eq_refl x Hx) as [y [Hin Hfx]].
    exists y. split; [right; exact Hin | exact Hfx].
Qed.

Lemma keys_of_combine {A B : Type} (l : list A) :
  forall l' : list B,
    List.length l' = List.length l -> map fst (combine l l') = l.
Proof.
  induction l as [|x l IH]; intros [|y l'] Hlen; try discriminate;
    [reflexivity|].
  simpl. rewrite IH by (simpl in Hlen; lia). reflexivity.
Qed.

Section ExtractFacts.

Variable Entity_objects : list Entity.
Variable Classifier : Type.
Variable predict_proba_true : Classifier -> list Evidence -> list Q.
Hypothesis one_prediction_each :
  forall c es, List.length (predict_proba_true c es) = List.length es.

Lemma candidate_evidence_total (r lkind rkind : string) (s : TextSegment)
    (i j : Z) :
  (forall x, In x (seg_entities s) ->
             exists e, get_entity Entity_objects (eis_kind x) (eis_key x)
                       = Ok e) ->
  In (i, j) (kind_occurrence_pairs s lkind rkind) ->
  exists e,
    candidate_evidence Entity_objects r s (i, j) = Ok e
    /\ segment e = Some s /\ o1 e = Some i /\ o2 e = Some j
    /\ relation (fact e) = r.
Proof.
  intros Hstore Hpair. unfold kind_occurrence_pairs in Hpair.
  apply product_off_diagonal_iff in Hpair. destruct Hpair as [_ [Hi Hj]].
  apply indices_where_iff in Hi. destruct Hi as [Hi0 [x1 [Hx1 _]]].
  apply indices_where_iff in Hj. destruct Hj as [Hj0 [x2 [Hx2 _]]].
  assert (Hget : forall k x, 0 <= k ->
             nth_error (seg_entities s) (Z.to_nat k) = Some x ->
             getitem (seg_entities s) k = Ok x).
  { intros k x Hk Hx.
    destruct (getitem_nth (seg_entities s) k) as [y [Hy Hn]].
    - apply nth_error_lt in Hx. unfold len. lia.
    - congruence. }
  unfold candidate_evidence.
  rewrite (Hget i x1 Hi0 Hx1). cbn [bind].
  destruct (Hstore x1 (nth_error_In _ _ Hx1)) as [a1 ->]. cbn [bind].
  rewrite (Hget j x2 Hj0 Hx2). cbn [bind].
  destruct (Hstore x2 (nth_error_In _ _ Hx2)) as [a2 ->]. cbn [bind].
  eexists. split; [reflexivity|]. repeat split.
Qed.

Lemma relation_evidence_total (r lkind rkind : string)
    (segments : list TextSegment) :
  (forall s x, In s segments -> In x (seg_entities s) ->
               exists e, get_entity Entity_objects (eis_kind x) (eis_key x)
                         = Ok e) ->
  exists es,
    relation_evidence Entity_objects r lkind rkind segments = Ok es
    /\ forall s i j,
         In s segments ->
         In (i, j) (kind_occurrence_pairs s lkind rkind) ->
         exists e,
           In e es /\ segment e = Some s /\ o1 e = Some i /\ o2 e = Some j
           /\ relation (fact e) = r.
Proof.
  induction segments as [|s segments IH]; intros Hstore.
  - exists []. split; [reflexivity|]. intros s i j [].
  - destruct IH as [rest [Hrest Hall]].
    { intros s' x Hs'. apply Hstore. right. exact Hs'. }
    assert (Hs : forall x, In x (seg_entities s) ->
                 exists e, get_entity Entity_objects (eis_kind x) (eis_key x)
                           = Ok e)
      by (intros x; apply Hstore; left; reflexivity).
    destruct (for_each_total (candidate_evidence Entity_objects r s)
                (kind_occurrence_pairs s lkind rkind)) as [es Hes].
    { intros [i j] Hij.
      destruct (candidate_evidence_total r lkind rkind s i j Hs Hij)
        as [e [He _]]. eauto. }
    exists (es ++ rest). cbn [relation_evidence]. rewrite Hes, Hrest.
    split; [reflexivity|].
    intros s' i j [<-|Hs'] Hij.
    + destruct (for_each_In _ _ _ Hes (i, j) Hij) as [e [Hin He]].
      destruct (candidate_evidence_total r lkind rkind s i j Hs Hij)
        as [e' [He' Hprops]].
      rewrite He in He'. injection He' as <-.
      exists e. split; [apply in_or_app; left; exact Hin | exact Hprops].
    + destruct (Hall s' i j Hs' Hij) as [e [Hin Hprops]].
      exists e. split; [apply in_or_app; right; exact Hin | exact Hprops].
Qed.

Lemma score_relations_complete (self : BootstrappedIEPipeline)
    (x : data Classifier) (rels : list (string * (string * string))) :
  x <> DataNone Classifier ->
  (forall s o, In s (db_con self) -> In o (seg_entities s) ->
               exists e, get_entity Entity_objects (eis_kind o) (eis_key o)
                         = Ok e) ->
  forall acc,
  exists k,
    score_relations Entity_objects Classifier predict_proba_true self x
      rels acc = Ok k
    /\ (forall e, In e (dict_keys acc) -> In e (dict_keys k))
    /\ forall r lkind rkind s i j,
         In (r, (lkind, rkind)) rels ->
         In s (db_con self) ->
         In (i, j) (kind_occurrence_pairs s lkind rkind) ->
         exists e,
           In e (dict_keys k) /\ segment e = Some s /\ o1 e = Some i
           /\ o2 e = Some j /\ relation (fact e) = r.
Proof.
  intros Hx Hstore.
  induction rels as [|[r [lkind rkind]] rels IH]; intros acc.
  - exists acc. split; [reflexivity|]. split; [auto|].
    intros r lkind rkind s i j [].
  - cbn [score_relations].
    destruct (relation_evidence_total r lkind rkind
                (segments_with_both_kinds (db_con self) lkind rkind))
      as [es [Hes Hall]].
    { intros s o Hs. apply Hstore.
      apply segments_with_both_kinds_iff in Hs. tauto. }
    rewrite Hes. cbn [bind].
    assert (Hc : exists c, find_extractor Classifier x r = Ok c).
    { destruct x; [congruence | |]; simpl; eauto. }
    destruct Hc as [c ->]. cbn [bind].
    set (ps := match c with
               | Some c0 => predict_proba_true c0 es
               | None => map (fun _ => (1 # 2)%Q) es
               end).
    assert (Hlen : List.length (map (fun p : Q => Some p) ps)
                   = List.length es).
    { rewrite length_map. unfold ps. destruct c as [c0|].
      - apply one_prediction_each.
      - apply length_map. }
    destruct (IH (dict_update Evidence_eqb acc
                    (combine es (map (fun p => Some p) ps))))
      as [k [Hk [Hkeep Hrest]]].
    exists k. split; [exact Hk|]. split.
    + intros e He. apply Hkeep.
      apply (dict_keys_update Evidence_eqb Evidence_eqb_eq). left. exact He.
    + intros r' lkind' rkind' s i j [[= <- <- <-]|Hin] Hs Hij.
      * destruct (Hall s i j) as [e [He Hprops]]; [|exact Hij|].
        { apply segments_with_both_kinds_iff. split; [exact Hs|].
          intros Hnil. rewrite Hnil in Hij. contradiction. }
        exists e. split; [|exact Hprops]. apply Hkeep.
        apply (dict_keys_update Evidence_eqb Evidence_eqb_eq). right.
        rewrite keys_of_combine by exact Hlen. exact He.
      * apply (Hrest r' lkind' rkind' s i j Hin Hs Hij).
Qed.

(** X27.  When every occurrence of every stored segment has its entity in
    the store, the classifiers answer one probability for each evidence,
    and what is handed in is not [None], [extract_facts] returns without
    an exception and leaves the pipeline as it is.  Its result has an
    evidence for every relation of the pipeline, every stored segment and
    every pair of [kind_occurrence_pairs] of that segment for the two
    kinds of the relation, and every score in it is a number. *)
Theorem extract_facts_covers_every_pair :
  forall (self : BootstrappedIEPipeline) (x : data Classifier),
    x <> DataNone Classifier ->
    (forall s o, In s (db_con self) -> In o (seg_entities s) ->
                 exists e, get_entity Entity_objects (eis_kind o) (eis_key o)
                           = Ok e) ->
    exists k,
      extract_facts Entity_objects Classifier predict_proba_true self x
      = (self, Ok (DataKnowledge Classifier k))
      /\ (forall r lkind rkind s i j,
             In (r, (lkind, rkind)) (relations self) ->
             In s (db_con self) ->
             In (i, j) (kind_occurrence_pairs s lkind rkind) ->
             exists e,
               In e (dict_keys k) /\ segment e = Some s /\ o1 e = Some i
               /\ o2 e = Some j /\ relation (fact e) = r)
      /\ (forall e s, In (e, s) k -> s <> None).
Proof.
  intros self x Hx Hstore.
  destruct (score_relations_complete self x (relations self) Hx Hstore [])
    as [k [Hk [_ Hall]]].
  exists k. unfold extract_facts. rewrite Hk. cbn [bind].
  split; [reflexivity|]. split; [exact Hall|].
  refine (proj2 (score_relations_scored Classifier Entity_objects
                   predict_proba_true self x (relations self) [] k _ _ Hk)).
  - constructor.
  - intros e s [].
Qed.

End ExtractFacts.

(** X27 at the pipeline of the example, with no classifier. *)
Lemma extract_facts_covers_every_pair_witness :
  (forall c es, List.length (example_predict c es) = List.length es)
  /\ exists k,
       extract_facts [PersonX; OrgY; OrgZ] unit example_predict
         seeded_pipeline (DataExtractors unit [])
       = (seeded_pipeline, Ok (DataKnowledge unit k))
       /\ In evidence_XY (dict_keys k)
       /\ In evidence_XZ (dict_keys k).
Proof.
  assert (Hlen : forall c es,
             List.length (example_predict c es) = List.length es)
    by (intros c es; apply length_map).
  split; [exact Hlen|].
  destruct (extract_facts_covers_every_pair [PersonX; OrgY; OrgZ] unit
              example_predict Hlen seeded_pipeline (DataExtractors unit []))
    as [k [Hk _]].
  - discriminate.
  - intros s o [<-|[]] [<-|[<-|[<-|[]]]]; eexists; reflexivity.
  - exists k. split; [exact Hk|].
    vm_compute in Hk. injection Hk as <-.
    split; [left; reflexivity | right; left; reflexivity].
Defined.

(** ** A completed run of the cycle *)

Section CompletedCycle.

Variable Entity_objects : list Entity.
Variable Classifier : Type.
Variable FactExtractorFactory : Knowledge -> Classifier.
Variable predict_proba_true : Classifier -> list Evidence -> list Q.

(** X28.  When [force_process()] is called at the pause and returns, the
    cycle is at the pause again, and every question it has stored is an
    evidence without an answer, located in a segment, whose fact is the
    fact of some evidence of [known_facts()], the facts accepted in this
    very run included: the pipeline asks about known facts only. *)
Theorem force_process_asks_about_known_facts :
  forall self self' : BootstrappedIEPipeline,
    step_iterator self = 3%nat ->
    force_process Entity_objects Classifier FactExtractorFactory
      predict_proba_true self = (self', Ok tt) ->
    step_iterator self' = 3%nat
    /\ forall e,
         In e (dict_keys (questions self')) ->
         (exists e', In e' (dict_keys (known_facts self'))
                     /\ fact e' = fact e)
         /\ ~ In e (dict_keys (answers self'))
         /\ located e.
Proof.
  intros self self' H3 Hrun. unfold force_process in Hrun.
  rewrite do_iteration_step in Hrun. rewrite H3 in Hrun. cbv zeta in Hrun.
  cbn [steps Nat.modulo Nat.divmod fst snd Nat.sub filter_evidence] in Hrun.
  destruct (strong_predictions _ _) as [upd| |]; cbn [bind] in Hrun;
    try discriminate.
  rewrite do_iteration_step in Hrun.
  cbn [steps step_iterator set_step_iterator Nat.modulo Nat.divmod
       fst snd Nat.sub learn_fact_extractors] in Hrun.
  destruct (train_classifiers _ _ _ _) as [c| |]; cbn [bind] in Hrun;
    try discriminate.
  rewrite do_iteration_step in Hrun.
  cbn [steps step_iterator set_step_iterator Nat.modulo Nat.divmod
       fst snd Nat.sub extract_facts] in Hrun.
  destruct (score_relations _ _ _ _ _ _ _) as [k2| |] eqn:Hs;
    cbn [bind] in Hrun; try discriminate.
  rewrite do_iteration_step in Hrun.
  cbn [steps step_iterator set_step_iterator Nat.modulo Nat.divmod
       fst snd Nat.sub filter_facts fact_threshold knowledge] in Hrun.
  destruct (merge_facts _ _ k2) as [k' r]; cbn [bind] in Hrun.
  destruct r as [[]| |]; cbn [bind] in Hrun; try discriminate.
  rewrite do_iteration_step in Hrun.
  cbn [steps step_iterator set_step_iterator set_knowledge Nat.modulo
       Nat.divmod fst snd Nat.sub generalize_knowledge knowledge] in Hrun.
  rewrite do_iteration_step in Hrun.
  cbn [steps step_iterator set_step_iterator set_knowledge Nat.modulo
       Nat.divmod fst snd Nat.sub generate_questions answers] in Hrun.
  rewrite do_iteration_step in Hrun.
  cbn [steps step_iterator set_step_iterator set_questions set_knowledge
       Nat.modulo Nat.divmod fst snd Nat.sub] in Hrun.
  injection Hrun as <-.
  split; [reflexivity|].
  unfold known_facts.
  cbn [questions knowledge answers set_step_iterator set_questions
       set_knowledge].
  intros e He.
  apply (proj1 (dict_keys_of Evidence_eqb Evidence_eqb_eq _ _)) in He.
  apply in_map_iff in He. destruct He as [[e0 v] [<- Hin]]. cbn [fst].
  apply filter_In in Hin. destruct Hin as [Hin Hun]. cbn [fst] in Hun.
  apply (dict_update_In Evidence_eqb Evidence_eqb_eq) in Hin.
  destruct Hin as [[]|Hin].
  apply filter_In in Hin. destruct Hin as [Hin Hknown]. cbn [fst] in Hknown.
  split; [|split].
  - apply existsb_exists in Hknown. destruct Hknown as [f [Hf Heq]].
    apply in_map_iff in Hf. destruct Hf as [e' [<- He']].
    apply Fact_eqb_eq in Heq. exists e'. split; [exact He' | auto].
  - intros Hans. apply dict_mem_keys in Hans. rewrite Hans in Hun.
    discriminate.
  - refine (score_relations_keys Entity_objects Classifier
              predict_proba_true located _ _ _ _ _ _ _ Hs e0 _).
    + intros r0 s o e1. apply candidate_evidence_located.
    + intros e1 [].
    + unfold dict_keys. apply in_map_iff. exists (e0, v). auto.
Qed.

End CompletedCycle.

(** X28 at the pipeline of the example after [start()]. *)
Lemma force_process_asks_about_known_facts_witness :
  let self :=
    fst (start [PersonX; OrgY; OrgZ] unit example_factory example_predict
           seeded_pipeline) in
  step_iterator self = 3%nat
  /\ exists self',
       force_process [PersonX; OrgY; OrgZ] unit example_factory
         example_predict self = (self', Ok tt)
       /\ step_iterator self' = 3%nat
       /\ forall e,
            In e (dict_keys (questions self')) ->
            (exists e', In e' (dict_keys (known_facts self'))
                        /\ fact e' = fact e)
            /\ ~ In e (dict_keys (answers self'))
            /\ located e.
Proof.
  intros self. split; [reflexivity|].
  destruct (force_process [PersonX; OrgY; OrgZ] unit example_factory
              example_predict self) as [self' r] eqn:Hrun.
  assert (Hr : r = Ok tt).
  { change r with (snd (self', r)). rewrite <- Hrun. vm_compute.
    reflexivity. }
  subst r. exists self'. split; [reflexivity|].
  exact (force_process_asks_about_known_facts [PersonX; OrgY; OrgZ] unit
           example_factory example_predict self self' eq_refl Hrun).
Defined.

(** ** The confidence in an evidence *)

(** X29.  In every pipeline that construction and the user API produce,
    [_confidence(evidence)] is a number for every evidence, never [None]:
    the score of the evidence when it is known, which is 1 for an evidence
    without a segment, and 0.5 when it is not known. *)
Theorem confidence_is_a_number :
  forall (Entity_objects : list Entity) (Classifier : Type)
         (FactExtractorFactory : Knowledge -> Classifier)
         (predict_proba_true : Classifier -> list Evidence -> list Q)
         (p : BootstrappedIEPipeline),
    reachable Entity_objects Classifier FactExtractorFactory
      predict_proba_true p ->
    forall e,
      (exists q, _confidence p e = Some q)
      /\ (~ In e (dict_keys (known_facts p)) ->
          _confidence p e = Some (1 # 2)%Q)
      /\ (In e (dict_keys (known_facts p)) -> unlocated e ->
          _confidence p e = Some 1%Q).
Proof.
  intros Entity_objects Classifier FactExtractorFactory predict_proba_true
    p Hp e.
  pose proof (reachable_known_scored Entity_objects Classifier
                FactExtractorFactory predict_proba_true p Hp) as Hk.
  unfold known_facts in *. unfold _confidence.
  destruct (dict_mem Evidence_eqb (knowledge p) e) eqn:Hmem.
  - apply dict_mem_keys in Hmem.
    apply (dict_get_In_keys Evidence_eqb Evidence_eqb_eq) in Hmem as Hget.
    destruct Hget as [s Hs]. rewrite Hs.
    apply (dict_get_In Evidence_eqb Evidence_eqb_eq) in Hs.
    destruct (Hk e s Hs) as [[Hun ->]|[Hloc Hnum]].
    + split; [eauto|]. split; [contradiction | reflexivity].
    + split; [destruct s; [eauto | congruence]|].
      split; [contradiction|]. intros _ [Hseg _].
      destruct Hloc as [x [i [j [Hx _]]]]. congruence.
  - split; [eauto|]. split; [reflexivity|].
    intros Hin. apply dict_mem_keys in Hin. congruence.
Qed.

(** X29 at the pipeline of the example after [start()]. *)
Lemma confidence_is_a_number_witness :
  let p :=
    fst (start [PersonX; OrgY; OrgZ] unit example_factory example_predict
           seeded_pipeline) in
  reachable [PersonX; OrgY; OrgZ] unit example_factory example_predict p
  /\ _confidence p (seed_evidence (works_for PersonX OrgY)) = Some 1%Q
  /\ _confidence p evidence_XY = Some (1 # 2)%Q.
Proof.
  intros p.
  assert (Hp : reachable [PersonX; OrgY; OrgZ] unit example_factory
                 example_predict p).
  { apply reachable_start.
    apply (reachable_init _ _ _ _ [example_segment]
             [works_for PersonX OrgY]).
    reflexivity. }
  split; [exact Hp|].
  destruct (confidence_is_a_number [PersonX; OrgY; OrgZ] unit example_factory
              example_predict p Hp
              (seed_evidence (works_for PersonX OrgY))) as [_ [_ Hseed]].
  destruct (confidence_is_a_number [PersonX; OrgY; OrgZ] unit example_factory
              example_predict p Hp evidence_XY) as [_ [Hnew _]].
  split.
  - apply Hseed; [left; reflexivity | repeat split].
  - apply Hnew. intros [H|[]]. discriminate H.
Defined.
